(** * NGG primitive shader (lgc/patch/NggPrimShader.cpp): a shallow embedding

    The primitive shader built by [NggPrimShader] is a program run by every
    lane of every wave of a subgroup.  The embedding follows the generator
    block by block: 32-bit values are [Z] with the wrap-around written out,
    the shared scratch memory (LDS) is a finite map from dword cells to
    values, a barrier-separated phase is a function on that map, and the
    floating-point instructions the cullers emit are operations of a type
    class, so that every statement holds for any arithmetic they denote. *)

From Stdlib Require Import ZArith List Bool Lia QArith Qround.
From stdpp Require Import base decidable countable gmap list.

Local Open Scope Z_scope.

(** ** 32-bit integer instructions *)

Definition wrap32 (z : Z) : Z := z mod 2 ^ 32.

(** Two's complement reading of a 32-bit pattern (signed comparisons and
    [smax]). *)
Definition signed32 (z : Z) : Z :=
  if wrap32 z <? 2 ^ 31 then wrap32 z else wrap32 z - 2 ^ 32.

Definition CreateAdd (a b : Z) : Z := wrap32 (a + b).
Definition CreateSub (a b : Z) : Z := wrap32 (a - b).
Definition CreateMul (a b : Z) : Z := wrap32 (a * b).
Definition CreateShl (a n : Z) : Z := wrap32 (Z.shiftl a n).
Definition CreateLShr (a n : Z) : Z := Z.shiftr (wrap32 a) n.
Definition CreateAnd (a b : Z) : Z := Z.land a b.
Definition CreateOr (a b : Z) : Z := Z.lor a b.
Definition CreateXor (a b : Z) : Z := Z.lxor a b.
Definition CreateNeg (a : Z) : Z := wrap32 (- a).
Definition CreateICmpULT (a b : Z) : bool := wrap32 a <? wrap32 b.
Definition CreateICmpEQ (a b : Z) : bool := wrap32 a =? wrap32 b.
Definition CreateICmpNE (a b : Z) : bool := negb (wrap32 a =? wrap32 b).
Definition CreateICmpSLT (a b : Z) : bool := signed32 a <? signed32 b.
Definition CreateICmpSGT (a b : Z) : bool := signed32 b <? signed32 a.
Definition CreateSelect {A : Type} (c : bool) (a b : A) : A := if c then a else b.
(** [CreateTrunc] of an i32 to i1 keeps bit 0. *)
Definition CreateTruncI1 (a : Z) : bool := Z.testbit a 0.

(** [NggPrimShader::createUBfe]: the bit field [offset, offset + count - 1]
    of a 32-bit value. *)
Definition createUBfe (value offset count : Z) : Z :=
  if count =? 32 then value
  else if offset =? 0 then CreateAnd value (wrap32 (Z.shiftl 1 count) - 1)
  else CreateAnd (CreateLShr value offset) (wrap32 (Z.shiftl 1 count) - 1).

(** ** Constants of headers that are not part of the sources *)

(** Modelled from the spec: [Gfx9::NggMaxThreadsPerSubgroup] (Gfx9Chip.h is
    missing); a subgroup has up to 256 threads. *)
Definition NggMaxThreadsPerSubgroup : Z := 256.

(** Modelled from the spec: [Gfx9::NggMaxWavesPerSubgroup] (Gfx9Chip.h is
    missing); the bounded wave count of a subgroup of 256 threads in waves of
    at least 32 lanes. *)
Definition NggMaxWavesPerSubgroup : Z := 8.

(** Modelled from the spec: [MaxGsStreams] (declared outside the sources);
    the layout comments count 4 GS streams. *)
Definition MaxGsStreams : Z := 4.

(** Modelled from the spec: [MaxTransformFeedbackBuffers] (declared outside
    the sources); the GDS register enumeration is laid out for 4 stream-out
    buffers. *)
Definition MaxTransformFeedbackBuffers : Z := 4.

(** Modelled from the spec: [NullPrim] (NggPrimShader.h is missing); the
    null-primitive flag is bit 31 of the primitive connectivity word. *)
Definition NullPrim : Z := Z.shiftl 1 31.

(** ** Shared-memory region layout planner: [layoutPrimShaderLds] *)

Inductive PrimShaderLdsRegion : Set :=
  | DistributedPrimitiveId
  | VertexPosition
  | VertexCullInfo
  | XfbOutput
  | VertexCounts
  | VertexIndexMap
  | XfbStats
  | EsGsRing
  | PrimitiveData
  | PrimitiveCounts
  | PrimitiveIndexMap
  | GsVsRing.

Definition regionIndex (r : PrimShaderLdsRegion) : nat :=
  match r with
  | DistributedPrimitiveId => 0 | VertexPosition => 1 | VertexCullInfo => 2
  | XfbOutput => 3 | VertexCounts => 4 | VertexIndexMap => 5 | XfbStats => 6
  | EsGsRing => 7 | PrimitiveData => 8 | PrimitiveCounts => 9
  | PrimitiveIndexMap => 10 | GsVsRing => 11
  end%nat.

Definition indexRegion (n : nat) : PrimShaderLdsRegion :=
  match n with
  | 0 => DistributedPrimitiveId | 1 => VertexPosition | 2 => VertexCullInfo
  | 3 => XfbOutput | 4 => VertexCounts | 5 => VertexIndexMap | 6 => XfbStats
  | 7 => EsGsRing | 8 => PrimitiveData | 9 => PrimitiveCounts
  | 10 => PrimitiveIndexMap | _ => GsVsRing
  end%nat.

Definition allRegions : list PrimShaderLdsRegion :=
  [DistributedPrimitiveId; VertexPosition; VertexCullInfo; XfbOutput;
   VertexCounts; VertexIndexMap; XfbStats; EsGsRing; PrimitiveData;
   PrimitiveCounts; PrimitiveIndexMap; GsVsRing].

#[global] Instance PrimShaderLdsRegion_eq_dec : EqDecision PrimShaderLdsRegion.
Proof. solve_decision. Defined.

#[global] Instance PrimShaderLdsRegion_countable : Countable PrimShaderLdsRegion.
Proof. refine (inj_countable' regionIndex indexRegion _); by intros []. Defined.

(** The fields of the pipeline state the planner and the shader read. *)
Record CalcFactor : Set := {
  esGsLdsSize : Z;
  gsOnChipLdsSize : Z;
  esVertsPerSubgroup : Z;
  esGsRingItemSize : Z
}.

Record PipelineState : Set := {
  hasGs : bool;                 (* hasShaderStage(ShaderStageGeometry) *)
  hasTes : bool;                (* hasShaderStage(ShaderStageTessEval) *)
  enableSwXfb : bool;
  passthroughMode : bool;       (* getNggControl()->passthroughMode *)
  compactVertex : bool;         (* getNggControl()->compactVertex *)
  vsPrimitiveId : bool;         (* builtInUsage.vs.primitiveId *)
  calcFactor : CalcFactor
}.

Record PrimShaderLdsUsageInfo : Set := {
  needsLds : bool;
  esExtraLdsSize : Z;
  gsExtraLdsSize : Z
}.

(** [PrimShaderLdsLayout] maps a region to its (offset, size), in dwords: it
    is written [gmap PrimShaderLdsRegion (Z * Z)] throughout.

    [layoutAt l r] is the entry of region [r] read as an rvalue: a missing
    entry is value-initialised. *)
Definition layoutAt (l : gmap PrimShaderLdsRegion (Z * Z)) (r : PrimShaderLdsRegion) : Z * Z :=
  default (0, 0) (l !! r).

(** [llvm::alignTo], computed in 64 bits and stored in an [unsigned]. *)
Definition alignTo (value align : Z) : Z := wrap32 ((value + align - 1) / align * align).

(** The local variables of [layoutPrimShaderLds]. [ldsLayout] is [None] for a
    null pointer (the dry run that only reports sizes). *)
Record LayoutVars : Type := {
  ldsOffset : Z;
  ldsRegionSize : Z;
  ldsLayout : option (gmap PrimShaderLdsRegion (Z * Z));
  ldsUsageInfo : PrimShaderLdsUsageInfo
}.

Definition setRegionSize (sz : Z) (v : LayoutVars) : LayoutVars :=
  {| ldsOffset := ldsOffset v; ldsRegionSize := sz;
     ldsLayout := ldsLayout v; ldsUsageInfo := ldsUsageInfo v |}.

Definition setOffset (off : Z) (v : LayoutVars) : LayoutVars :=
  {| ldsOffset := off; ldsRegionSize := ldsRegionSize v;
     ldsLayout := ldsLayout v; ldsUsageInfo := ldsUsageInfo v |}.

(** The entry of [r] becomes [std::make_pair(ldsOffset, ldsRegionSize)] and
    [ldsOffset += ldsRegionSize], both under [if (ldsLayout)]. *)
Definition placeRegion (r : PrimShaderLdsRegion) (v : LayoutVars) : LayoutVars :=
  match ldsLayout v with
  | None => v
  | Some l =>
      {| ldsOffset := CreateAdd (ldsOffset v) (ldsRegionSize v);
         ldsRegionSize := ldsRegionSize v;
         ldsLayout := Some (<[r := (ldsOffset v, ldsRegionSize v)]> l);
         ldsUsageInfo := ldsUsageInfo v |}
  end.

(** The entry of [dst] becomes a copy of the entry of [src], under
    [if (ldsLayout)]. *)
Definition aliasRegion (dst src : PrimShaderLdsRegion) (v : LayoutVars) : LayoutVars :=
  match ldsLayout v with
  | None => v
  | Some l =>
      {| ldsOffset := ldsOffset v; ldsRegionSize := ldsRegionSize v;
         ldsLayout := Some (<[dst := layoutAt l src]> l);
         ldsUsageInfo := ldsUsageInfo v |}
  end.

Definition addEsExtra (v : LayoutVars) : LayoutVars :=
  {| ldsOffset := ldsOffset v; ldsRegionSize := ldsRegionSize v;
     ldsLayout := ldsLayout v;
     ldsUsageInfo :=
       {| needsLds := needsLds (ldsUsageInfo v);
          esExtraLdsSize := CreateAdd (esExtraLdsSize (ldsUsageInfo v)) (ldsRegionSize v);
          gsExtraLdsSize := gsExtraLdsSize (ldsUsageInfo v) |} |}.

Definition addGsExtra (v : LayoutVars) : LayoutVars :=
  {| ldsOffset := ldsOffset v; ldsRegionSize := ldsRegionSize v;
     ldsLayout := ldsLayout v;
     ldsUsageInfo :=
       {| needsLds := needsLds (ldsUsageInfo v);
          esExtraLdsSize := esExtraLdsSize (ldsUsageInfo v);
          gsExtraLdsSize := CreateAdd (gsExtraLdsSize (ldsUsageInfo v)) (ldsRegionSize v) |} |}.

Definition whenLayout (f : LayoutVars -> LayoutVars) (v : LayoutVars) : LayoutVars :=
  match ldsLayout v with None => v | Some _ => f v end.

Definition initVars (needs : bool) (l : option (gmap PrimShaderLdsRegion (Z * Z))) : LayoutVars :=
  {| ldsOffset := 0; ldsRegionSize := 0; ldsLayout := l;
     ldsUsageInfo := {| needsLds := needs; esExtraLdsSize := 0; gsExtraLdsSize := 0 |} |}.

(** The branch "API GS is present". *)
Definition layoutWithGs (ps : PipelineState) (l : option (gmap PrimShaderLdsRegion (Z * Z))) : LayoutVars :=
  let cf := calcFactor ps in
  let v := initVars true l in
  (* ES-GS ring *)
  let v := whenLayout (fun v => placeRegion EsGsRing (setRegionSize (alignTo (esGsLdsSize cf) 4) v)) v in
  (* Primitive data *)
  let v := setRegionSize (wrap32 (NggMaxThreadsPerSubgroup * MaxGsStreams)) v in
  let v := addGsExtra (placeRegion PrimitiveData v) in
  (* Primitive counts *)
  let v := if enableSwXfb ps
           then addGsExtra (placeRegion PrimitiveCounts
                  (setRegionSize (wrap32 ((NggMaxWavesPerSubgroup + 1) * MaxGsStreams)) v))
           else v in
  (* Primitive index map (compacted -> uncompacted) *)
  let v := if enableSwXfb ps
           then addGsExtra (placeRegion PrimitiveIndexMap
                  (setRegionSize (wrap32 (NggMaxThreadsPerSubgroup * MaxGsStreams)) v))
           else v in
  (* Vertex counts *)
  let v := if enableSwXfb ps
           then aliasRegion VertexCounts PrimitiveCounts v
           else addGsExtra (placeRegion VertexCounts
                  (setRegionSize (wrap32 ((NggMaxWavesPerSubgroup + 1) * MaxGsStreams)) v)) in
  (* Vertex index map (compacted -> uncompacted) *)
  let v := if compactVertex ps
           then if enableSwXfb ps
                then aliasRegion VertexIndexMap PrimitiveIndexMap v
                else addGsExtra (placeRegion VertexIndexMap
                       (setRegionSize (wrap32 (NggMaxThreadsPerSubgroup * MaxGsStreams)) v))
           else v in
  (* XFB statistics *)
  let v := if enableSwXfb ps
           then addGsExtra (placeRegion XfbStats
                  (setRegionSize (wrap32 (MaxTransformFeedbackBuffers + MaxGsStreams)) v))
           else v in
  (* GS-VS ring *)
  whenLayout (fun v =>
    let esGsRingLdsSize := snd (layoutAt (default ∅ (ldsLayout v)) EsGsRing) in
    placeRegion GsVsRing
      (setRegionSize
         (CreateSub (CreateSub (gsOnChipLdsSize cf) esGsRingLdsSize)
                    (gsExtraLdsSize (ldsUsageInfo v))) v)) v.

(** [distributePrimitiveId] of the branches without API GS. *)
Definition distributePrimitiveId (ps : PipelineState) : bool :=
  negb (hasTes ps) && vsPrimitiveId ps.

(** The branch "Passthrough mode is enabled (API GS is not present)". *)
Definition layoutPassthrough (ps : PipelineState) (l : option (gmap PrimShaderLdsRegion (Z * Z))) : LayoutVars :=
  let cf := calcFactor ps in
  let v := initVars (distributePrimitiveId ps || enableSwXfb ps) l in
  let v := if distributePrimitiveId ps
           then whenLayout (fun v => placeRegion DistributedPrimitiveId
                                       (setRegionSize (esVertsPerSubgroup cf) v)) v
           else v in
  let v := setOffset 0 v in
  let v := if enableSwXfb ps
           then whenLayout (fun v => placeRegion XfbOutput
                  (setRegionSize (CreateMul (esVertsPerSubgroup cf) (esGsRingItemSize cf)) v)) v
           else v in
  if enableSwXfb ps
  then addEsExtra (placeRegion XfbStats (setRegionSize (wrap32 (MaxTransformFeedbackBuffers + 1)) v))
  else v.

(** The branch "Culling mode is enabled (API GS is not present)". *)
Definition layoutCulling (ps : PipelineState) (l : option (gmap PrimShaderLdsRegion (Z * Z))) : LayoutVars :=
  let cf := calcFactor ps in
  let v := initVars true l in
  let v := if distributePrimitiveId ps
           then whenLayout (fun v => placeRegion DistributedPrimitiveId
                                       (setRegionSize (esVertsPerSubgroup cf) v)) v
           else v in
  let v := setOffset 0 v in
  (* Vertex position *)
  let v := addEsExtra (placeRegion VertexPosition
             (setRegionSize (wrap32 (4 * NggMaxThreadsPerSubgroup)) v)) in
  (* Vertex cull info *)
  let v := whenLayout (fun v => placeRegion VertexCullInfo
             (setRegionSize (CreateMul (esGsRingItemSize cf) (esVertsPerSubgroup cf)) v)) v in
  (* XFB statistics *)
  let v := if enableSwXfb ps
           then addEsExtra (placeRegion XfbStats
                  (setRegionSize (wrap32 (MaxTransformFeedbackBuffers + 1)) v))
           else v in
  (* Vertex counts *)
  let v := addEsExtra (placeRegion VertexCounts
             (setRegionSize (wrap32 (NggMaxWavesPerSubgroup + 1)) v)) in
  (* Vertex index map *)
  if compactVertex ps
  then addEsExtra (placeRegion VertexIndexMap (setRegionSize (wrap32 NggMaxThreadsPerSubgroup) v))
  else v.

(** [NggPrimShader::layoutPrimShaderLds]: the usage info it returns and the
    layout table it leaves behind. *)
Definition layoutPrimShaderLds (ps : PipelineState) (l : option (gmap PrimShaderLdsRegion (Z * Z)))
  : PrimShaderLdsUsageInfo * option (gmap PrimShaderLdsRegion (Z * Z)) :=
  let v := if hasGs ps then layoutWithGs ps l
           else if passthroughMode ps then layoutPassthrough ps l
           else layoutCulling ps l in
  (ldsUsageInfo v, ldsLayout v).

(** Two dword ranges (offset, size) share a cell. *)
Definition rangesOverlap (a b : Z * Z) : bool :=
  Z.max (fst a) (fst b) <? Z.min (fst a + snd a) (fst b + snd b).

(** The aliases the planner documents for the branch with API GS:
    "this region is overlapped with PrimitiveCounts" (vertex counts) and
    "this region is overlapped with PrimitiveIndexMap" (vertex index map). *)
Definition documentedAlias (r1 r2 : PrimShaderLdsRegion) : bool :=
  match r1, r2 with
  | VertexCounts, PrimitiveCounts | PrimitiveCounts, VertexCounts
  | VertexIndexMap, PrimitiveIndexMap | PrimitiveIndexMap, VertexIndexMap => true
  | _, _ => false
  end.

Definition exampleGsXfbState : PipelineState :=
  {| hasGs := true; hasTes := false; enableSwXfb := true; passthroughMode := false;
     compactVertex := true; vsPrimitiveId := false;
     calcFactor := {| esGsLdsSize := 62; gsOnChipLdsSize := 8192;
                      esVertsPerSubgroup := 128; esGsRingItemSize := 5 |} |}.

(** Every pair of distinct regions of the table that is not excused by
    [alias] occupies disjoint dword ranges. *)
Definition noOverlapExcept (alias : PrimShaderLdsRegion -> PrimShaderLdsRegion -> bool)
    (l : gmap PrimShaderLdsRegion (Z * Z)) : Prop :=
  forall r1 r2 a b,
    r1 <> r2 -> alias r1 r2 = false ->
    l !! r1 = Some a -> l !! r2 = Some b -> rangesOverlap a b = false.

Lemma wrap32_small z : 0 <= z < 2 ^ 32 -> wrap32 z = z.
Proof. intros H. unfold wrap32. by apply Z.mod_small. Qed.

Lemma wrap32_range z : 0 <= wrap32 z < 2 ^ 32.
Proof. unfold wrap32. apply Z.mod_pos_bound. lia. Qed.

Ltac unwrap32 :=
  repeat match goal with
         | |- context [wrap32 ?z] => rewrite (wrap32_small z) by lia
         end.

Ltac lookup_norm H :=
  repeat first [ rewrite lookup_insert_eq in H
               | rewrite lookup_insert_ne in H by discriminate ];
  try rewrite lookup_empty in H.

Ltac insert_cong :=
  repeat match goal with
         | |- <[?k := ?a]> ?m = <[?k := ?b]> ?n =>
             replace a with b; [f_equal | f_equal; lia]
         end.

Lemma alignTo4_bounds z :
  0 <= z -> z + 3 < 2 ^ 32 -> alignTo z 4 = (z + 3) / 4 * 4 /\ z <= alignTo z 4 <= z + 3.
Proof.
  intros H0 H1. unfold alignTo.
  replace (z + 4 - 1) with (z + 3) by lia.
  pose proof (Z.div_mod (z + 3) 4 ltac:(lia)) as Hd.
  pose proof (Z.mod_pos_bound (z + 3) 4 ltac:(lia)) as Hm.
  rewrite wrap32_small by lia. lia.
Qed.

Lemma layoutWithGs_xfb_table ps :
  enableSwXfb ps = true ->
  0 <= esGsLdsSize (calcFactor ps) ->
  esGsLdsSize (calcFactor ps) + 2095 < 2 ^ 32 ->
  let E := alignTo (esGsLdsSize (calcFactor ps)) 4 in
  let base : gmap PrimShaderLdsRegion (Z * Z) :=
    <[PrimitiveIndexMap := (E + 1060, 1024)]>
      (<[PrimitiveCounts := (E + 1024, 36)]>
         (<[PrimitiveData := (E, 1024)]> (<[EsGsRing := (0, E)]> ∅))) in
  let counts := <[VertexCounts := (E + 1024, 36)]> base in
  let maps := if compactVertex ps
              then <[VertexIndexMap := (E + 1060, 1024)]> counts else counts in
  ldsLayout (layoutWithGs ps (Some ∅)) =
    Some (<[GsVsRing := (E + 2092,
                         CreateSub (CreateSub (gsOnChipLdsSize (calcFactor ps)) E) 2092)]>
            (<[XfbStats := (E + 2084, 8)]> maps)).
Proof.
  intros Hx H0 H1 E base counts maps.
  destruct (alignTo4_bounds (esGsLdsSize (calcFactor ps))) as [HE1 HE2]; [lia|lia|].
  fold E in HE1, HE2.
  unfold layoutWithGs. rewrite Hx.
  subst maps counts base.
  destruct (compactVertex ps);
    cbn -[Z.add Z.mul Z.div Z.modulo Z.pow wrap32 alignTo CreateAdd CreateSub insert lookup];
    fold E; unfold layoutAt;
    repeat (first [rewrite lookup_insert_eq | rewrite lookup_insert_ne by done]);
    cbn -[Z.add Z.mul Z.div Z.modulo Z.pow wrap32 alignTo CreateAdd CreateSub insert lookup];
    unfold CreateAdd;
    change (wrap32 (NggMaxThreadsPerSubgroup * MaxGsStreams)) with 1024;
    change (wrap32 ((NggMaxWavesPerSubgroup + 1) * MaxGsStreams)) with 36;
    change (wrap32 (MaxTransformFeedbackBuffers + MaxGsStreams)) with 8;
    unwrap32; f_equal; insert_cong; reflexivity.
Qed.

Lemma rangesOverlap_false_iff a b :
  rangesOverlap a b = false <-> Z.min (a.1 + a.2) (b.1 + b.2) <= Z.max a.1 b.1.
Proof. unfold rangesOverlap. rewrite Z.ltb_ge. done. Qed.

(** C9 (as amended): with a geometry stage and software transform feedback,
    the planner aliases exactly the two pairs it documents -- the vertex
    counts reuse the primitive counts and, when vertex compaction is enabled,
    the vertex index map reuses the primitive index map, each with the
    identical (offset, size) pair.  The transform-feedback statistics region
    is a region of its own, 8 dwords placed right behind the 1024 dwords of
    the primitive index map, and every other pair of regions of the table is
    non-overlapping. *)
Theorem layout_gs_xfb_aliases (ps : PipelineState) :
  hasGs ps = true ->
  enableSwXfb ps = true ->
  0 <= esGsLdsSize (calcFactor ps) ->
  esGsLdsSize (calcFactor ps) + 2095 < 2 ^ 32 ->
  exists l : gmap PrimShaderLdsRegion (Z * Z),
    snd (layoutPrimShaderLds ps (Some ∅)) = Some l /\
    l !! VertexCounts = l !! PrimitiveCounts /\
    (compactVertex ps = true -> l !! VertexIndexMap = l !! PrimitiveIndexMap) /\
    (compactVertex ps = false -> l !! VertexIndexMap = None) /\
    (exists o, l !! PrimitiveIndexMap = Some (o, 1024) /\
               l !! XfbStats = Some (o + 1024, 8)) /\
    noOverlapExcept documentedAlias l.
Proof.
  intros Hg Hx H0 H1.
  pose proof (layoutWithGs_xfb_table ps Hx H0 H1) as Ht. cbv zeta in Ht.
  destruct (alignTo4_bounds (esGsLdsSize (calcFactor ps))) as [_ HE]; [lia|lia|].
  set (E := alignTo (esGsLdsSize (calcFactor ps)) 4) in *.
  unfold layoutPrimShaderLds. rewrite Hg. cbn [snd]. rewrite Ht.
  eexists; split; [reflexivity|].
  set (G := CreateSub _ _).
  assert (HG : 0 <= G) by (subst G; unfold CreateSub; apply wrap32_range).
  clearbody G.
  destruct (compactVertex ps); (repeat split).
  all: try (intros; discriminate).
  all: try (intros; by simplify_map_eq).
  all: try (exists (E + 1060); split; simplify_map_eq; [done | f_equal; f_equal; lia]).
  all: clear Ht; clearbody E.
  all: intros r1 r2 a b Hne Hal Ha Hb; apply rangesOverlap_false_iff;
       destruct r1, r2;
       first [ by destruct Hne | discriminate Hal | idtac ];
       lookup_norm Ha; lookup_norm Hb;
       first [ discriminate Ha | discriminate Hb
             | injection Ha as <-; injection Hb as <-; cbn [fst snd]; lia ].
Qed.

(** C9, the claim as stated fails: in a configuration with a geometry stage,
    software transform feedback and vertex compaction, the primitive index
    map and the transform-feedback statistics get different (offset, size)
    pairs (1124, 1024) and (2148, 8). *)
Lemma layout_gs_xfb_stats_not_aliased :
  exists l : gmap PrimShaderLdsRegion (Z * Z),
    snd (layoutPrimShaderLds exampleGsXfbState (Some ∅)) = Some l /\
    l !! PrimitiveIndexMap = Some (1124, 1024) /\
    l !! XfbStats = Some (2148, 8) /\
    l !! PrimitiveIndexMap <> l !! XfbStats.
Proof.
  eexists. split; [vm_compute; reflexivity|].
  split; [vm_compute; reflexivity|]. split; [vm_compute; reflexivity|].
  vm_compute. discriminate.
Qed.

Lemma layout_gs_xfb_aliases_witness :
  exists l : gmap PrimShaderLdsRegion (Z * Z),
    snd (layoutPrimShaderLds exampleGsXfbState (Some ∅)) = Some l /\
    l !! VertexCounts = l !! PrimitiveCounts /\
    (compactVertex exampleGsXfbState = true -> l !! VertexIndexMap = l !! PrimitiveIndexMap) /\
    (compactVertex exampleGsXfbState = false -> l !! VertexIndexMap = None) /\
    (exists o, l !! PrimitiveIndexMap = Some (o, 1024) /\
               l !! XfbStats = Some (o + 1024, 8)) /\
    noOverlapExcept documentedAlias l.
Proof.
  apply (layout_gs_xfb_aliases exampleGsXfbState); [reflexivity | reflexivity | simpl; lia | simpl; lia].
Defined.


(** ** Floating-point instructions

    The cullers are built from LLVM floating-point instructions on [float]
    and, in the sphere culler, on [half].  Their arithmetic is not fixed
    here: a [FloatOps] instance gives the instructions of one format and
    [ShaderFloats] the two formats with the conversions between them and the
    32-bit integers.  Everything proved about the cullers holds for every
    instance. *)

Class FloatOps (F : Type) : Type := {
  fconst : Q -> F;                 (* ConstantFP::get *)
  CreateFAdd : F -> F -> F;
  CreateFSub : F -> F -> F;
  CreateFMul : F -> F -> F;
  CreateFDiv : F -> F -> F;
  CreateFNeg : F -> F;
  fabs : F -> F;                   (* Intrinsic::fabs *)
  fma : F -> F -> F -> F;          (* Intrinsic::fma *)
  minnum : F -> F -> F;            (* Intrinsic::minnum *)
  maxnum : F -> F -> F;            (* Intrinsic::maxnum *)
  fmed3 : F -> F -> F -> F;        (* Intrinsic::amdgcn_fmed3 *)
  rint : F -> F;                   (* Intrinsic::rint *)
  CreateFCmpOLT : F -> F -> bool;
  CreateFCmpOGT : F -> F -> bool;
  CreateFCmpOGE : F -> F -> bool;
  CreateFCmpOEQ : F -> F -> bool
}.

Class ShaderFloats : Type := {
  float : Type;
  half : Type;
  float_ops :: FloatOps float;
  half_ops :: FloatOps half;
  bitcastToFloat : Z -> float;     (* CreateBitCast(i32, float) *)
  bitcastToInt : float -> Z;       (* CreateBitCast(float, i32) *)
  powi : float -> Z -> float;      (* Intrinsic::powi, i32 exponent *)
  cvt_pkrtz : float -> float -> half * half   (* Intrinsic::amdgcn_cvt_pkrtz *)
}.

(** A [<4 x float>] value and [CreateExtractElement] on it. *)
Record Vec4 (F : Type) : Type := mkVec4 { vecX : F; vecY : F; vecZ : F; vecW : F }.
Arguments mkVec4 {F} _ _ _ _.
Arguments vecX {F} _.
Arguments vecY {F} _.
Arguments vecZ {F} _.
Arguments vecW {F} _.

(** Component-wise instructions on [<2 x half>]. *)
Definition vec2map2 {A : Type} (f : A -> A -> A) (a b : A * A) : A * A :=
  (f (fst a) (fst b), f (snd a) (snd b)).

Definition vec2map3 {A : Type} (f : A -> A -> A -> A) (a b c : A * A) : A * A :=
  (f (fst a) (fst b) (fst c), f (snd a) (snd b) (snd c)).

(** The culler enable flags and constants of [NggControl]. *)
Record NggControl : Set := {
  enableBackfaceCulling : bool;
  enableFrustumCulling : bool;
  enableBoxFilterCulling : bool;
  enableSphereCulling : bool;
  enableSmallPrimFilter : bool;
  enableCullDistanceCulling : bool;
  backfaceExponent : Z;
  pipelineStateCb_paClVteCntl : Z   (* primShaderTable.pipelineStateCb.paClVteCntl *)
}.

(** ** The culling algorithm suite *)

Section Cullers.
Context {SF : ShaderFloats}.

(** [createBackfaceCuller]: the function [lgc.ngg.culler.backface]. *)
Definition backfaceCuller (cullFlag : bool) (vertex0 vertex1 vertex2 : Vec4 float)
    (backfaceExponent paSuScModeCntl paClVportXscale paClVportYscale : Z) : bool :=
  let cullFlagPhi :=
    (* .backfaceEntry: if cull flag has already been TRUE, early return *)
    if cullFlag then cullFlag
    else
      (* .backfaceCull *)
      let x0 := vecX vertex0 in let y0 := vecY vertex0 in let w0 := vecW vertex0 in
      let x1 := vecX vertex1 in let y1 := vecY vertex1 in let w1 := vecW vertex1 in
      let x2 := vecX vertex2 in let y2 := vecY vertex2 in let w2 := vecW vertex2 in
      let y1W2 := CreateFMul y1 w2 in
      let y2W1 := CreateFMul y2 w1 in
      let det0 := CreateFMul x0 (CreateFSub y1W2 y2W1) in
      let y0W2 := CreateFMul y0 w2 in
      let y2W0 := CreateFMul y2 w0 in
      let det1 := CreateFMul x1 (CreateFSub y0W2 y2W0) in
      let y0W1 := CreateFMul y0 w1 in
      let y1W0 := CreateFMul y1 w0 in
      let det2 := CreateFMul x2 (CreateFSub y0W1 y1W0) in
      let area := CreateFAdd (CreateFSub det0 det1) det2 in
      let areaLtZero := CreateFCmpOLT area (fconst 0) in
      let areaGtZero := CreateFCmpOGT area (fconst 0) in
      (* signbit(xScale ^ yScale) *)
      let frontFace := createUBfe (CreateXor paClVportXscale paClVportYscale) 31 1 in
      (* face = (FACE, PA_SU_SC_MODE_CNTL[2], 0 = CCW, 1 = CW) *)
      let face := createUBfe paSuScModeCntl 2 1 in
      let frontFace := CreateXor face frontFace in
      let frontFace := CreateICmpEQ frontFace 0 in
      let frontFace := CreateSelect frontFace areaLtZero areaGtZero in
      let backFace := negb frontFace in
      (* cullFront = (CULL_FRONT, PA_SU_SC_MODE_CNTL[0]) *)
      let cullFront := CreateTruncI1 (CreateAnd paSuScModeCntl 1) in
      (* cullBack = (CULL_BACK, PA_SU_SC_MODE_CNTL[1]) *)
      let cullBack := CreateTruncI1 (createUBfe paSuScModeCntl 1 1) in
      let cullFront := CreateSelect cullFront frontFace false in
      let cullBack := CreateSelect cullBack backFace false in
      let cullFlag1 := orb cullFront cullBack in
      if CreateICmpNE backfaceExponent 0 then
        (* .backfaceExponent *)
        let absW0W1W2 := fabs (CreateFMul (CreateFMul w0 w1) w2) in
        let threshold := powi (fconst 10) (CreateNeg backfaceExponent) in
        let rcpAbsW0W1W2 := CreateFDiv (fconst 1) absW0W1W2 in
        let threshold := CreateFMul threshold rcpAbsW0W1W2 in
        let absArea := fabs area in
        let cullFlag2 := CreateFCmpOGE absArea threshold in
        andb cullFlag1 cullFlag2
      else cullFlag1 in
  (* .backfaceExit *)
  (* polyMode = (POLY_MODE, PA_SU_SC_MODE_CNTL[4:3], 0 = DISABLE, 1 = DUAL) *)
  let polyMode := createUBfe paSuScModeCntl 3 2 in
  let wireFrameMode := CreateICmpEQ polyMode 1 in
  (* cullFlag = (polyMode == 1) ? false : cullFlag *)
  CreateSelect wireFrameMode false cullFlagPhi.

(** The clip mask of one vertex in [.frustumCull]; the generator emits this
    instruction sequence once per vertex. *)
Definition frustumClipMask (x y z w xDiscAdj yDiscAdj zNear : float) : Z :=
  let negXDiscAdj := CreateFNeg xDiscAdj in
  let negYDiscAdj := CreateFNeg yDiscAdj in
  (* (x < -xDiscAdj * w) ? 0x1 : 0 *)
  let clipMask0 := CreateSelect (CreateFCmpOLT x (CreateFMul negXDiscAdj w)) 1 0 in
  (* (x > xDiscAdj * w) ? 0x2 : 0 *)
  let clipMask1 := CreateSelect (CreateFCmpOGT x (CreateFMul xDiscAdj w)) 2 0 in
  (* (y < -yDiscAdj * w) ? 0x4 : 0 *)
  let clipMask2 := CreateSelect (CreateFCmpOLT y (CreateFMul negYDiscAdj w)) 4 0 in
  (* (y > yDiscAdj * w) ? 0x8 : 0 *)
  let clipMask3 := CreateSelect (CreateFCmpOGT y (CreateFMul yDiscAdj w)) 8 0 in
  (* (z < zNear * w) ? 0x10 : 0 *)
  let clipMask4 := CreateSelect (CreateFCmpOLT z (CreateFMul zNear w)) 16 0 in
  (* (z > w) ? 0x20 : 0 *)
  let clipMask5 := CreateSelect (CreateFCmpOGT z w) 32 0 in
  let clipMaskX := CreateOr clipMask0 clipMask1 in
  let clipMaskY := CreateOr clipMask2 clipMask3 in
  let clipMaskZ := CreateOr clipMask4 clipMask5 in
  CreateOr (CreateOr clipMaskX clipMaskY) clipMaskZ.

(** zNear = clipSpaceDef ? -1.0 : 0.0, with
    clipSpaceDef = (DX_CLIP_SPACE_DEF, PA_CL_CLIP_CNTL[19]). *)
Definition zNearOf (paClClipCntl : Z) : float :=
  let clipSpaceDef := CreateTruncI1 (createUBfe paClClipCntl 19 1) in
  CreateSelect clipSpaceDef (fconst (-1)) (fconst 0).

(** The three clip masks of [.frustumCull]. *)
Definition frustumClipMasks (vertex0 vertex1 vertex2 : Vec4 float)
    (paClClipCntl paClGbHorzDiscAdj paClGbVertDiscAdj : Z) : Z * Z * Z :=
  let zNear := zNearOf paClClipCntl in
  let xDiscAdj := bitcastToFloat paClGbHorzDiscAdj in
  let yDiscAdj := bitcastToFloat paClGbVertDiscAdj in
  let mask v := frustumClipMask (vecX v) (vecY v) (vecZ v) (vecW v) xDiscAdj yDiscAdj zNear in
  (mask vertex0, mask vertex1, mask vertex2).

(** [createFrustumCuller]: the function [lgc.ngg.culler.frustum]. *)
Definition frustumCuller (cullFlag : bool) (vertex0 vertex1 vertex2 : Vec4 float)
    (paClClipCntl paClGbHorzDiscAdj paClGbVertDiscAdj : Z) : bool :=
  (* .frustumEntry: if cull flag has already been TRUE, early return *)
  if cullFlag then cullFlag
  else
    (* .frustumCull *)
    let '(clipMask0, clipMask1, clipMask2) :=
      frustumClipMasks vertex0 vertex1 vertex2 paClClipCntl paClGbHorzDiscAdj paClGbVertDiscAdj in
    (* clip = clipMask0 & clipMask1 & clipMask2 *)
    let clip := CreateAnd (CreateAnd clipMask0 clipMask1) clipMask2 in
    (* cullFlag = (clip != 0) *)
    CreateICmpNE clip 0.

(** The conversion to normalized device coordinates shared by the box
    filter, sphere and small primitive cullers: rcpW selected by a
    VTX_*_FMT bit of PA_CL_VTE_CNTL. *)
Definition rcpWFor (fmt : bool) (w : float) : float :=
  CreateSelect fmt (fconst 1) (CreateFDiv (fconst 1) w).

(** [createBoxFilterCuller]: the function [lgc.ngg.culler.box.filter]. *)
Definition boxFilterCuller (cullFlag : bool) (vertex0 vertex1 vertex2 : Vec4 float)
    (paClVteCntl paClClipCntl paClGbHorzDiscAdj paClGbVertDiscAdj : Z) : bool :=
  (* .boxfilterEntry: if cull flag has already been TRUE, early return *)
  if cullFlag then cullFlag
  else
    (* .boxfilterCull *)
    let vtxXyFmt := CreateTruncI1 (createUBfe paClVteCntl 8 1) in
    let vtxZFmt := CreateTruncI1 (createUBfe paClVteCntl 9 1) in
    let zNear := zNearOf paClClipCntl in
    let zFar : float := fconst 1 in
    let xDiscAdj := bitcastToFloat paClGbHorzDiscAdj in
    let yDiscAdj := bitcastToFloat paClGbVertDiscAdj in
    let x0 := CreateFMul (vecX vertex0) (rcpWFor vtxXyFmt (vecW vertex0)) in
    let y0 := CreateFMul (vecY vertex0) (rcpWFor vtxXyFmt (vecW vertex0)) in
    let z0 := CreateFMul (vecZ vertex0) (rcpWFor vtxZFmt (vecW vertex0)) in
    let x1 := CreateFMul (vecX vertex1) (rcpWFor vtxXyFmt (vecW vertex1)) in
    let y1 := CreateFMul (vecY vertex1) (rcpWFor vtxXyFmt (vecW vertex1)) in
    let z1 := CreateFMul (vecZ vertex1) (rcpWFor vtxZFmt (vecW vertex1)) in
    let x2 := CreateFMul (vecX vertex2) (rcpWFor vtxXyFmt (vecW vertex2)) in
    let y2 := CreateFMul (vecY vertex2) (rcpWFor vtxXyFmt (vecW vertex2)) in
    let z2 := CreateFMul (vecZ vertex2) (rcpWFor vtxZFmt (vecW vertex2)) in
    let negXDiscAdj := CreateFNeg xDiscAdj in
    let negYDiscAdj := CreateFNeg yDiscAdj in
    let minX := minnum (minnum x0 x1) x2 in
    let minXGtXDiscAdj := CreateFCmpOGT minX xDiscAdj in
    let maxX := maxnum (maxnum x0 x1) x2 in
    let maxXLtNegXDiscAdj := CreateFCmpOLT maxX negXDiscAdj in
    let minY := minnum (minnum y0 y1) y2 in
    let minYGtYDiscAdj := CreateFCmpOGT minY yDiscAdj in
    let maxY := maxnum (maxnum y0 y1) y2 in
    let maxYLtNegYDiscAdj := CreateFCmpOLT maxY negYDiscAdj in
    let minZ := minnum (minnum z0 z1) z2 in
    let minZGtZFar := CreateFCmpOGT minZ zFar in
    let maxZ := maxnum (maxnum z0 z1) z2 in
    let maxZLtZNear := CreateFCmpOLT maxZ zNear in
    let cullX := orb minXGtXDiscAdj maxXLtNegXDiscAdj in
    let cullY := orb minYGtYDiscAdj maxYLtNegYDiscAdj in
    let cullZ := orb minZGtZFar maxZLtZNear in
    orb (orb cullX cullY) cullZ.

(** [createSphereCuller]: the function [lgc.ngg.culler.sphere]. *)
Definition sphereCuller (cullFlag : bool) (vertex0 vertex1 vertex2 : Vec4 float)
    (paClVteCntl paClClipCntl paClGbHorzDiscAdj paClGbVertDiscAdj : Z) : bool :=
  (* .sphereEntry: if cull flag has already been TRUE, early return *)
  if cullFlag then cullFlag
  else
    (* .sphereCull *)
    let vtxXyFmt := CreateTruncI1 (createUBfe paClVteCntl 8 1) in
    let vtxZFmt := CreateTruncI1 (createUBfe paClVteCntl 9 1) in
    let zNear := zNearOf paClClipCntl in
    let xDiscAdj := bitcastToFloat paClGbHorzDiscAdj in
    let yDiscAdj := bitcastToFloat paClGbVertDiscAdj in
    let x0 := CreateFMul (vecX vertex0) (rcpWFor vtxXyFmt (vecW vertex0)) in
    let y0 := CreateFMul (vecY vertex0) (rcpWFor vtxXyFmt (vecW vertex0)) in
    let z0 := CreateFMul (vecZ vertex0) (rcpWFor vtxZFmt (vecW vertex0)) in
    let x1 := CreateFMul (vecX vertex1) (rcpWFor vtxXyFmt (vecW vertex1)) in
    let y1 := CreateFMul (vecY vertex1) (rcpWFor vtxXyFmt (vecW vertex1)) in
    let z1 := CreateFMul (vecZ vertex1) (rcpWFor vtxZFmt (vecW vertex1)) in
    let x2 := CreateFMul (vecX vertex2) (rcpWFor vtxXyFmt (vecW vertex2)) in
    let y2 := CreateFMul (vecY vertex2) (rcpWFor vtxXyFmt (vecW vertex2)) in
    let z2 := CreateFMul (vecZ vertex2) (rcpWFor vtxZFmt (vecW vertex2)) in
    (* Step 1: discard space to -1..1 space *)
    let rcpXDiscAdj := CreateFDiv (fconst 1) xDiscAdj in
    let rcpYDiscAdj := CreateFDiv (fconst 1) yDiscAdj in
    let rcpXyDiscAdj := cvt_pkrtz rcpXDiscAdj rcpYDiscAdj in
    let x0Y0 := vec2map2 CreateFMul (cvt_pkrtz x0 y0) rcpXyDiscAdj in
    let x1Y1 := vec2map2 CreateFMul (cvt_pkrtz x1 y1) rcpXyDiscAdj in
    let x2Y2 := vec2map2 CreateFMul (cvt_pkrtz x2 y2) rcpXyDiscAdj in
    let zNearPlusTwo := CreateFAdd zNear (fconst 2) in
    let zNearPlusTwo := cvt_pkrtz zNearPlusTwo zNearPlusTwo in
    let negOneMinusZNear := CreateFSub (fconst (-1)) zNear in
    let negOneMinusZNear := cvt_pkrtz negOneMinusZNear negOneMinusZNear in
    let z0Z0 := vec2map3 fma zNearPlusTwo (cvt_pkrtz z0 z0) negOneMinusZNear in
    let z2Z1 := vec2map3 fma zNearPlusTwo (cvt_pkrtz z2 z1) negOneMinusZNear in
    (* Step 2: 3D coordinates to barycentric coordinates *)
    let x20Y20 := vec2map2 CreateFSub x2Y2 x0Y0 in
    let x10Y10 := vec2map2 CreateFSub x1Y1 x0Y0 in
    let z20Z10 := vec2map2 CreateFSub z2Z1 z0Z0 in
    (* Step 3: solve linear system and find the point closest to the origin *)
    let x10 := fst x10Y10 in
    let z10 := snd z20Z10 in
    let a00 := CreateFAdd x10 z10 in
    let x20 := fst x20Y20 in
    let z20 := fst z20Z10 in
    let a01 := CreateFAdd x20 z20 in
    let y10 := snd x10Y10 in
    let a10 := CreateFAdd y10 y10 in
    let y20 := snd x20Y20 in
    let a11 := CreateFAdd y20 z20 in
    let x0 := fst x0Y0 in
    let negX0 := CreateFNeg x0 in
    let x2 := fst x2Y2 in
    let b0 := CreateFSub negX0 x2 in
    let x1 := fst x1Y1 in
    let negX1 := CreateFNeg x1 in
    let b1 := CreateFSub negX1 x2 in
    let detA := CreateFMul a00 a11 in
    let negA01 := CreateFNeg a01 in
    let detA := fma negA01 a10 detA in
    let detAB0 := CreateFMul b0 a11 in
    let detAB0 := fma negA01 b1 detAB0 in
    let detAB1 := CreateFMul a00 b1 in
    let negB0 := CreateFNeg b0 in
    let detAB1 := fma negB0 a10 detAB1 in
    let rcpDetA := CreateFDiv (fconst 1) detA in
    let s := CreateFMul detAB0 rcpDetA in
    let t := CreateFMul detAB1 rcpDetA in
    (* Step 4: do clamping for the closest point *)
    let st := (s, t) in
    let tMinusS := CreateFSub t s in
    let sT1 := (tMinusS, tMinusS) in
    let sT1 := vec2map3 fma (fconst (-1 # 2), fconst (1 # 2)) sT1 (fconst (1 # 2), fconst (1 # 2)) in
    let sT2 := vec2map2 maxnum st (fconst 0, fconst 0) in
    let sT2 := vec2map2 minnum sT2 (fconst 1, fconst 1) in
    let sPlusT := CreateFAdd s t in
    let sPlusTGtOne := CreateFCmpOGT sPlusT (fconst 1) in
    let st := CreateSelect sPlusTGtOne sT1 sT2 in
    (* Step 5: barycentric coordinates to 3D coordinates *)
    let s := fst st in
    let t := snd st in
    let ss := (fst st, s) in
    let tt := (t, snd st) in
    let xy := vec2map3 fma ss x10Y10 x0Y0 in
    let xy := vec2map3 fma tt x20Y20 xy in
    let z0 := fst z0Z0 in
    let z := fma s z10 z0 in
    let z := fma t z20 z in
    let x := fst xy in
    let y := snd xy in
    (* Step 6: compute the distance squared of the closest point *)
    let squareR := CreateFMul x x in
    let squareR := fma y y squareR in
    let squareR := fma z z squareR in
    (* Step 7: cullFlag = (r^2 > 3.0) *)
    CreateFCmpOGT squareR (fconst 3).

(** [createSmallPrimFilterCuller]: the function
    [lgc.ngg.culler.small.prim.filter]; [enableFrustumCulling] is the
    compile-time flag of [NggControl] the generator tests. *)
Definition smallPrimFilterCuller (enableFrustumCulling : bool) (cullFlag : bool)
    (vertex0 vertex1 vertex2 : Vec4 float)
    (paClVteCntl paClVportXscale paClVportXoffset paClVportYscale paClVportYoffset : Z)
    (conservativeRaster : bool) : bool :=
  (* .smallprimfilterEntry: if cull flag has already been TRUE or if
     conservative rasterization, early return *)
  if orb cullFlag conservativeRaster then cullFlag
  else
    (* .smallprimfilterCull *)
    let vtxXyFmt := CreateTruncI1 (createUBfe paClVteCntl 8 1) in
    let xScale := bitcastToFloat paClVportXscale in
    let xOffset := bitcastToFloat paClVportXoffset in
    let yScale := bitcastToFloat paClVportYscale in
    let yOffset := bitcastToFloat paClVportYoffset in
    let w0 := vecW vertex0 in
    let w1 := vecW vertex1 in
    let w2 := vecW vertex2 in
    let rcpW0 := rcpWFor vtxXyFmt w0 in
    let rcpW1 := rcpWFor vtxXyFmt w1 in
    let rcpW2 := rcpWFor vtxXyFmt w2 in
    let x0 := CreateFMul (vecX vertex0) rcpW0 in
    let y0 := CreateFMul (vecY vertex0) rcpW0 in
    let x1 := CreateFMul (vecX vertex1) rcpW1 in
    let y1 := CreateFMul (vecY vertex1) rcpW1 in
    let x2 := CreateFMul (vecX vertex2) rcpW2 in
    let y2 := CreateFMul (vecY vertex2) rcpW2 in
    (* screenMin/Max = -/+ scale + offset -/+ 0.75, only without frustum culling *)
    let screenMinX := CreateFAdd (CreateFAdd (CreateFNeg xScale) xOffset) (fconst (-3 # 4)) in
    let screenMaxX := CreateFAdd (CreateFAdd xScale xOffset) (fconst (3 # 4)) in
    let screenMinY := CreateFAdd (CreateFAdd (CreateFNeg yScale) yOffset) (fconst (-3 # 4)) in
    let screenMaxY := CreateFAdd (CreateFAdd yScale yOffset) (fconst (3 # 4)) in
    let clampX v := if enableFrustumCulling then v else fmed3 screenMinX v screenMaxX in
    let clampY v := if enableFrustumCulling then v else fmed3 screenMinY v screenMaxY in
    let screenX0 := fma x0 xScale xOffset in
    let screenX1 := fma x1 xScale xOffset in
    let screenX2 := fma x2 xScale xOffset in
    let minX := clampX (minnum (minnum screenX0 screenX1) screenX2) in
    let minX := rint (CreateFAdd minX (fconst (-1 # 256))) in
    let maxX := clampX (maxnum (maxnum screenX0 screenX1) screenX2) in
    let maxX := rint (CreateFAdd maxX (fconst (1 # 256))) in
    let screenY0 := fma y0 yScale yOffset in
    let screenY1 := fma y1 yScale yOffset in
    let screenY2 := fma y2 yScale yOffset in
    let minY := clampY (minnum (minnum screenY0 screenY1) screenY2) in
    let minY := rint (CreateFAdd minY (fconst (-1 # 256))) in
    let maxY := clampY (maxnum (maxnum screenY0 screenY1) screenY2) in
    let maxY := rint (CreateFAdd maxY (fconst (1 # 256))) in
    let minXEqMaxX := CreateFCmpOEQ minX maxX in
    let minYEqMaxY := CreateFCmpOEQ minY maxY in
    let newCullFlag := orb minXEqMaxX minYEqMaxY in
    (* check if W allows culling *)
    let w0AsInt := bitcastToInt w0 in
    let w1AsInt := bitcastToInt w1 in
    let w2AsInt := bitcastToInt w2 in
    let isAllWNeg := CreateICmpSLT (CreateAnd (CreateAnd w0AsInt w1AsInt) w2AsInt) 0 in
    let isAllWPos := CreateICmpSGT (CreateOr (CreateOr w0AsInt w1AsInt) w2AsInt) 0 in
    let allowCull := orb isAllWNeg isAllWPos in
    andb allowCull newCullFlag.

(** [createCullDistanceCuller]: the function [lgc.ngg.culler.cull.distance]. *)
Definition cullDistanceCuller (cullFlag : bool) (signMask0 signMask1 signMask2 : Z) : bool :=
  (* .culldistanceEntry: if cull flag has already been TRUE, early return *)
  if cullFlag then cullFlag
  else
    (* .culldistanceCull *)
    let signMask := CreateAnd (CreateAnd signMask0 signMask1) signMask2 in
    CreateICmpNE signMask 0.

(** The sign mask of the cull distances of one vertex: bit 31 of each value,
    moved to the position of its index.  The generator has this loop twice,
    in the ES-GS branch of [fetchCullDistanceSignMask] and in the
    [.writeVertCullData] block of [buildPrimShader]. *)
Fixpoint cullDistanceSignMaskFrom (i : Z) (signMask : Z) (cullDistance : list float) : Z :=
  match cullDistance with
  | [] => signMask
  | cullDistanceVal :: rest =>
      let cullDistanceVal := bitcastToInt cullDistanceVal in
      let signBit := createUBfe cullDistanceVal 31 1 in
      let signBit := CreateShl signBit i in
      cullDistanceSignMaskFrom (i + 1) (CreateOr signMask signBit) rest
  end.

Definition calcCullDistanceSignMask (cullDistance : list float) : Z :=
  cullDistanceSignMaskFrom 0 0 cullDistance.

End Cullers.

(** ** An exact-arithmetic instance

    Rational numbers with exact operations; bit patterns are read and written
    as IEEE 754 binary32 (finite values; conversion to bits truncates).  It
    serves to run the cullers on concrete triangles. *)

Definition Qltb (a b : Q) : bool := negb (Qle_bool b a).
Definition Qminnum (a b : Q) : Q := if Qle_bool a b then a else b.
Definition Qmaxnum (a b : Q) : Q := if Qle_bool a b then b else a.
Definition Qmed3 (a b c : Q) : Q :=
  Qmaxnum (Qminnum a b) (Qminnum (Qmaxnum a b) c).
Definition Qfabs (a : Q) : Q := if Qle_bool 0 a then a else Qopp a.

(** Round to the nearest integer, ties to even. *)
Definition Qrint (a : Q) : Q :=
  let f := Qfloor a in
  let r := Qminus a (inject_Z f) in
  if Qltb r (1 # 2) then inject_Z f
  else if Qltb (1 # 2) r then inject_Z (f + 1)
  else if Z.even f then inject_Z f else inject_Z (f + 1).

Definition decode32 (bits : Z) : Q :=
  let s := Z.testbit bits 31 in
  let e := Z.land (Z.shiftr bits 23) 255 in
  let m := Z.land bits (2 ^ 23 - 1) in
  let mant := if e =? 0 then m else 2 ^ 23 + m in
  let ex := (if e =? 0 then 1 else e) - 150 in
  let mag := if e =? 255 then 0%Q
             else if 0 <=? ex then inject_Z (mant * 2 ^ ex)
             else Qmake mant (Z.to_pos (2 ^ (- ex))) in
  if s then Qopp mag else mag.

Definition encode32 (q : Q) : Z :=
  let a := Z.abs (Qnum q) in
  let d := Zpos (Qden q) in
  let s := if Qnum q <? 0 then 2 ^ 31 else 0 in
  if a =? 0 then 0
  else
    let e0 := Z.log2 a - Z.log2 d in
    let ge := if 0 <=? e0 then d * 2 ^ e0 <=? a else d <=? a * 2 ^ (- e0) in
    let e := if ge then e0 else e0 - 1 in
    let mant := if 0 <=? 23 - e then a * 2 ^ (23 - e) / d else a / (d * 2 ^ (e - 23)) in
    let biased := e + 127 in
    if biased <=? 0 then s
    else if 255 <=? biased then s + 255 * 2 ^ 23
    else s + biased * 2 ^ 23 + (mant - 2 ^ 23).

Definition exactFloatOps : FloatOps Q :=
  {| fconst := fun q => q;
     CreateFAdd := Qplus; CreateFSub := Qminus; CreateFMul := Qmult; CreateFDiv := Qdiv;
     CreateFNeg := Qopp; fabs := Qfabs;
     fma := fun a b c => Qplus (Qmult a b) c;
     minnum := Qminnum; maxnum := Qmaxnum; fmed3 := Qmed3; rint := Qrint;
     CreateFCmpOLT := Qltb;
     CreateFCmpOGT := fun a b => Qltb b a;
     CreateFCmpOGE := fun a b => Qle_bool b a;
     CreateFCmpOEQ := Qeq_bool |}.

Definition exactFloats : ShaderFloats :=
  {| float := Q; half := Q;
     float_ops := exactFloatOps; half_ops := exactFloatOps;
     bitcastToFloat := decode32; bitcastToInt := encode32;
     powi := fun x n => Qpower x (signed32 n);
     cvt_pkrtz := fun x y => (x, y) |}.

(** ** A bit-pattern instance

    A float carried as its IEEE 754 binary32 pattern, which tells the two
    zeros apart and has the NaNs.  Bit casts keep the pattern, negation and
    absolute value act on the sign bit, and the ordered comparisons are the
    IEEE ones: false when an operand is a NaN, -0.0 equal to 0.0, the
    infinities at the two ends.  Constants and the other operations go
    through the exact instance (decode, operate exactly, encode), so they
    truncate and cover finite values only.  It serves to run the sign-mask
    computation on values whose sign bit does not tell whether they are
    negative. *)

Definition isNaN32 (bits : Z) : bool :=
  (Z.land (Z.shiftr bits 23) 255 =? 255) && negb (Z.land bits (2 ^ 23 - 1) =? 0).

(** The place of a pattern that is not a NaN in the order of the values:
    its magnitude, counted downwards when the sign bit is set. *)
Definition orderKey32 (bits : Z) : Z :=
  let magnitude := Z.land bits (2 ^ 31 - 1) in
  if Z.testbit bits 31 then - magnitude else magnitude.

Definition ordered32 (a b : Z) : bool := negb (isNaN32 a) && negb (isNaN32 b).

Definition exactly1 (f : Q -> Q) (a : Z) : Z := encode32 (f (decode32 a)).
Definition exactly2 (f : Q -> Q -> Q) (a b : Z) : Z := encode32 (f (decode32 a) (decode32 b)).
Definition exactly3 (f : Q -> Q -> Q -> Q) (a b c : Z) : Z :=
  encode32 (f (decode32 a) (decode32 b) (decode32 c)).

Definition patternFloatOps : FloatOps Z :=
  {| fconst := encode32;
     CreateFAdd := exactly2 Qplus; CreateFSub := exactly2 Qminus;
     CreateFMul := exactly2 Qmult; CreateFDiv := exactly2 Qdiv;
     CreateFNeg := fun a => Z.lxor a (2 ^ 31);
     fabs := fun a => Z.land a (2 ^ 31 - 1);
     fma := exactly3 (fun a b c => Qplus (Qmult a b) c);
     minnum := exactly2 Qminnum; maxnum := exactly2 Qmaxnum; fmed3 := exactly3 Qmed3;
     rint := exactly1 Qrint;
     CreateFCmpOLT := fun a b => ordered32 a b && (orderKey32 a <? orderKey32 b);
     CreateFCmpOGT := fun a b => ordered32 a b && (orderKey32 b <? orderKey32 a);
     CreateFCmpOGE := fun a b => ordered32 a b && (orderKey32 b <=? orderKey32 a);
     CreateFCmpOEQ := fun a b => ordered32 a b && (orderKey32 a =? orderKey32 b) |}.

Definition patternFloats : ShaderFloats :=
  {| float := Z; half := Z;
     float_ops := patternFloatOps; half_ops := patternFloatOps;
     bitcastToFloat := wrap32; bitcastToInt := fun bits => bits;
     powi := fun x n => encode32 (Qpower (decode32 x) (signed32 n));
     cvt_pkrtz := fun x y => (x, y) |}.


(** ** Shared scratch memory (LDS)

    A dword cell is addressed by its region and its dword offset within the
    region; the generated code adds the region's start from the layout table
    ([getLdsRegionStart]) to that offset.  Cells never written read as 0. *)

Definition readValueFromLds (lds : gmap (PrimShaderLdsRegion * Z) Z)
    (region : PrimShaderLdsRegion) (ldsOffset : Z) : Z :=
  default 0 (lds !! (region, ldsOffset)).

Definition writeValueToLds (writeValue : Z) (region : PrimShaderLdsRegion) (ldsOffset : Z)
    (lds : gmap (PrimShaderLdsRegion * Z) Z) : gmap (PrimShaderLdsRegion * Z) Z :=
  <[(region, ldsOffset) := writeValue]> lds.

(** [atomicAdd]: an atomic read-modify-write of one cell. *)
Definition atomicAdd (valueToAdd : Z) (region : PrimShaderLdsRegion) (ldsOffset : Z)
    (lds : gmap (PrimShaderLdsRegion * Z) Z) : gmap (PrimShaderLdsRegion * Z) Z :=
  <[(region, ldsOffset) := CreateAdd (readValueFromLds lds region ldsOffset) valueToAdd]> lds.

(** The offset computed by [readPerThreadDataFromLds] and
    [writePerThreadDataToLds] for data of [sizeInDwords] dwords. *)
Definition perThreadLdsOffset (sizeInDwords threadId offsetInRegion : Z) : Z :=
  let ldsOffset := if 1 <? sizeInDwords then CreateMul threadId sizeInDwords else threadId in
  CreateAdd ldsOffset offsetInRegion.

Definition readPerThreadDataFromLds (lds : gmap (PrimShaderLdsRegion * Z) Z)
    (threadId : Z) (region : PrimShaderLdsRegion) (offsetInRegion : Z) : Z :=
  readValueFromLds lds region (perThreadLdsOffset 1 threadId offsetInRegion).

Definition writePerThreadDataToLds (writeData threadId : Z) (region : PrimShaderLdsRegion)
    (offsetInRegion : Z) (lds : gmap (PrimShaderLdsRegion * Z) Z)
  : gmap (PrimShaderLdsRegion * Z) Z :=
  writeValueToLds writeData region (perThreadLdsOffset 1 threadId offsetInRegion) lds.

(** The same for a [<4 x dword>] value: four consecutive cells. *)
Definition readPerThreadVec4FromLds (lds : gmap (PrimShaderLdsRegion * Z) Z)
    (threadId : Z) (region : PrimShaderLdsRegion) (offsetInRegion : Z) : Vec4 Z :=
  let ldsOffset := perThreadLdsOffset 4 threadId offsetInRegion in
  mkVec4 (readValueFromLds lds region ldsOffset) (readValueFromLds lds region (ldsOffset + 1))
         (readValueFromLds lds region (ldsOffset + 2)) (readValueFromLds lds region (ldsOffset + 3)).

Definition writePerThreadVec4ToLds (writeData : Vec4 Z) (threadId : Z)
    (region : PrimShaderLdsRegion) (offsetInRegion : Z)
    (lds : gmap (PrimShaderLdsRegion * Z) Z) : gmap (PrimShaderLdsRegion * Z) Z :=
  let ldsOffset := perThreadLdsOffset 4 threadId offsetInRegion in
  writeValueToLds (vecW writeData) region (ldsOffset + 3)
    (writeValueToLds (vecZ writeData) region (ldsOffset + 2)
       (writeValueToLds (vecY writeData) region (ldsOffset + 1)
          (writeValueToLds (vecX writeData) region ldsOffset lds))).

Definition readVertexCullInfoFromLds (lds : gmap (PrimShaderLdsRegion * Z) Z)
    (vertexItemOffset dataOffset : Z) : Z :=
  readValueFromLds lds VertexCullInfo (CreateAdd vertexItemOffset dataOffset).

Definition writeVertexCullInfoToLds (writeData vertexItemOffset dataOffset : Z)
    (lds : gmap (PrimShaderLdsRegion * Z) Z) : gmap (PrimShaderLdsRegion * Z) Z :=
  writeValueToLds writeData VertexCullInfo (CreateAdd vertexItemOffset dataOffset) lds.

(** ** [doCulling] *)

(** The byte offsets of [m_cbLayoutTable] that the cullers use.  They come
    from [offsetof] on ABI structures declared outside the sources and are
    taken as given. *)
Record PrimShaderCbLayoutLookupTable : Set := {
  cb_paClClipCntl : Z;
  cb_paSuScModeCntl : Z;
  cb_paClGbHorzDiscAdj : Z;
  cb_paClGbVertDiscAdj : Z;
  cb_paClVportXscale : Z;     (* vportControls[0].paClVportXscale *)
  cb_paClVportXoffset : Z;
  cb_paClVportYscale : Z;
  cb_paClVportYoffset : Z;
  cb_enableConservativeRasterization : Z
}.

(** [createFetchCullingRegister]: a load from the primitive shader table, a
    [[256 x i32]] in constant memory, at dword [regOffset >> 2]. *)
Definition fetchCullingControlRegister (primShaderTable : Z -> Z) (regOffset : Z) : Z :=
  primShaderTable (CreateLShr regOffset 2).

(** Modelled from the spec: [NggPrimShader::enableCulling] (NggPrimShader.h
    is missing); culling is requested when one of the six cullers, each gated
    by its own configuration flag, is enabled. *)
Definition enableCulling (ctl : NggControl) : bool :=
  enableBackfaceCulling ctl || enableFrustumCulling ctl || enableBoxFilterCulling ctl ||
  enableSphereCulling ctl || enableSmallPrimFilter ctl || enableCullDistanceCulling ctl.

Section DoCulling.
Context {SF : ShaderFloats}.
Variable ctl : NggControl.
Variable cb : PrimShaderCbLayoutLookupTable.
Variable primShaderTable : Z -> Z.
Variable esGsRingItemSize : Z.
Variable cullDistanceSignMaskOffset : Z.   (* m_vertCullInfoOffsets.cullDistanceSignMask *)

Definition bitcastVec4ToFloat (v : Vec4 Z) : Vec4 float :=
  mkVec4 (bitcastToFloat (vecX v)) (bitcastToFloat (vecY v))
         (bitcastToFloat (vecZ v)) (bitcastToFloat (vecW v)).

(** [fetchVertexPositionData], the branch without API GS. *)
Definition fetchVertexPositionData (lds : gmap (PrimShaderLdsRegion * Z) Z)
    (vertexIndex : Z) : Vec4 float :=
  bitcastVec4ToFloat (readPerThreadVec4FromLds lds vertexIndex VertexPosition 0).

(** [fetchCullDistanceSignMask], the branch without API GS. *)
Definition fetchCullDistanceSignMask (lds : gmap (PrimShaderLdsRegion * Z) Z)
    (vertexIndex : Z) : Z :=
  let vertexItemOffset := CreateMul vertexIndex esGsRingItemSize in
  readVertexCullInfoFromLds lds vertexItemOffset cullDistanceSignMaskOffset.

Definition doBackfaceCulling (cullFlag : bool) (vertex0 vertex1 vertex2 : Vec4 float) : bool :=
  let paSuScModeCntl := fetchCullingControlRegister primShaderTable (cb_paSuScModeCntl cb) in
  let paClVportXscale := fetchCullingControlRegister primShaderTable (cb_paClVportXscale cb) in
  let paClVportYscale := fetchCullingControlRegister primShaderTable (cb_paClVportYscale cb) in
  backfaceCuller cullFlag vertex0 vertex1 vertex2 (wrap32 (backfaceExponent ctl))
                 paSuScModeCntl paClVportXscale paClVportYscale.

Definition doFrustumCulling (cullFlag : bool) (vertex0 vertex1 vertex2 : Vec4 float) : bool :=
  let paClClipCntl := fetchCullingControlRegister primShaderTable (cb_paClClipCntl cb) in
  let paClGbHorzDiscAdj := fetchCullingControlRegister primShaderTable (cb_paClGbHorzDiscAdj cb) in
  let paClGbVertDiscAdj := fetchCullingControlRegister primShaderTable (cb_paClGbVertDiscAdj cb) in
  frustumCuller cullFlag vertex0 vertex1 vertex2 paClClipCntl paClGbHorzDiscAdj paClGbVertDiscAdj.

Definition doBoxFilterCulling (cullFlag : bool) (vertex0 vertex1 vertex2 : Vec4 float) : bool :=
  let paClVteCntl := pipelineStateCb_paClVteCntl ctl in
  let paClClipCntl := fetchCullingControlRegister primShaderTable (cb_paClClipCntl cb) in
  let paClGbHorzDiscAdj := fetchCullingControlRegister primShaderTable (cb_paClGbHorzDiscAdj cb) in
  let paClGbVertDiscAdj := fetchCullingControlRegister primShaderTable (cb_paClGbVertDiscAdj cb) in
  boxFilterCuller cullFlag vertex0 vertex1 vertex2 paClVteCntl paClClipCntl
                  paClGbHorzDiscAdj paClGbVertDiscAdj.

Definition doSphereCulling (cullFlag : bool) (vertex0 vertex1 vertex2 : Vec4 float) : bool :=
  let paClVteCntl := pipelineStateCb_paClVteCntl ctl in
  let paClClipCntl := fetchCullingControlRegister primShaderTable (cb_paClClipCntl cb) in
  let paClGbHorzDiscAdj := fetchCullingControlRegister primShaderTable (cb_paClGbHorzDiscAdj cb) in
  let paClGbVertDiscAdj := fetchCullingControlRegister primShaderTable (cb_paClGbVertDiscAdj cb) in
  sphereCuller cullFlag vertex0 vertex1 vertex2 paClVteCntl paClClipCntl
               paClGbHorzDiscAdj paClGbVertDiscAdj.

Definition doSmallPrimFilterCulling (cullFlag : bool) (vertex0 vertex1 vertex2 : Vec4 float)
  : bool :=
  let paClVteCntl := pipelineStateCb_paClVteCntl ctl in
  let paClVportXscale := fetchCullingControlRegister primShaderTable (cb_paClVportXscale cb) in
  let paClVportXoffset := fetchCullingControlRegister primShaderTable (cb_paClVportXoffset cb) in
  let paClVportYscale := fetchCullingControlRegister primShaderTable (cb_paClVportYscale cb) in
  let paClVportYoffset := fetchCullingControlRegister primShaderTable (cb_paClVportYoffset cb) in
  let conservativeRaster :=
    fetchCullingControlRegister primShaderTable (cb_enableConservativeRasterization cb) in
  let conservativeRaster := CreateICmpEQ conservativeRaster 1 in
  smallPrimFilterCuller (enableFrustumCulling ctl) cullFlag vertex0 vertex1 vertex2 paClVteCntl
                        paClVportXscale paClVportXoffset paClVportYscale paClVportYoffset
                        conservativeRaster.

Definition doCullDistanceCulling (cullFlag : bool) (signMask0 signMask1 signMask2 : Z) : bool :=
  cullDistanceCuller cullFlag signMask0 signMask1 signMask2.

(** [NggPrimShader::doCulling]. *)
Definition doCulling (lds : gmap (PrimShaderLdsRegion * Z) Z)
    (vertexIndex0 vertexIndex1 vertexIndex2 : Z) : bool :=
  if negb (enableCulling ctl) then false
  else
    let cullFlag := false in
    let vertex0 := fetchVertexPositionData lds vertexIndex0 in
    let vertex1 := fetchVertexPositionData lds vertexIndex1 in
    let vertex2 := fetchVertexPositionData lds vertexIndex2 in
    let cullFlag := if enableBackfaceCulling ctl
                    then doBackfaceCulling cullFlag vertex0 vertex1 vertex2 else cullFlag in
    let cullFlag := if enableFrustumCulling ctl
                    then doFrustumCulling cullFlag vertex0 vertex1 vertex2 else cullFlag in
    let cullFlag := if enableBoxFilterCulling ctl
                    then doBoxFilterCulling cullFlag vertex0 vertex1 vertex2 else cullFlag in
    let cullFlag := if enableSphereCulling ctl
                    then doSphereCulling cullFlag vertex0 vertex1 vertex2 else cullFlag in
    let cullFlag := if enableSmallPrimFilter ctl
                    then doSmallPrimFilterCulling cullFlag vertex0 vertex1 vertex2 else cullFlag in
    if enableCullDistanceCulling ctl
    then
      let signMask0 := fetchCullDistanceSignMask lds vertexIndex0 in
      let signMask1 := fetchCullDistanceSignMask lds vertexIndex1 in
      let signMask2 := fetchCullDistanceSignMask lds vertexIndex2 in
      doCullDistanceCulling cullFlag signMask0 signMask1 signMask2
    else cullFlag.

(** What each enabled culler decides for the primitive on its own, that is
    with an incoming cull flag that is false, in the order [doCulling]
    applies them. *)
Definition cullerDecisions (lds : gmap (PrimShaderLdsRegion * Z) Z)
    (vertexIndex0 vertexIndex1 vertexIndex2 : Z) : list (bool * bool) :=
  let vertex0 := fetchVertexPositionData lds vertexIndex0 in
  let vertex1 := fetchVertexPositionData lds vertexIndex1 in
  let vertex2 := fetchVertexPositionData lds vertexIndex2 in
  [ (enableBackfaceCulling ctl, doBackfaceCulling false vertex0 vertex1 vertex2);
    (enableFrustumCulling ctl, doFrustumCulling false vertex0 vertex1 vertex2);
    (enableBoxFilterCulling ctl, doBoxFilterCulling false vertex0 vertex1 vertex2);
    (enableSphereCulling ctl, doSphereCulling false vertex0 vertex1 vertex2);
    (enableSmallPrimFilter ctl, doSmallPrimFilterCulling false vertex0 vertex1 vertex2);
    (enableCullDistanceCulling ctl,
     doCullDistanceCulling false (fetchCullDistanceSignMask lds vertexIndex0)
       (fetchCullDistanceSignMask lds vertexIndex1) (fetchCullDistanceSignMask lds vertexIndex2)) ].

End DoCulling.

(** ** Properties of the cullers *)

Section CullerFacts.
Context {SF : ShaderFloats}.

Lemma frustumCuller_acc cullFlag v0 v1 v2 r0 r1 r2 :
  frustumCuller cullFlag v0 v1 v2 r0 r1 r2 = cullFlag || frustumCuller false v0 v1 v2 r0 r1 r2.
Proof. by destruct cullFlag. Qed.

Lemma boxFilterCuller_acc cullFlag v0 v1 v2 r0 r1 r2 r3 :
  boxFilterCuller cullFlag v0 v1 v2 r0 r1 r2 r3
  = cullFlag || boxFilterCuller false v0 v1 v2 r0 r1 r2 r3.
Proof. by destruct cullFlag. Qed.

Lemma sphereCuller_acc cullFlag v0 v1 v2 r0 r1 r2 r3 :
  sphereCuller cullFlag v0 v1 v2 r0 r1 r2 r3
  = cullFlag || sphereCuller false v0 v1 v2 r0 r1 r2 r3.
Proof. by destruct cullFlag. Qed.

Lemma smallPrimFilterCuller_acc fr cullFlag v0 v1 v2 r0 r1 r2 r3 r4 cr :
  smallPrimFilterCuller fr cullFlag v0 v1 v2 r0 r1 r2 r3 r4 cr
  = cullFlag || smallPrimFilterCuller fr false v0 v1 v2 r0 r1 r2 r3 r4 cr.
Proof. destruct cullFlag; [done|]. by rewrite orb_false_l. Qed.

Lemma cullDistanceCuller_acc cullFlag m0 m1 m2 :
  cullDistanceCuller cullFlag m0 m1 m2 = cullFlag || cullDistanceCuller false m0 m1 m2.
Proof. by destruct cullFlag. Qed.

(** Wireframe mode, POLY_MODE = PA_SU_SC_MODE_CNTL[4:3] = 1. *)
Definition wireFrameMode (paSuScModeCntl : Z) : bool :=
  CreateICmpEQ (createUBfe paSuScModeCntl 3 2) 1.

Lemma backfaceCuller_acc cullFlag v0 v1 v2 e m xs ys :
  backfaceCuller cullFlag v0 v1 v2 e m xs ys
  = if wireFrameMode m then false
    else cullFlag || backfaceCuller false v0 v1 v2 e m xs ys.
Proof.
  unfold backfaceCuller. fold (wireFrameMode m).
  destruct (wireFrameMode m); [done|]. by destruct cullFlag.
Qed.

(** C4 (as amended): the frustum, box-filter, sphere, small-primitive and
    cull-distance cullers are OR-accumulating and short-circuiting: an
    incoming cull flag that is true is returned as true, and the returned flag
    is the incoming flag OR-ed with the culler's own decision.  The backface
    culler does the same except in wireframe mode (POLY_MODE = 1), where it
    returns false whatever the incoming flag.  [doCulling] applies the
    backface culler first, to a flag that is false, so its final flag is true
    iff at least one enabled culler decided to cull. *)
Theorem cullers_or_accumulate :
  (forall v0 v1 v2 r0 r1 r2,
      frustumCuller true v0 v1 v2 r0 r1 r2 = true) /\
  (forall v0 v1 v2 r0 r1 r2 r3,
      boxFilterCuller true v0 v1 v2 r0 r1 r2 r3 = true) /\
  (forall v0 v1 v2 r0 r1 r2 r3,
      sphereCuller true v0 v1 v2 r0 r1 r2 r3 = true) /\
  (forall fr v0 v1 v2 r0 r1 r2 r3 r4 cr,
      smallPrimFilterCuller fr true v0 v1 v2 r0 r1 r2 r3 r4 cr = true) /\
  (forall m0 m1 m2, cullDistanceCuller true m0 m1 m2 = true) /\
  (forall v0 v1 v2 e m xs ys,
      backfaceCuller true v0 v1 v2 e m xs ys = negb (wireFrameMode m)) /\
  (forall (f1 f2 : bool) v0 v1 v2 e m xs ys r0 r1 r2 r3 r4 fr cr m0 m1 m2,
      implb f1 f2 = true ->
      implb (backfaceCuller f1 v0 v1 v2 e m xs ys) (backfaceCuller f2 v0 v1 v2 e m xs ys) = true /\
      implb (frustumCuller f1 v0 v1 v2 r0 r1 r2) (frustumCuller f2 v0 v1 v2 r0 r1 r2) = true /\
      implb (boxFilterCuller f1 v0 v1 v2 r0 r1 r2 r3)
            (boxFilterCuller f2 v0 v1 v2 r0 r1 r2 r3) = true /\
      implb (sphereCuller f1 v0 v1 v2 r0 r1 r2 r3) (sphereCuller f2 v0 v1 v2 r0 r1 r2 r3) = true /\
      implb (smallPrimFilterCuller fr f1 v0 v1 v2 r0 r1 r2 r3 r4 cr)
            (smallPrimFilterCuller fr f2 v0 v1 v2 r0 r1 r2 r3 r4 cr) = true /\
      implb (cullDistanceCuller f1 m0 m1 m2) (cullDistanceCuller f2 m0 m1 m2) = true) /\
  (forall ctl cb primShaderTable itemSize signMaskOffset lds i0 i1 i2,
      doCulling ctl cb primShaderTable itemSize signMaskOffset lds i0 i1 i2
      = existsb (fun d => fst d && snd d)
          (cullerDecisions ctl cb primShaderTable itemSize signMaskOffset lds i0 i1 i2)).
Proof.
  split; [done|]. split; [done|]. split; [done|]. split; [done|]. split; [done|].
  split; [|split].
  - intros. rewrite backfaceCuller_acc. by destruct (wireFrameMode m).
  - intros f1 f2 v0 v1 v2 e m xs ys r0 r1 r2 r3 r4 fr cr m0 m1 m2 Hf.
    rewrite (backfaceCuller_acc f1), (backfaceCuller_acc f2).
    rewrite (frustumCuller_acc f1), (frustumCuller_acc f2).
    rewrite (boxFilterCuller_acc f1), (boxFilterCuller_acc f2).
    rewrite (sphereCuller_acc f1), (sphereCuller_acc f2).
    rewrite (smallPrimFilterCuller_acc fr f1), (smallPrimFilterCuller_acc fr f2).
    rewrite (cullDistanceCuller_acc f1), (cullDistanceCuller_acc f2).
    destruct f1, f2; try discriminate Hf; cbn [orb];
      repeat split;
      repeat match goal with |- context [if ?b then _ else _] => destruct b end;
      try reflexivity;
      match goal with |- implb ?b _ = true => by destruct b end.
  - intros. unfold doCulling, cullerDecisions, enableCulling.
    cbn [existsb fst snd].
    unfold doFrustumCulling, doBoxFilterCulling, doSphereCulling, doSmallPrimFilterCulling,
      doCullDistanceCulling.
    destruct (enableBackfaceCulling ctl), (enableFrustumCulling ctl),
      (enableBoxFilterCulling ctl), (enableSphereCulling ctl), (enableSmallPrimFilter ctl),
      (enableCullDistanceCulling ctl); cbn [negb orb andb];
      repeat first [ rewrite orb_false_r | rewrite orb_false_l ]; try reflexivity;
      repeat match goal with
        | |- context [frustumCuller (?f) _ _ _ _ _ _] =>
            lazymatch f with false => fail | _ => rewrite (frustumCuller_acc f) end
        | |- context [boxFilterCuller (?f) _ _ _ _ _ _ _] =>
            lazymatch f with false => fail | _ => rewrite (boxFilterCuller_acc f) end
        | |- context [sphereCuller (?f) _ _ _ _ _ _ _] =>
            lazymatch f with false => fail | _ => rewrite (sphereCuller_acc f) end
        | |- context [smallPrimFilterCuller _ (?f) _ _ _ _ _ _ _ _ _] =>
            lazymatch f with false => fail | _ => rewrite (smallPrimFilterCuller_acc _ f) end
        | |- context [cullDistanceCuller (?f) _ _ _] =>
            lazymatch f with false => fail | _ => rewrite (cullDistanceCuller_acc f) end
        end;
      rewrite <- ?orb_assoc; reflexivity.
Qed.

(** The six half-spaces of the frustum test that a vertex violates, in the
    order of their mask bits, in the words of the specification. *)
Definition halfSpacesViolated (x y z w xDiscAdj yDiscAdj zNear : float) : list bool :=
  [ CreateFCmpOLT x (CreateFMul (CreateFNeg xDiscAdj) w);
    CreateFCmpOGT x (CreateFMul xDiscAdj w);
    CreateFCmpOLT y (CreateFMul (CreateFNeg yDiscAdj) w);
    CreateFCmpOGT y (CreateFMul yDiscAdj w);
    CreateFCmpOLT z (CreateFMul zNear w);
    CreateFCmpOGT z w ].

(** The near plane that the generated code selects is the one of the
    clip-space convention flag, bit 19 of PA_CL_CLIP_CNTL. *)
Lemma zNearOf_bit19 (paClClipCntl : Z) :
  zNearOf paClClipCntl = if Z.testbit paClClipCntl 19 then fconst (-1) else fconst 0.
Proof.
  unfold zNearOf, CreateSelect, CreateTruncI1.
  change (createUBfe paClClipCntl 19 1)
    with (Z.land (Z.shiftr (paClClipCntl mod 2 ^ 32) 19) 1).
  rewrite Z.land_spec, Z.shiftr_spec by lia.
  change (0 + 19) with 19. rewrite Z.mod_pow2_bits_low by lia.
  change (Z.testbit 1 0) with true. by rewrite andb_true_r.
Qed.

Lemma testbit_small (c i : Z) : 0 <= c < 64 -> 6 <= i -> Z.testbit c i = false.
Proof.
  intros Hc Hi. destruct (Z.eq_dec c 0) as [->|Hn]; [apply Z.bits_0|].
  apply Z.bits_above_log2; [lia|].
  assert (Z.log2 c < 6); [|lia]. apply Z.log2_lt_pow2; [lia | change (2 ^ 6) with 64; lia].
Qed.

Ltac eval_range :=
  match goal with
  | |- _ <= ?c < _ => let v := eval vm_compute in c in change c with v; lia
  end.

Lemma frustumClipMask_bits x y z w xd yd zn i :
  0 <= i ->
  Z.testbit (frustumClipMask x y z w xd yd zn) i
  = nth (Z.to_nat i) (halfSpacesViolated x y z w xd yd zn) false.
Proof.
  intros Hi. unfold frustumClipMask, halfSpacesViolated, CreateSelect, CreateOr.
  destruct (Z_lt_dec i 6) as [Hlt|Hge].
  - assert (i = 0 \/ i = 1 \/ i = 2 \/ i = 3 \/ i = 4 \/ i = 5) as Hcases by lia.
    repeat match goal with |- context [if ?b then _ else _] => destruct b end;
      destruct Hcases as [->|[->|[->|[->|[->| ->]]]]]; reflexivity.
  - rewrite nth_overflow by (cbn [length]; lia).
    repeat match goal with |- context [if ?b then _ else _] => destruct b end;
      (apply testbit_small; [eval_range | lia]).
Qed.

Lemma frustumClipMask_range x y z w xd yd zn :
  0 <= frustumClipMask x y z w xd yd zn < 64.
Proof.
  unfold frustumClipMask, CreateSelect, CreateOr.
  repeat match goal with |- context [if ?b then _ else _] => destruct b end; eval_range.
Qed.

Lemma land_lt_pow2 (x c n : Z) :
  0 <= n -> 0 <= c < 2 ^ n -> 0 <= Z.land x c < 2 ^ n.
Proof.
  intros Hn Hc.
  rewrite <- (Z.mod_small c (2 ^ n)) by lia.
  rewrite <- Z.land_ones, Z.land_assoc, Z.land_ones by lia.
  apply Z.mod_pos_bound. lia.
Qed.

Lemma land_nonzero_bit (a : Z) (i : Z) : Z.testbit a i = true -> a <> 0.
Proof. intros H ->. by rewrite Z.bits_0 in H. Qed.

Lemma bits_all_false_zero (m : Z) :
  0 <= m < 64 -> (forall i, 0 <= i < 6 -> Z.testbit m i = false) -> m = 0.
Proof.
  intros Hm H. apply Z.bits_inj'. intros i Hi. rewrite Z.bits_0.
  destruct (Z_lt_dec i 6); [apply H; lia | apply testbit_small; lia].
Qed.

(** C6: the frustum culler builds for each vertex the 6-bit mask of the
    half-spaces it violates (bit 0: x < -xDiscAdj*w, bit 1: x > xDiscAdj*w,
    bit 2: y < -yDiscAdj*w, bit 3: y > yDiscAdj*w, bit 4: z < zNear*w, bit 5:
    z > w), where zNear is chosen by the clip-space convention flag
    PA_CL_CLIP_CNTL[19]: -1.0 when the flag is set, 0.0 when it is clear.
    What the culler decides (its result for an incoming flag that is false)
    is true iff the bitwise AND of the three masks is nonzero.  So a triangle
    whose three vertices all have x > xDiscAdj*w is culled, and a triangle
    with a vertex that violates no half-space is not. *)
Theorem frustum_culler_masks (v0 v1 v2 : Vec4 float)
    (paClClipCntl paClGbHorzDiscAdj paClGbVertDiscAdj : Z) :
  let xDiscAdj := bitcastToFloat paClGbHorzDiscAdj in
  let yDiscAdj := bitcastToFloat paClGbVertDiscAdj in
  let zNear := if Z.testbit paClClipCntl 19 then fconst (-1) else fconst 0 in
  let bits v :=
    halfSpacesViolated (vecX v) (vecY v) (vecZ v) (vecW v) xDiscAdj yDiscAdj zNear in
  let outside v := CreateFCmpOGT (vecX v) (CreateFMul xDiscAdj (vecW v)) in
  let masks := frustumClipMasks v0 v1 v2 paClClipCntl paClGbHorzDiscAdj paClGbVertDiscAdj in
  let m0 := fst (fst masks) in
  let m1 := snd (fst masks) in
  let m2 := snd masks in
  zNearOf paClClipCntl = zNear /\
  (Z.testbit m0 4 = CreateFCmpOLT (vecZ v0) (CreateFMul zNear (vecW v0)) /\
   Z.testbit m1 4 = CreateFCmpOLT (vecZ v1) (CreateFMul zNear (vecW v1)) /\
   Z.testbit m2 4 = CreateFCmpOLT (vecZ v2) (CreateFMul zNear (vecW v2))) /\
  (forall i, 0 <= i ->
     Z.testbit m0 i = nth (Z.to_nat i) (bits v0) false /\
     Z.testbit m1 i = nth (Z.to_nat i) (bits v1) false /\
     Z.testbit m2 i = nth (Z.to_nat i) (bits v2) false) /\
  (0 <= m0 < 2 ^ 6 /\ 0 <= m1 < 2 ^ 6 /\ 0 <= m2 < 2 ^ 6) /\
  (frustumCuller false v0 v1 v2 paClClipCntl paClGbHorzDiscAdj paClGbVertDiscAdj = true
   <-> Z.land (Z.land m0 m1) m2 <> 0) /\
  (forall cullFlag,
     frustumCuller cullFlag v0 v1 v2 paClClipCntl paClGbHorzDiscAdj paClGbVertDiscAdj
     = cullFlag || negb (Z.land (Z.land m0 m1) m2 =? 0)) /\
  (outside v0 = true -> outside v1 = true -> outside v2 = true ->
   frustumCuller false v0 v1 v2 paClClipCntl paClGbHorzDiscAdj paClGbVertDiscAdj = true) /\
  (bits v0 = repeat false 6 \/ bits v1 = repeat false 6 \/ bits v2 = repeat false 6 ->
   frustumCuller false v0 v1 v2 paClClipCntl paClGbHorzDiscAdj paClGbVertDiscAdj = false).
Proof.
  intros xDiscAdj yDiscAdj zNear bits outside masks m0 m1 m2.
  assert (Hnear : zNearOf paClClipCntl = zNear) by apply zNearOf_bit19.
  assert (Hbits : forall i, 0 <= i ->
     Z.testbit m0 i = nth (Z.to_nat i) (bits v0) false /\
     Z.testbit m1 i = nth (Z.to_nat i) (bits v1) false /\
     Z.testbit m2 i = nth (Z.to_nat i) (bits v2) false).
  { intros i Hi. subst m0 m1 m2 masks bits. unfold frustumClipMasks.
    cbn [fst snd]. rewrite Hnear. fold xDiscAdj yDiscAdj.
    by rewrite !frustumClipMask_bits. }
  assert (Hr : 0 <= m0 < 2 ^ 6 /\ 0 <= m1 < 2 ^ 6 /\ 0 <= m2 < 2 ^ 6).
  { subst m0 m1 m2 masks. unfold frustumClipMasks. cbn [fst snd].
    change (2 ^ 6) with 64. repeat split; apply frustumClipMask_range. }
  assert (Hc : forall cullFlag,
     frustumCuller cullFlag v0 v1 v2 paClClipCntl paClGbHorzDiscAdj paClGbVertDiscAdj
     = cullFlag || negb (Z.land (Z.land m0 m1) m2 =? 0)).
  { intros cullFlag. rewrite frustumCuller_acc. f_equal.
    unfold frustumCuller.
    change (frustumClipMasks v0 v1 v2 paClClipCntl paClGbHorzDiscAdj paClGbVertDiscAdj)
      with masks.
    subst m0 m1 m2. clear Hbits. clearbody masks. destruct masks as [[a b] c]. cbn [fst snd].
    unfold CreateICmpNE, CreateAnd. change (wrap32 0) with 0. f_equal.
    rewrite wrap32_small; [done|].
    destruct Hr as (Ha & Hb & Hc'). cbn [fst snd] in *.
    apply land_lt_pow2; [lia|]. change (2 ^ 6) with 64 in Hc'.
    change (2 ^ 32) with 4294967296. lia. }
  split; [exact Hnear|].
  split; [destruct (Hbits 4 ltac:(lia)) as (-> & -> & ->); done|].
  split; [exact Hbits|]. split; [exact Hr|].
  split; [|split; [exact Hc|split]].
  - rewrite Hc. cbn [orb]. rewrite negb_true_iff, Z.eqb_neq. done.
  - intros H0 H1 H2. rewrite Hc. cbn [orb]. rewrite negb_true_iff, Z.eqb_neq.
    apply (land_nonzero_bit _ 1). rewrite !Z.land_spec.
    destruct (Hbits 1 ltac:(lia)) as (-> & -> & ->).
    subst bits. unfold halfSpacesViolated. cbn [nth Z.to_nat Pos.to_nat Pos.iter_op Init.Nat.add].
    fold (outside v0) (outside v1) (outside v2). by rewrite H0, H1, H2.
  - intros Hin. rewrite Hc. cbn [orb]. rewrite negb_false_iff, Z.eqb_eq.
    assert (Hz : forall v m, (forall i, 0 <= i -> Z.testbit m i = nth (Z.to_nat i) (bits v) false) ->
                 0 <= m < 2 ^ 6 -> bits v = repeat false 6 -> m = 0).
    { intros v m Hb Hm Hv. apply bits_all_false_zero; [done|].
      intros i Hi. rewrite Hb by lia. rewrite Hv.
      assert (i = 0 \/ i = 1 \/ i = 2 \/ i = 3 \/ i = 4 \/ i = 5) as Hcases by lia.
      destruct Hcases as [->|[->|[->|[->|[->| ->]]]]]; reflexivity. }
    destruct Hr as (Hr0 & Hr1 & Hr2).
    destruct Hin as [Hv|[Hv|Hv]].
    + rewrite (Hz v0 m0); [done | intros; by apply Hbits | done | done].
    + rewrite (Hz v1 m1); [by rewrite Z.land_0_r | intros; by apply Hbits | done | done].
    + rewrite (Hz v2 m2); [by rewrite Z.land_0_r | intros; by apply Hbits | done | done].
Qed.

Lemma signBit_shifted_bit (v i k : Z) :
  0 <= i < 32 -> 0 <= k ->
  Z.testbit (CreateShl (createUBfe v 31 1) i) k = (k =? i) && Z.testbit v 31.
Proof.
  intros Hi Hk. unfold CreateShl, createUBfe, CreateAnd, CreateLShr, wrap32.
  change (31 =? 0) with false. change (1 =? 32) with false. cbn [negb].
  change (Z.shiftl 1 1 mod 2 ^ 32 - 1) with (Z.ones 1).
  rewrite Z.land_ones by lia. change (2 ^ 1) with 2.
  destruct (Z_lt_dec k 32) as [Hlt|Hge].
  - rewrite Z.mod_pow2_bits_low by lia.
    destruct (Z_lt_dec k i) as [Hki|Hki].
    + rewrite Z.shiftl_spec_low by lia. replace (k =? i) with false; [done|].
      symmetry; apply Z.eqb_neq; lia.
    + rewrite Z.shiftl_spec by lia.
      destruct (Z.eq_dec k i) as [->|Hne].
      * rewrite Z.eqb_refl, Z.sub_diag. cbn [andb].
        rewrite <- Z.bit0_mod. rewrite Z.shiftr_spec by lia.
        rewrite Z.b2z_bit0. change (0 + 31) with 31.
        rewrite Z.mod_pow2_bits_low by lia. done.
      * replace (k =? i) with false by (symmetry; apply Z.eqb_neq; lia). cbn [andb].
        pose proof (Z.mod_pos_bound (Z.shiftr (v mod 2 ^ 32) 31) 2 ltac:(lia)) as Hb.
        apply (Z.bits_above_log2); [lia|].
        destruct (Z.eq_dec (Z.shiftr (v mod 2 ^ 32) 31 mod 2) 0) as [->|Hn0]; [cbn; lia|].
        replace (Z.shiftr (v mod 2 ^ 32) 31 mod 2) with 1 by lia. cbn. lia.
  - rewrite Z.mod_pow2_bits_high by lia.
    replace (k =? i) with false; [done|]. symmetry; apply Z.eqb_neq; lia.
Qed.

Lemma cullDistanceSignMaskFrom_bits (ds : list float) : forall i acc k,
  0 <= i -> i + Z.of_nat (length ds) <= 32 -> 0 <= k ->
  Z.testbit (cullDistanceSignMaskFrom i acc ds) k
  = Z.testbit acc k
    || ((i <=? k) && (k <? i + Z.of_nat (length ds))
        && Z.testbit (bitcastToInt (nth (Z.to_nat (k - i)) ds (fconst 0))) 31).
Proof.
  induction ds as [|d ds IH]; intros i acc k Hi Hlen Hk; cbn [cullDistanceSignMaskFrom length].
  - replace ((i <=? k) && (k <? i + Z.of_nat 0%nat)) with false; [by rewrite orb_false_r|].
    symmetry. apply andb_false_iff. rewrite Z.leb_gt, Z.ltb_ge. lia.
  - cbn [length] in Hlen. rewrite Nat2Z.inj_succ in Hlen |- *.
    rewrite IH by lia. unfold CreateOr. rewrite Z.lor_spec.
    rewrite signBit_shifted_bit by lia.
    destruct (Z.eq_dec k i) as [->|Hne].
    + rewrite Z.eqb_refl, Z.sub_diag. cbn [Z.to_nat nth andb].
      replace (i + 1 <=? i) with false by (symmetry; apply Z.leb_gt; lia).
      replace (i <=? i) with true by (symmetry; apply Z.leb_le; lia).
      replace (i <? i + Z.succ (Z.of_nat (length ds))) with true
        by (symmetry; apply Z.ltb_lt; lia).
      cbn [andb]. by rewrite orb_false_r.
    + replace (k =? i) with false by (symmetry; apply Z.eqb_neq; lia).
      cbn [andb]. rewrite orb_false_r. f_equal.
      destruct (Z_lt_dec k i) as [Hlt|Hge].
      * replace (i + 1 <=? k) with false by (symmetry; apply Z.leb_gt; lia).
        replace (i <=? k) with false by (symmetry; apply Z.leb_gt; lia). done.
      * replace (i + 1 <=? k) with true by (symmetry; apply Z.leb_le; lia).
        replace (i <=? k) with true by (symmetry; apply Z.leb_le; lia).
        replace (i + 1 + Z.of_nat (length ds)) with (i + Z.succ (Z.of_nat (length ds))) by lia.
        replace (Z.to_nat (k - i)) with (S (Z.to_nat (k - (i + 1)))) by lia.
        done.
Qed.

Lemma calcCullDistanceSignMask_range (ds : list float) :
  Z.of_nat (length ds) <= 32 -> 0 <= calcCullDistanceSignMask ds < 2 ^ 32.
Proof.
  intros Hlen.
  assert (Hnn : forall (l : list float) i acc, 0 <= acc -> 0 <= cullDistanceSignMaskFrom i acc l).
  { induction l as [|d l IH]; intros i acc Hacc; cbn [cullDistanceSignMaskFrom]; [done|].
    apply IH. unfold CreateOr. apply Z.lor_nonneg. split; [done|].
    unfold CreateShl. apply wrap32_range. }
  pose proof (Hnn ds 0 0 ltac:(lia)) as H0. fold (calcCullDistanceSignMask ds) in H0.
  split; [done|].
  destruct (Z.eq_dec (calcCullDistanceSignMask ds) 0) as [->|Hn]; [done|].
  apply Z.log2_lt_pow2; [lia|].
  destruct (Z_lt_dec (Z.log2 (calcCullDistanceSignMask ds)) 32) as [|Hge]; [done|].
  exfalso. pose proof (Z.bit_log2 (calcCullDistanceSignMask ds) ltac:(lia)) as Hb.
  unfold calcCullDistanceSignMask in Hb at 1.
  rewrite cullDistanceSignMaskFrom_bits in Hb; [|lia|lia|apply Z.log2_nonneg].
  rewrite Z.bits_0 in Hb. cbn [orb] in Hb.
  replace (Z.log2 (calcCullDistanceSignMask ds) <? 0 + Z.of_nat (length ds)) with false in Hb.
  - by rewrite andb_false_r in Hb.
  - symmetry. apply Z.ltb_ge. lia.
Qed.

(** C7 (as amended): the sign mask that the sign-mask loop computes from the
    cull distances of a vertex has bit i set iff the 32-bit pattern of the
    i-th cull distance has its sign bit (bit 31) set, and the cull-distance
    culler, given an incoming cull flag that is false, returns true iff the
    bitwise AND of the three vertices' sign masks is nonzero. *)
Theorem cull_distance_culler_sign_masks (cullDistance0 cullDistance1 cullDistance2 : list float) :
  Z.of_nat (length cullDistance0) <= 32 ->
  Z.of_nat (length cullDistance1) <= 32 ->
  Z.of_nat (length cullDistance2) <= 32 ->
  let signMask0 := calcCullDistanceSignMask cullDistance0 in
  let signMask1 := calcCullDistanceSignMask cullDistance1 in
  let signMask2 := calcCullDistanceSignMask cullDistance2 in
  (forall (ds : list float) (i : nat),
      Z.of_nat (length ds) <= 32 ->
      Z.testbit (calcCullDistanceSignMask ds) (Z.of_nat i)
      = match ds !! i with
        | Some d => Z.testbit (bitcastToInt d) 31
        | None => false
        end) /\
  (cullDistanceCuller false signMask0 signMask1 signMask2 = true
   <-> Z.land (Z.land signMask0 signMask1) signMask2 <> 0).
Proof.
  intros H0 H1 H2 m0 m1 m2. split.
  - intros ds i Hlen. unfold calcCullDistanceSignMask.
    rewrite cullDistanceSignMaskFrom_bits by lia.
    rewrite Z.bits_0. cbn [orb]. rewrite Z.sub_0_r, Nat2Z.id.
    replace (0 <=? Z.of_nat i) with true by (symmetry; apply Z.leb_le; lia). cbn [andb].
    destruct (ds !! i) as [d|] eqn:Hd.
    + pose proof (lookup_lt_Some _ _ _ Hd) as Hlt.
      replace (Z.of_nat i <? 0 + Z.of_nat (length ds)) with true
        by (symmetry; apply Z.ltb_lt; lia).
      cbn [andb]. by rewrite (nth_lookup_Some _ _ _ _ Hd).
    + pose proof (lookup_ge_None_1 _ _ Hd) as Hge.
      replace (Z.of_nat i <? 0 + Z.of_nat (length ds)) with false
        by (symmetry; apply Z.ltb_ge; lia).
      done.
  - unfold cullDistanceCuller, CreateICmpNE, CreateAnd. change (wrap32 0) with 0.
    rewrite negb_true_iff, Z.eqb_neq.
    pose proof (calcCullDistanceSignMask_range _ H0) as R0.
    pose proof (calcCullDistanceSignMask_range _ H1) as R1.
    pose proof (calcCullDistanceSignMask_range _ H2) as R2.
    fold m0 in R0. fold m1 in R1. fold m2 in R2. clearbody m0 m1 m2.
    rewrite wrap32_small; [done|].
    apply land_lt_pow2; lia.
Qed.

End CullerFacts.

(** ** The cullers on concrete triangles (exact arithmetic) *)

Definition exampleDiscAdj : Z := 0x3F800000.   (* 1.0f *)

Definition exampleOutside0 : Vec4 Q := mkVec4 (3 # 1) (0 # 1) (1 # 2) (1 # 1).
Definition exampleOutside1 : Vec4 Q := mkVec4 (5 # 1) (1 # 1) (1 # 2) (1 # 1).
Definition exampleOutside2 : Vec4 Q := mkVec4 (4 # 1) (-1 # 1) (1 # 2) (1 # 1).
Definition exampleInside : Vec4 Q := mkVec4 (0 # 1) (0 # 1) (1 # 2) (1 # 1).

(** C4, the claim as stated fails for the backface culler: in wireframe mode
    (PA_SU_SC_MODE_CNTL = 8, so POLY_MODE = 1) an incoming cull flag that is
    true comes back false. *)
Lemma backface_culler_wireframe_drops_flag :
  backfaceCuller (SF := exactFloats) true exampleOutside0 exampleOutside1 exampleOutside2
                 0 8 0 0 = false.
Proof. vm_compute. reflexivity. Qed.

(** Three vertices between the two near planes: z = -w/2 is in front of
    zNear = 0 and behind zNear = -1. *)
Definition exampleNear0 : Vec4 Q := mkVec4 (0 # 1) (0 # 1) (-1 # 2) (1 # 1).
Definition exampleNear1 : Vec4 Q := mkVec4 (1 # 2) (0 # 1) (-1 # 2) (1 # 1).
Definition exampleNear2 : Vec4 Q := mkVec4 (0 # 1) (1 # 2) (-1 # 2) (1 # 1).

(** PA_CL_CLIP_CNTL with only DX_CLIP_SPACE_DEF (bit 19) set. *)
Definition exampleDxClipSpace : Z := 0x80000.

Lemma frustum_culler_masks_witness :
  frustumCuller (SF := exactFloats) false exampleOutside0 exampleOutside1 exampleOutside2
                0 exampleDiscAdj exampleDiscAdj = true /\
  frustumCuller (SF := exactFloats) false exampleOutside0 exampleInside exampleOutside2
                0 exampleDiscAdj exampleDiscAdj = false /\
  frustumCuller (SF := exactFloats) false exampleNear0 exampleNear1 exampleNear2
                0 exampleDiscAdj exampleDiscAdj = true /\
  frustumCuller (SF := exactFloats) false exampleNear0 exampleNear1 exampleNear2
                exampleDxClipSpace exampleDiscAdj exampleDiscAdj = false.
Proof.
  split; [|split; [|split]].
  - destruct (frustum_culler_masks (SF := exactFloats) exampleOutside0 exampleOutside1
                exampleOutside2 0 exampleDiscAdj exampleDiscAdj)
      as (_ & _ & _ & _ & _ & _ & Hout & _).
    apply Hout; vm_compute; reflexivity.
  - destruct (frustum_culler_masks (SF := exactFloats) exampleOutside0 exampleInside
                exampleOutside2 0 exampleDiscAdj exampleDiscAdj)
      as (_ & _ & _ & _ & _ & _ & _ & Hin).
    apply Hin. right; left. vm_compute. reflexivity.
  - destruct (frustum_culler_masks (SF := exactFloats) exampleNear0 exampleNear1
                exampleNear2 0 exampleDiscAdj exampleDiscAdj)
      as (_ & _ & _ & _ & Hiff & _).
    apply Hiff. vm_compute. discriminate.
  - destruct (frustum_culler_masks (SF := exactFloats) exampleNear0 exampleNear1
                exampleNear2 exampleDxClipSpace exampleDiscAdj exampleDiscAdj)
      as (_ & _ & _ & _ & _ & _ & _ & Hin).
    apply Hin. left. vm_compute. reflexivity.
Defined.

Lemma cull_distance_culler_sign_masks_witness :
  cullDistanceCuller false
    (calcCullDistanceSignMask (SF := exactFloats) [(-1 # 1)%Q; (2 # 1)%Q])
    (calcCullDistanceSignMask (SF := exactFloats) [(-3 # 1)%Q; (1 # 1)%Q])
    (calcCullDistanceSignMask (SF := exactFloats) [(-1 # 2)%Q; (-1 # 1)%Q]) = true.
Proof.
  apply (cull_distance_culler_sign_masks (SF := exactFloats)
           [(-1 # 1)%Q; (2 # 1)%Q] [(-3 # 1)%Q; (1 # 1)%Q] [(-1 # 2)%Q; (-1 # 1)%Q]);
    [simpl; lia | simpl; lia | simpl; lia | vm_compute; discriminate].
Defined.

(** In the bit-pattern instance a value is less than 0.0 exactly when its
    sign bit is set and it is neither a zero nor a NaN: the sign bit of a
    negative value is set, and the values that have it set without being
    negative are -0.0 and the NaNs. *)
Lemma pattern_negative_sign_bit (d : float (ShaderFloats := patternFloats)) :
  CreateFCmpOLT d (fconst 0) = true
  <-> Z.testbit (bitcastToInt d) 31 = true /\ isNaN32 d = false
      /\ Z.land d (2 ^ 31 - 1) <> 0.
Proof.
  change (CreateFCmpOLT d (fconst 0))
    with (negb (isNaN32 d) && negb (isNaN32 0) && (orderKey32 d <? orderKey32 0)).
  change (bitcastToInt d) with d.
  change (isNaN32 0) with false. change (orderKey32 0) with 0. cbn [negb].
  rewrite andb_true_r. unfold orderKey32.
  assert (Hm : 0 <= Z.land d (2 ^ 31 - 1)) by (apply Z.land_nonneg; right; lia).
  set (m := Z.land d (2 ^ 31 - 1)) in *. clearbody m.
  rewrite andb_true_iff, negb_true_iff, Z.ltb_lt.
  destruct (Z.testbit d 31); split.
  - intros [Hn Hlt]. repeat split; [exact Hn | lia].
  - intros (_ & Hn & Hne). split; [exact Hn | lia].
  - intros [_ Hlt]. lia.
  - intros (Hf & _). discriminate.
Qed.

(** C7, the claim as stated fails for the sign bit of a value that is not
    negative: the cull distance -0.0 (pattern 0x80000000) equals 0.0 and is
    not less than it, yet bit 0 of the sign mask of a vertex with this one
    cull distance is set, and a triangle of three such vertices is culled. *)
Lemma cull_distance_sign_mask_negative_zero :
  let negativeZero : float (ShaderFloats := patternFloats) := bitcastToFloat 0x80000000 in
  let signMask := calcCullDistanceSignMask (SF := patternFloats) [negativeZero] in
  CreateFCmpOLT negativeZero (fconst 0) = false /\
  CreateFCmpOEQ negativeZero (fconst 0) = true /\
  Z.testbit signMask 0 = true /\
  ~ (Z.testbit signMask 0 = true <-> CreateFCmpOLT negativeZero (fconst 0) = true) /\
  cullDistanceCuller false signMask signMask signMask = true.
Proof.
  cbv zeta. repeat split; try (vm_compute; reflexivity).
  intros [H _]. specialize (H ltac:(vm_compute; reflexivity)). vm_compute in H. discriminate.
Qed.

Lemma cullers_or_accumulate_witness :
  frustumCuller (SF := exactFloats) true exampleOutside0 exampleInside exampleOutside2
                0 exampleDiscAdj exampleDiscAdj = true /\
  implb (cullDistanceCuller false 1 1 1) (cullDistanceCuller true 1 1 1) = true.
Proof.
  destruct (cullers_or_accumulate (SF := exactFloats)) as (Hf & _ & _ & _ & _ & _ & Hm & _).
  split; [exact (Hf _ _ _ _ _ _)|].
  destruct (Hm false true exampleOutside0 exampleInside exampleOutside2 0 0 0 0 0 0 0 0 0
               false false 1 1 1 eq_refl) as (_ & _ & _ & _ & _ & Hc).
  exact Hc.
Defined.

(** ** Wave intrinsics *)

(** The number of set bits among the low [n] bits. *)
Fixpoint popcount (n : nat) (z : Z) : Z :=
  match n with
  | O => 0
  | S k => Z.b2z (Z.odd z) + popcount k (Z.div2 z)
  end.

(** [Intrinsic::ctpop] on an i64. *)
Definition ctpop (z : Z) : Z := popcount 64 z.

(** [amdgcn_mbcnt_lo(mask, acc)] and [amdgcn_mbcnt_hi(mask, acc)] in lane
    [lane]: [acc] plus the number of set bits of [mask] that belong to lanes
    below [lane], for the low and the high 32 lanes. *)
Definition amdgcn_mbcnt_lo (lane mask acc : Z) : Z :=
  CreateAdd acc (ctpop (Z.land (wrap32 mask) (Z.land (Z.ones lane) (Z.ones 32)))).

Definition amdgcn_mbcnt_hi (lane mask acc : Z) : Z :=
  CreateAdd acc (ctpop (Z.land (wrap32 mask) (Z.shiftr (Z.ones lane) 32))).

(** [NggPrimShader::ballot]: bit [i] of the mask is the value in lane [i]
    ([amdgcn_icmp] NE against 0, zero-extended to i64 for wave32). *)
Fixpoint ballot (value : list bool) : Z :=
  match value with
  | [] => 0
  | b :: rest => Z.b2z b + 2 * ballot rest
  end.

(** ** Wave/subgroup info extractor: [initWaveThreadInfo] *)

Record NggInputs : Set := {
  threadIdInWave : Z;
  threadIdInSubgroup : Z;
  waveIdInSubgroup : Z;
  primCountInSubgroup : Z;
  vertCountInSubgroup : Z;
  primCountInWave : Z;
  vertCountInWave : Z;
  orderedWaveId : Z;
  vertexIndex0 : Z;
  vertexIndex1 : Z;
  vertexIndex2 : Z;
  primData : Z
}.

(** [lane] is the hardware lane the invocation runs in; the vertex indices
    and [primData] are recorded by the callers right after. *)
Definition initWaveThreadInfo (waveSize mergedGroupInfo mergedWaveInfo lane : Z)
    (vertexIndex0 vertexIndex1 vertexIndex2 primData : Z) : NggInputs :=
  let threadIdInWave := amdgcn_mbcnt_lo lane (-1) 0 in
  let threadIdInWave :=
    if waveSize =? 64 then amdgcn_mbcnt_hi lane (-1) threadIdInWave else threadIdInWave in
  let primCountInSubgroup := createUBfe mergedGroupInfo 22 9 in
  let vertCountInSubgroup := createUBfe mergedGroupInfo 12 9 in
  let vertCountInWave := createUBfe mergedWaveInfo 0 8 in
  let primCountInWave := createUBfe mergedWaveInfo 8 8 in
  let waveIdInSubgroup := createUBfe mergedWaveInfo 24 4 in
  let orderedWaveId := createUBfe mergedGroupInfo 0 12 in
  let threadIdInSubgroup := CreateMul waveIdInSubgroup waveSize in
  let threadIdInSubgroup := CreateAdd threadIdInSubgroup threadIdInWave in
  {| threadIdInWave := threadIdInWave;
     threadIdInSubgroup := threadIdInSubgroup;
     waveIdInSubgroup := waveIdInSubgroup;
     primCountInSubgroup := primCountInSubgroup;
     vertCountInSubgroup := vertCountInSubgroup;
     primCountInWave := primCountInWave;
     vertCountInWave := vertCountInWave;
     orderedWaveId := orderedWaveId;
     vertexIndex0 := vertexIndex0;
     vertexIndex1 := vertexIndex1;
     vertexIndex2 := vertexIndex2;
     primData := primData |}.

(** ** Transform-feedback emulator: [processSwXfb] *)

Definition GDS_STRMOUT_DWORDS_WRITTEN_0 : Z := 0.
Definition GDS_STRMOUT_PRIMS_NEEDED_0 : Z := 8.
Definition GDS_STRMOUT_PRIMS_WRITTEN_0 : Z := 9.

Record XfbOutputExport : Set := {
  xfbBuffer : Z;
  xfbOffset : Z;
  numElements : Z;
  is16bit : bool
}.

(** What the emulator reads from the pipeline state and the stream-out
    tables: strides, descriptors ([<4 x i32>]) and offsets per buffer. *)
Record StreamOutInfo : Type := {
  xfbStrides : list Z;
  vertsPerPrim : Z;                       (* getVerticesPerPrimitive() *)
  streamOutBufDescs : list (Vec4 Z);      (* m_streamOutBufDescs *)
  streamOutBufOffsets : list Z;           (* m_streamOutBufOffsets *)
  xfbOutputExports : list XfbOutputExport
}.

Definition xfbStride (info : StreamOutInfo) (i : nat) : Z := wrap32 (nth i (xfbStrides info) 0).

Definition bufferActive (info : StreamOutInfo) (i : nat) : bool := 0 <? xfbStride info i.

(** [vertsPerPrim * xfbStrides[i] / sizeof(unsigned)], an [unsigned]. *)
Definition dwordsPerPrim (info : StreamOutInfo) (i : nat) : Z :=
  CreateMul (vertsPerPrim info) (xfbStride info i) / 4.

Definition streamOutBufOffset (info : StreamOutInfo) (i : nat) : Z :=
  nth i (streamOutBufOffsets info) 0.

(** NUM_RECORDS = SQ_BUF_RSRC_WORD2. *)
Definition numRecords (info : StreamOutInfo) (i : nat) : Z :=
  vecZ (nth i (streamOutBufDescs info) (mkVec4 0 0 0 0)).

(** [Intrinsic::smax], [Intrinsic::umin] and [CreateUDiv] on i32; a division
    by zero is undefined behaviour and has no result. *)
Definition smax (a b : Z) : Z := if signed32 a <? signed32 b then wrap32 b else wrap32 a.
Definition umin (a b : Z) : Z := Z.min (wrap32 a) (wrap32 b).
Definition CreateUDiv (a b : Z) : option Z :=
  if wrap32 b =? 0 then None else Some (wrap32 a / wrap32 b).

(** The GDS counters.  [ds_ordered_add] and [ds_add_gs_reg_rtn] add to a
    counter and return its previous value. *)
Definition gdsAdd (reg value : Z) (gds : gmap Z Z) : Z * gmap Z Z :=
  let old := default 0 (gds !! reg) in
  (old, <[reg := CreateAdd old value]> gds).

Definition xfbBufferIndices : list nat := seq 0 (Z.to_nat MaxTransformFeedbackBuffers).

(** [.prepareXfbExport], first loop: "Calculate numPrimsToWrite".  The
    counters are read by adding 0. *)
Definition calcNumPrimsToWrite (info : StreamOutInfo) (gds : gmap Z Z)
    (primCountInSubgroup : Z) : option Z :=
  foldl (fun acc i =>
           match acc with
           | None => None
           | Some numPrimsToWrite =>
               if bufferActive info i then
                 let dwordsWritten := fst (gdsAdd (GDS_STRMOUT_DWORDS_WRITTEN_0 + Z.of_nat i) 0 gds) in
                 let bufferSizeInDwords := CreateLShr (numRecords info i) 2 in
                 let dwordsRemaining :=
                   CreateSub bufferSizeInDwords
                             (CreateAdd (streamOutBufOffset info i) dwordsWritten) in
                 let dwordsRemaining := smax dwordsRemaining 0 in
                 match CreateUDiv dwordsRemaining (dwordsPerPrim info i) with
                 | None => None
                 | Some primsCanWrite => Some (umin numPrimsToWrite primsCanWrite)
                 end
               else Some numPrimsToWrite
           end)
        (Some primCountInSubgroup) xfbBufferIndices.

(** [.prepareXfbExport], second loop: "Increment dwordsWritten"; it leaves
    the previous counter values in [dwordsWritten]. *)
Definition incrementDwordsWritten (info : StreamOutInfo) (numPrimsToWrite : Z)
    (gds : gmap Z Z) : list (nat * Z) * gmap Z Z :=
  foldl (fun acc i =>
           if bufferActive info i then
             let dwordsToWrite := CreateMul numPrimsToWrite (dwordsPerPrim info i) in
             let r := gdsAdd (GDS_STRMOUT_DWORDS_WRITTEN_0 + Z.of_nat i) dwordsToWrite (snd acc) in
             (fst acc ++ [(i, fst r)], snd r)
           else acc)
        ([], gds) xfbBufferIndices.

(** The block [.prepareXfbExport], run by the lane with
    [threadIdInSubgroup == 0]. *)
Definition prepareXfbExport (info : StreamOutInfo) (ngg : NggInputs)
    (st : gmap Z Z * gmap (PrimShaderLdsRegion * Z) Z)
  : option (gmap Z Z * gmap (PrimShaderLdsRegion * Z) Z) :=
  let '(gds, lds) := st in
  match calcNumPrimsToWrite info gds (primCountInSubgroup ngg) with
  | None => None
  | Some numPrimsToWrite =>
      let '(dwordsWritten, gds) := incrementDwordsWritten info numPrimsToWrite gds in
      (* store transform feedback statistics info to LDS and GDS *)
      let lds := writeValueToLds numPrimsToWrite XfbStats MaxTransformFeedbackBuffers lds in
      let lds := foldl (fun l e => writeValueToLds (snd e) XfbStats (Z.of_nat (fst e)) l)
                       lds dwordsWritten in
      let gds := snd (gdsAdd GDS_STRMOUT_PRIMS_NEEDED_0 (primCountInSubgroup ngg) gds) in
      let gds := snd (gdsAdd GDS_STRMOUT_PRIMS_WRITTEN_0 numPrimsToWrite gds) in
      Some (gds, lds)
  end.

(** Where [readXfbOutputFromLds] and [writeXfbOutputToLds] place output
    [outputIndex] of a vertex: in the XFB output region in passthrough mode,
    inside the vertex cull info otherwise. *)
Definition xfbOutputLdsCell (passthroughMode : bool) (esGsRingItemSize xfbOutputsOffset : Z)
    (vertexIndex : Z) (outputIndex : nat) : PrimShaderLdsRegion * Z :=
  let vertexItemOffset := CreateMul vertexIndex esGsRingItemSize in
  if passthroughMode
  then (XfbOutput, CreateAdd vertexItemOffset (wrap32 (4 * Z.of_nat outputIndex)))
  else (VertexCullInfo,
        CreateAdd vertexItemOffset (wrap32 (xfbOutputsOffset + 4 * Z.of_nat outputIndex))).

(** A value of several dwords occupies consecutive cells. *)
Definition writeDwordsToLds (writeValue : list Z) (cell : PrimShaderLdsRegion * Z)
    (lds : gmap (PrimShaderLdsRegion * Z) Z) : gmap (PrimShaderLdsRegion * Z) Z :=
  foldl (fun l e => writeValueToLds (snd e) (fst cell) (snd cell + Z.of_nat (fst e)) l)
        lds (imap (fun k v => (k, v)) writeValue).

Definition readDwordsFromLds (lds : gmap (PrimShaderLdsRegion * Z) Z) (n : Z)
    (cell : PrimShaderLdsRegion * Z) : list Z :=
  map (fun k => readValueFromLds lds (fst cell) (snd cell + Z.of_nat k)) (seq 0 (Z.to_nat n)).

(** One [amdgcn_raw_tbuffer_store]: the data, the buffer whose descriptor is
    used, the offsets and the element format (count and width). *)
Record XfbStore : Set := {
  store_vdata : list Z;
  store_buffer : Z;
  store_offset : Z;
  store_soffset : Z;
  store_elements : Z;
  store_16bit : bool
}.

Section ProcessSwXfb.
Variable passthroughMode : bool.
Variable esGsRingItemSize : Z.
Variable xfbOutputsOffset : Z.          (* m_vertCullInfoOffsets.xfbOutputs *)
Variable info : StreamOutInfo.

(** [.fetchXfbOutput]: the outputs the ES computes for this vertex are
    written to LDS. *)
Definition fetchXfbOutputBlock (ngg : NggInputs) (xfbOutputs : list (list Z))
    (lds : gmap (PrimShaderLdsRegion * Z) Z) : gmap (PrimShaderLdsRegion * Z) Z :=
  if CreateICmpULT (threadIdInSubgroup ngg) (vertCountInSubgroup ngg)
  then foldl (fun l e =>
                writeDwordsToLds (snd e)
                  (xfbOutputLdsCell passthroughMode esGsRingItemSize xfbOutputsOffset
                                    (threadIdInSubgroup ngg) (fst e)) l)
             lds (imap (fun i v => (i, v)) xfbOutputs)
  else lds.

(** [.readXfbStatInfo] and [amdgcn_readlane]: lane [k] of the wave, with
    [k < 1 + MaxTransformFeedbackBuffers], holds dword [k] of the statistics. *)
Definition xfbStatInfoLane (lds : gmap (PrimShaderLdsRegion * Z) Z) (k : Z) : Z :=
  readPerThreadDataFromLds lds k XfbStats 0.

Definition numPrimsToWriteOf (lds : gmap (PrimShaderLdsRegion * Z) Z) : Z :=
  xfbStatInfoLane lds MaxTransformFeedbackBuffers.

Definition streamOutOffset (lds : gmap (PrimShaderLdsRegion * Z) Z) (i : nat) : Z :=
  CreateShl (CreateAdd (streamOutBufOffset info i) (xfbStatInfoLane lds (Z.of_nat i))) 2.

(** The relative vertex indices of the primitive in [.exportXfbOutput]. *)
Definition xfbVertexIndices (ngg : NggInputs) : list Z :=
  if passthroughMode
  then firstn (Z.to_nat (vertsPerPrim info))
         [createUBfe (primData ngg) 0 9; createUBfe (primData ngg) 10 9;
          createUBfe (primData ngg) 20 9]
  else [vertexIndex0 ngg; vertexIndex1 ngg; vertexIndex2 ngg].

(** The stores of one output of one vertex; a 16-bit 3-vector is split into
    a 2-vector and a scalar. *)
Definition exportOneXfbOutput (lds : gmap (PrimShaderLdsRegion * Z) Z) (ngg : NggInputs)
    (i : nat) (vertexIndex : Z) (j : nat) (xfbOutputExport : XfbOutputExport) : list XfbStore :=
  let outputValue :=
    readDwordsFromLds lds (numElements xfbOutputExport)
      (xfbOutputLdsCell passthroughMode esGsRingItemSize xfbOutputsOffset vertexIndex j) in
  let outputValue :=
    if is16bit xfbOutputExport then map (fun d => Z.land d (Z.ones 16)) outputValue
    else outputValue in
  let vertexOffset :=
    CreateAdd (CreateMul (threadIdInSubgroup ngg) (vertsPerPrim info)) (Z.of_nat i) in
  let vertexOffset :=
    CreateMul vertexOffset (xfbStride info (Z.to_nat (xfbBuffer xfbOutputExport))) in
  let xfbOutputOffset := CreateAdd vertexOffset (xfbOffset xfbOutputExport) in
  let soffset := streamOutOffset lds (Z.to_nat (xfbBuffer xfbOutputExport)) in
  if is16bit xfbOutputExport && (numElements xfbOutputExport =? 3)
  then [ {| store_vdata := firstn 2 outputValue; store_buffer := xfbBuffer xfbOutputExport;
            store_offset := xfbOutputOffset; store_soffset := soffset;
            store_elements := 2; store_16bit := true |};
         {| store_vdata := firstn 1 (skipn 2 outputValue);
            store_buffer := xfbBuffer xfbOutputExport;
            store_offset := CreateAdd xfbOutputOffset 4; store_soffset := soffset;
            store_elements := 1; store_16bit := true |} ]
  else [ {| store_vdata := outputValue; store_buffer := xfbBuffer xfbOutputExport;
            store_offset := xfbOutputOffset; store_soffset := soffset;
            store_elements := numElements xfbOutputExport;
            store_16bit := is16bit xfbOutputExport |} ].

(** [.endReadXfbStatInfo] and [.exportXfbOutput]: the buffer stores of one
    invocation, gated by [threadIdInSubgroup < numPrimsToWrite]. *)
Definition exportXfbOutputBlock (lds : gmap (PrimShaderLdsRegion * Z) Z) (ngg : NggInputs)
  : list XfbStore :=
  let numPrimsToWrite := numPrimsToWriteOf lds in
  let primValid := CreateICmpULT (threadIdInSubgroup ngg) numPrimsToWrite in
  if primValid
  then concat (imap (fun i vertexIndex =>
                 concat (imap (fun j e => exportOneXfbOutput lds ngg i vertexIndex j e)
                              (xfbOutputExports info)))
              (xfbVertexIndices ngg))
  else [].

(** [NggPrimShader::processSwXfb] for the invocations of a subgroup: the
    phases between barriers are run one after the other.  The result is the
    GDS, the LDS and, per invocation, the buffer stores it issues; there is
    none when a division by a zero [dwordsPerPrim] is reached. *)
Definition processSwXfb (threads : list (NggInputs * list (list Z)))
    (st : gmap Z Z * gmap (PrimShaderLdsRegion * Z) Z)
  : option (gmap Z Z * gmap (PrimShaderLdsRegion * Z) Z * list (list XfbStore)) :=
  let '(gds, lds) := st in
  let lds := foldl (fun l t => fetchXfbOutputBlock (fst t) (snd t) l) lds threads in
  let prepared :=
    foldl (fun acc t =>
             match acc with
             | None => None
             | Some s =>
                 if CreateICmpEQ (threadIdInSubgroup (fst t)) 0
                 then prepareXfbExport info (fst t) s else Some s
             end)
          (Some (gds, lds)) threads in
  match prepared with
  | None => None
  | Some (gds, lds) =>
      (* barrier *)
      Some (gds, lds, map (fun t => exportXfbOutputBlock lds (fst t)) threads)
  end.

End ProcessSwXfb.

(** *** The clamp, in the words of the specification *)

Definition dwordsWrittenOf (gds : gmap Z Z) (i : nat) : Z :=
  default 0 (gds !! (GDS_STRMOUT_DWORDS_WRITTEN_0 + Z.of_nat i)).

Definition bufferSizeInDwords (info : StreamOutInfo) (i : nat) : Z := numRecords info i / 4.

(** max(0, bufferSizeInDwords - (bufferOffset + dwordsWritten)) / dwordsPerPrimitive *)
Definition primsCanWrite (info : StreamOutInfo) (gds : gmap Z Z) (i : nat) : Z :=
  Z.max 0 (bufferSizeInDwords info i - (streamOutBufOffset info i + dwordsWrittenOf gds i))
  / dwordsPerPrim info i.

(** min(subgroup primitive count, min over all active buffers of ...) *)
Definition numPrimsToWriteSpec (info : StreamOutInfo) (gds : gmap Z Z) (primCount : Z) : Z :=
  fold_right Z.min primCount
             (map (primsCanWrite info gds) (List.filter (bufferActive info) xfbBufferIndices)).

(** The quantities are 32-bit values, an active buffer takes at least one
    dword per primitive, and the signed difference between the buffer size
    and the filled part is representable. *)
Definition xfbBufferInRange (info : StreamOutInfo) (gds : gmap Z Z) (i : nat) : bool :=
  (0 <? dwordsPerPrim info i)
  && (0 <=? numRecords info i) && (numRecords info i <? 2 ^ 32)
  && (0 <=? streamOutBufOffset info i) && (streamOutBufOffset info i <? 2 ^ 32)
  && (0 <=? dwordsWrittenOf gds i) && (dwordsWrittenOf gds i <? 2 ^ 32)
  && (- 2 ^ 31 <=? bufferSizeInDwords info i - (streamOutBufOffset info i + dwordsWrittenOf gds i))
  && (bufferSizeInDwords info i - (streamOutBufOffset info i + dwordsWrittenOf gds i) <? 2 ^ 31).

Definition xfbInRange (info : StreamOutInfo) (gds : gmap Z Z) (primCount : Z) : bool :=
  (0 <=? primCount) && (primCount <? 2 ^ 32)
  && forallb (fun i => implb (bufferActive info i) (xfbBufferInRange info gds i)) xfbBufferIndices.

Lemma wrap32_sub_idemp_r a b : wrap32 (a - wrap32 b) = wrap32 (a - b).
Proof. unfold wrap32. apply Zminus_mod_idemp_r. Qed.

Lemma signed32_small d : - 2 ^ 31 <= d < 2 ^ 31 -> signed32 (wrap32 d) = d.
Proof.
  intros Hd. unfold signed32.
  assert (Hw : wrap32 (wrap32 d) = wrap32 d).
  { unfold wrap32. apply Z.mod_mod. change (2 ^ 32) with 4294967296. lia. }
  rewrite Hw. unfold wrap32.
  change (2 ^ 31) with 2147483648 in *. change (2 ^ 32) with 4294967296 in *.
  destruct (Z_lt_dec d 0) as [Hneg|Hpos].
  - replace (d mod 4294967296) with (d + 4294967296).
    + destruct (d + 4294967296 <? 2147483648) eqn:E; [apply Z.ltb_lt in E|]; lia.
    + apply (Z.mod_unique _ _ (-1)); lia.
  - rewrite Z.mod_small by lia.
    destruct (d <? 2147483648) eqn:E; [done|]. apply Z.ltb_ge in E. lia.
Qed.

Lemma primsCanWrite_step info gds i :
  xfbBufferInRange info gds i = true ->
  CreateUDiv (smax (CreateSub (CreateLShr (numRecords info i) 2)
                              (CreateAdd (streamOutBufOffset info i)
                                 (fst (gdsAdd (GDS_STRMOUT_DWORDS_WRITTEN_0 + Z.of_nat i) 0 gds))))
                   0)
             (dwordsPerPrim info i)
  = Some (primsCanWrite info gds i)
  /\ 0 <= primsCanWrite info gds i < 2 ^ 31.
Proof.
  unfold xfbBufferInRange. rewrite !andb_true_iff.
  rewrite !Z.ltb_lt, !Z.leb_le.
  intros ((((((((Hdpp & Hn0) & Hn1) & Ho0) & Ho1) & Hw0) & Hw1) & Hd0) & Hd1).
  unfold primsCanWrite. cbn [gdsAdd fst]. fold (dwordsWrittenOf gds i).
  set (off := streamOutBufOffset info i) in *.
  set (dw := dwordsWrittenOf gds i) in *.
  set (dpp := dwordsPerPrim info i) in *.
  assert (Hsz : CreateLShr (numRecords info i) 2 = bufferSizeInDwords info i).
  { unfold CreateLShr, bufferSizeInDwords. rewrite wrap32_small by lia.
    rewrite Z.shiftr_div_pow2 by lia. done. }
  rewrite Hsz. set (sz := bufferSizeInDwords info i) in *.
  assert (Hsub : CreateSub sz (CreateAdd off dw) = wrap32 (sz - (off + dw))).
  { unfold CreateSub, CreateAdd. apply wrap32_sub_idemp_r. }
  rewrite Hsub. set (d := sz - (off + dw)) in *.
  assert (Hdppr : 0 < dpp < 2 ^ 32).
  { split; [done|]. subst dpp. unfold dwordsPerPrim, CreateMul.
    pose proof (wrap32_range (vertsPerPrim info * xfbStride info i)) as Hr.
    assert (wrap32 (vertsPerPrim info * xfbStride info i) / 4
            <= wrap32 (vertsPerPrim info * xfbStride info i)); [|lia].
    apply Z.div_le_upper_bound; lia. }
  clearbody d dpp sz off dw.
  change (2 ^ 31) with 2147483648 in *. change (2 ^ 32) with 4294967296 in *.
  assert (Hmax : smax (wrap32 d) 0 = Z.max 0 d).
  { unfold smax. rewrite signed32_small by (change (2 ^ 31) with 2147483648; lia).
    change (signed32 0) with 0. change (wrap32 0) with 0.
    destruct (d <? 0) eqn:E.
    - apply Z.ltb_lt in E. lia.
    - apply Z.ltb_ge in E. unfold wrap32. rewrite Z.mod_mod by lia.
      change (2 ^ 32) with 4294967296. rewrite Z.mod_small by lia. lia. }
  rewrite Hmax. unfold CreateUDiv.
  rewrite (wrap32_small dpp) by (change (2 ^ 32) with 4294967296; lia).
  rewrite (wrap32_small (Z.max 0 d)) by (change (2 ^ 32) with 4294967296; lia).
  replace (dpp =? 0) with false by (symmetry; apply Z.eqb_neq; lia).
  split; [done|].
  split; [apply Z.div_pos; lia|].
  assert (Z.max 0 d / dpp <= Z.max 0 d); [|lia].
  apply Z.div_le_upper_bound; nia.
Qed.

Lemma fold_right_min_acc (xs : list Z) (n r : Z) :
  fold_right Z.min (Z.min n r) xs = Z.min r (fold_right Z.min n xs).
Proof. induction xs as [|x xs IH]; cbn [fold_right]; [lia|]. rewrite IH. lia. Qed.

Lemma calcNumPrimsToWrite_fold info gds (l : list nat) : forall n,
  0 <= n < 2 ^ 32 ->
  forallb (fun i => implb (bufferActive info i) (xfbBufferInRange info gds i)) l = true ->
  let step := fun (acc : option Z) (i : nat) =>
           match acc with
           | None => None
           | Some numPrimsToWrite =>
               if bufferActive info i then
                 let dwordsWritten := fst (gdsAdd (GDS_STRMOUT_DWORDS_WRITTEN_0 + Z.of_nat i) 0 gds) in
                 let bufferSizeInDwords := CreateLShr (numRecords info i) 2 in
                 let dwordsRemaining :=
                   CreateSub bufferSizeInDwords
                             (CreateAdd (streamOutBufOffset info i) dwordsWritten) in
                 let dwordsRemaining := smax dwordsRemaining 0 in
                 match CreateUDiv dwordsRemaining (dwordsPerPrim info i) with
                 | None => None
                 | Some primsCanWrite => Some (umin numPrimsToWrite primsCanWrite)
                 end
               else Some numPrimsToWrite
           end in
  foldl step (Some n) l
  = Some (fold_right Z.min n (map (primsCanWrite info gds) (List.filter (bufferActive info) l)))
  /\ 0 <= fold_right Z.min n (map (primsCanWrite info gds) (List.filter (bufferActive info) l))
       < 2 ^ 32.
Proof.
  induction l as [|i l IH]; intros n Hn Hall step; cbn [foldl List.filter map fold_right].
  - done.
  - cbn [forallb] in Hall. apply andb_true_iff in Hall as [Hi Hl].
    subst step. cbn beta iota zeta.
    destruct (bufferActive info i) eqn:Ha; cbn [implb] in Hi.
    + destruct (primsCanWrite_step info gds i Hi) as [Hs Hr].
      cbv zeta in Hs. rewrite Hs.
      assert (Hu : umin n (primsCanWrite info gds i) = Z.min n (primsCanWrite info gds i)).
      { unfold umin. rewrite !wrap32_small; [done| |done].
        change (2 ^ 31) with 2147483648 in Hr. change (2 ^ 32) with 4294967296. lia. }
      rewrite Hu.
      assert (Hn' : 0 <= Z.min n (primsCanWrite info gds i) < 2 ^ 32) by lia.
      destruct (IH _ Hn' Hl) as [IH1 IH2]. cbv zeta in IH1.
      cbn [map fold_right]. rewrite IH1. rewrite fold_right_min_acc in IH2 |- *.
      split; [done|]. lia.
    + destruct (IH _ Hn Hl) as [IH1 IH2]. cbv zeta in IH1. by rewrite IH1.
Qed.

Lemma calcNumPrimsToWrite_spec info gds primCount :
  xfbInRange info gds primCount = true ->
  calcNumPrimsToWrite info gds primCount = Some (numPrimsToWriteSpec info gds primCount)
  /\ 0 <= numPrimsToWriteSpec info gds primCount < 2 ^ 32.
Proof.
  unfold xfbInRange. rewrite !andb_true_iff, Z.leb_le, Z.ltb_lt.
  intros [[H0 H1] Hall].
  exact (calcNumPrimsToWrite_fold info gds xfbBufferIndices primCount (conj H0 H1) Hall).
Qed.

Lemma incrementDwordsWritten_indices info n gds :
  Forall (fun e : nat * Z => (fst e < 4)%nat) (fst (incrementDwordsWritten info n gds)).
Proof.
  unfold incrementDwordsWritten.
  change xfbBufferIndices with [0%nat; 1%nat; 2%nat; 3%nat]. cbn [foldl].
  destruct (bufferActive info 0), (bufferActive info 1), (bufferActive info 2),
    (bufferActive info 3); cbn [fst snd app]; repeat constructor.
Qed.

Lemma writeStats_other (ws : list (nat * Z)) : forall lds,
  Forall (fun e : nat * Z => (fst e < 4)%nat) ws ->
  readValueFromLds
    (foldl (fun l e => writeValueToLds (snd e) XfbStats (Z.of_nat (fst e)) l) lds ws)
    XfbStats 4
  = readValueFromLds lds XfbStats 4.
Proof.
  induction ws as [|e ws IH]; intros lds Hall; cbn [foldl]; [done|].
  inversion Hall as [|? ? He Hws]; subst.
  rewrite IH by done. unfold readValueFromLds, writeValueToLds.
  rewrite lookup_insert_ne; [done|]. intros [=]. lia.
Qed.

Lemma prepareXfbExport_stats info ngg gds lds n :
  calcNumPrimsToWrite info gds (primCountInSubgroup ngg) = Some n ->
  exists gds' lds',
    prepareXfbExport info ngg (gds, lds) = Some (gds', lds') /\
    numPrimsToWriteOf lds' = n.
Proof.
  intros Hc. unfold prepareXfbExport. rewrite Hc.
  destruct (incrementDwordsWritten info n gds) as [ws gds1] eqn:Hinc.
  eexists _, _. split; [reflexivity|].
  unfold numPrimsToWriteOf, xfbStatInfoLane, readPerThreadDataFromLds.
  change (perThreadLdsOffset 1 MaxTransformFeedbackBuffers 0) with 4.
  rewrite writeStats_other.
  - unfold readValueFromLds, writeValueToLds.
    change MaxTransformFeedbackBuffers with 4. by rewrite lookup_insert_eq.
  - pose proof (incrementDwordsWritten_indices info n gds) as Hi. by rewrite Hinc in Hi.
Qed.

Lemma prepare_skips_other_threads info (l : list (NggInputs * list (list Z))) :
  forall s,
  Forall (fun t => CreateICmpEQ (threadIdInSubgroup (fst t)) 0 = false) l ->
  foldl (fun acc t =>
           match acc with
           | None => None
           | Some s =>
               if CreateICmpEQ (threadIdInSubgroup (fst t)) 0
               then prepareXfbExport info (fst t) s else Some s
           end) s l = s.
Proof.
  induction l as [|t l IH]; intros s Hall; cbn [foldl]; [done|].
  inversion Hall as [|? ? Ht Hl]; subst. rewrite Ht.
  destruct s as [s|]; by rewrite IH.
Qed.

(** C8: the transform-feedback emulator clamps the number of primitives
    written to the remaining buffer capacity.  The single reserving lane
    (the one with thread id 0) computes
    numPrimsToWrite = min(subgroup primitive count, min over the active
    buffers of max(0, bufferSizeInDwords - (bufferOffset + dwordsWritten))
    / dwordsPerPrimitive), it reaches every invocation through the
    statistics region of the LDS, and an invocation whose thread id is not
    below numPrimsToWrite issues no buffer store. *)
Theorem xfb_clamps_to_buffer_capacity
    (passthroughMode : bool) (esGsRingItemSize xfbOutputsOffset : Z) (info : StreamOutInfo)
    (before after : list (NggInputs * list (list Z))) (reserving : NggInputs * list (list Z))
    (gds : gmap Z Z) (lds : gmap (PrimShaderLdsRegion * Z) Z) :
  let primCount := primCountInSubgroup (fst reserving) in
  let n := numPrimsToWriteSpec info gds primCount in
  xfbInRange info gds primCount = true ->
  CreateICmpEQ (threadIdInSubgroup (fst reserving)) 0 = true ->
  Forall (fun t => CreateICmpEQ (threadIdInSubgroup (fst t)) 0 = false) (before ++ after) ->
  calcNumPrimsToWrite info gds primCount = Some n /\
  n <= primCount /\
  (forall i, In i xfbBufferIndices -> bufferActive info i = true ->
             n <= primsCanWrite info gds i) /\
  (n = primCount \/
   exists i, In i xfbBufferIndices /\ bufferActive info i = true /\
             n = primsCanWrite info gds i) /\
  exists gds' lds' stores,
    processSwXfb passthroughMode esGsRingItemSize xfbOutputsOffset info
                 (before ++ reserving :: after) (gds, lds)
    = Some (gds', lds', stores) /\
    numPrimsToWriteOf lds' = n /\
    length stores = length (before ++ reserving :: after) /\
    forall k t s,
      (before ++ reserving :: after) !! k = Some t -> stores !! k = Some s ->
      s <> [] -> wrap32 (threadIdInSubgroup (fst t)) < n.
Proof.
  intros primCount n Hr H0 Hothers.
  destruct (calcNumPrimsToWrite_spec info gds primCount Hr) as [Hc Hn]. fold n in Hc, Hn.
  split; [exact Hc|].
  assert (Hmin : forall (l : list nat),
             fold_right Z.min primCount
               (map (primsCanWrite info gds) (List.filter (bufferActive info) l)) <= primCount /\
             (forall i, In i l -> bufferActive info i = true ->
                fold_right Z.min primCount
                  (map (primsCanWrite info gds) (List.filter (bufferActive info) l))
                <= primsCanWrite info gds i) /\
             (fold_right Z.min primCount
                (map (primsCanWrite info gds) (List.filter (bufferActive info) l)) = primCount \/
              exists i, In i l /\ bufferActive info i = true /\
                fold_right Z.min primCount
                  (map (primsCanWrite info gds) (List.filter (bufferActive info) l))
                = primsCanWrite info gds i)).
  { induction l as [|i l (IH1 & IH2 & IH3)]; cbn [List.filter map fold_right].
    - split; [lia|]. split; [intros i []|]. by left.
    - destruct (bufferActive info i) eqn:Ha; cbn [map fold_right].
      + split; [lia|]. split.
        * intros j [->|Hj] Hj'; [lia|]. specialize (IH2 j Hj Hj'). lia.
        * destruct (Z_le_dec (primsCanWrite info gds i)
                      (fold_right Z.min primCount
                         (map (primsCanWrite info gds) (List.filter (bufferActive info) l)))).
          -- right. exists i. split; [by left|]. split; [done|]. lia.
          -- destruct IH3 as [IH3|(j & Hj & Hj' & IH3)].
             ++ left. lia.
             ++ right. exists j. split; [by right|]. split; [done|]. lia.
      + split; [done|]. split.
        * intros j [->|Hj] Hj'; [congruence|]. by apply IH2.
        * destruct IH3 as [IH3|(j & Hj & Hj' & IH3)]; [by left|].
          right. exists j. split; [by right|]. done. }
  destruct (Hmin xfbBufferIndices) as (Hm1 & Hm2 & Hm3).
  fold (numPrimsToWriteSpec info gds primCount) in Hm1, Hm2, Hm3. fold n in Hm1, Hm2, Hm3.
  split; [exact Hm1|]. split; [exact Hm2|]. split; [exact Hm3|].
  apply Forall_app in Hothers as [Hb Ha].
  unfold processSwXfb.
  set (lds1 := foldl _ lds _).
  rewrite foldl_app. cbn [foldl].
  rewrite (prepare_skips_other_threads info before _ Hb). rewrite H0.
  destruct (prepareXfbExport_stats info (fst reserving) gds lds1 n Hc)
    as (gds' & lds' & Hp & Hread).
  rewrite (prepare_skips_other_threads info after _ Ha). rewrite Hp.
  exists gds', lds', (map (fun t => exportXfbOutputBlock passthroughMode esGsRingItemSize
                                      xfbOutputsOffset info lds' (fst t))
                          (before ++ reserving :: after)).
  split; [reflexivity|]. split; [exact Hread|]. split; [by rewrite length_map|].
  intros k t s Ht Hs Hne.
  rewrite list_lookup_fmap, Ht in Hs. cbn in Hs. injection Hs as <-.
  unfold exportXfbOutputBlock in Hne. rewrite Hread in Hne.
  unfold CreateICmpULT in Hne.
  destruct (wrap32 (threadIdInSubgroup (fst t)) <? wrap32 n) eqn:E; [|done].
  apply Z.ltb_lt in E. by rewrite (wrap32_small n) in E.
Qed.

(** A subgroup of 8 primitives and 10 vertices in one wave of 32 lanes whose
    only active buffer (stride 16 bytes, 100 dwords, 10 dwords of offset, 30
    dwords written so far) has room for 5 primitives. *)
Definition exampleStreamOut : StreamOutInfo :=
  {| xfbStrides := [16; 0; 0; 0];
     vertsPerPrim := 3;
     streamOutBufDescs := [mkVec4 0 0 400 0];
     streamOutBufOffsets := [10];
     xfbOutputExports :=
       [ {| xfbBuffer := 0; xfbOffset := 0; numElements := 4; is16bit := false |} ] |}.

Definition exampleGds : gmap Z Z := {[ GDS_STRMOUT_DWORDS_WRITTEN_0 := 30 ]}.

Definition exampleXfbThread (lane : nat) : NggInputs * list (list Z) :=
  (initWaveThreadInfo 32 (Z.lor (Z.shiftl 8 22) (Z.shiftl 10 12)) (Z.lor (Z.shiftl 8 8) 10)
                      (Z.of_nat lane) (Z.of_nat lane) (Z.of_nat lane + 1) (Z.of_nat lane + 2) 0,
   [[1; 2; 3; 4]]).

Lemma xfb_clamps_to_buffer_capacity_witness :
  calcNumPrimsToWrite exampleStreamOut exampleGds 8 = Some 5 /\
  exists gds' lds' stores,
    processSwXfb false 5 0 exampleStreamOut (map exampleXfbThread (seq 0 8)) (exampleGds, ∅)
    = Some (gds', lds', stores) /\
    numPrimsToWriteOf lds' = 5.
Proof.
  destruct (xfb_clamps_to_buffer_capacity false 5 0 exampleStreamOut []
              (map exampleXfbThread (seq 1 7)) (exampleXfbThread 0) exampleGds ∅)
    as (Hc & _ & _ & _ & gds' & lds' & stores & Hrun & Hn & _).
  - vm_compute. reflexivity.
  - vm_compute. reflexivity.
  - repeat (constructor; [vm_compute; reflexivity|]). constructor.
  - split; [exact Hc|]. exists gds', lds', stores. split; [exact Hrun | exact Hn].
Defined.


(** ** The primitive shader of the culling mode without API GS:
       [buildPrimShader] *)

(** [VertexCullInfoOffsets]: dword offsets within an item of vertex cull
    info. *)
Record VertexCullInfoOffsets : Set := {
  off_xfbOutputs : Z;
  off_cullDistanceSignMask : Z;
  off_drawFlag : Z;
  off_compactedVertexIndex : Z;
  off_tessCoordX : Z;
  off_tessCoordY : Z;
  off_relPatchId : Z;
  off_patchId : Z;
  off_vertexId : Z;
  off_instanceId : Z;
  off_primitiveId : Z
}.

(** The built-in usage of the hardware ES (TES or VS) that the shader
    consults. *)
Record BuiltInUsage : Set := {
  tessCoord : bool;             (* builtInUsage.tes.tessCoord *)
  tesPrimitiveId : bool;        (* builtInUsage.tes.primitiveId *)
  vertexIndex : bool;           (* builtInUsage.vs.vertexIndex *)
  instanceIndex : bool;         (* builtInUsage.vs.instanceIndex *)
  pointSize : bool;
  layer : bool;
  viewportIndex : bool;
  primitiveShadingRate : bool;
  clipDistance : Z;
  cullDistance : Z
}.

(** Everything fixed when the shader is generated. *)
Record ShaderConfig : Type := {
  waveSize : Z;                                  (* getShaderWaveSize(ShaderStageGeometry) *)
  pipelineState : PipelineState;
  nggControl : NggControl;
  cbLayoutTable : PrimShaderCbLayoutLookupTable; (* m_cbLayoutTable *)
  builtInUsage : BuiltInUsage;
  xfbOutputExpCount : Z;                         (* inOutUsage.xfbOutputExpCount *)
  waNggCullingNoEmptySubgroups : bool;           (* getGpuWorkarounds().gfx10 *)
  constPositionZ : bool;                         (* m_constPositionZ *)
  NggSmallSubgroupThreshold : Z;                 (* -ngg-small-subgroup-threshold *)
  provokingVertexFirst : bool;                   (* provokingVertexMode == ProvokingVertexFirst *)
  streamOut : StreamOutInfo
}.

(** [NggPrimShader::calcVertexCullInfoSizeAndOffsets].  Each transform
    feedback output takes 4 dwords and every other member of
    [VertexCullInfo] one dword (the structure is declared outside the
    sources). *)
Definition calcVertexCullInfoSizeAndOffsets (cfg : ShaderConfig) : Z * VertexCullInfoOffsets :=
  let ps := pipelineState cfg in
  let zero := {| off_xfbOutputs := 0; off_cullDistanceSignMask := 0; off_drawFlag := 0;
                 off_compactedVertexIndex := 0; off_tessCoordX := 0; off_tessCoordY := 0;
                 off_relPatchId := 0; off_patchId := 0; off_vertexId := 0;
                 off_instanceId := 0; off_primitiveId := 0 |} in
  if hasGs ps || passthroughMode ps then (0, zero)
  else
    let cullInfoOffset := 0 in
    (* xfbOutputs *)
    let xfbOutputs := cullInfoOffset in
    let cullInfoOffset :=
      if enableSwXfb ps then cullInfoOffset + 4 * xfbOutputExpCount cfg else cullInfoOffset in
    (* cullDistanceSignMask *)
    let cullDistanceSignMask := cullInfoOffset in
    let cullInfoOffset :=
      if enableCullDistanceCulling (nggControl cfg) then cullInfoOffset + 1 else cullInfoOffset in
    (* drawFlag *)
    let drawFlag := cullInfoOffset in
    let cullInfoOffset := cullInfoOffset + 1 in
    if compactVertex ps then
      let compactedVertexIndex := cullInfoOffset in
      let cullInfoOffset := cullInfoOffset + 1 in
      if hasTes ps then
        let tessCoordX := cullInfoOffset in
        let cullInfoOffset :=
          if tessCoord (builtInUsage cfg) then cullInfoOffset + 1 else cullInfoOffset in
        let tessCoordY := cullInfoOffset in
        let cullInfoOffset :=
          if tessCoord (builtInUsage cfg) then cullInfoOffset + 1 else cullInfoOffset in
        let relPatchId := cullInfoOffset in
        let cullInfoOffset := cullInfoOffset + 1 in
        let patchId := cullInfoOffset in
        let cullInfoOffset :=
          if tesPrimitiveId (builtInUsage cfg) then cullInfoOffset + 1 else cullInfoOffset in
        (cullInfoOffset,
         {| off_xfbOutputs := if enableSwXfb ps then xfbOutputs else 0;
            off_cullDistanceSignMask :=
              if enableCullDistanceCulling (nggControl cfg) then cullDistanceSignMask else 0;
            off_drawFlag := drawFlag;
            off_compactedVertexIndex := compactedVertexIndex;
            off_tessCoordX := if tessCoord (builtInUsage cfg) then tessCoordX else 0;
            off_tessCoordY := if tessCoord (builtInUsage cfg) then tessCoordY else 0;
            off_relPatchId := relPatchId;
            off_patchId := if tesPrimitiveId (builtInUsage cfg) then patchId else 0;
            off_vertexId := 0; off_instanceId := 0; off_primitiveId := 0 |})
      else
        let vertexId := cullInfoOffset in
        let cullInfoOffset :=
          if vertexIndex (builtInUsage cfg) then cullInfoOffset + 1 else cullInfoOffset in
        let instanceId := cullInfoOffset in
        let cullInfoOffset :=
          if instanceIndex (builtInUsage cfg) then cullInfoOffset + 1 else cullInfoOffset in
        let primitiveId := cullInfoOffset in
        let cullInfoOffset :=
          if vsPrimitiveId ps then cullInfoOffset + 1 else cullInfoOffset in
        (cullInfoOffset,
         {| off_xfbOutputs := if enableSwXfb ps then xfbOutputs else 0;
            off_cullDistanceSignMask :=
              if enableCullDistanceCulling (nggControl cfg) then cullDistanceSignMask else 0;
            off_drawFlag := drawFlag;
            off_compactedVertexIndex := compactedVertexIndex;
            off_tessCoordX := 0; off_tessCoordY := 0; off_relPatchId := 0; off_patchId := 0;
            off_vertexId := if vertexIndex (builtInUsage cfg) then vertexId else 0;
            off_instanceId := if instanceIndex (builtInUsage cfg) then instanceId else 0;
            off_primitiveId := if vsPrimitiveId ps then primitiveId else 0 |})
    else
      (cullInfoOffset,
       {| off_xfbOutputs := if enableSwXfb ps then xfbOutputs else 0;
          off_cullDistanceSignMask :=
            if enableCullDistanceCulling (nggControl cfg) then cullDistanceSignMask else 0;
          off_drawFlag := drawFlag;
          off_compactedVertexIndex := 0;
          off_tessCoordX := 0; off_tessCoordY := 0; off_relPatchId := 0; off_patchId := 0;
          off_vertexId := 0; off_instanceId := 0; off_primitiveId := 0 |}).

(** [NggPrimShader::calcEsGsRingItemSize], the culling mode without API GS:
    the size of the vertex cull info, made odd. *)
Definition calcEsGsRingItemSize (cfg : ShaderConfig) : Z :=
  Z.lor (fst (calcVertexCullInfoSizeAndOffsets cfg)) 1.

Definition vertCullInfoOffsets (cfg : ShaderConfig) : VertexCullInfoOffsets :=
  snd (calcVertexCullInfoSizeAndOffsets cfg).

(** The basic blocks of the entry point, named as the variables that hold
    them in [buildPrimShader], [exportPrimitive], [runPartEs] and
    [earlyExitWithDummyExport]. *)
Inductive BasicBlock : Set :=
  | entryBlock | writePrimIdBlock | endWritePrimIdBlock | readPrimIdBlock | endReadPrimIdBlock
  | fetchVertCullDataBlock | endFetchVertCullDataBlock
  | runtimePassthroughBlock | noRuntimePassthroughBlock
  | initVertDrawFlagBlock | endInitVertDrawFlagBlock
  | initVertCountBlock | endInitVertCountBlock
  | writeVertCullDataBlock | endWriteVertCullDataBlock
  | cullingBlock | writeVertDrawFlagBlock | endCullingBlock
  | checkVertDrawFlagBlock | endCheckVertDrawFlagBlock
  | accumVertCountBlock | endAccumVertCountBlock
  | compactVertBlock | endCompactVertBlock
  | checkAllocReqBlock | allocReqBlock | endAllocReqBlock
  | earlyExitBlock | dummyExportBlock | endDummyExportBlock | noEarlyExitBlock
  | expPrimBlock | compactVertexIndexBlock | endCompactVertexIndexBlock | endExpPrimBlock
  | checkEmptyWaveBlock | emptyWaveExpBlock | noEmptyWaveExpBlock
  | expVertBlock | uncompactVertBlock | endUncompactVertBlock | endExpVertBlock.

#[global] Instance BasicBlock_eq_dec : EqDecision BasicBlock.
Proof. solve_decision. Defined.

(** The export targets the shader uses and an [amdgcn_exp] instruction:
    target, enable mask, first source operand (none when it is undefined;
    the other operands of the exports modelled here are undefined) and the
    done bit. *)
Inductive ExportTarget : Set :=
  | EXP_TARGET_PRIM
  | EXP_TARGET_POS (i : Z).       (* EXP_TARGET_POS_0 + i *)

Inductive Export {F : Type} : Type :=
  | amdgcn_exp (tgt : ExportTarget) (en : Z) (src0 : option Z) (done : bool)
  | vertexExporter (position : Vec4 F) (systemValues : list (option Z)).
                                  (* the call of m_esHandlers.vertexExporter *)
Arguments Export : clear implicits.

Section PrimShader.
Context {SF : ShaderFloats}.

(** The inputs of one lane: the system VGPRs, what the cull-data fetcher
    part of the ES returns there (position and cull distances), and the
    transform feedback outputs of the ES. *)
Record LaneInput : Type := {
  vgprArgs : list Z;
  cullDataPosition : Vec4 float;
  cullDataCullDistance : list float;
  xfbOutputValues : list (list Z)
}.

Definition vgprArg (lane : LaneInput) (i : nat) : Z := nth i (vgprArgs lane) 0.

(** An invocation: the hardware lane it runs in, [m_nggInputs], its inputs
    and [m_distributedPrimitiveId]. *)
Record Thread : Type := {
  hwLane : Z;
  nggInputs : NggInputs;
  laneInput : LaneInput;
  distributedPrimitiveId : Z
}.

Variable cfg : ShaderConfig.
Variable primShaderTable : Z -> Z.

Definition waveCountInSubgroup : Z := NggMaxThreadsPerSubgroup / waveSize cfg.

Definition dummyExportCount : Z := if waNggCullingNoEmptySubgroups cfg then 1 else 0.

Definition esGsRingItemSizeOf : Z := esGsRingItemSize (calcFactor (pipelineState cfg)).

Definition vertexItemOffset (t : Thread) : Z :=
  CreateMul (threadIdInSubgroup (nggInputs t)) esGsRingItemSizeOf.

(** *** [.entry] and the distribution of the primitive ID *)

Definition entryThread (mergedGroupInfo mergedWaveInfo : Z) (lane : nat) (input : LaneInput)
  : Thread :=
  {| hwLane := Z.of_nat lane;
     nggInputs := initWaveThreadInfo (waveSize cfg) mergedGroupInfo mergedWaveInfo
                    (Z.of_nat lane)
                    (createUBfe (vgprArg input 0) 0 16)
                    (createUBfe (vgprArg input 0) 16 16)
                    (createUBfe (vgprArg input 1) 0 16) 0;
     laneInput := input;
     distributedPrimitiveId := 0 |}.

Definition entryWave (mergedGroupInfo : Z) (wave : Z * list LaneInput) : list Thread :=
  imap (entryThread mergedGroupInfo (fst wave)) (snd wave).

Definition writePrimId (t : Thread) (lds : gmap (PrimShaderLdsRegion * Z) Z)
  : gmap (PrimShaderLdsRegion * Z) Z :=
  let ngg := nggInputs t in
  if CreateICmpULT (threadIdInWave ngg) (primCountInWave ngg)
  then
    let vertexIndex := if provokingVertexFirst cfg then vertexIndex0 ngg else vertexIndex2 ngg in
    writePerThreadDataToLds (vgprArg (laneInput t) 2) vertexIndex DistributedPrimitiveId 0 lds
  else lds.

Definition readPrimId (lds : gmap (PrimShaderLdsRegion * Z) Z) (t : Thread) : Thread :=
  let ngg := nggInputs t in
  {| hwLane := hwLane t; nggInputs := ngg; laneInput := laneInput t;
     distributedPrimitiveId :=
       if CreateICmpULT (threadIdInWave ngg) (vertCountInWave ngg)
       then readPerThreadDataFromLds lds (threadIdInSubgroup ngg) DistributedPrimitiveId 0
       else 0 |}.

(** The blocks an invocation runs up to [.endFetchVertCullData]. *)
Definition entryBlocks (t : Thread) : list BasicBlock :=
  let ngg := nggInputs t in
  let vertValid := CreateICmpULT (threadIdInWave ngg) (vertCountInWave ngg) in
  [entryBlock]
  ++ (if distributePrimitiveId (pipelineState cfg)
      then (if CreateICmpULT (threadIdInWave ngg) (primCountInWave ngg)
            then [writePrimIdBlock] else [])
           ++ [endWritePrimIdBlock]
           ++ (if vertValid then [readPrimIdBlock] else [])
           ++ [endReadPrimIdBlock]
      else [])
  ++ (if vertValid then [fetchVertCullDataBlock] else [])
  ++ [endFetchVertCullDataBlock].

(** *** From [.endFetchVertCullData] to [.endCompactVert]: the culling path *)

(** The condition of the branch in [.endFetchVertCullData]. *)
Definition runtimePassthrough (t : Thread) : bool :=
  if constPositionZ cfg then true
  else CreateICmpULT (vertCountInSubgroup (nggInputs t)) (NggSmallSubgroupThreshold cfg).

Definition vertValidInSubgroup (t : Thread) : bool :=
  CreateICmpULT (threadIdInSubgroup (nggInputs t)) (vertCountInSubgroup (nggInputs t)).

Definition vertValidInWave (t : Thread) : bool :=
  CreateICmpULT (threadIdInWave (nggInputs t)) (vertCountInWave (nggInputs t)).

Definition primValidInSubgroup (t : Thread) : bool :=
  CreateICmpULT (threadIdInSubgroup (nggInputs t)) (primCountInSubgroup (nggInputs t)).

Definition waveValid (t : Thread) : bool :=
  CreateICmpULT (threadIdInSubgroup (nggInputs t)) (waveCountInSubgroup + 1).

(** [.initVertDrawFlag], [.initVertCount] and [.writeVertCullData]. *)
Definition initVertDrawFlag (t : Thread) (lds : gmap (PrimShaderLdsRegion * Z) Z)
  : gmap (PrimShaderLdsRegion * Z) Z :=
  if vertValidInSubgroup t
  then writeVertexCullInfoToLds 0 (vertexItemOffset t) (off_drawFlag (vertCullInfoOffsets cfg)) lds
  else lds.

Definition initVertCount (t : Thread) (lds : gmap (PrimShaderLdsRegion * Z) Z)
  : gmap (PrimShaderLdsRegion * Z) Z :=
  if waveValid t
  then writePerThreadDataToLds 0 (threadIdInSubgroup (nggInputs t)) VertexCounts 0 lds
  else lds.

Definition positionBits (p : Vec4 float) : Vec4 Z :=
  mkVec4 (bitcastToInt (vecX p)) (bitcastToInt (vecY p))
         (bitcastToInt (vecZ p)) (bitcastToInt (vecW p)).

(** The variable [cullData] that [buildPrimShader] declares before the
    [.fetchVertCullData] block.  It is initialised to null and never
    assigned: the result of [runPartEs] is bound to a second [cullData],
    declared inside that block, from which only [position] is taken out. *)
Definition cullData : option (Vec4 float * list float) := None.

(** [.writeVertCullData].  The position comes from the cull-data fetcher.
    With cull-distance culling enabled, the cull distances for the sign mask
    are extracted from the outer [cullData], which holds no value: the
    generator has nothing to build the sign-mask loop from, and no mask of
    the fetcher's cull distances reaches the vertex cull info.  The model
    goes on with the cell unwritten. *)
Definition writeVertCullData (t : Thread) (lds : gmap (PrimShaderLdsRegion * Z) Z)
  : gmap (PrimShaderLdsRegion * Z) Z :=
  if vertValidInWave t
  then
    let position := cullDataPosition (laneInput t) in
    let lds := writePerThreadVec4ToLds (positionBits position)
                 (threadIdInSubgroup (nggInputs t)) VertexPosition 0 lds in
    if enableCullDistanceCulling (nggControl cfg)
    then
      match cullData with
      | Some (_, cullDistance) =>
          writeVertexCullInfoToLds (calcCullDistanceSignMask cullDistance)
            (vertexItemOffset t) (off_cullDistanceSignMask (vertCullInfoOffsets cfg)) lds
      | None => lds
      end
    else lds
  else lds.

(** [.culling] and [.writeVertDrawFlag]; [lds0] is the memory at the
    barrier of [.endWriteVertCullData]. *)
Definition primitiveCulledBy (lds0 : gmap (PrimShaderLdsRegion * Z) Z) (t : Thread) : bool :=
  doCulling (nggControl cfg) (cbLayoutTable cfg) primShaderTable esGsRingItemSizeOf
    (off_cullDistanceSignMask (vertCullInfoOffsets cfg)) lds0
    (vertexIndex0 (nggInputs t)) (vertexIndex1 (nggInputs t)) (vertexIndex2 (nggInputs t)).

Definition writeVertDrawFlag (t : Thread) (lds : gmap (PrimShaderLdsRegion * Z) Z)
  : gmap (PrimShaderLdsRegion * Z) Z :=
  let vertexItemOffset0 := CreateMul (vertexIndex0 (nggInputs t)) esGsRingItemSizeOf in
  let vertexItemOffset1 := CreateMul (vertexIndex1 (nggInputs t)) esGsRingItemSizeOf in
  let vertexItemOffset2 := CreateMul (vertexIndex2 (nggInputs t)) esGsRingItemSizeOf in
  let drawFlag := off_drawFlag (vertCullInfoOffsets cfg) in
  writeVertexCullInfoToLds 1 vertexItemOffset2 drawFlag
    (writeVertexCullInfoToLds 1 vertexItemOffset1 drawFlag
       (writeVertexCullInfoToLds 1 vertexItemOffset0 drawFlag lds)).

Definition culling (lds0 : gmap (PrimShaderLdsRegion * Z) Z) (t : Thread)
    (lds : gmap (PrimShaderLdsRegion * Z) Z) : gmap (PrimShaderLdsRegion * Z) Z :=
  if primValidInSubgroup t
  then if primitiveCulledBy lds0 t then lds else writeVertDrawFlag t lds
  else lds.

(** The phi of [.endCulling]. *)
Definition primitiveCulledAtEndCulling (lds0 : gmap (PrimShaderLdsRegion * Z) Z) (t : Thread)
  : bool :=
  if primValidInSubgroup t
  then if primitiveCulledBy lds0 t then true else false
  else true.

(** [.checkVertDrawFlag] and the phi of [.endCheckVertDrawFlag]; [lds] is
    the memory at the barrier of [.endCulling]. *)
Definition drawFlagOf (lds : gmap (PrimShaderLdsRegion * Z) Z) (t : Thread) : bool :=
  if vertValidInSubgroup t
  then CreateICmpNE (readVertexCullInfoFromLds lds (vertexItemOffset t)
                       (off_drawFlag (vertCullInfoOffsets cfg))) 0
  else false.

Definition drawMaskOf (lds : gmap (PrimShaderLdsRegion * Z) Z) (wave : list Thread) : Z :=
  ballot (map (drawFlagOf lds) wave).

(** [ctpop] of the mask, truncated to i32. *)
Definition vertCountInWaveOf (lds : gmap (PrimShaderLdsRegion * Z) Z) (wave : list Thread) : Z :=
  wrap32 (ctpop (drawMaskOf lds wave)).

Definition accumThreadValid (t : Thread) : bool :=
  let threadIdUpbound := CreateSub waveCountInSubgroup (waveIdInSubgroup (nggInputs t)) in
  CreateICmpULT (threadIdInWave (nggInputs t)) threadIdUpbound.

(** [.accumVertCount]. *)
Definition accumVertCount (vertCountInWave : Z) (t : Thread)
    (lds : gmap (PrimShaderLdsRegion * Z) Z) : gmap (PrimShaderLdsRegion * Z) Z :=
  if accumThreadValid t
  then
    let ldsOffset := CreateAdd (waveIdInSubgroup (nggInputs t)) (threadIdInWave (nggInputs t)) in
    let ldsOffset := CreateAdd ldsOffset 1 in
    atomicAdd vertCountInWave VertexCounts ldsOffset lds
  else lds.

(** [amdgcn_readlane] and [amdgcn_readfirstlane] of a value that every lane
    of the wave computes; all lanes are active ([amdgcn_init_exec] with -1
    in [initWaveThreadInfo]). *)
Definition readlane (wave : list Thread) (value : Thread -> Z) (lane : Z) : Z :=
  match wave !! Z.to_nat lane with
  | Some t => value t
  | None => 0
  end.

Definition readfirstlane (wave : list Thread) (value : Thread -> Z) : Z :=
  match wave with
  | t :: _ => value t
  | [] => 0
  end.

(** [.endAccumVertCount]; [lds] is the memory at its barrier. *)
Definition vertCountInWaves (lds : gmap (PrimShaderLdsRegion * Z) Z) (t : Thread) : Z :=
  readPerThreadDataFromLds lds (threadIdInWave (nggInputs t)) VertexCounts 0.

Definition vertCountInSubgroupOf (lds : gmap (PrimShaderLdsRegion * Z) Z) (wave : list Thread)
  : Z :=
  readlane wave (vertCountInWaves lds) waveCountInSubgroup.

Definition vertCountInPrevWaves (lds : gmap (PrimShaderLdsRegion * Z) Z) (wave : list Thread)
    (t : Thread) : Z :=
  readlane wave (vertCountInWaves lds) (waveIdInSubgroup (nggInputs t)).

Definition hasCulledVertices (lds : gmap (PrimShaderLdsRegion * Z) Z) (wave : list Thread)
    (t : Thread) : bool :=
  CreateICmpULT (vertCountInSubgroupOf lds wave) (vertCountInSubgroup (nggInputs t)).

(** [.compactVert]; [ldsB] is the memory at the barrier of [.endCulling]
    (the draw flags), [ldsC] the one at the barrier of
    [.endAccumVertCount]. *)
Definition compactedVertexIndexOf (ldsB ldsC : gmap (PrimShaderLdsRegion * Z) Z)
    (wave : list Thread) (t : Thread) : Z :=
  let drawMask := drawMaskOf ldsB wave in
  let drawMaskLow := wrap32 drawMask in
  let compactedVertexIndex := amdgcn_mbcnt_lo (hwLane t) drawMaskLow 0 in
  let compactedVertexIndex :=
    if waveSize cfg =? 64
    then
      let drawMaskHigh := Z.shiftr drawMask 32 in
      amdgcn_mbcnt_hi (hwLane t) drawMaskHigh compactedVertexIndex
    else compactedVertexIndex in
  CreateAdd (vertCountInPrevWaves ldsC wave t) compactedVertexIndex.

Definition compactVertTaken (ldsB ldsC : gmap (PrimShaderLdsRegion * Z) Z)
    (wave : list Thread) (t : Thread) : bool :=
  compactVertex (pipelineState cfg) && (drawFlagOf ldsB t && hasCulledVertices ldsC wave t).

Definition compactVert (ldsB ldsC : gmap (PrimShaderLdsRegion * Z) Z)
    (wave : list Thread) (t : Thread) (lds : gmap (PrimShaderLdsRegion * Z) Z)
  : gmap (PrimShaderLdsRegion * Z) Z :=
  let off := vertCullInfoOffsets cfg in
  let usage := builtInUsage cfg in
  let compactedVertexIndex := compactedVertexIndexOf ldsB ldsC wave t in
  (* the map: compacted -> uncompacted *)
  let lds := writePerThreadDataToLds (threadIdInSubgroup (nggInputs t)) compactedVertexIndex
               VertexIndexMap 0 lds in
  let lds := writeVertexCullInfoToLds compactedVertexIndex (vertexItemOffset t)
               (off_compactedVertexIndex off) lds in
  if hasTes (pipelineState cfg)
  then
    let lds :=
      if tessCoord usage
      then writeVertexCullInfoToLds (vgprArg (laneInput t) 6) (vertexItemOffset t)
             (off_tessCoordY off)
             (writeVertexCullInfoToLds (vgprArg (laneInput t) 5) (vertexItemOffset t)
                (off_tessCoordX off) lds)
      else lds in
    let lds := writeVertexCullInfoToLds (vgprArg (laneInput t) 7) (vertexItemOffset t)
                 (off_relPatchId off) lds in
    if tesPrimitiveId usage
    then writeVertexCullInfoToLds (vgprArg (laneInput t) 8) (vertexItemOffset t)
           (off_patchId off) lds
    else lds
  else
    let lds :=
      if vertexIndex usage
      then writeVertexCullInfoToLds (vgprArg (laneInput t) 5) (vertexItemOffset t)
             (off_vertexId off) lds
      else lds in
    let lds :=
      if instanceIndex usage
      then writeVertexCullInfoToLds (vgprArg (laneInput t) 8) (vertexItemOffset t)
             (off_instanceId off) lds
      else lds in
    if vsPrimitiveId (pipelineState cfg)
    then writeVertexCullInfoToLds (distributedPrimitiveId t) (vertexItemOffset t)
           (off_primitiveId off) lds
    else lds.

(** The values merged by the phi nodes of [.checkAllocReq].
    [m_compactVertex] is absent when vertex compaction is disabled; it then
    reads as false. *)
Record CheckAllocReqPhis : Set := {
  compactVertexPhi : bool;
  cullFlag : bool;
  fullyCulled : bool;
  primCountInSubgroupPhi : Z;
  vertCountInSubgroupPhi : Z;
  drawFlagPhi : bool;
  vertCountInWavePhi : Z
}.

(** [.endCompactVert] and the incoming values of the phis from there. *)
Definition endCompactVert (ldsA ldsB ldsC : gmap (PrimShaderLdsRegion * Z) Z)
    (wave : list Thread) (t : Thread) : CheckAllocReqPhis :=
  let fullyCulled := CreateICmpEQ (vertCountInSubgroupOf ldsC wave) 0 in
  let primCountInSubgroup' :=
    readfirstlane wave
      (fun u => CreateSelect fullyCulled dummyExportCount (primCountInSubgroup (nggInputs u))) in
  let vertCountInSubgroup' :=
    readfirstlane wave
      (fun u => CreateSelect fullyCulled dummyExportCount
                  (if compactVertex (pipelineState cfg)
                   then vertCountInSubgroupOf ldsC wave
                   else vertCountInSubgroup (nggInputs u))) in
  {| compactVertexPhi :=
       compactVertex (pipelineState cfg) && hasCulledVertices ldsC wave t;
     cullFlag := primitiveCulledAtEndCulling ldsA t;
     fullyCulled := fullyCulled;
     primCountInSubgroupPhi := primCountInSubgroup';
     vertCountInSubgroupPhi := vertCountInSubgroup';
     drawFlagPhi := drawFlagOf ldsB t;
     vertCountInWavePhi := vertCountInWaveOf ldsB wave |}.

(** The incoming values from [.runtimePassthrough]. *)
Definition runtimePassthroughPhis (t : Thread) : CheckAllocReqPhis :=
  {| compactVertexPhi := false;
     cullFlag := false;
     fullyCulled := false;
     primCountInSubgroupPhi := primCountInSubgroup (nggInputs t);
     vertCountInSubgroupPhi := vertCountInSubgroup (nggInputs t);
     drawFlagPhi := true;
     vertCountInWavePhi := vertCountInWave (nggInputs t) |}.

(** The blocks an invocation runs from [.noRuntimePassthrough] to
    [.endCompactVert]. *)
Definition cullingBlocks (ldsA ldsB ldsC : gmap (PrimShaderLdsRegion * Z) Z)
    (wave : list Thread) (t : Thread) : list BasicBlock :=
  [noRuntimePassthroughBlock]
  ++ (if vertValidInSubgroup t then [initVertDrawFlagBlock] else [])
  ++ [endInitVertDrawFlagBlock]
  ++ (if waveValid t then [initVertCountBlock] else [])
  ++ [endInitVertCountBlock]
  ++ (if vertValidInWave t then [writeVertCullDataBlock] else [])
  ++ [endWriteVertCullDataBlock]
  ++ (if primValidInSubgroup t
      then cullingBlock :: (if primitiveCulledBy ldsA t then [] else [writeVertDrawFlagBlock])
      else [])
  ++ [endCullingBlock]
  ++ (if vertValidInSubgroup t then [checkVertDrawFlagBlock] else [])
  ++ [endCheckVertDrawFlagBlock]
  ++ (if accumThreadValid t then [accumVertCountBlock] else [])
  ++ [endAccumVertCountBlock]
  ++ (if compactVertTaken ldsB ldsC wave t then [compactVertBlock] else [])
  ++ [endCompactVertBlock].

(** *** From [.checkAllocReq] to the end *)

(** [NggPrimShader::sendGsAllocReqMessage]: the value of M0. *)
Definition sendGsAllocReqMessage (primCountInSubgroup vertCountInSubgroup : Z) : Z :=
  let m0 := CreateShl primCountInSubgroup 12 in
  CreateOr m0 vertCountInSubgroup.

(** The vertex indices [exportPrimitive] packs: the compacted ones read
    from LDS when [m_compactVertex] is true. *)
Definition exportVertexIndices (lds : gmap (PrimShaderLdsRegion * Z) Z) (compactVertexPhi : bool)
    (ngg : NggInputs) : Z * Z * Z :=
  if compactVertex (pipelineState cfg) && compactVertexPhi
  then
    let vertexItemOffset0 := CreateMul (vertexIndex0 ngg) esGsRingItemSizeOf in
    let vertexItemOffset1 := CreateMul (vertexIndex1 ngg) esGsRingItemSizeOf in
    let vertexItemOffset2 := CreateMul (vertexIndex2 ngg) esGsRingItemSizeOf in
    let off := off_compactedVertexIndex (vertCullInfoOffsets cfg) in
    (readVertexCullInfoFromLds lds vertexItemOffset0 off,
     readVertexCullInfoFromLds lds vertexItemOffset1 off,
     readVertexCullInfoFromLds lds vertexItemOffset2 off)
  else (vertexIndex0 ngg, vertexIndex1 ngg, vertexIndex2 ngg).

(** The primitive connectivity data [exportPrimitive] builds. *)
Definition primitiveConnectivityData (vertexIndex0 vertexIndex1 vertexIndex2 : Z)
    (primitiveCulled : bool) : Z :=
  let primData := CreateShl vertexIndex2 10 in
  let primData := CreateOr primData vertexIndex1 in
  let primData := CreateShl primData 10 in
  let primData := CreateOr primData vertexIndex0 in
  CreateSelect primitiveCulled NullPrim primData.

(** [NggPrimShader::exportPrimitive]: the blocks it adds and its export. *)
Definition exportPrimitive (lds : gmap (PrimShaderLdsRegion * Z) Z) (compactVertexPhi : bool)
    (ngg : NggInputs) (primitiveCulled : bool) : list BasicBlock * list (Export float) :=
  let '(vertexIndex0, vertexIndex1, vertexIndex2) :=
    exportVertexIndices lds compactVertexPhi ngg in
  ((if compactVertex (pipelineState cfg)
    then (if compactVertexPhi then [compactVertexIndexBlock] else [])
         ++ [endCompactVertexIndexBlock]
    else []),
   [amdgcn_exp EXP_TARGET_PRIM 1
      (Some (primitiveConnectivityData vertexIndex0 vertexIndex1 vertexIndex2 primitiveCulled))
      true]).

(** [NggPrimShader::earlyExitWithDummyExport]. *)
Definition posExpCount : Z :=
  let usage := builtInUsage cfg in
  let miscExport := pointSize usage || layer usage || viewportIndex usage in
  let miscExport :=
    if hasTes (pipelineState cfg) then miscExport else miscExport || primitiveShadingRate usage in
  1 + (if miscExport then 1 else 0) + (clipDistance usage + cullDistance usage) / 4.

Definition dummyPositionExports : list (Export float) :=
  map (fun i => amdgcn_exp (EXP_TARGET_POS (Z.of_nat i)) 0 None (Z.of_nat i =? posExpCount - 1))
      (seq 0 (Z.to_nat posExpCount)).

Definition earlyExitWithDummyExport (ngg : NggInputs) : list BasicBlock * list (Export float) :=
  if CreateICmpEQ (threadIdInSubgroup ngg) 0
  then ([dummyExportBlock; endDummyExportBlock],
        amdgcn_exp EXP_TARGET_PRIM 1 (Some 0) true :: dummyPositionExports)
  else ([endDummyExportBlock], []).

(** [NggPrimShader::runPartEs] with a position, the deferred vertex export:
    the blocks it adds and the call of the vertex exporter with the
    position and the system values it is given (none where the source
    passes a poison value).  The position of an invocation that did not
    fetch cull data is the poison of the phi of [.endFetchVertCullData]; the
    lane's input stands for it. *)
Definition runPartEs (lds : gmap (PrimShaderLdsRegion * Z) Z) (compactVertexPhi : bool)
    (t : Thread) : list BasicBlock * list (Export float) :=
  let input := laneInput t in
  let usage := builtInUsage cfg in
  let off := vertCullInfoOffsets cfg in
  let uncompact := compactVertex (pipelineState cfg) && compactVertexPhi in
  let uncompactedVertexIndex :=
    readPerThreadDataFromLds lds (threadIdInSubgroup (nggInputs t)) VertexIndexMap 0 in
  let vertexItemOffset := CreateMul uncompactedVertexIndex esGsRingItemSizeOf in
  (* the fourth argument of this read in the source is [true], which is the
     parameter offsetInRegion *)
  let newPosition :=
    bitcastVec4ToFloat (readPerThreadVec4FromLds lds uncompactedVertexIndex VertexPosition 1) in
  let position := if uncompact then newPosition else cullDataPosition input in
  let fromCullInfo (used : bool) (dataOffset vgpr : Z) : Z :=
    if used && uncompact then readVertexCullInfoFromLds lds vertexItemOffset dataOffset
    else vgpr in
  let systemValues :=
    if hasTes (pipelineState cfg)
    then
      (* the phi of newTessCoordY is assigned to tessCoordX in the source *)
      let tessCoordX :=
        if tessCoord usage
        then fromCullInfo true (off_tessCoordY off) (vgprArg input 6)
        else vgprArg input 5 in
      let tessCoordY := vgprArg input 6 in
      let relPatchId := fromCullInfo true (off_relPatchId off) (vgprArg input 7) in
      let patchId := fromCullInfo (tesPrimitiveId usage) (off_patchId off) (vgprArg input 8) in
      [Some tessCoordX; Some tessCoordY; Some relPatchId; Some patchId]
    else
      let vertexId := fromCullInfo (vertexIndex usage) (off_vertexId off) (vgprArg input 5) in
      (* m_distributedPrimitiveId exists iff the VS uses the primitive ID *)
      let primitiveId :=
        if vsPrimitiveId (pipelineState cfg)
        then Some (fromCullInfo true (off_primitiveId off) (distributedPrimitiveId t))
        else None in
      let instanceId :=
        fromCullInfo (instanceIndex usage) (off_instanceId off) (vgprArg input 8) in
      [Some vertexId; None; primitiveId; Some instanceId] in
  ((if compactVertex (pipelineState cfg)
    then (if compactVertexPhi then [uncompactVertBlock] else []) ++ [endUncompactVertBlock]
    else []),
   [vertexExporter position systemValues]).

(** [.endExpPrim] and what follows. *)
Definition exportVertex (lds : gmap (PrimShaderLdsRegion * Z) Z) (phis : CheckAllocReqPhis)
    (t : Thread) : list BasicBlock * list (Export float) :=
  let vertValid :=
    CreateICmpULT (threadIdInSubgroup (nggInputs t)) (vertCountInSubgroupPhi phis) in
  let expVert :=
    let '(b, e) := runPartEs lds (compactVertexPhi phis) t in
    (expVertBlock :: b ++ [endExpVertBlock], e) in
  if compactVertex (pipelineState cfg)
  then if vertValid then expVert else ([endExpVertBlock], [])
  else
    if vertValid
    then
      if CreateICmpEQ (vertCountInWavePhi phis) 0
      then ([checkEmptyWaveBlock; emptyWaveExpBlock],
            [amdgcn_exp (EXP_TARGET_POS 0) 0 None true])
      else
        if drawFlagPhi phis
        then (checkEmptyWaveBlock :: noEmptyWaveExpBlock :: fst expVert, snd expVert)
        else ([checkEmptyWaveBlock; noEmptyWaveExpBlock; endExpVertBlock], [])
    else ([endExpVertBlock], []).

(** [.checkAllocReq] to the return, for one invocation; [lds] is the memory
    at the barrier of [.endAllocReq]. *)
Definition checkAllocReqToEnd (lds : gmap (PrimShaderLdsRegion * Z) Z)
    (phis : CheckAllocReqPhis) (t : Thread) : list BasicBlock * list (Export float) :=
  let ngg := nggInputs t in
  let allocReq :=
    [checkAllocReqBlock]
    ++ (if CreateICmpEQ (waveIdInSubgroup ngg) 0 then [allocReqBlock] else [])
    ++ [endAllocReqBlock] in
  if waNggCullingNoEmptySubgroups cfg && fullyCulled phis
  then
    let '(b, e) := if 0 <? dummyExportCount then earlyExitWithDummyExport ngg else ([], []) in
    (allocReq ++ earlyExitBlock :: b, e)
  else
    let primValid := CreateICmpULT (threadIdInSubgroup ngg) (primCountInSubgroupPhi phis) in
    let '(bp, ep) :=
      if primValid
      then let '(b, e) := exportPrimitive lds (compactVertexPhi phis) ngg (cullFlag phis) in
           (expPrimBlock :: b, e)
      else ([], []) in
    let '(bv, ev) := exportVertex lds phis t in
    (allocReq
     ++ (if waNggCullingNoEmptySubgroups cfg then [noEarlyExitBlock] else [])
     ++ bp ++ endExpPrimBlock :: bv,
     ep ++ ev).

(** [.allocReq]: [amdgcn_s_sendmsg] is a scalar instruction, a wave that
    runs the block sends one message. *)
Definition allocReq (wave : list Thread) (phis : Thread -> CheckAllocReqPhis) : list Z :=
  match wave with
  | t :: _ =>
      if CreateICmpEQ (waveIdInSubgroup (nggInputs t)) 0
      then [sendGsAllocReqMessage (primCountInSubgroupPhi (phis t))
                                  (vertCountInSubgroupPhi (phis t))]
      else []
  | [] => []
  end.

(** What a run of the subgroup leaves behind. *)
Record ThreadResult : Type := {
  blocks : list BasicBlock;                 (* the blocks run, in order *)
  exports : list (Export float);
  phis : CheckAllocReqPhis;
  compactedVertexIndex : option Z           (* set by [.compactVert] *)
}.

Record SubgroupResult : Type := {
  ldsAtEnd : gmap (PrimShaderLdsRegion * Z) Z;
  gsAllocReq : list Z;                      (* M0 of each GS_ALLOC_REQ sent *)
  threadResults : list (list ThreadResult)
}.

(** The memory at the four barriers of the culling path.  The phases
    between two barriers are run invocation after invocation; an invocation
    on the runtime passthrough path takes no part in them. *)
Definition unlessPassthrough (f : Thread -> gmap (PrimShaderLdsRegion * Z) Z ->
                                  gmap (PrimShaderLdsRegion * Z) Z)
    (lds : gmap (PrimShaderLdsRegion * Z) Z) (t : Thread) : gmap (PrimShaderLdsRegion * Z) Z :=
  if runtimePassthrough t then lds else f t lds.

Definition ldsAtEndWriteVertCullData (waves : list (list Thread))
    (lds : gmap (PrimShaderLdsRegion * Z) Z) : gmap (PrimShaderLdsRegion * Z) Z :=
  foldl (unlessPassthrough
           (fun t l => writeVertCullData t (initVertCount t (initVertDrawFlag t l))))
        lds (concat waves).

Definition ldsAtEndCulling (waves : list (list Thread))
    (lds : gmap (PrimShaderLdsRegion * Z) Z) : gmap (PrimShaderLdsRegion * Z) Z :=
  let ldsA := ldsAtEndWriteVertCullData waves lds in
  foldl (unlessPassthrough (culling ldsA)) ldsA (concat waves).

Definition ldsAtEndAccumVertCount (waves : list (list Thread))
    (lds : gmap (PrimShaderLdsRegion * Z) Z) : gmap (PrimShaderLdsRegion * Z) Z :=
  let ldsB := ldsAtEndCulling waves lds in
  foldl (fun l wave =>
           foldl (unlessPassthrough (accumVertCount (vertCountInWaveOf ldsB wave))) l wave)
        ldsB waves.

Definition ldsAtEndAllocReq (waves : list (list Thread))
    (lds : gmap (PrimShaderLdsRegion * Z) Z) : gmap (PrimShaderLdsRegion * Z) Z :=
  let ldsB := ldsAtEndCulling waves lds in
  let ldsC := ldsAtEndAccumVertCount waves lds in
  foldl (fun l wave =>
           foldl (unlessPassthrough
                    (fun t l => if compactVertTaken ldsB ldsC wave t
                                then compactVert ldsB ldsC wave t l else l))
                 l wave)
        ldsC waves.

Definition phisOf (waves : list (list Thread)) (lds : gmap (PrimShaderLdsRegion * Z) Z)
    (wave : list Thread) (t : Thread) : CheckAllocReqPhis :=
  if runtimePassthrough t then runtimePassthroughPhis t
  else endCompactVert (ldsAtEndWriteVertCullData waves lds) (ldsAtEndCulling waves lds)
         (ldsAtEndAccumVertCount waves lds) wave t.

Definition threadResult (waves : list (list Thread)) (lds : gmap (PrimShaderLdsRegion * Z) Z)
    (wave : list Thread) (t : Thread) : ThreadResult :=
  let ldsA := ldsAtEndWriteVertCullData waves lds in
  let ldsB := ldsAtEndCulling waves lds in
  let ldsC := ldsAtEndAccumVertCount waves lds in
  let '(b, e) := checkAllocReqToEnd (ldsAtEndAllocReq waves lds) (phisOf waves lds wave t) t in
  {| blocks := (if runtimePassthrough t then [runtimePassthroughBlock]
                else cullingBlocks ldsA ldsB ldsC wave t) ++ b;
     exports := e;
     phis := phisOf waves lds wave t;
     compactedVertexIndex :=
       if negb (runtimePassthrough t) && compactVertTaken ldsB ldsC wave t
       then Some (compactedVertexIndexOf ldsB ldsC wave t) else None |}.

(** The shader from the branch of [.endFetchVertCullData] on. *)
Definition runFromEndFetchVertCullData (waves : list (list Thread))
    (lds : gmap (PrimShaderLdsRegion * Z) Z) : SubgroupResult :=
  {| ldsAtEnd := ldsAtEndAllocReq waves lds;
     gsAllocReq := concat (map (fun wave => allocReq wave (phisOf waves lds wave)) waves);
     threadResults := map (fun wave => map (threadResult waves lds wave) wave) waves |}.

(** [.entry] to [.endReadPrimId]: the invocations of the waves of a
    subgroup, given by their [mergedWaveInfo] and lane inputs, with the
    primitive ID distributed. *)
Definition entryThreads (mergedGroupInfo : Z) (waves : list (Z * list LaneInput))
    (lds : gmap (PrimShaderLdsRegion * Z) Z)
  : list (list Thread) * gmap (PrimShaderLdsRegion * Z) Z :=
  let threads := map (entryWave mergedGroupInfo) waves in
  if distributePrimitiveId (pipelineState cfg)
  then
    let lds := foldl (fun l t => writePrimId t l) lds (concat threads) in
    (* barrier *)
    (map (map (readPrimId lds)) threads, lds)
  else (threads, lds).

(** [NggPrimShader::buildPrimShader]: the whole entry point.  There is no
    result when the transform feedback emulator divides by zero. *)
Definition buildPrimShader (mergedGroupInfo : Z) (waves : list (Z * list LaneInput))
    (st : gmap Z Z * gmap (PrimShaderLdsRegion * Z) Z)
  : option (gmap Z Z * list (list XfbStore) * SubgroupResult) :=
  let '(gds, lds) := st in
  let '(threads, lds) := entryThreads mergedGroupInfo waves lds in
  let xfb :=
    if enableSwXfb (pipelineState cfg)
    then processSwXfb false esGsRingItemSizeOf (off_xfbOutputs (vertCullInfoOffsets cfg))
           (streamOut cfg)
           (map (fun t => (nggInputs t, xfbOutputValues (laneInput t))) (concat threads))
           (gds, lds)
    else Some (gds, lds, []) in
  match xfb with
  | None => None
  | Some (gds, lds, stores) =>
      let r := runFromEndFetchVertCullData threads lds in
      Some (gds, stores,
            {| ldsAtEnd := ldsAtEnd r;
               gsAllocReq := gsAllocReq r;
               threadResults :=
                 zip_with (zip_with (fun t tr =>
                             {| blocks := entryBlocks t ++ blocks tr;
                                exports := exports tr;
                                phis := phis tr;
                                compactedVertexIndex := compactedVertexIndex tr |}))
                          threads (threadResults r) |})
  end.

End PrimShader.

(** ** Well-formed subgroups *)

(** What the hardware guarantees about the invocations of a subgroup with
    [V] vertices and [P] primitives: wave [w] holds the lanes
    [0 .. waveSize - 1] in order, lane [l] of wave [w] is thread
    [w * waveSize + l], there are between one and [waveCountInSubgroup]
    waves, and the counts are 9-bit fields. *)
Section WellFormed.
Context {SF : ShaderFloats}.
Variable cfg : ShaderConfig.

Definition wellFormedThread (V P : Z) (w l : nat) (t : Thread) : bool :=
  (hwLane t =? Z.of_nat l)
  && (threadIdInWave (nggInputs t) =? Z.of_nat l)
  && (waveIdInSubgroup (nggInputs t) =? Z.of_nat w)
  && (threadIdInSubgroup (nggInputs t) =? Z.of_nat w * waveSize cfg + Z.of_nat l)
  && (vertCountInSubgroup (nggInputs t) =? V)
  && (primCountInSubgroup (nggInputs t) =? P).

Definition wellFormedWave (V P : Z) (w : nat) (wave : list Thread) : bool :=
  (Z.of_nat (length wave) =? waveSize cfg)
  && forallb id (imap (wellFormedThread V P w) wave).

Definition wellFormedSubgroup (V P : Z) (waves : list (list Thread)) : bool :=
  ((waveSize cfg =? 32) || (waveSize cfg =? 64))
  && ((0 <=? V) && (V <? 512)) && ((0 <=? P) && (P <? 512))
  && ((0 <? Z.of_nat (length waves)) && (Z.of_nat (length waves) <=? waveCountInSubgroup cfg))
  && forallb id (imap (wellFormedWave V P) waves).

(** The condition of the runtime passthrough branch for a subgroup of [V]
    vertices. *)
Definition subgroupRuntimePassthrough (V : Z) : bool :=
  if constPositionZ cfg then true else CreateICmpULT V (NggSmallSubgroupThreshold cfg).

End WellFormed.

(** The number of true flags. *)
Fixpoint countTrue (flags : list bool) : Z :=
  match flags with
  | [] => 0
  | b :: rest => Z.b2z b + countTrue rest
  end.

(** ** Facts about ballots and population counts *)

Lemma countTrue_app (a b : list bool) : countTrue (a ++ b) = countTrue a + countTrue b.
Proof. induction a as [|x a IH]; cbn [countTrue app]; lia. Qed.

Lemma countTrue_bounds (fl : list bool) : 0 <= countTrue fl <= Z.of_nat (length fl).
Proof.
  induction fl as [|b fl IH]; cbn [countTrue length]; [lia|].
  destruct b; cbn [Z.b2z]; lia.
Qed.

Lemma countTrue_firstn_le (n : nat) (fl : list bool) : countTrue (firstn n fl) <= countTrue fl.
Proof.
  rewrite <- (firstn_skipn n fl) at 2. rewrite countTrue_app.
  pose proof (countTrue_bounds (skipn n fl)). lia.
Qed.

Lemma ballot_nonneg (fl : list bool) : 0 <= ballot fl.
Proof. induction fl as [|b fl IH]; cbn [ballot]; [lia|]. destruct b; cbn [Z.b2z]; lia. Qed.

Lemma ballot_odd (b : bool) (fl : list bool) : Z.odd (ballot (b :: fl)) = b.
Proof.
  cbn [ballot]. rewrite Z.odd_add_mul_2. now destruct b.
Qed.

Lemma ballot_div2 (b : bool) (fl : list bool) : Z.div2 (ballot (b :: fl)) = ballot fl.
Proof.
  cbn [ballot]. rewrite Z.div2_div.
  symmetry. apply Z.div_unique with (r := Z.b2z b); [|lia].
  left. destruct b; cbn [Z.b2z]; lia.
Qed.

Lemma popcount_ballot (n : nat) (fl : list bool) :
  popcount n (ballot fl) = countTrue (firstn n fl).
Proof.
  revert fl. induction n as [|n IH]; intros fl; [reflexivity|].
  destruct fl as [|b fl].
  - cbn [popcount firstn countTrue ballot]. change (Z.div2 0) with 0.
    change (Z.odd 0) with false. cbn [Z.b2z].
    specialize (IH []). cbn [ballot] in IH. rewrite IH. now destruct n.
  - cbn [popcount firstn countTrue].
    rewrite ballot_odd, ballot_div2, IH. reflexivity.
Qed.

Lemma ballot_mod_pow2 (n : nat) (fl : list bool) :
  ballot fl mod 2 ^ Z.of_nat n = ballot (firstn n fl).
Proof.
  revert fl. induction n as [|n IH]; intros fl.
  - cbn [firstn ballot]. change (2 ^ Z.of_nat 0) with 1. apply Z.mod_1_r.
  - destruct fl as [|b fl]; [reflexivity|].
    cbn [firstn ballot]. rewrite <- IH.
    rewrite Nat2Z.inj_succ, Z.pow_succ_r by lia.
    assert (Hp : 0 < 2 ^ Z.of_nat n) by (apply Z.pow_pos_nonneg; lia).
    pose proof (Z.mod_pos_bound (ballot fl) _ Hp) as Hb.
    pose proof (Z.div_mod (ballot fl) (2 ^ Z.of_nat n) ltac:(lia)) as Hd.
    symmetry. apply Z.mod_unique with (q := ballot fl / 2 ^ Z.of_nat n).
    + left. destruct b; cbn [Z.b2z]; lia.
    + set (q := ballot fl / 2 ^ Z.of_nat n) in *.
      set (r := ballot fl mod 2 ^ Z.of_nat n) in *. clearbody q r. nia.
Qed.

Lemma ballot_shiftr (n : nat) (fl : list bool) :
  Z.shiftr (ballot fl) (Z.of_nat n) = ballot (skipn n fl).
Proof.
  revert fl. induction n as [|n IH]; intros fl.
  - reflexivity.
  - destruct fl as [|b fl].
    + cbn [skipn ballot]. apply Z.shiftr_0_l.
    + cbn [skipn]. rewrite <- IH.
      rewrite Nat2Z.inj_succ, <- Z.add_1_l, <- Z.shiftr_shiftr by lia.
      f_equal. change (Z.shiftr (ballot (b :: fl)) 1) with (Z.div2 (ballot (b :: fl))).
      apply ballot_div2.
Qed.

Lemma ballot_land_ones (n : nat) (fl : list bool) :
  Z.land (ballot fl) (Z.ones (Z.of_nat n)) = ballot (firstn n fl).
Proof. rewrite Z.land_ones by lia. apply ballot_mod_pow2. Qed.

Lemma firstn_split_at (n lane : nat) (fl : list bool) :
  firstn lane fl = firstn (Nat.min lane n) fl ++ firstn (lane - n) (skipn n fl).
Proof.
  revert lane fl. induction n as [|n IH]; intros lane fl.
  - rewrite Nat.min_0_r, Nat.sub_0_r. reflexivity.
  - destruct lane as [|lane]; [reflexivity|].
    destruct fl as [|b fl].
    + cbn [skipn]. now rewrite !firstn_nil.
    + cbn [Nat.min Nat.sub firstn skipn app]. f_equal. apply IH.
Qed.

Lemma ones_land_ones32 (lane : nat) :
  Z.land (Z.ones (Z.of_nat lane)) (Z.ones 32) = Z.ones (Z.of_nat (Nat.min lane 32)).
Proof.
  rewrite Z.land_ones by lia.
  destruct (Nat.le_gt_cases lane 32) as [Hle|Hgt].
  - rewrite Nat.min_l by lia. apply Z.mod_small.
    rewrite Z.ones_equiv. split.
    + pose proof (Z.pow_pos_nonneg 2 (Z.of_nat lane)). lia.
    + assert (2 ^ Z.of_nat lane <= 2 ^ 32) by (apply Z.pow_le_mono_r; lia). lia.
  - rewrite Nat.min_r by lia. apply Z.ones_mod_pow2. lia.
Qed.

Lemma ones_shiftr32 (lane : nat) :
  Z.shiftr (Z.ones (Z.of_nat lane)) 32 = Z.ones (Z.of_nat (lane - 32)).
Proof.
  rewrite Z.shiftr_div_pow2 by lia.
  destruct (Nat.le_gt_cases lane 32) as [Hle|Hgt].
  - replace (lane - 32)%nat with 0%nat by lia. change (Z.ones (Z.of_nat 0)) with 0.
    apply Z.div_small. rewrite Z.ones_equiv. split.
    + pose proof (Z.pow_pos_nonneg 2 (Z.of_nat lane)). lia.
    + assert (2 ^ Z.of_nat lane <= 2 ^ 32) by (apply Z.pow_le_mono_r; lia). lia.
  - rewrite Z.ones_div_pow2 by lia. f_equal. lia.
Qed.

Lemma ctpop_ballot_short (fl : list bool) :
  (length fl <= 64)%nat -> ctpop (ballot fl) = countTrue fl.
Proof.
  intros Hlen. unfold ctpop. rewrite popcount_ballot.
  now rewrite firstn_all2 by lia.
Qed.

Lemma wrap32_ballot (fl : list bool) : wrap32 (ballot fl) = ballot (firstn 32 fl).
Proof. unfold wrap32. change (2 ^ 32) with (2 ^ Z.of_nat 32). apply ballot_mod_pow2. Qed.

(** The lane's compacted index within its wave is the number of drawn
    lanes below it. *)
Lemma mbcnt_rank (ws : Z) (fl : list bool) (lane : nat) :
  ws = 32 \/ ws = 64 ->
  Z.of_nat (length fl) = ws ->
  Z.of_nat lane < ws ->
  (let drawMask := ballot fl in
   let idx := amdgcn_mbcnt_lo (Z.of_nat lane) (wrap32 drawMask) 0 in
   if ws =? 64 then amdgcn_mbcnt_hi (Z.of_nat lane) (Z.shiftr drawMask 32) idx else idx)
  = countTrue (firstn lane fl).
Proof.
  intros Hws Hlen Hlane. cbv zeta.
  assert (Hlo : amdgcn_mbcnt_lo (Z.of_nat lane) (wrap32 (ballot fl)) 0
                = countTrue (firstn (Nat.min lane 32) fl)).
  { unfold amdgcn_mbcnt_lo. rewrite ones_land_ones32.
    rewrite !wrap32_ballot, firstn_firstn, ballot_land_ones.
    rewrite ctpop_ballot_short.
    2:{ rewrite !length_firstn. lia. }
    rewrite firstn_firstn.
    replace (Nat.min (Nat.min lane 32) (Nat.min 32 32)) with (Nat.min lane 32) by lia.
    unfold CreateAdd. rewrite Z.add_0_l. apply wrap32_small.
    pose proof (countTrue_bounds (firstn (Nat.min lane 32) fl)) as Hb.
    rewrite length_firstn in Hb. lia. }
  rewrite Hlo.
  destruct Hws as [-> | ->]; cbn [Z.eqb Pos.eqb].
  - f_equal. f_equal. lia.
  - unfold amdgcn_mbcnt_hi. change 32 with (Z.of_nat 32) at 1.
    rewrite ballot_shiftr. change (Z.of_nat 32) with 32.
    rewrite ones_shiftr32, wrap32_ballot, ballot_land_ones.
    rewrite ctpop_ballot_short.
    2:{ rewrite !length_firstn. lia. }
    rewrite firstn_firstn.
    replace (Nat.min (lane - 32) 32) with (lane - 32)%nat by lia.
    unfold CreateAdd.
    rewrite (firstn_split_at 32 lane fl), countTrue_app.
    apply wrap32_small.
    pose proof (countTrue_bounds (firstn (Nat.min lane 32) fl)) as Hb.
    pose proof (countTrue_bounds (firstn (lane - 32) (skipn 32 fl))) as Hb'.
    rewrite length_firstn in Hb, Hb'. lia.
Qed.

(** ** Facts about the LDS *)

Lemma read_write_same (v : Z) (r : PrimShaderLdsRegion) (o : Z)
    (lds : gmap (PrimShaderLdsRegion * Z) Z) :
  readValueFromLds (writeValueToLds v r o lds) r o = v.
Proof. unfold readValueFromLds, writeValueToLds. now rewrite lookup_insert_eq. Qed.

Lemma read_write_other (v : Z) (r r' : PrimShaderLdsRegion) (o o' : Z)
    (lds : gmap (PrimShaderLdsRegion * Z) Z) :
  (r', o') <> (r, o) ->
  readValueFromLds (writeValueToLds v r' o' lds) r o = readValueFromLds lds r o.
Proof.
  intros Hne. unfold readValueFromLds, writeValueToLds. now rewrite lookup_insert_ne.
Qed.

Lemma read_write_region (v : Z) (r r' : PrimShaderLdsRegion) (o o' : Z)
    (lds : gmap (PrimShaderLdsRegion * Z) Z) :
  r' <> r ->
  readValueFromLds (writeValueToLds v r' o' lds) r o = readValueFromLds lds r o.
Proof. intros Hne. apply read_write_other. congruence. Qed.

Lemma read_writeVertexCullInfo (v i d : Z) (r : PrimShaderLdsRegion) (o : Z)
    (lds : gmap (PrimShaderLdsRegion * Z) Z) :
  r <> VertexCullInfo ->
  readValueFromLds (writeVertexCullInfoToLds v i d lds) r o = readValueFromLds lds r o.
Proof. intros Hne. unfold writeVertexCullInfoToLds. apply read_write_region. congruence. Qed.

Lemma read_writePerThreadVec4 (v : Vec4 Z) (tid off : Z) (r' r : PrimShaderLdsRegion) (o : Z)
    (lds : gmap (PrimShaderLdsRegion * Z) Z) :
  r' <> r ->
  readValueFromLds (writePerThreadVec4ToLds v tid r' off lds) r o = readValueFromLds lds r o.
Proof.
  intros Hne. unfold writePerThreadVec4ToLds. cbv zeta.
  now rewrite !read_write_region by assumption.
Qed.

Lemma read_atomicAdd_same (v : Z) (r : PrimShaderLdsRegion) (o : Z)
    (lds : gmap (PrimShaderLdsRegion * Z) Z) :
  readValueFromLds (atomicAdd v r o lds) r o = CreateAdd (readValueFromLds lds r o) v.
Proof. unfold atomicAdd. fold (writeValueToLds (CreateAdd (readValueFromLds lds r o) v) r o lds).
  apply read_write_same. Qed.

Lemma read_atomicAdd_other (v : Z) (r r' : PrimShaderLdsRegion) (o o' : Z)
    (lds : gmap (PrimShaderLdsRegion * Z) Z) :
  (r', o') <> (r, o) ->
  readValueFromLds (atomicAdd v r' o' lds) r o = readValueFromLds lds r o.
Proof.
  intros Hne. unfold atomicAdd.
  fold (writeValueToLds (CreateAdd (readValueFromLds lds r' o') v) r' o' lds).
  now apply read_write_other.
Qed.

Lemma forallb_imap_lookup {A : Type} (f : nat -> A -> bool) (l : list A) :
  forallb id (imap f l) = true ->
  forall i x, l !! i = Some x -> f i x = true.
Proof.
  revert f. induction l as [|a l IH]; intros f H i x Hi; [discriminate|].
  cbn [imap forallb] in H. apply andb_true_iff in H as [Ha Hl].
  destruct i as [|i]; cbn in Hi.
  - now injection Hi as <-.
  - exact (IH (f ∘ S) Hl i x Hi).
Qed.

(** ** Ranks: numbering the flagged elements of a list in order *)

Lemma omap_rank {A : Type} (d : A -> bool) (g : A -> option Z) (l : list A) (base : Z) :
  (forall k x, l !! k = Some x ->
     g x = if d x then Some (base + countTrue (firstn k (map d l))) else None) ->
  omap g l = seqZ base (countTrue (map d l)).
Proof.
  revert base. induction l as [|x l IH]; intros base H.
  - cbn [map countTrue omap]. now rewrite seqZ_nil by lia.
  - pose proof (H 0%nat x eq_refl) as Hx. cbn [firstn map countTrue] in Hx.
    rewrite Z.add_0_r in Hx.
    assert (Hl : omap g l = seqZ (base + Z.b2z (d x)) (countTrue (map d l))).
    { apply IH. intros k y Hk. rewrite (H (S k) y Hk). cbn [firstn map countTrue].
      destruct (d y); [|reflexivity]. f_equal. lia. }
    change (omap g (x :: l))
      with (match g x with Some y => y :: omap g l | None => omap g l end).
    cbn [map countTrue]. rewrite Hx, Hl.
    pose proof (countTrue_bounds (map d l)) as Hb.
    destruct (d x); cbn [Z.b2z].
    + rewrite (seqZ_cons base) by lia. f_equal. f_equal; lia.
    + now rewrite Z.add_0_r, Z.add_0_l.
Qed.

Lemma omap_rank_concat {A : Type} (d : A -> bool) (g : list A -> A -> option Z)
    (ws : list (list A)) (base : Z) :
  (forall i wave k x, ws !! i = Some wave -> wave !! k = Some x ->
     g wave x = if d x
                then Some (base + countTrue (map d (concat (firstn i ws)))
                           + countTrue (firstn k (map d wave)))
                else None) ->
  concat (map (fun wave => omap (g wave) wave) ws) = seqZ base (countTrue (map d (concat ws))).
Proof.
  revert base. induction ws as [|wave ws IH]; intros base H.
  - cbn [map concat countTrue]. now rewrite seqZ_nil by lia.
  - cbn [map concat]. rewrite map_app, countTrue_app.
    pose proof (countTrue_bounds (map d wave)) as Hb.
    pose proof (countTrue_bounds (map d (concat ws))) as Hb'.
    rewrite seqZ_app by lia. f_equal.
    + apply omap_rank. intros k x Hk. rewrite (H 0%nat wave k x eq_refl Hk).
      cbn [firstn concat map countTrue]. now rewrite Z.add_0_r.
    + apply IH. intros i u k x Hi Hk. rewrite (H (S i) u k x Hi Hk).
      cbn [firstn concat]. rewrite map_app, countTrue_app.
      destruct (d x); [|reflexivity]. f_equal. lia.
Qed.

Lemma omap_concat_map {A B C : Type} (f : B -> option C) (g : list A -> A -> B)
    (ws : list (list A)) :
  omap f (concat (map (fun wave => map (g wave) wave) ws))
  = concat (map (fun wave => omap (fun x => f (g wave x)) wave) ws).
Proof.
  induction ws as [|wave ws IH]; [reflexivity|].
  cbn [map concat]. rewrite omap_app, IH. f_equal.
  clear IH. generalize (g wave). intros h.
  induction wave as [|x wave IHw]; [reflexivity|].
  cbn [map].
  change (omap f (h x :: map h wave))
    with (match f (h x) with Some y => y :: omap f (map h wave) | None => omap f (map h wave) end).
  change (omap (fun x0 => f (h x0)) (x :: wave))
    with (match f (h x) with
          | Some y => y :: omap (fun x0 => f (h x0)) wave
          | None => omap (fun x0 => f (h x0)) wave
          end).
  now rewrite IHw.
Qed.

(** ** The culling path of a well-formed subgroup *)

Section CullingPath.
Context {SF : ShaderFloats}.
Variable cfg : ShaderConfig.
Variable primShaderTable : Z -> Z.
Variables V P : Z.
Variable waves : list (list Thread).
Hypothesis Hwf : wellFormedSubgroup cfg V P waves = true.

Lemma wf_waveSize : waveSize cfg = 32 \/ waveSize cfg = 64.
Proof.
  unfold wellFormedSubgroup in Hwf. rewrite !andb_true_iff in Hwf.
  destruct Hwf as [[[[H _] _] _] _].
  apply orb_true_iff in H as [H|H]; apply Z.eqb_eq in H; auto.
Qed.

Lemma wf_waveCount :
  (waveSize cfg = 32 /\ waveCountInSubgroup cfg = 8)
  \/ (waveSize cfg = 64 /\ waveCountInSubgroup cfg = 4).
Proof.
  unfold waveCountInSubgroup.
  destruct wf_waveSize as [H|H]; rewrite H; [left|right]; split; reflexivity.
Qed.

Lemma wf_counts : 0 <= V < 512 /\ 0 <= P < 512.
Proof.
  unfold wellFormedSubgroup in Hwf. rewrite !andb_true_iff in Hwf.
  destruct Hwf as [[[[_ [H1 H2]] [H3 H4]] _] _]. lia.
Qed.

Lemma wf_waves : (0 < length waves)%nat /\ Z.of_nat (length waves) <= waveCountInSubgroup cfg.
Proof.
  unfold wellFormedSubgroup in Hwf. rewrite !andb_true_iff in Hwf.
  destruct Hwf as [[_ [H1 H2]] _]. lia.
Qed.

Lemma wf_wave (w : nat) (wave : list Thread) :
  waves !! w = Some wave -> wellFormedWave cfg V P w wave = true.
Proof.
  unfold wellFormedSubgroup in Hwf. rewrite !andb_true_iff in Hwf.
  destruct Hwf as [_ H]. apply (forallb_imap_lookup _ _ H).
Qed.

Lemma wf_wave_length (w : nat) (wave : list Thread) :
  waves !! w = Some wave -> Z.of_nat (length wave) = waveSize cfg.
Proof.
  intros Hw. apply wf_wave in Hw. unfold wellFormedWave in Hw.
  apply andb_true_iff in Hw as [H _]. lia.
Qed.

Lemma wf_thread (w l : nat) (wave : list Thread) (t : Thread) :
  waves !! w = Some wave -> wave !! l = Some t ->
  hwLane t = Z.of_nat l
  /\ threadIdInWave (nggInputs t) = Z.of_nat l
  /\ waveIdInSubgroup (nggInputs t) = Z.of_nat w
  /\ threadIdInSubgroup (nggInputs t) = Z.of_nat w * waveSize cfg + Z.of_nat l
  /\ vertCountInSubgroup (nggInputs t) = V
  /\ primCountInSubgroup (nggInputs t) = P.
Proof.
  intros Hw Hl. apply wf_wave in Hw. unfold wellFormedWave in Hw.
  apply andb_true_iff in Hw as [_ H].
  pose proof (forallb_imap_lookup _ _ H l t Hl) as Ht.
  unfold wellFormedThread in Ht. rewrite !andb_true_iff in Ht.
  destruct Ht as [[[[[H1 H2] H3] H4] H5] H6]. lia.
Qed.

Lemma wf_lane_bound (w l : nat) (wave : list Thread) (t : Thread) :
  waves !! w = Some wave -> wave !! l = Some t ->
  Z.of_nat w < waveCountInSubgroup cfg /\ Z.of_nat l < waveSize cfg.
Proof.
  intros Hw Hl. pose proof (wf_wave_length _ _ Hw) as Hlen.
  apply lookup_lt_Some in Hw, Hl. pose proof wf_waves. lia.
Qed.

Lemma wf_runtimePassthrough (w l : nat) (wave : list Thread) (t : Thread) :
  waves !! w = Some wave -> wave !! l = Some t ->
  runtimePassthrough cfg t = subgroupRuntimePassthrough cfg V.
Proof.
  intros Hw Hl. destruct (wf_thread _ _ _ _ Hw Hl) as (_ & _ & _ & _ & HV & _).
  unfold runtimePassthrough, subgroupRuntimePassthrough. now rewrite HV.
Qed.

Hypothesis Hrp : subgroupRuntimePassthrough cfg V = false.

Lemma in_waves (w l : nat) (wave : list Thread) (t : Thread) :
  waves !! w = Some wave -> wave !! l = Some t -> In t (concat waves).
Proof.
  intros Hw Hl. apply in_concat. exists wave. split.
  - apply list_elem_of_In. eapply list_elem_of_lookup_2. exact Hw.
  - apply list_elem_of_In. eapply list_elem_of_lookup_2. exact Hl.
Qed.

(** The per-wave counters [0 .. waveCountInSubgroup] are zero at the
    barrier of [.endWriteVertCullData] ... *)
Lemma initVertCount_keeps_zero (t : Thread) (lds : gmap (PrimShaderLdsRegion * Z) Z) (j : Z) :
  readValueFromLds lds VertexCounts j = 0 ->
  readValueFromLds
    (writeVertCullData cfg t (initVertCount cfg t (initVertDrawFlag cfg t lds))) VertexCounts j
  = 0.
Proof.
  intros H0.
  assert (H1 : readValueFromLds (initVertDrawFlag cfg t lds) VertexCounts j = 0).
  { unfold initVertDrawFlag. destruct (vertValidInSubgroup t); [|exact H0].
    now rewrite read_writeVertexCullInfo by discriminate. }
  assert (H2 : readValueFromLds (initVertCount cfg t (initVertDrawFlag cfg t lds))
                 VertexCounts j = 0).
  { unfold initVertCount. destruct (waveValid cfg t); [|exact H1].
    unfold writePerThreadDataToLds.
    destruct (decide (perThreadLdsOffset 1 (threadIdInSubgroup (nggInputs t)) 0 = j))
      as [->|Hne].
    - apply read_write_same.
    - rewrite read_write_other by congruence. exact H1. }
  unfold writeVertCullData, cullData. destruct (vertValidInWave t); [|exact H2].
  destruct (enableCullDistanceCulling (nggControl cfg));
    now rewrite read_writePerThreadVec4 by discriminate.
Qed.

Lemma initVertCount_writes_zero (t : Thread) (lds : gmap (PrimShaderLdsRegion * Z) Z) :
  waveValid cfg t = true ->
  readValueFromLds
    (writeVertCullData cfg t (initVertCount cfg t (initVertDrawFlag cfg t lds))) VertexCounts
    (perThreadLdsOffset 1 (threadIdInSubgroup (nggInputs t)) 0)
  = 0.
Proof.
  intros Hv.
  assert (H2 : readValueFromLds (initVertCount cfg t (initVertDrawFlag cfg t lds))
                 VertexCounts (perThreadLdsOffset 1 (threadIdInSubgroup (nggInputs t)) 0) = 0).
  { unfold initVertCount. rewrite Hv. apply read_write_same. }
  unfold writeVertCullData, cullData. destruct (vertValidInWave t); [|exact H2].
  destruct (enableCullDistanceCulling (nggControl cfg));
    now rewrite read_writePerThreadVec4 by discriminate.
Qed.

Lemma initVertCount_fold (ts : list Thread) (lds : gmap (PrimShaderLdsRegion * Z) Z) (j : Z) :
  readValueFromLds lds VertexCounts j = 0
  \/ (exists t, In t ts /\ runtimePassthrough cfg t = false /\ waveValid cfg t = true
                /\ perThreadLdsOffset 1 (threadIdInSubgroup (nggInputs t)) 0 = j) ->
  readValueFromLds
    (foldl (unlessPassthrough cfg
              (fun t l => writeVertCullData cfg t (initVertCount cfg t (initVertDrawFlag cfg t l))))
           lds ts) VertexCounts j
  = 0.
Proof.
  revert lds. induction ts as [|t ts IH]; intros lds H; cbn [foldl].
  - destruct H as [H|(t & [] & _)]. exact H.
  - apply IH. destruct H as [H|(t' & [<-|Hin] & Hp & Hv & Ho)].
    + left. unfold unlessPassthrough. destruct (runtimePassthrough cfg t); [exact H|].
      now apply initVertCount_keeps_zero.
    + left. unfold unlessPassthrough. rewrite Hp, <- Ho.
      now apply initVertCount_writes_zero.
    + right. eauto.
Qed.

Lemma vertCounts_initialised (lds : gmap (PrimShaderLdsRegion * Z) Z) (j : Z) :
  0 <= j <= waveCountInSubgroup cfg ->
  readValueFromLds (ldsAtEndWriteVertCullData cfg waves lds) VertexCounts j = 0.
Proof.
  intros Hj. unfold ldsAtEndWriteVertCullData. apply initVertCount_fold. right.
  pose proof wf_waves as [Hn _].
  destruct (lookup_lt_is_Some_2 waves 0 Hn) as [wave Hw].
  pose proof (wf_wave_length _ _ Hw) as Hlen.
  assert (Hl : (Z.to_nat j < length wave)%nat) by (destruct wf_waveCount; lia).
  destruct (lookup_lt_is_Some_2 wave _ Hl) as [t Ht].
  destruct (wf_thread _ _ _ _ Hw Ht) as (_ & _ & _ & Htid & _).
  exists t. split; [exact (in_waves _ _ _ _ Hw Ht)|].
  split; [now rewrite (wf_runtimePassthrough _ _ _ _ Hw Ht)|].
  rewrite Htid. change (Z.of_nat 0) with 0. rewrite Z.mul_0_l, Z.add_0_l, Z2Nat.id by lia.
  unfold waveValid, perThreadLdsOffset, CreateICmpULT, CreateAdd. rewrite Htid.
  change (Z.of_nat 0) with 0. rewrite Z.mul_0_l, Z.add_0_l, Z2Nat.id by lia.
  cbn [Z.ltb Z.compare Pos.compare Pos.compare_cont]. rewrite Z.add_0_r.
  rewrite !wrap32_small by (destruct wf_waveCount; lia). split; [|reflexivity].
  apply Z.ltb_lt. lia.
Qed.

(** ... and [.writeVertDrawFlag] leaves every region but the vertex cull
    info alone. *)
Lemma culling_other_region (lds0 lds : gmap (PrimShaderLdsRegion * Z) Z) (ts : list Thread)
    (r : PrimShaderLdsRegion) (o : Z) :
  r <> VertexCullInfo ->
  readValueFromLds
    (foldl (unlessPassthrough cfg (culling cfg primShaderTable lds0)) lds ts) r o
  = readValueFromLds lds r o.
Proof.
  intros Hr. revert lds. induction ts as [|t ts IH]; intros lds; cbn [foldl]; [reflexivity|].
  rewrite IH. unfold unlessPassthrough, culling, writeVertDrawFlag.
  destruct (runtimePassthrough cfg t); [reflexivity|].
  destruct (primValidInSubgroup t); [|reflexivity].
  destruct (primitiveCulledBy cfg primShaderTable lds0 t); [reflexivity|].
  cbv zeta. now rewrite !read_writeVertexCullInfo by assumption.
Qed.

Lemma vertCounts_at_endCulling (lds : gmap (PrimShaderLdsRegion * Z) Z) (j : Z) :
  0 <= j <= waveCountInSubgroup cfg ->
  readValueFromLds (ldsAtEndCulling cfg primShaderTable waves lds) VertexCounts j = 0.
Proof.
  intros Hj. unfold ldsAtEndCulling. cbv zeta.
  rewrite culling_other_region by discriminate. now apply vertCounts_initialised.
Qed.

(** [.accumVertCount]: lane [k] of wave [w] adds the wave's count to the
    counter [w + k + 1]. *)
Lemma accumVertCount_step (c : Z) (w k : nat) (wave : list Thread) (t : Thread)
    (lds : gmap (PrimShaderLdsRegion * Z) Z) (j : Z) :
  waves !! w = Some wave -> wave !! k = Some t ->
  0 <= j <= waveCountInSubgroup cfg ->
  readValueFromLds (unlessPassthrough cfg (accumVertCount cfg c) lds t) VertexCounts j
  = if j =? Z.of_nat w + Z.of_nat k + 1
    then CreateAdd (readValueFromLds lds VertexCounts j) c
    else readValueFromLds lds VertexCounts j.
Proof.
  intros Hw Hk Hj.
  destruct (wf_thread _ _ _ _ Hw Hk) as (_ & Htiw & Hwid & _).
  destruct (wf_lane_bound _ _ _ _ Hw Hk) as [Hwb Hkb].
  unfold unlessPassthrough. rewrite (wf_runtimePassthrough _ _ _ _ Hw Hk), Hrp.
  unfold accumVertCount, accumThreadValid, CreateICmpULT, CreateSub, CreateAdd.
  rewrite Htiw, Hwid.
  assert (Hsmall : 0 <= waveCountInSubgroup cfg <= 8 /\ 0 <= waveSize cfg <= 64)
    by (destruct wf_waveCount as [[-> ->]|[-> ->]]; lia).
  rewrite !wrap32_small by (rewrite ?wrap32_small by lia; lia).
  destruct (Z.ltb_spec (Z.of_nat k) (waveCountInSubgroup cfg - Z.of_nat w)) as [Hv|Hv].
  - destruct (Z.eqb_spec j (Z.of_nat w + Z.of_nat k + 1)) as [->|Hne].
    + apply read_atomicAdd_same.
    + apply read_atomicAdd_other. congruence.
  - destruct (Z.eqb_spec j (Z.of_nat w + Z.of_nat k + 1)) as [->|Hne]; [lia|reflexivity].
Qed.

Lemma accumVertCount_lanes (c : Z) (w : nat) (wave : list Thread) (j : Z) :
  waves !! w = Some wave ->
  0 <= j <= waveCountInSubgroup cfg ->
  forall (ts : list Thread) (k : nat) (lds : gmap (PrimShaderLdsRegion * Z) Z),
    (forall i t, ts !! i = Some t -> wave !! (k + i)%nat = Some t) ->
    (k + length ts = length wave)%nat ->
    readValueFromLds (foldl (unlessPassthrough cfg (accumVertCount cfg c)) lds ts) VertexCounts j
    = if (Z.of_nat w <? j) && (Z.of_nat k <=? j - Z.of_nat w - 1)
      then CreateAdd (readValueFromLds lds VertexCounts j) c
      else readValueFromLds lds VertexCounts j.
Proof.
  intros Hw Hj. pose proof (wf_wave_length _ _ Hw) as Hlen.
  assert (Hsmall : waveCountInSubgroup cfg < waveSize cfg)
    by (destruct wf_waveCount as [[-> ->]|[-> ->]]; lia).
  induction ts as [|t ts IH]; intros k lds Hts Hk; cbn [foldl].
  - cbn [length] in Hk.
    destruct (Z.ltb_spec (Z.of_nat w) j); cbn [andb]; [|reflexivity].
    destruct (Z.leb_spec (Z.of_nat k) (j - Z.of_nat w - 1)); [lia|reflexivity].
  - cbn [length] in Hk.
    rewrite (IH (S k)).
    2:{ intros i u Hi. replace (S k + i)%nat with (k + S i)%nat by lia.
        apply Hts. exact Hi. }
    2:{ lia. }
    assert (Ht : wave !! k = Some t).
    { specialize (Hts 0%nat t eq_refl). now rewrite Nat.add_0_r in Hts. }
    rewrite (accumVertCount_step c w k wave t lds j Hw Ht Hj).
    destruct (Z.ltb_spec (Z.of_nat w) j); cbn [andb].
    + destruct (Z.eqb_spec j (Z.of_nat w + Z.of_nat k + 1)).
      * destruct (Z.leb_spec (Z.of_nat (S k)) (j - Z.of_nat w - 1)); [lia|].
        destruct (Z.leb_spec (Z.of_nat k) (j - Z.of_nat w - 1)); [reflexivity|lia].
      * destruct (Z.leb_spec (Z.of_nat (S k)) (j - Z.of_nat w - 1));
          destruct (Z.leb_spec (Z.of_nat k) (j - Z.of_nat w - 1)); try reflexivity; lia.
    + destruct (Z.eqb_spec j (Z.of_nat w + Z.of_nat k + 1)); [lia|reflexivity].
Qed.

Lemma accumVertCount_wave (c : Z) (w : nat) (wave : list Thread) (j : Z)
    (lds : gmap (PrimShaderLdsRegion * Z) Z) :
  waves !! w = Some wave ->
  0 <= j <= waveCountInSubgroup cfg ->
  readValueFromLds (foldl (unlessPassthrough cfg (accumVertCount cfg c)) lds wave) VertexCounts j
  = if Z.of_nat w <? j
    then CreateAdd (readValueFromLds lds VertexCounts j) c
    else readValueFromLds lds VertexCounts j.
Proof.
  intros Hw Hj.
  rewrite (accumVertCount_lanes c w wave j Hw Hj wave 0%nat lds) by (auto; lia).
  destruct (Z.ltb_spec (Z.of_nat w) j); cbn [andb]; [|reflexivity].
  destruct (Z.leb_spec (Z.of_nat 0) (j - Z.of_nat w - 1)); [reflexivity|lia].
Qed.

(** The number of drawn vertices of a wave and of the waves before wave
    [n]; [lds] is the memory at the barrier of [.endCulling]. *)
Definition drawnInWave (lds : gmap (PrimShaderLdsRegion * Z) Z) (wave : list Thread) : Z :=
  countTrue (map (drawFlagOf cfg lds) wave).

Definition drawnBefore (lds : gmap (PrimShaderLdsRegion * Z) Z) (n : nat) : Z :=
  countTrue (map (drawFlagOf cfg lds) (concat (firstn n waves))).

Lemma vertCountInWaveOf_drawn (lds : gmap (PrimShaderLdsRegion * Z) Z) (w : nat)
    (wave : list Thread) :
  waves !! w = Some wave ->
  vertCountInWaveOf cfg lds wave = drawnInWave lds wave.
Proof.
  intros Hw. pose proof (wf_wave_length _ _ Hw) as Hlen.
  assert (Hle : (length wave <= 64)%nat) by (destruct wf_waveSize; lia).
  unfold vertCountInWaveOf, drawMaskOf, drawnInWave.
  rewrite ctpop_ballot_short by now rewrite length_map.
  apply wrap32_small.
  pose proof (countTrue_bounds (map (drawFlagOf cfg lds) wave)) as Hb.
  rewrite length_map in Hb. lia.
Qed.

Lemma length_concat_waves (n : nat) :
  Z.of_nat (length (concat (firstn n waves))) <= 256.
Proof.
  assert (H : forall ws : list (list Thread),
             (forall wave, In wave ws -> Z.of_nat (length wave) = waveSize cfg) ->
             Z.of_nat (length (concat ws)) = Z.of_nat (length ws) * waveSize cfg).
  { induction ws as [|wave ws IH]; intros Hall; cbn [concat length]; [lia|].
    rewrite length_app, Nat2Z.inj_add, IH by (intros; apply Hall; now right).
    rewrite (Hall wave) by now left. lia. }
  rewrite H.
  - pose proof (length_firstn n waves) as Hn. pose proof wf_waves as [_ Hw].
    destruct wf_waveCount as [[Hs Hc]|[Hs Hc]]; rewrite Hs; rewrite Hc in Hw; lia.
  - intros wave Hin. apply list_elem_of_In in Hin.
    apply list_elem_of_lookup_1 in Hin as [i Hi].
    apply lookup_take_Some in Hi as [Hi _]. exact (wf_wave_length _ _ Hi).
Qed.

Lemma drawnBefore_bounds (lds : gmap (PrimShaderLdsRegion * Z) Z) (n : nat) :
  0 <= drawnBefore lds n <= 256.
Proof.
  unfold drawnBefore.
  pose proof (countTrue_bounds (map (drawFlagOf cfg lds) (concat (firstn n waves)))) as Hb.
  rewrite length_map in Hb. pose proof (length_concat_waves n). lia.
Qed.

Lemma accumVertCount_waves (ldsB : gmap (PrimShaderLdsRegion * Z) Z) (j : Z) :
  0 <= j <= waveCountInSubgroup cfg ->
  forall (ws : list (list Thread)) (w0 : nat) (lds : gmap (PrimShaderLdsRegion * Z) Z),
    (forall i wave, ws !! i = Some wave -> waves !! (w0 + i)%nat = Some wave) ->
    0 <= readValueFromLds lds VertexCounts j < 2 ^ 32 ->
    readValueFromLds
      (foldl (fun l wave =>
                foldl (unlessPassthrough cfg (accumVertCount cfg (vertCountInWaveOf cfg ldsB wave)))
                      l wave)
             lds ws) VertexCounts j
    = wrap32 (readValueFromLds lds VertexCounts j
              + countTrue (map (drawFlagOf cfg ldsB) (concat (firstn (Z.to_nat j - w0) ws)))).
Proof.
  intros Hj. induction ws as [|wave ws IH]; intros w0 lds Hws Hr; cbn [foldl].
  - rewrite firstn_nil. cbn [concat map countTrue]. rewrite Z.add_0_r.
    symmetry. now apply wrap32_small.
  - assert (Hw : waves !! w0 = Some wave).
    { specialize (Hws 0%nat wave eq_refl). now rewrite Nat.add_0_r in Hws. }
    rewrite (IH (S w0)).
    2:{ intros i u Hi. replace (S w0 + i)%nat with (w0 + S i)%nat by lia.
        apply Hws. exact Hi. }
    2:{ rewrite (accumVertCount_wave _ w0 wave j lds Hw Hj).
        destruct (Z.of_nat w0 <? j); [apply wrap32_range|exact Hr]. }
    rewrite (accumVertCount_wave _ w0 wave j lds Hw Hj).
    rewrite (vertCountInWaveOf_drawn ldsB w0 wave Hw). unfold drawnInWave.
    destruct (Z.ltb_spec (Z.of_nat w0) j) as [Hlt|Hge].
    + replace (Z.to_nat j - w0)%nat with (S (Z.to_nat j - S w0)) by lia.
      cbn [firstn concat]. rewrite map_app, countTrue_app.
      unfold CreateAdd, wrap32. rewrite Zplus_mod_idemp_l. f_equal. lia.
    + replace (Z.to_nat j - w0)%nat with 0%nat by lia.
      replace (Z.to_nat j - S w0)%nat with 0%nat by lia.
      reflexivity.
Qed.

(** At the barrier of [.endAccumVertCount] the counter [j] holds the number
    of vertices drawn in the waves before wave [j]. *)
Lemma vertCounts_at_endAccumVertCount (lds : gmap (PrimShaderLdsRegion * Z) Z) (j : Z) :
  0 <= j <= waveCountInSubgroup cfg ->
  readValueFromLds (ldsAtEndAccumVertCount cfg primShaderTable waves lds) VertexCounts j
  = drawnBefore (ldsAtEndCulling cfg primShaderTable waves lds) (Z.to_nat j).
Proof.
  intros Hj. unfold ldsAtEndAccumVertCount. cbv zeta.
  rewrite (accumVertCount_waves _ j Hj waves 0%nat) by
    (auto; rewrite vertCounts_at_endCulling by exact Hj; lia).
  rewrite vertCounts_at_endCulling by exact Hj.
  rewrite Z.add_0_l, Nat.sub_0_r. apply wrap32_small.
  pose proof (drawnBefore_bounds (ldsAtEndCulling cfg primShaderTable waves lds) (Z.to_nat j)).
  unfold drawnBefore in *. lia.
Qed.

(** The number of vertices the subgroup draws; [lds] is the memory the
    shader starts from. *)
Definition drawnInSubgroup (lds : gmap (PrimShaderLdsRegion * Z) Z) : Z :=
  countTrue (map (drawFlagOf cfg (ldsAtEndCulling cfg primShaderTable waves lds))
                 (concat waves)).

Lemma drawnInSubgroup_bounds (lds : gmap (PrimShaderLdsRegion * Z) Z) :
  0 <= drawnInSubgroup lds <= 256.
Proof.
  pose proof (drawnBefore_bounds (ldsAtEndCulling cfg primShaderTable waves lds)
                (length waves)) as H.
  unfold drawnBefore in H. now rewrite firstn_all in H.
Qed.

Lemma readlane_lookup (wave : list Thread) (value : Thread -> Z) (k : nat) (t : Thread) :
  wave !! k = Some t -> readlane wave value (Z.of_nat k) = value t.
Proof. intros Hk. unfold readlane. now rewrite Nat2Z.id, Hk. Qed.

Lemma vertCountInWaves_lane (lds : gmap (PrimShaderLdsRegion * Z) Z) (w k : nat)
    (wave : list Thread) (t : Thread) :
  waves !! w = Some wave -> wave !! k = Some t ->
  vertCountInWaves lds t = readValueFromLds lds VertexCounts (Z.of_nat k).
Proof.
  intros Hw Hk. destruct (wf_thread _ _ _ _ Hw Hk) as (_ & Htiw & _).
  destruct (wf_lane_bound _ _ _ _ Hw Hk) as [_ Hkb].
  unfold vertCountInWaves, readPerThreadDataFromLds, perThreadLdsOffset, CreateAdd.
  rewrite Htiw. cbn [Z.ltb Z.compare Pos.compare Pos.compare_cont]. rewrite Z.add_0_r.
  rewrite wrap32_small by (destruct wf_waveSize; lia). reflexivity.
Qed.

Lemma vertCountInSubgroupOf_drawn (lds : gmap (PrimShaderLdsRegion * Z) Z) (w : nat)
    (wave : list Thread) :
  waves !! w = Some wave ->
  vertCountInSubgroupOf cfg (ldsAtEndAccumVertCount cfg primShaderTable waves lds) wave
  = drawnInSubgroup lds.
Proof.
  intros Hw. pose proof (wf_wave_length _ _ Hw) as Hlen.
  assert (Hc : 0 <= waveCountInSubgroup cfg < waveSize cfg)
    by (destruct wf_waveCount as [[-> ->]|[-> ->]]; lia).
  assert (Hl : (Z.to_nat (waveCountInSubgroup cfg) < length wave)%nat) by lia.
  destruct (lookup_lt_is_Some_2 wave _ Hl) as [t Ht].
  unfold vertCountInSubgroupOf.
  rewrite <- (Z2Nat.id (waveCountInSubgroup cfg)) at 1 by lia.
  rewrite (readlane_lookup _ _ _ _ Ht), (vertCountInWaves_lane _ _ _ _ _ Hw Ht).
  rewrite vertCounts_at_endAccumVertCount by lia.
  unfold drawnBefore, drawnInSubgroup. rewrite Nat2Z.id, firstn_all2; [reflexivity|].
  pose proof wf_waves. lia.
Qed.

Lemma vertCountInPrevWaves_drawn (lds : gmap (PrimShaderLdsRegion * Z) Z) (w k : nat)
    (wave : list Thread) (t : Thread) :
  waves !! w = Some wave -> wave !! k = Some t ->
  vertCountInPrevWaves (ldsAtEndAccumVertCount cfg primShaderTable waves lds) wave t
  = drawnBefore (ldsAtEndCulling cfg primShaderTable waves lds) w.
Proof.
  intros Hw Hk. pose proof (wf_wave_length _ _ Hw) as Hlen.
  destruct (wf_thread _ _ _ _ Hw Hk) as (_ & _ & Hwid & _).
  destruct (wf_lane_bound _ _ _ _ Hw Hk) as [Hwb _].
  assert (Hc : 0 <= waveCountInSubgroup cfg < waveSize cfg)
    by (destruct wf_waveCount as [[-> ->]|[-> ->]]; lia).
  assert (Hl : (w < length wave)%nat) by lia.
  destruct (lookup_lt_is_Some_2 wave _ Hl) as [u Hu].
  unfold vertCountInPrevWaves. rewrite Hwid.
  rewrite (readlane_lookup _ _ _ _ Hu), (vertCountInWaves_lane _ _ _ _ _ Hw Hu).
  rewrite vertCounts_at_endAccumVertCount by lia.
  now rewrite Nat2Z.id.
Qed.

Lemma hasCulledVertices_drawn (lds : gmap (PrimShaderLdsRegion * Z) Z) (w k : nat)
    (wave : list Thread) (t : Thread) :
  waves !! w = Some wave -> wave !! k = Some t ->
  hasCulledVertices cfg (ldsAtEndAccumVertCount cfg primShaderTable waves lds) wave t
  = (drawnInSubgroup lds <? V).
Proof.
  intros Hw Hk. destruct (wf_thread _ _ _ _ Hw Hk) as (_ & _ & _ & _ & HV & _).
  unfold hasCulledVertices, CreateICmpULT.
  rewrite (vertCountInSubgroupOf_drawn lds w wave Hw), HV.
  pose proof (drawnInSubgroup_bounds lds). pose proof wf_counts.
  now rewrite !wrap32_small by lia.
Qed.

(** The compacted index written by [.compactVert]: the counter of the wave
    plus the number of drawn lanes below the lane. *)
Lemma compactedVertexIndexOf_rank (lds : gmap (PrimShaderLdsRegion * Z) Z) (w k : nat)
    (wave : list Thread) (t : Thread) :
  waves !! w = Some wave -> wave !! k = Some t ->
  let ldsB := ldsAtEndCulling cfg primShaderTable waves lds in
  let ldsC := ldsAtEndAccumVertCount cfg primShaderTable waves lds in
  compactedVertexIndexOf cfg ldsB ldsC wave t
  = drawnBefore ldsB w + countTrue (firstn k (map (drawFlagOf cfg ldsB) wave)).
Proof.
  intros Hw Hk ldsB ldsC.
  destruct (wf_thread _ _ _ _ Hw Hk) as (Hlane & _).
  destruct (wf_lane_bound _ _ _ _ Hw Hk) as [_ Hkb].
  pose proof (wf_wave_length _ _ Hw) as Hlen.
  unfold compactedVertexIndexOf. cbv zeta. rewrite Hlane.
  unfold drawMaskOf.
  pose proof (mbcnt_rank (waveSize cfg) (map (drawFlagOf cfg ldsB) wave) k wf_waveSize) as Hr.
  cbv zeta in Hr. rewrite Hr by (rewrite ?length_map; lia).
  unfold ldsC. rewrite (vertCountInPrevWaves_drawn lds w k wave t Hw Hk).
  fold ldsB. unfold CreateAdd. apply wrap32_small.
  pose proof (drawnBefore_bounds ldsB w).
  pose proof (countTrue_bounds (firstn k (map (drawFlagOf cfg ldsB) wave))) as Hb.
  rewrite length_firstn, length_map in Hb. destruct wf_waveSize; lia.
Qed.

Lemma threadResult_fields (lds : gmap (PrimShaderLdsRegion * Z) Z) (wave : list Thread)
    (t : Thread) :
  let ldsA := ldsAtEndWriteVertCullData cfg waves lds in
  let ldsB := ldsAtEndCulling cfg primShaderTable waves lds in
  let ldsC := ldsAtEndAccumVertCount cfg primShaderTable waves lds in
  let tr := threadResult cfg primShaderTable waves lds wave t in
  let tail := checkAllocReqToEnd cfg (ldsAtEndAllocReq cfg primShaderTable waves lds)
                (phisOf cfg primShaderTable waves lds wave t) t in
  blocks tr = (if runtimePassthrough cfg t then [runtimePassthroughBlock]
               else cullingBlocks cfg primShaderTable ldsA ldsB ldsC wave t) ++ fst tail
  /\ exports tr = snd tail
  /\ phis tr = phisOf cfg primShaderTable waves lds wave t
  /\ compactedVertexIndex tr
     = if negb (runtimePassthrough cfg t) && compactVertTaken cfg ldsB ldsC wave t
       then Some (compactedVertexIndexOf cfg ldsB ldsC wave t) else None.
Proof.
  cbv zeta. unfold threadResult.
  destruct (checkAllocReqToEnd cfg (ldsAtEndAllocReq cfg primShaderTable waves lds)
              (phisOf cfg primShaderTable waves lds wave t) t) as [b e].
  cbn [blocks exports phis compactedVertexIndex fst snd]. auto.
Qed.

(** In culling mode without API GS, for a well-formed subgroup on the
    culling path with vertex compaction enabled and fewer vertices drawn
    than the subgroup has: (1) [.compactVert] gives a drawn vertex, in lane
    [k] of wave [w], the index [VertexCounts[w]] plus the number of drawn
    lanes below [k] in its wave, and gives no index to a vertex that is not
    drawn; (2) the counter [VertexCounts[w]] read there is the number of
    vertices drawn in the waves before [w]; (3) listed in the order of the
    original thread ids, the compacted indices are 0, 1, ..., D - 1 for the
    D drawn vertices: they cover that range without gap or repeat and keep
    the relative order. *)
Theorem compaction_numbers_drawn_vertices (lds : gmap (PrimShaderLdsRegion * Z) Z) :
  compactVertex (pipelineState cfg) = true ->
  drawnInSubgroup lds < V ->
  let ldsB := ldsAtEndCulling cfg primShaderTable waves lds in
  let ldsC := ldsAtEndAccumVertCount cfg primShaderTable waves lds in
  (forall w k wave t, waves !! w = Some wave -> wave !! k = Some t ->
     compactedVertexIndex (threadResult cfg primShaderTable waves lds wave t)
     = if drawFlagOf cfg ldsB t
       then Some (vertCountInPrevWaves ldsC wave t
                  + popcount 64 (Z.land (drawMaskOf cfg ldsB wave) (Z.ones (Z.of_nat k))))
       else None)
  /\ (forall w k wave t, waves !! w = Some wave -> wave !! k = Some t ->
        vertCountInPrevWaves ldsC wave t = readValueFromLds ldsC VertexCounts (Z.of_nat w)
        /\ vertCountInPrevWaves ldsC wave t
           = countTrue (map (drawFlagOf cfg ldsB) (concat (firstn w waves))))
  /\ omap compactedVertexIndex
       (concat (threadResults (runFromEndFetchVertCullData cfg primShaderTable waves lds)))
     = seqZ 0 (drawnInSubgroup lds).
Proof.
  intros Hcv Hculled ldsB ldsC.
  assert (Hidx : forall w k wave t, waves !! w = Some wave -> wave !! k = Some t ->
            compactedVertexIndex (threadResult cfg primShaderTable waves lds wave t)
            = if drawFlagOf cfg ldsB t
              then Some (drawnBefore ldsB w
                         + countTrue (firstn k (map (drawFlagOf cfg ldsB) wave)))
              else None).
  { intros w k wave t Hw Hk. unfold ldsB.
    destruct (threadResult_fields lds wave t) as (_ & _ & _ & ->).
    rewrite (wf_runtimePassthrough _ _ _ _ Hw Hk), Hrp. cbn [negb andb].
    unfold compactVertTaken. rewrite Hcv, (hasCulledVertices_drawn lds w k wave t Hw Hk).
    apply Z.ltb_lt in Hculled. rewrite Hculled, andb_true_r. cbn [andb].
    pose proof (compactedVertexIndexOf_rank lds w k wave t Hw Hk) as Hr.
    cbv zeta in Hr. rewrite Hr. reflexivity. }
  split; [|split].
  - intros w k wave t Hw Hk. rewrite (Hidx w k wave t Hw Hk).
    destruct (drawFlagOf cfg ldsB t); [|reflexivity].
    unfold ldsC. rewrite (vertCountInPrevWaves_drawn lds w k wave t Hw Hk). fold ldsB.
    unfold drawMaskOf. rewrite ballot_land_ones, popcount_ballot, firstn_firstn.
    destruct (wf_lane_bound _ _ _ _ Hw Hk) as [_ Hkb].
    replace (Nat.min 64 k) with k by (destruct wf_waveSize; lia). reflexivity.
  - intros w k wave t Hw Hk. unfold ldsC.
    rewrite (vertCountInPrevWaves_drawn lds w k wave t Hw Hk). fold ldsB. split.
    + symmetry. destruct (wf_lane_bound _ _ _ _ Hw Hk) as [Hwb _].
      rewrite vertCounts_at_endAccumVertCount by lia. now rewrite Nat2Z.id.
    + reflexivity.
  - unfold runFromEndFetchVertCullData. cbn [threadResults].
    rewrite omap_concat_map.
    apply (omap_rank_concat (drawFlagOf cfg ldsB)
             (fun wave x =>
                compactedVertexIndex (threadResult cfg primShaderTable waves lds wave x))
             waves 0).
    intros i wave k x Hi Hk. rewrite (Hidx i k wave x Hi Hk). now rewrite Z.add_0_l.
Qed.

(** The values of the phis of [.checkAllocReq] on the culling path. *)
Lemma phisOf_culling (lds : gmap (PrimShaderLdsRegion * Z) Z) (w k : nat)
    (wave : list Thread) (t : Thread) :
  waves !! w = Some wave -> wave !! k = Some t ->
  let D := drawnInSubgroup lds in
  phisOf cfg primShaderTable waves lds wave t
  = {| compactVertexPhi := compactVertex (pipelineState cfg) && (D <? V);
       cullFlag :=
         primitiveCulledAtEndCulling cfg primShaderTable
           (ldsAtEndWriteVertCullData cfg waves lds) t;
       fullyCulled := D =? 0;
       primCountInSubgroupPhi := if D =? 0 then dummyExportCount cfg else P;
       vertCountInSubgroupPhi :=
         if D =? 0 then dummyExportCount cfg
         else if compactVertex (pipelineState cfg) then D else V;
       drawFlagPhi := drawFlagOf cfg (ldsAtEndCulling cfg primShaderTable waves lds) t;
       vertCountInWavePhi :=
         vertCountInWaveOf cfg (ldsAtEndCulling cfg primShaderTable waves lds) wave |}.
Proof.
  intros Hw Hk D. unfold phisOf.
  rewrite (wf_runtimePassthrough _ _ _ _ Hw Hk), Hrp.
  unfold endCompactVert. cbv zeta.
  rewrite (hasCulledVertices_drawn lds w k wave t Hw Hk).
  rewrite (vertCountInSubgroupOf_drawn lds w wave Hw). fold D.
  assert (HD : CreateICmpEQ D 0 = (D =? 0)).
  { unfold CreateICmpEQ. pose proof (drawnInSubgroup_bounds lds).
    now rewrite !wrap32_small by (unfold D; lia). }
  rewrite HD.
  destruct wave as [|t0 rest]; [discriminate|].
  destruct (wf_thread w 0 (t0 :: rest) t0 Hw eq_refl) as (_ & _ & _ & _ & HV & HP).
  unfold readfirstlane, CreateSelect. rewrite HV, HP. reflexivity.
Qed.

End CullingPath.

(** ** The runtime passthrough path of a well-formed subgroup *)

Section RuntimePassthroughPath.
Context {SF : ShaderFloats}.
Variable cfg : ShaderConfig.
Variable primShaderTable : Z -> Z.
Variables V P : Z.
Variable waves : list (list Thread).
Hypothesis Hwf : wellFormedSubgroup cfg V P waves = true.
Hypothesis Hrp : subgroupRuntimePassthrough cfg V = true.

Lemma passthrough_fold (f : Thread -> gmap (PrimShaderLdsRegion * Z) Z ->
                            gmap (PrimShaderLdsRegion * Z) Z)
    (ts : list Thread) (lds : gmap (PrimShaderLdsRegion * Z) Z) :
  (forall t, In t ts -> runtimePassthrough cfg t = true) ->
  foldl (unlessPassthrough cfg f) lds ts = lds.
Proof.
  revert lds. induction ts as [|t ts IH]; intros lds H; cbn [foldl]; [reflexivity|].
  unfold unlessPassthrough at 2. rewrite (H t) by now left.
  apply IH. intros u Hu. apply H. now right.
Qed.

Lemma passthrough_thread (t : Thread) :
  In t (concat waves) -> runtimePassthrough cfg t = true.
Proof.
  intros Hin. apply in_concat in Hin as (wave & Hwave & Ht).
  apply list_elem_of_In, list_elem_of_lookup_1 in Hwave as [w Hw].
  apply list_elem_of_In, list_elem_of_lookup_1 in Ht as [k Hk].
  now rewrite (wf_runtimePassthrough cfg V P waves Hwf w k wave t Hw Hk).
Qed.

Lemma passthrough_fold_waves
    (f : list Thread -> Thread -> gmap (PrimShaderLdsRegion * Z) Z ->
         gmap (PrimShaderLdsRegion * Z) Z)
    (lds : gmap (PrimShaderLdsRegion * Z) Z) :
  foldl (fun l wave => foldl (unlessPassthrough cfg (f wave)) l wave) lds waves = lds.
Proof.
  assert (H : forall ws : list (list Thread),
             (forall wave, In wave ws -> forall t, In t wave -> runtimePassthrough cfg t = true) ->
             foldl (fun l wave => foldl (unlessPassthrough cfg (f wave)) l wave) lds ws = lds).
  { induction ws as [|wave ws IH]; intros Hall; cbn [foldl]; [reflexivity|].
    rewrite passthrough_fold by (apply Hall; now left).
    apply IH. intros u Hu. apply Hall. now right. }
  apply H. intros wave Hwave t Ht. apply passthrough_thread.
  apply in_concat. eauto.
Qed.

(** No invocation touches the LDS. *)
Lemma passthrough_lds (lds : gmap (PrimShaderLdsRegion * Z) Z) :
  ldsAtEndAllocReq cfg primShaderTable waves lds = lds.
Proof.
  assert (HA : ldsAtEndWriteVertCullData cfg waves lds = lds).
  { unfold ldsAtEndWriteVertCullData. apply passthrough_fold. apply passthrough_thread. }
  assert (HB : ldsAtEndCulling cfg primShaderTable waves lds = lds).
  { unfold ldsAtEndCulling. cbv zeta. rewrite HA.
    apply passthrough_fold. apply passthrough_thread. }
  assert (HC : ldsAtEndAccumVertCount cfg primShaderTable waves lds = lds).
  { unfold ldsAtEndAccumVertCount. cbv zeta. rewrite HB.
    apply (passthrough_fold_waves
             (fun wave => accumVertCount cfg (vertCountInWaveOf cfg lds wave))). }
  unfold ldsAtEndAllocReq. cbv zeta. rewrite HB, HC.
  apply (passthrough_fold_waves
           (fun wave t l => if compactVertTaken cfg lds lds wave t
                            then compactVert cfg lds lds wave t l else l)).
Qed.

Lemma phisOf_passthrough (lds : gmap (PrimShaderLdsRegion * Z) Z) (w k : nat)
    (wave : list Thread) (t : Thread) :
  waves !! w = Some wave -> wave !! k = Some t ->
  phisOf cfg primShaderTable waves lds wave t
  = {| compactVertexPhi := false; cullFlag := false; fullyCulled := false;
       primCountInSubgroupPhi := P; vertCountInSubgroupPhi := V;
       drawFlagPhi := true; vertCountInWavePhi := vertCountInWave (nggInputs t) |}.
Proof.
  intros Hw Hk. unfold phisOf.
  rewrite (wf_runtimePassthrough cfg V P waves Hwf w k wave t Hw Hk), Hrp.
  destruct (wf_thread cfg V P waves Hwf w k wave t Hw Hk) as (_ & _ & _ & _ & HV & HP).
  unfold runtimePassthroughPhis. now rewrite HV, HP.
Qed.

End RuntimePassthroughPath.

(** ** Bit fields of the exported words *)

Lemma testbit_above (c n i : Z) : 0 <= c < 2 ^ n -> n <= i -> Z.testbit c i = false.
Proof.
  intros Hc Hi. destruct (Z.eq_dec c 0) as [->|Hn]; [apply Z.bits_0|].
  apply Z.bits_above_log2; [lia|].
  assert (Z.log2 c < n); [|lia]. apply Z.log2_lt_pow2; lia.
Qed.

Lemma lor_shiftl_add (p v n : Z) :
  0 <= n -> 0 <= v < 2 ^ n -> Z.lor (Z.shiftl p n) v = p * 2 ^ n + v.
Proof.
  intros Hn Hv.
  assert (Hland : Z.land (Z.shiftl p n) v = 0).
  { apply Z.bits_inj'. intros i Hi. rewrite Z.land_spec, Z.bits_0.
    destruct (Z_lt_dec i n).
    - now rewrite Z.shiftl_spec_low.
    - rewrite (testbit_above v n i) by lia. apply andb_false_r. }
  rewrite <- Z.lxor_lor, <- Z.add_nocarry_lxor by assumption.
  now rewrite Z.shiftl_mul_pow2.
Qed.

Lemma createUBfe_low (value count : Z) :
  0 < count < 32 -> 0 <= value -> createUBfe value 0 count = value mod 2 ^ count.
Proof.
  intros Hc Hv. unfold createUBfe, CreateAnd.
  destruct (Z.eqb_spec count 32); [lia|]. cbn [Z.eqb].
  rewrite Z.shiftl_1_l, wrap32_small.
  - replace (2 ^ count - 1) with (Z.ones count) by (rewrite Z.ones_equiv; lia).
    apply Z.land_ones. lia.
  - split; [apply Z.pow_nonneg; lia|]. apply Z.pow_lt_mono_r; lia.
Qed.

Lemma createUBfe_field (value offset count : Z) :
  0 < offset -> 0 < count < 32 -> 0 <= value < 2 ^ 32 ->
  createUBfe value offset count = (value / 2 ^ offset) mod 2 ^ count.
Proof.
  intros Ho Hc Hv. unfold createUBfe, CreateAnd, CreateLShr.
  destruct (Z.eqb_spec count 32); [lia|].
  destruct (Z.eqb_spec offset 0); [lia|].
  rewrite Z.shiftl_1_l, (wrap32_small (2 ^ count)).
  - replace (2 ^ count - 1) with (Z.ones count) by (rewrite Z.ones_equiv; lia).
    rewrite Z.land_ones by lia.
    now rewrite wrap32_small, Z.shiftr_div_pow2 by lia.
  - split; [apply Z.pow_nonneg; lia|]. apply Z.pow_lt_mono_r; lia.
Qed.

(** The count report word: M0[10:0] is the vertex count and M0[22:12] the
    primitive count. *)
Lemma sendGsAllocReqMessage_fields (primCount vertCount : Z) :
  0 <= primCount < 2 ^ 11 -> 0 <= vertCount < 2 ^ 11 ->
  let m0 := sendGsAllocReqMessage primCount vertCount in
  m0 = Z.lor vertCount (Z.shiftl primCount 12)
  /\ createUBfe m0 0 11 = vertCount
  /\ createUBfe m0 12 11 = primCount.
Proof.
  intros Hp Hv. cbv zeta. unfold sendGsAllocReqMessage, CreateOr, CreateShl.
  assert (Hs : wrap32 (Z.shiftl primCount 12) = Z.shiftl primCount 12).
  { apply wrap32_small. rewrite Z.shiftl_mul_pow2 by lia.
    change (2 ^ 12) with 4096. change (2 ^ 32) with 4294967296.
    change (2 ^ 11) with 2048 in Hp. lia. }
  rewrite Hs. split; [apply Z.lor_comm|].
  rewrite (lor_shiftl_add primCount vertCount 12) by
    (change (2 ^ 12) with 4096; change (2 ^ 11) with 2048 in Hv; lia).
  change (2 ^ 11) with 2048 in Hp, Hv. change (2 ^ 12) with 4096.
  split.
  - rewrite createUBfe_low by lia. change (2 ^ 11) with 2048.
    replace (primCount * 4096 + vertCount) with (vertCount + (2 * primCount) * 2048) by lia.
    rewrite Z.mod_add by lia. apply Z.mod_small. lia.
  - rewrite createUBfe_field by (change (2 ^ 32) with 4294967296; lia).
    change (2 ^ 11) with 2048. change (2 ^ 12) with 4096.
    rewrite Z.add_comm, Z.div_add by lia.
    rewrite (Z.div_small vertCount 4096) by lia. apply Z.mod_small. lia.
Qed.

(** The primitive connectivity word of a primitive that is not culled. *)
Lemma primitiveConnectivityData_fields (v0 v1 v2 : Z) :
  0 <= v0 < 2 ^ 9 -> 0 <= v1 < 2 ^ 9 -> 0 <= v2 < 2 ^ 9 ->
  let w := primitiveConnectivityData v0 v1 v2 false in
  w = Z.lor (Z.lor (Z.shiftl v2 20) (Z.shiftl v1 10)) v0
  /\ createUBfe w 0 9 = v0
  /\ createUBfe w 10 9 = v1
  /\ createUBfe w 20 9 = v2
  /\ Z.testbit w 31 = false.
Proof.
  intros H0 H1 H2. cbv zeta.
  change (2 ^ 9) with 512 in H0, H1, H2.
  assert (Hw : primitiveConnectivityData v0 v1 v2 false = v2 * 1048576 + v1 * 1024 + v0).
  { unfold primitiveConnectivityData, CreateSelect, CreateOr, CreateShl.
    rewrite (wrap32_small (Z.shiftl v2 10)) by
      (rewrite Z.shiftl_mul_pow2 by lia; change (2 ^ 10) with 1024;
       change (2 ^ 32) with 4294967296; lia).
    rewrite (lor_shiftl_add v2 v1 10) by (change (2 ^ 10) with 1024; lia).
    change (2 ^ 10) with 1024.
    rewrite (wrap32_small (Z.shiftl _ 10)) by
      (rewrite Z.shiftl_mul_pow2 by lia; change (2 ^ 10) with 1024;
       change (2 ^ 32) with 4294967296; lia).
    rewrite (lor_shiftl_add _ v0 10) by (change (2 ^ 10) with 1024; lia).
    change (2 ^ 10) with 1024. lia. }
  rewrite Hw. repeat split.
  - change 20 with (10 + 10).
    rewrite <- (Z.shiftl_shiftl v2 10 10), <- Z.shiftl_lor by lia.
    rewrite (lor_shiftl_add v2 v1 10) by (change (2 ^ 10) with 1024; lia).
    rewrite (lor_shiftl_add _ v0 10) by (change (2 ^ 10) with 1024; lia).
    change (2 ^ 10) with 1024. lia.
  - rewrite createUBfe_low by lia. change (2 ^ 9) with 512.
    replace (v2 * 1048576 + v1 * 1024 + v0) with (v0 + (v2 * 2048 + v1 * 2) * 512) by lia.
    rewrite Z.mod_add by lia. apply Z.mod_small. lia.
  - rewrite createUBfe_field by (change (2 ^ 32) with 4294967296; lia).
    change (2 ^ 9) with 512. change (2 ^ 10) with 1024.
    replace (v2 * 1048576 + v1 * 1024 + v0) with (v0 + (v2 * 1024 + v1) * 1024) by lia.
    rewrite Z.div_add, (Z.div_small v0 1024), Z.add_0_l by lia.
    replace (v2 * 1024 + v1) with (v1 + (v2 * 2) * 512) by lia.
    rewrite Z.mod_add by lia. apply Z.mod_small. lia.
  - rewrite createUBfe_field by (change (2 ^ 32) with 4294967296; lia).
    change (2 ^ 9) with 512. change (2 ^ 20) with 1048576.
    replace (v2 * 1048576 + v1 * 1024 + v0) with ((v1 * 1024 + v0) + v2 * 1048576) by lia.
    rewrite Z.div_add, (Z.div_small (v1 * 1024 + v0) 1048576), Z.add_0_l by lia.
    apply Z.mod_small. lia.
  - apply (testbit_above _ 29); [|lia]. change (2 ^ 29) with 536870912. lia.
Qed.

(** ** The count report and what the invocations do after it *)

(** The counts the shader ends up with for a subgroup of [V] vertices and
    [P] primitives of which [D] vertices are drawn: (primitive count,
    vertex count). *)
Definition finalCounts (cfg : ShaderConfig) (V P D : Z) : Z * Z :=
  if subgroupRuntimePassthrough cfg V then (P, V)
  else if D =? 0 then (dummyExportCount cfg, dummyExportCount cfg)
  else (P, if compactVertex (pipelineState cfg) then D else V).

(** The blocks of the culling path. *)
Definition isCullingPathBlock (b : BasicBlock) : bool :=
  match b with
  | noRuntimePassthroughBlock | initVertDrawFlagBlock | endInitVertDrawFlagBlock
  | initVertCountBlock | endInitVertCountBlock | writeVertCullDataBlock
  | endWriteVertCullDataBlock | cullingBlock | writeVertDrawFlagBlock | endCullingBlock
  | checkVertDrawFlagBlock | endCheckVertDrawFlagBlock | accumVertCountBlock
  | endAccumVertCountBlock | compactVertBlock | endCompactVertBlock => true
  | _ => false
  end.

Section Reports.
Context {SF : ShaderFloats}.
Variable cfg : ShaderConfig.
Variable primShaderTable : Z -> Z.
Variables V P : Z.
Variable waves : list (list Thread).
Hypothesis Hwf : wellFormedSubgroup cfg V P waves = true.

(** Only the first wave sends the message. *)
Lemma gsAllocReq_first_wave (lds : gmap (PrimShaderLdsRegion * Z) Z) (primCount vertCount : Z) :
  (forall w k wave t, waves !! w = Some wave -> wave !! k = Some t ->
     primCountInSubgroupPhi (phisOf cfg primShaderTable waves lds wave t) = primCount
     /\ vertCountInSubgroupPhi (phisOf cfg primShaderTable waves lds wave t) = vertCount) ->
  gsAllocReq (runFromEndFetchVertCullData cfg primShaderTable waves lds)
  = [sendGsAllocReqMessage primCount vertCount].
Proof.
  intros Hphis. unfold runFromEndFetchVertCullData. cbn [gsAllocReq].
  assert (Hone : forall w wave, waves !! w = Some wave ->
            allocReq wave (phisOf cfg primShaderTable waves lds wave)
            = if (w =? 0)%nat then [sendGsAllocReqMessage primCount vertCount] else []).
  { intros w wave Hw. pose proof (wf_wave_length cfg V P waves Hwf w wave Hw) as Hlen.
    destruct wave as [|t0 rest].
    { cbn [length] in Hlen. destruct (wf_waveSize cfg V P waves Hwf); lia. }
    destruct (wf_thread cfg V P waves Hwf w 0 (t0 :: rest) t0 Hw eq_refl)
      as (_ & _ & Hwid & _).
    destruct (wf_lane_bound cfg V P waves Hwf w 0 (t0 :: rest) t0 Hw eq_refl) as [Hwb _].
    destruct (Hphis w 0%nat (t0 :: rest) t0 Hw eq_refl) as [Hp Hv].
    unfold allocReq, CreateICmpEQ. rewrite Hwid, Hp, Hv.
    rewrite !wrap32_small by (destruct (wf_waveCount cfg V P waves Hwf) as [[_ Hc]|[_ Hc]]; lia).
    destruct w; reflexivity. }
  assert (Hrest : forall (ws : list (list Thread)) (w0 : nat),
            (forall i wave, ws !! i = Some wave -> waves !! (S w0 + i)%nat = Some wave) ->
            concat (map (fun wave => allocReq wave (phisOf cfg primShaderTable waves lds wave)) ws)
            = []).
  { induction ws as [|wave ws IH]; intros w0 Hws; [reflexivity|].
    cbn [map concat]. rewrite (Hone (S w0) wave).
    2:{ specialize (Hws 0%nat wave eq_refl). now rewrite Nat.add_0_r in Hws. }
    cbn [Nat.eqb app]. apply (IH (S w0)). intros i u Hi.
    replace (S (S w0) + i)%nat with (S w0 + S i)%nat by lia. apply Hws. exact Hi. }
  assert (Hall : forall ws : list (list Thread),
            (forall i wave, ws !! i = Some wave -> waves !! i = Some wave) ->
            (0 < length ws)%nat ->
            concat (map (fun wave => allocReq wave (phisOf cfg primShaderTable waves lds wave)) ws)
            = [sendGsAllocReqMessage primCount vertCount]).
  { intros [|wave0 rest] Hws Hlen; [cbn [length] in Hlen; lia|].
    cbn [map concat]. rewrite (Hone 0%nat wave0 (Hws 0%nat wave0 eq_refl)). cbn [Nat.eqb].
    rewrite (Hrest rest 0%nat); [reflexivity|]. intros i u Hi. exact (Hws (S i) u Hi). }
  apply Hall; [auto|]. exact (proj1 (wf_waves cfg V P waves Hwf)).
Qed.

Lemma phisOf_counts (lds : gmap (PrimShaderLdsRegion * Z) Z) (w k : nat)
    (wave : list Thread) (t : Thread) :
  waves !! w = Some wave -> wave !! k = Some t ->
  let counts := finalCounts cfg V P (drawnInSubgroup cfg primShaderTable waves lds) in
  primCountInSubgroupPhi (phisOf cfg primShaderTable waves lds wave t) = fst counts
  /\ vertCountInSubgroupPhi (phisOf cfg primShaderTable waves lds wave t) = snd counts.
Proof.
  intros Hw Hk. cbv zeta. unfold finalCounts.
  destruct (subgroupRuntimePassthrough cfg V) eqn:Hrp.
  - rewrite (phisOf_passthrough cfg primShaderTable V P waves Hwf Hrp lds w k wave t Hw Hk).
    split; reflexivity.
  - pose proof (phisOf_culling cfg primShaderTable V P waves Hwf Hrp lds w k wave t Hw Hk)
      as Hphis.
    cbv zeta in Hphis. rewrite Hphis. cbn [primCountInSubgroupPhi vertCountInSubgroupPhi].
    destruct (drawnInSubgroup cfg primShaderTable waves lds =? 0); split; reflexivity.
Qed.

Lemma finalCounts_bounds (lds : gmap (PrimShaderLdsRegion * Z) Z) :
  let counts := finalCounts cfg V P (drawnInSubgroup cfg primShaderTable waves lds) in
  0 <= fst counts < 512 /\ 0 <= snd counts < 512
  /\ (V <= 256 -> P <= 256 -> fst counts <= 256 /\ snd counts <= 256).
Proof.
  cbv zeta. unfold finalCounts, dummyExportCount.
  pose proof (wf_counts cfg V P waves Hwf) as [HV HP].
  pose proof (drawnInSubgroup_bounds cfg primShaderTable V P waves Hwf lds) as HD.
  destruct (subgroupRuntimePassthrough cfg V); cbn [fst snd]; [lia|].
  destruct (drawnInSubgroup cfg primShaderTable waves lds =? 0); cbn [fst snd].
  - destruct (waNggCullingNoEmptySubgroups cfg); lia.
  - destruct (compactVertex (pipelineState cfg)); lia.
Qed.

(** For a well-formed subgroup whose input counts do not exceed 256,
    exactly one GS_ALLOC_REQ message is sent (by the first wave); its word
    is [vertexCount | (primitiveCount << 12)], bits [10:0] hold the vertex
    count and bits [22:12] the primitive count, where the two counts are the
    final ones: the input counts on the runtime passthrough path, the dummy
    export count when no vertex is drawn, and otherwise the input primitive
    count with the number of drawn vertices (vertex compaction) or the input
    vertex count (no compaction).  They are the values every invocation
    holds in [m_nggInputs] from [.checkAllocReq] on, and neither exceeds
    256. *)
Theorem count_report_word (lds : gmap (PrimShaderLdsRegion * Z) Z) :
  V <= 256 -> P <= 256 ->
  let r := runFromEndFetchVertCullData cfg primShaderTable waves lds in
  let counts := finalCounts cfg V P (drawnInSubgroup cfg primShaderTable waves lds) in
  let primitiveCount := fst counts in
  let vertexCount := snd counts in
  let m0 := Z.lor vertexCount (Z.shiftl primitiveCount 12) in
  gsAllocReq r = [m0]
  /\ createUBfe m0 0 11 = vertexCount
  /\ createUBfe m0 12 11 = primitiveCount
  /\ (forall w k wave t, waves !! w = Some wave -> wave !! k = Some t ->
        primCountInSubgroupPhi (phis (threadResult cfg primShaderTable waves lds wave t))
        = primitiveCount
        /\ vertCountInSubgroupPhi (phis (threadResult cfg primShaderTable waves lds wave t))
           = vertexCount)
  /\ vertexCount <= 256 /\ primitiveCount <= 256.
Proof.
  intros HV HP. cbv zeta.
  pose proof (finalCounts_bounds lds) as Hb. cbv zeta in Hb.
  destruct Hb as (Hp & Hv & H256). destruct (H256 HV HP) as [Hp256 Hv256].
  remember (finalCounts cfg V P (drawnInSubgroup cfg primShaderTable waves lds))
    as counts eqn:Ec.
  pose proof (sendGsAllocReqMessage_fields (fst counts) (snd counts)) as Hm.
  cbv zeta in Hm. destruct Hm as (Hm0 & Hf1 & Hf2);
    [change (2 ^ 11) with 2048; lia | change (2 ^ 11) with 2048; lia|].
  rewrite <- Hm0.
  split; [|split; [exact Hf1|split; [exact Hf2|split; [|split; assumption]]]].
  - rewrite (gsAllocReq_first_wave lds (fst counts) (snd counts)); [reflexivity|].
    intros w k wave t Hw Hk. subst counts. exact (phisOf_counts lds w k wave t Hw Hk).
  - intros w k wave t Hw Hk.
    destruct (threadResult_fields cfg primShaderTable waves lds wave t) as (_ & _ & -> & _).
    subst counts. exact (phisOf_counts lds w k wave t Hw Hk).
Qed.

(** No block of the culling path is run from [.checkAllocReq] on. *)
Lemma checkAllocReqToEnd_blocks (lds : gmap (PrimShaderLdsRegion * Z) Z)
    (ph : CheckAllocReqPhis) (t : Thread) :
  forallb (fun b => negb (isCullingPathBlock b)) (fst (checkAllocReqToEnd cfg lds ph t)) = true.
Proof.
  unfold checkAllocReqToEnd, exportVertex, exportPrimitive, earlyExitWithDummyExport, runPartEs.
  destruct (exportVertexIndices cfg lds (compactVertexPhi ph) (nggInputs t)) as [[v0 v1] v2].
  cbv zeta.
  repeat match goal with
         | |- context [if ?c then _ else _] => destruct c
         end; reflexivity.
Qed.

Lemma cullingBlocks_all (ldsA ldsB ldsC : gmap (PrimShaderLdsRegion * Z) Z)
    (wave : list Thread) (t : Thread) :
  forallb isCullingPathBlock (cullingBlocks cfg primShaderTable ldsA ldsB ldsC wave t) = true.
Proof.
  unfold cullingBlocks.
  repeat match goal with
         | |- context [if ?c then _ else _] => destruct c
         end; reflexivity.
Qed.

Lemma forallb_In {A : Type} (f : A -> bool) (l : list A) (x : A) :
  forallb f l = true -> In x l -> f x = true.
Proof. intros H Hin. rewrite forallb_forall in H. now apply H. Qed.

(** If the Z channel of the position is a compile-time constant, or
    the subgroup has fewer vertices than [NggSmallSubgroupThreshold], every
    invocation of a well-formed subgroup takes [.runtimePassthrough]: it
    runs no block of the culling path (in particular neither [.culling] nor
    [.compactVert]), the LDS is left as it was, the culled flag and
    [m_compactVertex] are false, no vertex gets a compacted index, and the
    count report word holds the decoded subgroup counts unchanged. *)
Theorem runtime_passthrough_path (lds : gmap (PrimShaderLdsRegion * Z) Z) :
  0 <= NggSmallSubgroupThreshold cfg < 2 ^ 32 ->
  constPositionZ cfg = true \/ V < NggSmallSubgroupThreshold cfg ->
  let r := runFromEndFetchVertCullData cfg primShaderTable waves lds in
  let m0 := Z.lor V (Z.shiftl P 12) in
  ldsAtEnd r = lds
  /\ gsAllocReq r = [m0]
  /\ createUBfe m0 0 11 = V
  /\ createUBfe m0 12 11 = P
  /\ forall w k wave t, waves !! w = Some wave -> wave !! k = Some t ->
       let tr := threadResult cfg primShaderTable waves lds wave t in
       In runtimePassthroughBlock (blocks tr)
       /\ (forall b, In b (blocks tr) -> isCullingPathBlock b = false)
       /\ ~ In cullingBlock (blocks tr)
       /\ ~ In compactVertBlock (blocks tr)
       /\ cullFlag (phis tr) = false
       /\ compactVertexPhi (phis tr) = false
       /\ fullyCulled (phis tr) = false
       /\ compactedVertexIndex tr = None
       /\ primCountInSubgroupPhi (phis tr) = P
       /\ vertCountInSubgroupPhi (phis tr) = V.
Proof.
  intros Hthr Hcond. cbv zeta.
  pose proof (wf_counts cfg V P waves Hwf) as [HV HP].
  assert (Hrp : subgroupRuntimePassthrough cfg V = true).
  { unfold subgroupRuntimePassthrough. destruct Hcond as [->|Hlt]; [reflexivity|].
    destruct (constPositionZ cfg); [reflexivity|].
    unfold CreateICmpULT. rewrite !wrap32_small by lia. now apply Z.ltb_lt. }
  pose proof (sendGsAllocReqMessage_fields P V) as Hm. cbv zeta in Hm.
  destruct Hm as (Hm0 & Hf1 & Hf2);
    [change (2 ^ 11) with 2048; lia | change (2 ^ 11) with 2048; lia|].
  rewrite <- Hm0.
  split; [|split; [|split; [exact Hf1|split; [exact Hf2|]]]].
  - unfold runFromEndFetchVertCullData. cbn [ldsAtEnd].
    exact (passthrough_lds cfg primShaderTable V P waves Hwf Hrp lds).
  - apply gsAllocReq_first_wave. intros w k wave t Hw Hk.
    rewrite (phisOf_passthrough cfg primShaderTable V P waves Hwf Hrp lds w k wave t Hw Hk).
    split; reflexivity.
  - intros w k wave t Hw Hk.
    destruct (threadResult_fields cfg primShaderTable waves lds wave t)
      as (Hb & _ & Hp & Hc).
    rewrite (wf_runtimePassthrough cfg V P waves Hwf w k wave t Hw Hk), Hrp in Hb, Hc.
    rewrite Hb, Hp, Hc.
    rewrite (phisOf_passthrough cfg primShaderTable V P waves Hwf Hrp lds w k wave t Hw Hk).
    cbn [cullFlag compactVertexPhi fullyCulled primCountInSubgroupPhi vertCountInSubgroupPhi
         negb andb].
    assert (Hall : forall b,
              In b ([runtimePassthroughBlock]
                    ++ fst (checkAllocReqToEnd cfg
                              (ldsAtEndAllocReq cfg primShaderTable waves lds)
                              {| compactVertexPhi := false; cullFlag := false;
                                 fullyCulled := false; primCountInSubgroupPhi := P;
                                 vertCountInSubgroupPhi := V; drawFlagPhi := true;
                                 vertCountInWavePhi := vertCountInWave (nggInputs t) |} t)) ->
              isCullingPathBlock b = false).
    { intros b [<-|Hin]; [reflexivity|].
      pose proof (forallb_In _ _ b (checkAllocReqToEnd_blocks _ _ t) Hin) as Hn.
      now apply negb_true_iff in Hn. }
    split; [now left|]. split; [exact Hall|].
    split; [intros Hin; now specialize (Hall _ Hin)|].
    split; [intros Hin; now specialize (Hall _ Hin)|].
    repeat split; reflexivity.
Qed.

Ltac not_in_blocks Hcull :=
  let Hin := fresh "Hin" in
  intros Hin; apply in_app_or in Hin as [Hin|Hin]; [now apply Hcull in Hin|];
  repeat (apply in_app_or in Hin as [Hin|Hin]);
  try (destruct (CreateICmpEQ _ _));
  cbn in Hin; intuition discriminate.

(** For a well-formed subgroup on the culling path of which no vertex
    is drawn: with the workaround waNggCullingNoEmptySubgroups, the counts
    are forced to 1 and reported so, the first thread of the subgroup
    exports one primitive whose connectivity word is 0 (the degenerate
    triangle on vertex 0, null-primitive flag clear) followed by the dummy
    position exports, and every invocation leaves through [.earlyExit]
    without running [.expPrim] or [.expVert]; without the workaround the
    counts are reported as 0 and nothing is exported. *)
Theorem fully_culled_subgroup (lds : gmap (PrimShaderLdsRegion * Z) Z) :
  subgroupRuntimePassthrough cfg V = false ->
  drawnInSubgroup cfg primShaderTable waves lds = 0 ->
  let r := runFromEndFetchVertCullData cfg primShaderTable waves lds in
  if waNggCullingNoEmptySubgroups cfg
  then
    gsAllocReq r = [Z.lor 1 (Z.shiftl 1 12)]
    /\ forall w k wave t, waves !! w = Some wave -> wave !! k = Some t ->
         let tr := threadResult cfg primShaderTable waves lds wave t in
         primCountInSubgroupPhi (phis tr) = 1
         /\ vertCountInSubgroupPhi (phis tr) = 1
         /\ exports tr
            = (if (w =? 0)%nat && (k =? 0)%nat
               then amdgcn_exp EXP_TARGET_PRIM 1 (Some 0) true :: dummyPositionExports cfg
               else [])
         /\ In earlyExitBlock (blocks tr)
         /\ ~ In expPrimBlock (blocks tr)
         /\ ~ In expVertBlock (blocks tr)
  else
    gsAllocReq r = [0]
    /\ forall w k wave t, waves !! w = Some wave -> wave !! k = Some t ->
         let tr := threadResult cfg primShaderTable waves lds wave t in
         primCountInSubgroupPhi (phis tr) = 0
         /\ vertCountInSubgroupPhi (phis tr) = 0
         /\ exports tr = [].
Proof.
  intros Hrp HD. cbv zeta.
  assert (Hphis : forall w k wave t, waves !! w = Some wave -> wave !! k = Some t ->
            phisOf cfg primShaderTable waves lds wave t
            = {| compactVertexPhi := compactVertex (pipelineState cfg) && (0 <? V);
                 cullFlag :=
                   primitiveCulledAtEndCulling cfg primShaderTable
                     (ldsAtEndWriteVertCullData cfg waves lds) t;
                 fullyCulled := true;
                 primCountInSubgroupPhi := dummyExportCount cfg;
                 vertCountInSubgroupPhi := dummyExportCount cfg;
                 drawFlagPhi :=
                   drawFlagOf cfg (ldsAtEndCulling cfg primShaderTable waves lds) t;
                 vertCountInWavePhi :=
                   vertCountInWaveOf cfg (ldsAtEndCulling cfg primShaderTable waves lds) wave |}).
  { intros w k wave t Hw Hk.
    pose proof (phisOf_culling cfg primShaderTable V P waves Hwf Hrp lds w k wave t Hw Hk) as H.
    cbv zeta in H. rewrite HD in H. exact H. }
  assert (Htid : forall w k wave t, waves !! w = Some wave -> wave !! k = Some t ->
            CreateICmpEQ (threadIdInSubgroup (nggInputs t)) 0 = (w =? 0)%nat && (k =? 0)%nat).
  { intros w k wave t Hw Hk.
    destruct (wf_thread cfg V P waves Hwf w k wave t Hw Hk) as (_ & _ & _ & Ht & _).
    destruct (wf_lane_bound cfg V P waves Hwf w k wave t Hw Hk) as [Hwb Hkb].
    unfold CreateICmpEQ. rewrite Ht.
    assert (Hs : 0 <= Z.of_nat w * waveSize cfg + Z.of_nat k < 2 ^ 32).
    { change (2 ^ 32) with 4294967296.
      destruct (wf_waveCount cfg V P waves Hwf) as [[Hs Hc]|[Hs Hc]]; rewrite Hs in *; lia. }
    rewrite !wrap32_small by lia.
    destruct w, k; cbn [Nat.eqb andb]; try reflexivity; apply Z.eqb_neq;
      destruct (wf_waveSize cfg V P waves Hwf) as [Hs'|Hs']; rewrite Hs'; lia. }
  unfold dummyExportCount in Hphis.
  destruct (waNggCullingNoEmptySubgroups cfg) eqn:Hwa.
  - split.
    + change (Z.lor 1 (Z.shiftl 1 12)) with (sendGsAllocReqMessage 1 1).
      apply gsAllocReq_first_wave. intros w k wave t Hw Hk.
      rewrite (Hphis w k wave t Hw Hk). split; reflexivity.
    + intros w k wave t Hw Hk.
      destruct (threadResult_fields cfg primShaderTable waves lds wave t)
        as (Hb & He & Hp & _).
      rewrite (wf_runtimePassthrough cfg V P waves Hwf w k wave t Hw Hk), Hrp in Hb.
      rewrite Hb, He, Hp, (Hphis w k wave t Hw Hk).
      cbn [primCountInSubgroupPhi vertCountInSubgroupPhi].
      unfold checkAllocReqToEnd. rewrite Hwa. cbn [fullyCulled andb].
      unfold dummyExportCount. rewrite Hwa. cbn [Z.ltb Z.compare].
      unfold earlyExitWithDummyExport. rewrite (Htid w k wave t Hw Hk).
      assert (Hcull : forall b,
                In b (cullingBlocks cfg primShaderTable (ldsAtEndWriteVertCullData cfg waves lds)
                        (ldsAtEndCulling cfg primShaderTable waves lds)
                        (ldsAtEndAccumVertCount cfg primShaderTable waves lds) wave t) ->
                isCullingPathBlock b = true).
      { intros b. apply forallb_In, cullingBlocks_all. }
      split; [reflexivity|]. split; [reflexivity|].
      destruct ((w =? 0)%nat && (k =? 0)%nat); cbn [fst snd];
        (split; [reflexivity|]; split; [|split];
         [ apply in_or_app; right; apply in_or_app; right; now left
         | not_in_blocks Hcull
         | not_in_blocks Hcull ]).
  - split.
    + change [0] with [sendGsAllocReqMessage 0 0].
      apply gsAllocReq_first_wave. intros w k wave t Hw Hk.
      rewrite (Hphis w k wave t Hw Hk). split; reflexivity.
    + intros w k wave t Hw Hk.
      destruct (threadResult_fields cfg primShaderTable waves lds wave t)
        as (_ & He & Hp & _).
      rewrite He, Hp, (Hphis w k wave t Hw Hk).
      cbn [primCountInSubgroupPhi vertCountInSubgroupPhi].
      split; [reflexivity|]. split; [reflexivity|].
      unfold checkAllocReqToEnd. rewrite Hwa. cbn [andb primCountInSubgroupPhi].
      assert (Hnone : forall x, CreateICmpULT x 0 = false).
      { intros x. unfold CreateICmpULT. apply Z.ltb_ge.
        pose proof (wrap32_range x). rewrite (wrap32_small 0) by lia. lia. }
      rewrite Hnone. unfold exportVertex. cbn [vertCountInSubgroupPhi]. rewrite Hnone.
      cbv zeta. destruct (compactVertex (pipelineState cfg)); reflexivity.
Qed.

(** The only primitive export after [.endAllocReq] without early exit is
    the one of [exportPrimitive]. *)
Lemma exportVertex_no_primitive (lds : gmap (PrimShaderLdsRegion * Z) Z)
    (ph : CheckAllocReqPhis) (t : Thread) (en : Z) (src : option Z) (done : bool) :
  ~ In (amdgcn_exp EXP_TARGET_PRIM en src done) (snd (exportVertex cfg lds ph t)).
Proof.
  unfold exportVertex, runPartEs. cbv zeta.
  repeat match goal with
         | |- context [if ?c then _ else _] => destruct c
         end; cbn [fst snd In]; intuition discriminate.
Qed.

Lemma primitive_export_inv (lds : gmap (PrimShaderLdsRegion * Z) Z)
    (ph : CheckAllocReqPhis) (t : Thread) (en : Z) (src : option Z) (done : bool) :
  waNggCullingNoEmptySubgroups cfg && fullyCulled ph = false ->
  In (amdgcn_exp EXP_TARGET_PRIM en src done) (snd (checkAllocReqToEnd cfg lds ph t)) ->
  CreateICmpULT (threadIdInSubgroup (nggInputs t)) (primCountInSubgroupPhi ph) = true
  /\ exists v0 v1 v2,
       exportVertexIndices cfg lds (compactVertexPhi ph) (nggInputs t) = (v0, v1, v2)
       /\ src = Some (primitiveConnectivityData v0 v1 v2 (cullFlag ph))
       /\ en = 1 /\ done = true.
Proof.
  intros Hexit Hin. unfold checkAllocReqToEnd in Hin. rewrite Hexit in Hin.
  pose proof (exportVertex_no_primitive lds ph t en src done) as Hno.
  destruct (exportVertex cfg lds ph t) as [bv ev]. cbn [snd] in Hno.
  destruct (CreateICmpULT (threadIdInSubgroup (nggInputs t)) (primCountInSubgroupPhi ph)).
  - split; [reflexivity|]. unfold exportPrimitive in Hin.
    destruct (exportVertexIndices cfg lds (compactVertexPhi ph) (nggInputs t))
      as [[v0 v1] v2].
    cbn [snd] in Hin. apply in_app_or in Hin as [[Heq|[]]|Hin]; [|contradiction].
    injection Heq as <- <- <-. exists v0, v1, v2. auto.
  - cbn [snd app] in Hin. contradiction.
Qed.

(** Every primitive export of an invocation of a well-formed subgroup
    that does not leave through the early exit carries the word built by
    [exportPrimitive] from the three vertex indices it packs (the compacted
    ones when [m_compactVertex] is true), each below 512: bit 31 is set iff
    the primitive is culled; for a primitive that is not culled the word is
    [(v2 << 20) | (v1 << 10) | v0], with vertex index 0 in bits [8:0],
    vertex index 1 in bits [18:10] and vertex index 2 in bits [28:20]; for a
    culled primitive it is the null primitive.  A primitive is culled iff
    the culling path ran and [doCulling] culled it. *)
Theorem primitive_connectivity_word (lds : gmap (PrimShaderLdsRegion * Z) Z) (w k : nat)
    (wave : list Thread) (t : Thread) (en : Z) (src : option Z) (done : bool)
    (v0 v1 v2 : Z) :
  waves !! w = Some wave -> wave !! k = Some t ->
  let tr := threadResult cfg primShaderTable waves lds wave t in
  waNggCullingNoEmptySubgroups cfg && fullyCulled (phis tr) = false ->
  In (amdgcn_exp EXP_TARGET_PRIM en src done) (exports tr) ->
  exportVertexIndices cfg (ldsAtEndAllocReq cfg primShaderTable waves lds)
    (compactVertexPhi (phis tr)) (nggInputs t)
  = (v0, v1, v2) ->
  0 <= v0 < 2 ^ 9 -> 0 <= v1 < 2 ^ 9 -> 0 <= v2 < 2 ^ 9 ->
  exists word,
    src = Some word /\ en = 1 /\ done = true
    /\ Z.testbit word 31 = cullFlag (phis tr)
    /\ (cullFlag (phis tr) = false ->
        word = Z.lor (Z.lor (Z.shiftl v2 20) (Z.shiftl v1 10)) v0
        /\ createUBfe word 0 9 = v0
        /\ createUBfe word 10 9 = v1
        /\ createUBfe word 20 9 = v2)
    /\ (cullFlag (phis tr) = true -> word = NullPrim)
    /\ cullFlag (phis tr)
       = negb (subgroupRuntimePassthrough cfg V)
         && primitiveCulledBy cfg primShaderTable (ldsAtEndWriteVertCullData cfg waves lds) t.
Proof.
  intros Hw Hk tr Hexit Hin Hidx H0 H1 H2. subst tr.
  destruct (threadResult_fields cfg primShaderTable waves lds wave t) as (_ & He & Hp & _).
  rewrite He in Hin. rewrite Hp in Hexit, Hidx |- *. clear He Hp.
  set (ph := phisOf cfg primShaderTable waves lds wave t) in *.
  destruct (primitive_export_inv _ ph t en src done Hexit Hin)
    as (Hvalid & u0 & u1 & u2 & Hu & Hsrc & Hen & Hdone).
  rewrite Hidx in Hu. injection Hu as <- <- <-.
  exists (primitiveConnectivityData v0 v1 v2 (cullFlag ph)).
  pose proof (primitiveConnectivityData_fields v0 v1 v2 H0 H1 H2) as Hf. cbv zeta in Hf.
  destruct Hf as (Hword & Hf0 & Hf1 & Hf2 & Hbit).
  split; [exact Hsrc|]. split; [exact Hen|]. split; [exact Hdone|].
  split; [|split; [|split]].
  - destruct (cullFlag ph); [reflexivity | exact Hbit].
  - intros Hc. rewrite Hc. auto.
  - intros Hc. rewrite Hc. reflexivity.
  - destruct (subgroupRuntimePassthrough cfg V) eqn:Hrp; cbn [negb andb].
    + unfold ph.
      now rewrite (phisOf_passthrough cfg primShaderTable V P waves Hwf Hrp lds w k wave t Hw Hk).
    + pose proof (phisOf_culling cfg primShaderTable V P waves Hwf Hrp lds w k wave t Hw Hk)
        as Hph.
      cbv zeta in Hph. fold ph in Hph. rewrite Hph in Hexit, Hvalid |- *.
      cbn [cullFlag fullyCulled primCountInSubgroupPhi] in Hexit, Hvalid |- *.
      destruct (wf_thread cfg V P waves Hwf w k wave t Hw Hk) as (_ & _ & _ & _ & _ & HP).
      destruct (drawnInSubgroup cfg primShaderTable waves lds =? 0).
      * rewrite andb_true_r in Hexit. unfold dummyExportCount in Hvalid.
        rewrite Hexit in Hvalid. unfold CreateICmpULT in Hvalid.
        apply Z.ltb_lt in Hvalid. pose proof (wrap32_range (threadIdInSubgroup (nggInputs t))).
        rewrite (wrap32_small 0) in Hvalid by lia. lia.
      * unfold primitiveCulledAtEndCulling, primValidInSubgroup. rewrite HP, Hvalid.
        now destruct (primitiveCulledBy _ _ _ _).
Qed.

End Reports.

(** ** The invocations built by [.entry] form a well-formed subgroup *)

Lemma forallb_imap_intro {A : Type} (f : nat -> A -> bool) (l : list A) :
  (forall i x, l !! i = Some x -> f i x = true) -> forallb id (imap f l) = true.
Proof.
  revert f. induction l as [|a l IH]; intros f H; [reflexivity|].
  cbn [imap forallb]. apply andb_true_iff. split.
  - exact (H 0%nat a eq_refl).
  - apply IH. intros i x Hi. exact (H (S i) x Hi).
Qed.

Lemma threadIdInWave_lane (ws : Z) (lane : nat) :
  ws = 32 \/ ws = 64 -> Z.of_nat lane < ws ->
  (let threadIdInWave := amdgcn_mbcnt_lo (Z.of_nat lane) (-1) 0 in
   if ws =? 64 then amdgcn_mbcnt_hi (Z.of_nat lane) (-1) threadIdInWave else threadIdInWave)
  = Z.of_nat lane.
Proof.
  intros Hws Hlane.
  assert (H : forallb (fun l =>
                 ((let threadIdInWave := amdgcn_mbcnt_lo (Z.of_nat l) (-1) 0 in
                   if ws =? 64 then amdgcn_mbcnt_hi (Z.of_nat l) (-1) threadIdInWave
                   else threadIdInWave) =? Z.of_nat l))
              (seq 0 (Z.to_nat ws)) = true).
  { destruct Hws as [-> | ->]; vm_compute; reflexivity. }
  rewrite forallb_forall in H. apply Z.eqb_eq, H, in_seq. lia.
Qed.

Lemma createUBfe_range (value offset count : Z) :
  0 <= count < 32 -> 0 <= createUBfe value offset count < 2 ^ count.
Proof.
  intros Hc. unfold createUBfe, CreateAnd.
  destruct (Z.eqb_spec count 32); [lia|].
  assert (Hm : 0 <= wrap32 (Z.shiftl 1 count) - 1 < 2 ^ count).
  { rewrite Z.shiftl_1_l, wrap32_small.
    - pose proof (Z.pow_pos_nonneg 2 count). lia.
    - split; [apply Z.pow_nonneg; lia|]. apply Z.pow_lt_mono_r; lia. }
  destruct (offset =? 0); apply land_lt_pow2; lia.
Qed.

Section Entry.
Context {SF : ShaderFloats}.
Variable cfg : ShaderConfig.

(** The entry block gives the cullers a well-formed subgroup.  When the
    hardware starts between one and [waveCountInSubgroup] waves of
    [waveSize] lanes each and the wave ID field of the merged wave info of
    wave [w] is [w], the values [initWaveThreadInfo] computes satisfy
    [wellFormedSubgroup]: lane [l] of wave [w] gets thread ID [l] in its
    wave and [w * waveSize + l] in the subgroup, and every invocation gets
    the vertex and primitive counts of the merged group info, which are
    9-bit fields. *)
Lemma entryThreads_wellFormed (mergedGroupInfo : Z) (waves : list (Z * list LaneInput))
    (lds : gmap (PrimShaderLdsRegion * Z) Z) :
  waveSize cfg = 32 \/ waveSize cfg = 64 ->
  (0 < length waves)%nat ->
  Z.of_nat (length waves) <= waveCountInSubgroup cfg ->
  (forall w wave, waves !! w = Some wave ->
     createUBfe (fst wave) 24 4 = Z.of_nat w /\ Z.of_nat (length (snd wave)) = waveSize cfg) ->
  wellFormedSubgroup cfg (createUBfe mergedGroupInfo 12 9) (createUBfe mergedGroupInfo 22 9)
    (fst (entryThreads cfg mergedGroupInfo waves lds)) = true.
Proof.
  intros Hws Hn Hcount Hwaves.
  set (V := createUBfe mergedGroupInfo 12 9). set (P := createUBfe mergedGroupInfo 22 9).
  assert (Hthread : forall w wave l input,
            waves !! w = Some wave -> snd wave !! l = Some input ->
            wellFormedThread cfg V P w l (entryThread cfg mergedGroupInfo (fst wave) l input)
            = true).
  { intros w wave l input Hw Hl. destruct (Hwaves w wave Hw) as [Hid Hlen].
    apply lookup_lt_Some in Hl.
    unfold wellFormedThread, entryThread, initWaveThreadInfo.
    cbn [hwLane nggInputs threadIdInWave waveIdInSubgroup threadIdInSubgroup
         vertCountInSubgroup primCountInSubgroup].
    pose proof (threadIdInWave_lane (waveSize cfg) l Hws ltac:(lia)) as Hlane.
    cbv zeta in Hlane. rewrite Hlane, Hid.
    assert (Htid : CreateAdd (CreateMul (Z.of_nat w) (waveSize cfg)) (Z.of_nat l)
                   = Z.of_nat w * waveSize cfg + Z.of_nat l).
    { apply lookup_lt_Some in Hw. unfold CreateAdd, CreateMul, waveCountInSubgroup in *.
      change (2 ^ 32) with 4294967296.
      destruct Hws as [Hs|Hs]; rewrite Hs in *;
        [change (NggMaxThreadsPerSubgroup / 32) with 8 in Hcount
        |change (NggMaxThreadsPerSubgroup / 64) with 4 in Hcount];
        rewrite !wrap32_small; rewrite ?wrap32_small;
          change (2 ^ 32) with 4294967296; lia. }
    rewrite Htid, !Z.eqb_refl. reflexivity. }
  assert (Hwave : forall w wave ts,
            waves !! w = Some wave ->
            (forall l, ts !! l = (fun t => t) <$> (entryWave cfg mergedGroupInfo wave !! l)
                       \/ exists lds', ts !! l = readPrimId lds'
                                                <$> (entryWave cfg mergedGroupInfo wave !! l)) ->
            length ts = length (snd wave) ->
            wellFormedWave cfg V P w ts = true).
  { intros w wave ts Hw Hts Hlen. destruct (Hwaves w wave Hw) as [_ Hlen'].
    unfold wellFormedWave. apply andb_true_iff. split; [apply Z.eqb_eq; lia|].
    apply forallb_imap_intro. intros l t Hl.
    unfold entryWave in Hts. specialize (Hts l).
    rewrite list_lookup_imap in Hts.
    destruct (snd wave !! l) as [input|] eqn:Hin.
    2:{ cbn in Hts. destruct Hts as [Hts|[lds' Hts]]; rewrite Hl in Hts; discriminate. }
    cbn in Hts. pose proof (Hthread w wave l input Hw Hin) as Hok.
    destruct Hts as [Hts|[lds' Hts]]; rewrite Hl in Hts; injection Hts as ->; exact Hok. }
  unfold wellFormedSubgroup. rewrite !andb_true_iff. repeat split.
  - apply orb_true_iff. destruct Hws as [-> | ->]; [left|right]; reflexivity.
  - apply Z.leb_le. pose proof (createUBfe_range mergedGroupInfo 12 9). unfold V. lia.
  - apply Z.ltb_lt. pose proof (createUBfe_range mergedGroupInfo 12 9 ltac:(lia)).
    unfold V. change (2 ^ 9) with 512 in *. lia.
  - apply Z.leb_le. pose proof (createUBfe_range mergedGroupInfo 22 9). unfold P. lia.
  - apply Z.ltb_lt. pose proof (createUBfe_range mergedGroupInfo 22 9 ltac:(lia)).
    unfold P. change (2 ^ 9) with 512 in *. lia.
  - apply Z.ltb_lt. unfold entryThreads.
    destruct (distributePrimitiveId (pipelineState cfg)); cbn [fst];
      rewrite ?length_map; lia.
  - apply Z.leb_le. unfold entryThreads.
    destruct (distributePrimitiveId (pipelineState cfg)); cbn [fst];
      rewrite ?length_map; lia.
  - apply forallb_imap_intro. intros w ts Hts. unfold entryThreads in Hts.
    destruct (distributePrimitiveId (pipelineState cfg)); cbn [fst] in Hts.
    + change (map ?f ?l) with (f <$> l) in Hts. rewrite !list_lookup_fmap in Hts.
      destruct (waves !! w) as [wave|] eqn:Hw; [|discriminate].
      cbn in Hts. injection Hts as <-.
      apply (Hwave w wave _ Hw).
      * intros l. right. eexists.
        change (map ?f ?l) with (f <$> l). rewrite list_lookup_fmap. reflexivity.
      * rewrite length_map. unfold entryWave. now rewrite length_imap.
    + change (map ?f ?l) with (f <$> l) in Hts. rewrite list_lookup_fmap in Hts.
      destruct (waves !! w) as [wave|] eqn:Hw; [|discriminate].
      cbn in Hts. injection Hts as <-.
      apply (Hwave w wave _ Hw).
      * intros l. left. now destruct (entryWave cfg mergedGroupInfo wave !! l).
      * unfold entryWave. now rewrite length_imap.
Qed.

End Entry.

(** ** Concrete subgroups (exact arithmetic) *)

(** A VS-only pipeline in wave32 whose only culler is the frustum culler;
    the vertex cull info of a vertex is its draw flag and, with vertex
    compaction, its compacted index. *)
Definition exampleConfig (compact workaround constZ : bool) : ShaderConfig :=
  {| waveSize := 32;
     pipelineState :=
       {| hasGs := false; hasTes := false; enableSwXfb := false; passthroughMode := false;
          compactVertex := compact; vsPrimitiveId := false;
          calcFactor := {| esGsLdsSize := 0; gsOnChipLdsSize := 0; esVertsPerSubgroup := 256;
                           esGsRingItemSize := if compact then 3 else 1 |} |};
     nggControl :=
       {| enableBackfaceCulling := false; enableFrustumCulling := true;
          enableBoxFilterCulling := false; enableSphereCulling := false;
          enableSmallPrimFilter := false; enableCullDistanceCulling := false;
          backfaceExponent := 0; pipelineStateCb_paClVteCntl := 0 |};
     cbLayoutTable :=
       {| cb_paClClipCntl := 0; cb_paSuScModeCntl := 4; cb_paClGbHorzDiscAdj := 8;
          cb_paClGbVertDiscAdj := 12; cb_paClVportXscale := 16; cb_paClVportXoffset := 20;
          cb_paClVportYscale := 24; cb_paClVportYoffset := 28;
          cb_enableConservativeRasterization := 32 |};
     builtInUsage :=
       {| tessCoord := false; tesPrimitiveId := false; vertexIndex := false;
          instanceIndex := false; pointSize := false; layer := false; viewportIndex := false;
          primitiveShadingRate := false; clipDistance := 0; cullDistance := 0 |};
     xfbOutputExpCount := 0;
     waNggCullingNoEmptySubgroups := workaround;
     constPositionZ := constZ;
     NggSmallSubgroupThreshold := 16;
     provokingVertexFirst := true;
     streamOut := exampleStreamOut |}.

(** The primitive shader table: both discard adjusts are 1.0. *)
Definition examplePrimShaderTable (dword : Z) : Z :=
  if (dword =? 2) || (dword =? 3) then exampleDiscAdj else 0.

(** A lane: its triangle (for the lanes that hold a primitive) and the
    position of its vertex. *)
Definition exampleLane (triangle : Z * Z * Z) (position : Vec4 Q)
  : LaneInput (SF := exactFloats) :=
  let '(v0, v1, v2) := triangle in
  Build_LaneInput (SF := exactFloats) [Z.lor v0 (Z.shiftl v1 16); v2; 0; 0; 0; 0; 0; 0; 0]
    position [] [].

Definition exampleWave (triangles : list (Z * Z * Z)) (outside : list nat) (first : nat)
  : list (LaneInput (SF := exactFloats)) :=
  map (fun l => exampleLane (nth l triangles (0, 0, 0))
                  (if existsb (Nat.eqb (first + l)) outside
                   then exampleOutside0 else exampleInside))
      (seq 0 32).

(** 40 vertices in two waves, of which vertices 5, 6 and 7 lie outside the
    right clip plane. *)
Definition exampleSubgroup (triangles : list (Z * Z * Z))
  : list (list (Thread (SF := exactFloats))) :=
  fst (entryThreads (exampleConfig true true false)
         (Z.lor (Z.shiftl (Z.of_nat (length triangles)) 22) (Z.shiftl 40 12))
         [ (Z.lor (Z.shiftl (Z.of_nat (length triangles)) 8) 32,
            exampleWave triangles [5; 6; 7]%nat 0);
           (Z.lor (Z.shiftl 1 24) 8, exampleWave [] [] 32) ]
         ∅).

(** Two triangles on the vertices 0, 2, 33 and 35, which are drawn, and one
    on the vertices 5, 6 and 7, which is culled. *)
Definition exampleTriangles : list (Z * Z * Z) := [(0, 2, 33); (2, 33, 35); (5, 6, 7)].

(** 8 vertices and one triangle in one wave: a small subgroup. *)
Definition exampleSmallSubgroup : list (list (Thread (SF := exactFloats))) :=
  fst (entryThreads (exampleConfig true true false)
         (Z.lor (Z.shiftl 1 22) (Z.shiftl 8 12))
         [ (Z.lor (Z.shiftl 1 8) 8, exampleWave [(0, 1, 2)] [] 0) ]
         ∅).

Lemma compaction_numbers_drawn_vertices_witness :
  omap compactedVertexIndex
    (concat (threadResults
               (runFromEndFetchVertCullData (exampleConfig true true false)
                  examplePrimShaderTable (exampleSubgroup exampleTriangles) ∅)))
  = [0; 1; 2; 3].
Proof.
  destruct (compaction_numbers_drawn_vertices (exampleConfig true true false)
              examplePrimShaderTable 40 3 (exampleSubgroup exampleTriangles))
    with (lds := (∅ : gmap (PrimShaderLdsRegion * Z) Z)) as (_ & _ & H).
  - vm_compute. reflexivity.
  - vm_compute. reflexivity.
  - reflexivity.
  - vm_compute. reflexivity.
  - rewrite H. vm_compute. reflexivity.
Defined.

Lemma count_report_word_witness :
  gsAllocReq (runFromEndFetchVertCullData (exampleConfig true true false)
                examplePrimShaderTable (exampleSubgroup exampleTriangles) ∅)
  = [Z.lor 4 (Z.shiftl 3 12)].
Proof.
  destruct (count_report_word (exampleConfig true true false) examplePrimShaderTable 40 3
              (exampleSubgroup exampleTriangles))
    with (lds := (∅ : gmap (PrimShaderLdsRegion * Z) Z)) as (H & _).
  - vm_compute. reflexivity.
  - lia.
  - lia.
  - rewrite H. vm_compute. reflexivity.
Defined.

Lemma runtime_passthrough_path_witness :
  ldsAtEnd (runFromEndFetchVertCullData (exampleConfig true true false)
              examplePrimShaderTable exampleSmallSubgroup ∅) = ∅
  /\ gsAllocReq (runFromEndFetchVertCullData (exampleConfig true true false)
                   examplePrimShaderTable exampleSmallSubgroup ∅)
     = [Z.lor 8 (Z.shiftl 1 12)].
Proof.
  destruct (runtime_passthrough_path (exampleConfig true true false) examplePrimShaderTable
              8 1 exampleSmallSubgroup)
    with (lds := (∅ : gmap (PrimShaderLdsRegion * Z) Z)) as (Hlds & Hmsg & _).
  - vm_compute. reflexivity.
  - cbn. lia.
  - right. cbn. lia.
  - split; [exact Hlds | exact Hmsg].
Defined.

Lemma fully_culled_subgroup_witness :
  gsAllocReq (runFromEndFetchVertCullData (exampleConfig true true false)
                examplePrimShaderTable (exampleSubgroup [(5, 6, 7)]) ∅)
  = [Z.lor 1 (Z.shiftl 1 12)].
Proof.
  pose proof (fully_culled_subgroup (exampleConfig true true false) examplePrimShaderTable
                40 1 (exampleSubgroup [(5, 6, 7)])) as H.
  destruct H with (lds := (∅ : gmap (PrimShaderLdsRegion * Z) Z)) as (Hmsg & _).
  - vm_compute. reflexivity.
  - vm_compute. reflexivity.
  - vm_compute. reflexivity.
  - exact Hmsg.
Defined.

(** The first wave of [exampleSubgroup] and its first invocation. *)
Definition exampleFirstWave (triangles : list (Z * Z * Z))
  : list (Thread (SF := exactFloats)) :=
  entryWave (exampleConfig true true false)
    (Z.lor (Z.shiftl (Z.of_nat (length triangles)) 22) (Z.shiftl 40 12))
    (Z.lor (Z.shiftl (Z.of_nat (length triangles)) 8) 32,
     exampleWave triangles [5; 6; 7]%nat 0).

Definition exampleFirstThread (triangles : list (Z * Z * Z)) : Thread (SF := exactFloats) :=
  entryThread (exampleConfig true true false)
    (Z.lor (Z.shiftl (Z.of_nat (length triangles)) 22) (Z.shiftl 40 12))
    (Z.lor (Z.shiftl (Z.of_nat (length triangles)) 8) 32)
    0 (exampleLane (nth 0 triangles (0, 0, 0)) exampleInside).

(** With the workaround and no vertex drawn, what the first thread exports
    to the primitive target is the word 0, whose null-primitive flag (bit
    31) is clear; it is not the null primitive. *)
Lemma dummy_export_is_not_null_primitive :
  exports (threadResult (exampleConfig true true false) examplePrimShaderTable
             (exampleSubgroup [(5, 6, 7)]) ∅
             (exampleFirstWave [(5, 6, 7)]) (exampleFirstThread [(5, 6, 7)]))
  = [amdgcn_exp EXP_TARGET_PRIM 1 (Some 0) true;
     amdgcn_exp (EXP_TARGET_POS 0) 0 None true]
  /\ Z.testbit 0 31 = false
  /\ 0 <> NullPrim.
Proof. split; [vm_compute; reflexivity|]. split; [reflexivity | discriminate]. Qed.


Lemma primitive_connectivity_word_witness :
  exists word,
    word = Z.lor (Z.lor (Z.shiftl 2 20) (Z.shiftl 1 10)) 0
    /\ createUBfe word 10 9 = 1
    /\ Z.testbit word 31 = false.
Proof.
  destruct (primitive_connectivity_word (exampleConfig true true false)
              examplePrimShaderTable 40 3 (exampleSubgroup exampleTriangles))
    with (lds := (∅ : gmap (PrimShaderLdsRegion * Z) Z)) (w := 0%nat) (k := 0%nat)
         (wave := exampleFirstWave exampleTriangles) (t := exampleFirstThread exampleTriangles)
         (en := 1) (done := true) (v0 := 0) (v1 := 1) (v2 := 2)
         (src := Some (Z.lor (Z.lor (Z.shiftl 2 20) (Z.shiftl 1 10)) 0))
    as (word & Hsrc & _ & _ & Hbit & Hfields & _ & Hcull).
  - vm_compute. reflexivity.
  - reflexivity.
  - reflexivity.
  - vm_compute. reflexivity.
  - vm_compute. left. reflexivity.
  - vm_compute. reflexivity.
  - cbn. lia.
  - cbn. lia.
  - cbn. lia.
  - assert (Hc : cullFlag
                   (phis (threadResult (exampleConfig true true false) examplePrimShaderTable
                            (exampleSubgroup exampleTriangles) ∅
                            (exampleFirstWave exampleTriangles)
                            (exampleFirstThread exampleTriangles))) = false).
    { rewrite Hcull. vm_compute. reflexivity. }
    destruct (Hfields Hc) as (Hword & _ & Hf1 & _).
    exists word. rewrite Hc in Hbit. auto.
Defined.

(** ** More about the LDS layout *)

(** The dry run of [layoutPrimShaderLds] (a null [ldsLayout]) reports the
    usage info of the run that fills a table, whatever the pipeline. *)
Theorem layout_usage_without_table (ps : PipelineState)
    (l : gmap PrimShaderLdsRegion (Z * Z)) :
  fst (layoutPrimShaderLds ps None) = fst (layoutPrimShaderLds ps (Some l)).
Proof.
  unfold layoutPrimShaderLds, layoutWithGs, layoutPassthrough, layoutCulling.
  destruct (hasGs ps), (passthroughMode ps), (enableSwXfb ps), (compactVertex ps),
    (distributePrimitiveId ps); reflexivity.
Qed.

(** In the culling mode without API GS the only overlap is the documented
    one: "DistributedPrimitiveId is always the first region and is
    overlapped with VertexPosition". *)
Definition cullingAlias (r1 r2 : PrimShaderLdsRegion) : bool :=
  match r1, r2 with
  | DistributedPrimitiveId, VertexPosition | VertexPosition, DistributedPrimitiveId => true
  | _, _ => false
  end.

(** The table of the culling mode: vertex position, vertex cull info, XFB
    statistics, vertex counts and vertex index map follow each other from
    offset 0, each starting where the one before ends; the distributed
    primitive ID lies at offset 0 inside the vertex positions; no other two
    regions overlap, and the ES extra size is the total without the vertex
    cull info (which is the ES-GS ring). *)
Theorem layout_culling_regions (ps : PipelineState) :
  hasGs ps = false ->
  passthroughMode ps = false ->
  0 <= esVertsPerSubgroup (calcFactor ps) <= 1024 ->
  0 <= esGsRingItemSize (calcFactor ps) < 2 ^ 20 ->
  let S := esGsRingItemSize (calcFactor ps) * esVertsPerSubgroup (calcFactor ps) in
  let X := if enableSwXfb ps then 5 else 0 in
  let M := if compactVertex ps then 256 else 0 in
  exists l : gmap PrimShaderLdsRegion (Z * Z),
    snd (layoutPrimShaderLds ps (Some ∅)) = Some l
    /\ l !! VertexPosition = Some (0, 1024)
    /\ l !! VertexCullInfo = Some (1024, S)
    /\ l !! XfbStats = (if enableSwXfb ps then Some (1024 + S, 5) else None)
    /\ l !! VertexCounts = Some (1024 + S + X, 9)
    /\ l !! VertexIndexMap
       = (if compactVertex ps then Some (1024 + S + X + 9, 256) else None)
    /\ l !! DistributedPrimitiveId
       = (if distributePrimitiveId ps then Some (0, esVertsPerSubgroup (calcFactor ps))
          else None)
    /\ noOverlapExcept cullingAlias l
    /\ esExtraLdsSize (fst (layoutPrimShaderLds ps (Some ∅))) = 1024 + X + 9 + M.
Proof.
  intros Hg Hp HV HS S X M.
  assert (HSr : 0 <= S < 2 ^ 30).
  { subst S. change (2 ^ 20) with 1048576 in HS. change (2 ^ 30) with 1073741824. nia. }
  change (2 ^ 30) with 1073741824 in HSr.
  unfold layoutPrimShaderLds. rewrite Hg, Hp. unfold layoutCulling.
  subst X M.
  destruct (enableSwXfb ps), (compactVertex ps), (distributePrimitiveId ps);
    cbn -[Z.add Z.mul Z.pow wrap32 CreateAdd CreateMul insert lookup];
    unfold CreateAdd, CreateMul; fold S;
    set (V := esVertsPerSubgroup (calcFactor ps)) in *; clearbody S V;
    change (wrap32 (4 * NggMaxThreadsPerSubgroup)) with 1024;
    change (wrap32 (MaxTransformFeedbackBuffers + 1)) with 5;
    change (wrap32 (NggMaxWavesPerSubgroup + 1)) with 9;
    change (wrap32 NggMaxThreadsPerSubgroup) with 256;
    repeat match goal with
           | |- context [wrap32 ?z] =>
               rewrite (wrap32_small z) by (change (2 ^ 32) with 4294967296; lia)
           end;
    (eexists; split; [reflexivity|]);
    do 6 (split; [simplify_map_eq; try reflexivity; try (f_equal; f_equal; lia)|]);
    (split; [|lia]);
    intros r1 r2 a b Hne Hal Ha Hb; apply rangesOverlap_false_iff;
    destruct r1, r2;
    first [ by destruct Hne | discriminate Hal | idtac ];
    lookup_norm Ha; lookup_norm Hb;
    first [ discriminate Ha | discriminate Hb
          | injection Ha as <-; injection Hb as <-; cbn [fst snd]; lia ].
Qed.

Lemma layout_culling_regions_witness :
  exists l : gmap PrimShaderLdsRegion (Z * Z),
    snd (layoutPrimShaderLds (pipelineState (exampleConfig true true false)) (Some ∅)) = Some l
    /\ l !! VertexCullInfo = Some (1024, 768)
    /\ l !! VertexCounts = Some (1792, 9)
    /\ l !! VertexIndexMap = Some (1801, 256).
Proof.
  destruct (layout_culling_regions (pipelineState (exampleConfig true true false)))
    as (l & Hl & _ & Hc & _ & Hv & Hm & _).
  - reflexivity.
  - reflexivity.
  - cbn. lia.
  - cbn. lia.
  - exists l. auto.
Defined.

(** With API GS the regions fill the on-chip LDS of the subgroup exactly:
    the ES-GS ring at offset 0, then the GS extra regions, then the GS-VS
    ring, which ends at [gsOnChipLdsSize]; apart from the two documented
    aliases no two regions overlap, whatever the transform feedback and
    compaction settings. *)
Theorem layout_gs_fills_on_chip_lds (ps : PipelineState) :
  hasGs ps = true ->
  0 <= esGsLdsSize (calcFactor ps) ->
  let E := alignTo (esGsLdsSize (calcFactor ps)) 4 in
  let X := if enableSwXfb ps then 1024 + 36 + 1024 + 8
           else 1024 + 36 + (if compactVertex ps then 1024 else 0) in
  esGsLdsSize (calcFactor ps) + 3 + X <= gsOnChipLdsSize (calcFactor ps) ->
  gsOnChipLdsSize (calcFactor ps) < 2 ^ 32 ->
  gsExtraLdsSize (fst (layoutPrimShaderLds ps (Some ∅))) = X
  /\ exists l : gmap PrimShaderLdsRegion (Z * Z),
       snd (layoutPrimShaderLds ps (Some ∅)) = Some l
       /\ l !! EsGsRing = Some (0, E)
       /\ l !! PrimitiveData = Some (E, 1024)
       /\ l !! GsVsRing = Some (E + X, gsOnChipLdsSize (calcFactor ps) - E - X)
       /\ noOverlapExcept documentedAlias l.
Proof.
  intros Hg H0 E X Hfit Hmax.
  destruct (alignTo4_bounds (esGsLdsSize (calcFactor ps))) as [_ HE]; [lia|subst X|].
  { destruct (enableSwXfb ps), (compactVertex ps); lia. }
  fold E in HE.
  unfold layoutPrimShaderLds. rewrite Hg. unfold layoutWithGs.
  set (G := gsOnChipLdsSize (calcFactor ps)) in *.
  subst X.
  destruct (enableSwXfb ps), (compactVertex ps);
    cbn -[Z.add Z.sub Z.mul Z.div Z.modulo Z.pow wrap32 alignTo CreateAdd CreateSub insert lookup];
    fold E; unfold layoutAt;
    repeat (first [rewrite lookup_insert_eq | rewrite lookup_insert_ne by done]);
    cbn -[Z.add Z.sub Z.mul Z.div Z.modulo Z.pow wrap32 alignTo CreateAdd CreateSub insert lookup];
    unfold CreateAdd, CreateSub;
    change (wrap32 (NggMaxThreadsPerSubgroup * MaxGsStreams)) with 1024;
    change (wrap32 ((NggMaxWavesPerSubgroup + 1) * MaxGsStreams)) with 36;
    change (wrap32 (MaxTransformFeedbackBuffers + MaxGsStreams)) with 8;
    clearbody E G;
    repeat match goal with
           | |- context [wrap32 ?z] =>
               rewrite (wrap32_small z) by (change (2 ^ 32) with 4294967296 in *; lia)
           end;
    (split; [lia|]);
    (eexists; split; [reflexivity|]);
    do 3 (split; [simplify_map_eq; try reflexivity; try (f_equal; f_equal; lia)|]);
    intros r1 r2 a b Hne Hal Ha Hb; apply rangesOverlap_false_iff;
    destruct r1, r2;
    first [ by destruct Hne | discriminate Hal | idtac ];
    lookup_norm Ha; lookup_norm Hb;
    first [ discriminate Ha | discriminate Hb
          | injection Ha as <-; injection Hb as <-; cbn [fst snd]; lia ].
Qed.

Lemma layout_gs_fills_on_chip_lds_witness :
  exists l : gmap PrimShaderLdsRegion (Z * Z),
    snd (layoutPrimShaderLds exampleGsXfbState (Some ∅)) = Some l
    /\ l !! GsVsRing = Some (2156, 6036).
Proof.
  destruct (layout_gs_fills_on_chip_lds exampleGsXfbState) as (_ & l & Hl & _ & _ & Hg & _).
  - reflexivity.
  - cbn. lia.
  - cbn. lia.
  - cbn. lia.
  - exists l. split; [exact Hl|]. rewrite Hg. vm_compute. reflexivity.
Defined.

(** ** The items of the vertex cull info *)

(** The members of [VertexCullInfo] that [calcVertexCullInfoSizeAndOffsets]
    assigns an offset, in the order of the structure, each with its offset
    and its size in dwords. *)
Definition vertCullInfoMembers (cfg : ShaderConfig) : list (Z * Z) :=
  let ps := pipelineState cfg in
  let o := vertCullInfoOffsets cfg in
  let tes := compactVertex ps && hasTes ps in
  let vs := compactVertex ps && negb (hasTes ps) in
  omap (fun m : bool * (Z * Z) => if fst m then Some (snd m) else None)
    [ (enableSwXfb ps, (off_xfbOutputs o, 4 * xfbOutputExpCount cfg));
      (enableCullDistanceCulling (nggControl cfg), (off_cullDistanceSignMask o, 1));
      (true, (off_drawFlag o, 1));
      (compactVertex ps, (off_compactedVertexIndex o, 1));
      (tes && tessCoord (builtInUsage cfg), (off_tessCoordX o, 1));
      (tes && tessCoord (builtInUsage cfg), (off_tessCoordY o, 1));
      (tes, (off_relPatchId o, 1));
      (tes && tesPrimitiveId (builtInUsage cfg), (off_patchId o, 1));
      (vs && vertexIndex (builtInUsage cfg), (off_vertexId o, 1));
      (vs && instanceIndex (builtInUsage cfg), (off_instanceId o, 1));
      (vs && vsPrimitiveId ps, (off_primitiveId o, 1)) ].

(** Where a list of members ends when each one starts where the one before
    it ends; there is none when a member starts anywhere else. *)
Fixpoint tiledFrom (start : Z) (members : list (Z * Z)) : option Z :=
  match members with
  | [] => Some start
  | (offset, size) :: rest => if offset =? start then tiledFrom (start + size) rest else None
  end.

(** In the culling mode without API GS the members in use tile the item of a
    vertex: the first one starts at dword 0, each one starts where the one
    before it ends and the last one ends at the returned size.  The ES-GS
    ring item size is that size made odd: the size itself or one more. *)
Theorem vertex_cull_info_members_tile (cfg : ShaderConfig) :
  hasGs (pipelineState cfg) = false -> passthroughMode (pipelineState cfg) = false ->
  0 <= xfbOutputExpCount cfg ->
  let size := fst (calcVertexCullInfoSizeAndOffsets cfg) in
  tiledFrom 0 (vertCullInfoMembers cfg) = Some size
  /\ 1 <= size
  /\ Z.odd (calcEsGsRingItemSize cfg) = true
  /\ size <= calcEsGsRingItemSize cfg <= size + 1.
Proof.
  intros Hg Hp Hx size.
  assert (Hodd : forall z, 0 <= z -> Z.odd (Z.lor z 1) = true /\ z <= Z.lor z 1 <= z + 1).
  { intros z Hz. rewrite <- Z.bit0_odd, Z.lor_spec, !Z.bit0_odd.
    split; [apply orb_true_r|].
    destruct (Z.odd z) eqn:E.
    - replace (Z.lor z 1) with z; [lia|].
      apply Z.bits_inj'. intros i Hi. rewrite Z.lor_spec.
      destruct (Z.eq_dec i 0) as [->|Hn].
      + rewrite Z.bit0_odd, E. reflexivity.
      + rewrite (testbit_above 1 1 i) by lia. now rewrite orb_false_r.
    - replace (Z.lor z 1) with (z + 1); [lia|].
      rewrite Z.add_nocarry_lxor, Z.lxor_lor; [reflexivity| |];
        apply Z.bits_inj'; intros i Hi; rewrite Z.land_spec, Z.bits_0;
        (destruct (Z.eq_dec i 0) as [->|Hn];
         [rewrite Z.bit0_odd, E; reflexivity
         |rewrite (testbit_above 1 1 i) by lia; apply andb_false_r]). }
  assert (Hsize : tiledFrom 0 (vertCullInfoMembers cfg) = Some size /\ 1 <= size).
  { subst size. unfold vertCullInfoMembers, vertCullInfoOffsets, calcVertexCullInfoSizeAndOffsets.
    rewrite Hg, Hp. cbn [orb].
    destruct (enableSwXfb (pipelineState cfg)),
      (enableCullDistanceCulling (nggControl cfg)),
      (compactVertex (pipelineState cfg)), (hasTes (pipelineState cfg)),
      (tessCoord (builtInUsage cfg)), (tesPrimitiveId (builtInUsage cfg)),
      (vertexIndex (builtInUsage cfg)), (instanceIndex (builtInUsage cfg)),
      (vsPrimitiveId (pipelineState cfg));
      cbn -[Z.add Z.mul Z.eqb];
      repeat (rewrite Z.eqb_refl; cbn -[Z.add Z.mul Z.eqb]);
      (split; [f_equal; lia | lia]). }
  destruct Hsize as [Ht H1]. destruct (Hodd size) as [Ho Hr]; [lia|].
  unfold calcEsGsRingItemSize. fold size. auto.
Qed.

Lemma vertex_cull_info_members_tile_witness :
  tiledFrom 0 (vertCullInfoMembers (exampleConfig true true false)) = Some 2
  /\ calcEsGsRingItemSize (exampleConfig true true false) = 3.
Proof.
  destruct (vertex_cull_info_members_tile (exampleConfig true true false))
    as (Ht & _ & _ & _).
  - reflexivity.
  - reflexivity.
  - cbn. lia.
  - split; [exact Ht | reflexivity].
Defined.

(** ** The reservation of buffer space by [.prepareXfbExport] *)

Lemma incrementDwordsWritten_fold info n (l : list nat) :
  NoDup l -> forall ws g,
  let r := foldl (fun acc i =>
           if bufferActive info i then
             let dwordsToWrite := CreateMul n (dwordsPerPrim info i) in
             let r := gdsAdd (GDS_STRMOUT_DWORDS_WRITTEN_0 + Z.of_nat i) dwordsToWrite (snd acc) in
             (fst acc ++ [(i, fst r)], snd r)
           else acc) (ws, g) l in
  (forall k, (forall i, In i l -> bufferActive info i = true -> k <> Z.of_nat i) ->
             snd r !! k = g !! k)
  /\ (forall i, In i l -> bufferActive info i = true ->
        snd r !! Z.of_nat i
        = Some (CreateAdd (dwordsWrittenOf g i) (CreateMul n (dwordsPerPrim info i))))
  /\ fst r = ws ++ map (fun i => (i, dwordsWrittenOf g i)) (List.filter (bufferActive info) l).
Proof.
  set (step := fun (acc : list (nat * Z) * gmap Z Z) (i : nat) => _).
  assert (Hstep : forall acc i, step acc i =
            if bufferActive info i
            then (fst acc ++ [(i, dwordsWrittenOf (snd acc) i)],
                  <[Z.of_nat i := CreateAdd (dwordsWrittenOf (snd acc) i)
                                    (CreateMul n (dwordsPerPrim info i))]> (snd acc))
            else acc).
  { intros acc i. subst step. cbn beta. destruct (bufferActive info i); [|done].
    cbv zeta. unfold gdsAdd, dwordsWrittenOf. cbn [fst snd].
    change (GDS_STRMOUT_DWORDS_WRITTEN_0 + Z.of_nat i) with (0 + Z.of_nat i).
    by rewrite Z.add_0_l. }
  clearbody step.
  assert (Hdw : forall (g : gmap Z Z) j, dwordsWrittenOf g j = default 0 (g !! Z.of_nat j)).
  { intros g j. unfold dwordsWrittenOf.
    change (GDS_STRMOUT_DWORDS_WRITTEN_0 + Z.of_nat j) with (0 + Z.of_nat j).
    by rewrite Z.add_0_l. }
  induction 1 as [|i l Hi Hnd IH]; intros ws g; cbn [foldl List.filter map].
  - cbn. split; [done|]. split; [intros i []|]. by rewrite app_nil_r.
  - rewrite Hstep. cbn [fst snd].
    destruct (bufferActive info i) eqn:Ha.
    + set (g1 := <[Z.of_nat i := _]> g).
      destruct (IH (ws ++ [(i, dwordsWrittenOf g i)]) g1) as (I1 & I2 & I3).
      assert (Hother : forall j, In j l -> g1 !! Z.of_nat j = g !! Z.of_nat j).
      { intros j Hj. subst g1. rewrite lookup_insert_ne; [done|].
        intros E. apply Nat2Z.inj in E. subst j. apply Hi. by apply list_elem_of_In. }
      split; [|split].
      * intros k Hk. rewrite I1.
        -- subst g1. rewrite lookup_insert_ne; [done|].
           intros E. apply (Hk i); [by left|done|done].
        -- intros j Hj Hja. apply Hk; [by right|done].
      * intros j [<-|Hj] Hja.
        -- rewrite I1.
           ++ subst g1. by rewrite lookup_insert_eq.
           ++ intros j Hj _ E. apply Nat2Z.inj in E. subst j.
              apply Hi. by apply list_elem_of_In.
        -- rewrite (I2 j Hj Hja). f_equal. f_equal. rewrite !Hdw. by rewrite Hother.
      * rewrite I3, <- app_assoc. cbn [app map]. f_equal. f_equal.
        apply map_ext_in. intros j Hj. apply filter_In in Hj as [Hj _].
        f_equal. rewrite !Hdw. by rewrite Hother.
    + destruct (IH ws g) as (I1 & I2 & I3).
      split; [|split].
      * intros k Hk. apply I1. intros j Hj Hja. apply Hk; [by right|done].
      * intros j [<-|Hj] Hja; [congruence|]. by apply I2.
      * exact I3.
Qed.

Lemma incrementDwordsWritten_spec info n gds :
  (forall k, (forall i, In i xfbBufferIndices -> bufferActive info i = true -> k <> Z.of_nat i) ->
             snd (incrementDwordsWritten info n gds) !! k = gds !! k)
  /\ (forall i, In i xfbBufferIndices -> bufferActive info i = true ->
        snd (incrementDwordsWritten info n gds) !! Z.of_nat i
        = Some (CreateAdd (dwordsWrittenOf gds i) (CreateMul n (dwordsPerPrim info i))))
  /\ fst (incrementDwordsWritten info n gds)
     = map (fun i => (i, dwordsWrittenOf gds i)) (List.filter (bufferActive info) xfbBufferIndices).
Proof.
  exact (incrementDwordsWritten_fold info n xfbBufferIndices
           (proj2 (NoDup_ListNoDup _) (seq_NoDup _ _)) [] gds).
Qed.

Lemma writeStats_lookup (ws : list (nat * Z)) : forall lds (i : nat),
  NoDup (map fst ws) ->
  readValueFromLds
    (foldl (fun l e => writeValueToLds (snd e) XfbStats (Z.of_nat (fst e)) l) lds ws)
    XfbStats (Z.of_nat i)
  = match List.find (fun e => Nat.eqb (fst e) i) ws with
    | Some e => snd e
    | None => readValueFromLds lds XfbStats (Z.of_nat i)
    end.
Proof.
  induction ws as [|e ws IH]; intros lds i Hnd; cbn [foldl List.find]; [done|].
  cbn [map] in Hnd. apply NoDup_cons in Hnd as [Hne Hnd].
  rewrite IH by done.
  destruct (Nat.eqb_spec (fst e) i) as [<-|Hn].
  - destruct (List.find _ ws) as [e'|] eqn:Hf.
    + apply find_some in Hf as [Hin He]. apply Nat.eqb_eq in He.
      exfalso. apply Hne. apply list_elem_of_In. rewrite <- He. by apply in_map.
    + apply read_write_same.
  - destruct (List.find _ ws); [done|].
    apply read_write_other. intros [=E]. apply Nat2Z.inj in E. done.
Qed.

Lemma find_map_filter (f : nat -> bool) (v : nat -> Z) (l : list nat) (i : nat) :
  In i l -> f i = true ->
  List.find (fun e : nat * Z => Nat.eqb (fst e) i) (map (fun j => (j, v j)) (List.filter f l))
  = Some (i, v i).
Proof.
  induction l as [|j l IH]; intros Hi Hf; [destruct Hi|].
  cbn [List.filter]. destruct (Nat.eq_dec j i) as [->|Hn].
  - rewrite Hf. cbn [map List.find fst]. by rewrite Nat.eqb_refl.
  - destruct Hi as [->|Hi]; [done|].
    destruct (f j); cbn [map List.find fst]; [|by apply IH].
    destruct (Nat.eqb_spec j i); [done|]. by apply IH.
Qed.

Lemma NoDup_map_filter (f : nat -> bool) (v : nat -> Z) (l : list nat) :
  NoDup l -> NoDup (map fst (map (fun j => (j, v j)) (List.filter f l))).
Proof.
  intros Hnd. rewrite map_map. cbn [fst]. rewrite map_id.
  induction Hnd as [|j l Hj Hnd IH]; cbn [List.filter]; [constructor|].
  destruct (f j); [|done]. constructor; [|done].
  intros Hin. apply Hj. apply list_elem_of_In. apply list_elem_of_In in Hin.
  by apply filter_In in Hin as [Hin _].
Qed.

Lemma xfbBufferIndices_NoDup : NoDup xfbBufferIndices.
Proof. apply NoDup_ListNoDup. apply seq_NoDup. Qed.

Lemma xfbInRange_buffer info gds primCount i :
  xfbInRange info gds primCount = true -> In i xfbBufferIndices -> bufferActive info i = true ->
  xfbBufferInRange info gds i = true.
Proof.
  unfold xfbInRange. rewrite !andb_true_iff. intros [_ Hall] Hi Ha.
  rewrite forallb_forall in Hall. specialize (Hall i Hi). by rewrite Ha in Hall.
Qed.

(** What the clamp gives for one active buffer: the dwords reserved fit
    into what is left of the buffer. *)
Lemma reserved_dwords_fit info gds primCount i :
  xfbInRange info gds primCount = true -> In i xfbBufferIndices -> bufferActive info i = true ->
  let n := numPrimsToWriteSpec info gds primCount in
  let d := bufferSizeInDwords info i - (streamOutBufOffset info i + dwordsWrittenOf gds i) in
  0 <= n /\ 0 < dwordsPerPrim info i /\ n * dwordsPerPrim info i <= Z.max 0 d.
Proof.
  intros Hr Hi Ha n d.
  pose proof (xfbInRange_buffer _ _ _ _ Hr Hi Ha) as Hb.
  destruct (calcNumPrimsToWrite_spec info gds primCount Hr) as [_ Hn]. fold n in Hn.
  assert (Hle : n <= primsCanWrite info gds i).
  { subst n. unfold numPrimsToWriteSpec. revert Hi.
    generalize xfbBufferIndices as l. induction l as [|j l IH]; [intros []|].
    intros [->|Hj]; cbn [List.filter].
    - rewrite Ha. cbn [map fold_right]. lia.
    - specialize (IH Hj). destruct (bufferActive info j); cbn [map fold_right]; lia. }
  unfold xfbBufferInRange in Hb. rewrite !andb_true_iff, !Z.ltb_lt, !Z.leb_le in Hb.
  destruct Hb as ((((((((Hdpp & _) & _) & _) & _) & _) & _) & _) & _).
  split; [lia|]. split; [done|].
  unfold primsCanWrite in Hle. fold d in Hle.
  pose proof (Z.mul_div_le (Z.max 0 d) (dwordsPerPrim info i) Hdpp).
  nia.
Qed.

Lemma prepareXfbExport_effect (info : StreamOutInfo) (ngg : NggInputs)
    (gds : gmap Z Z) (lds : gmap (PrimShaderLdsRegion * Z) Z) :
  let primCount := primCountInSubgroup ngg in
  let n := numPrimsToWriteSpec info gds primCount in
  xfbInRange info gds primCount = true ->
  exists gds' lds',
    prepareXfbExport info ngg (gds, lds) = Some (gds', lds')
    /\ (forall i, In i xfbBufferIndices ->
          if bufferActive info i
          then dwordsWrittenOf gds' i = dwordsWrittenOf gds i + n * dwordsPerPrim info i
               /\ streamOutBufOffset info i + dwordsWrittenOf gds' i
                  <= Z.max (bufferSizeInDwords info i)
                           (streamOutBufOffset info i + dwordsWrittenOf gds i)
               /\ xfbStatInfoLane lds' (Z.of_nat i) = dwordsWrittenOf gds i
          else dwordsWrittenOf gds' i = dwordsWrittenOf gds i)
    /\ numPrimsToWriteOf lds' = n
    /\ default 0 (gds' !! GDS_STRMOUT_PRIMS_NEEDED_0)
       = wrap32 (default 0 (gds !! GDS_STRMOUT_PRIMS_NEEDED_0) + primCount)
    /\ default 0 (gds' !! GDS_STRMOUT_PRIMS_WRITTEN_0)
       = wrap32 (default 0 (gds !! GDS_STRMOUT_PRIMS_WRITTEN_0) + n).
Proof.
  intros primCount n Hr.
  destruct (calcNumPrimsToWrite_spec info gds primCount Hr) as [Hc Hn]. fold n in Hc, Hn.
  unfold prepareXfbExport. fold primCount. rewrite Hc.
  destruct (incrementDwordsWritten info n gds) as [ws gds1] eqn:Hinc.
  destruct (incrementDwordsWritten_spec info n gds) as (I1 & I2 & I3).
  rewrite Hinc in I1, I2, I3. cbn [fst snd] in I1, I2, I3.
  assert (Hidx : forall i, In i xfbBufferIndices -> 0 <= Z.of_nat i < 4).
  { intros i Hi. apply in_seq in Hi. change (Z.to_nat MaxTransformFeedbackBuffers) with 4%nat in Hi.
    lia. }
  eexists _, _. split; [reflexivity|].
  split; [|split; [|split]].
  - intros i Hi. destruct (bufferActive info i) eqn:Ha.
    + destruct (reserved_dwords_fit info gds primCount i Hr Hi Ha) as (Hn0 & Hdpp & Hfit).
      fold n in Hn0, Hfit.
      pose proof (xfbInRange_buffer _ _ _ _ Hr Hi Ha) as Hb.
      unfold xfbBufferInRange in Hb. rewrite !andb_true_iff, !Z.ltb_lt, !Z.leb_le in Hb.
      destruct Hb as ((((((((_ & Hn0') & Hn1) & Ho0) & Ho1) & Hw0) & Hw1) & Hd0) & Hd1).
      assert (Hsz : bufferSizeInDwords info i < 2 ^ 30).
      { unfold bufferSizeInDwords. apply Z.div_lt_upper_bound; [lia|].
        change (4 * 2 ^ 30) with (2 ^ 32). lia. }
      assert (Hnew : dwordsWrittenOf
                       (snd (gdsAdd GDS_STRMOUT_PRIMS_WRITTEN_0 n
                          (snd (gdsAdd GDS_STRMOUT_PRIMS_NEEDED_0 primCount gds1)))) i
                     = dwordsWrittenOf gds i + n * dwordsPerPrim info i).
      { unfold dwordsWrittenOf at 1. cbn [gdsAdd snd].
        change (GDS_STRMOUT_DWORDS_WRITTEN_0 + Z.of_nat i) with (0 + Z.of_nat i).
        rewrite Z.add_0_l.
        specialize (Hidx i Hi).
        rewrite !lookup_insert_ne by
          (change GDS_STRMOUT_PRIMS_WRITTEN_0 with 9;
           change GDS_STRMOUT_PRIMS_NEEDED_0 with 8; lia).
        rewrite (I2 i Hi Ha). cbn [default].
        unfold CreateAdd, CreateMul.
        change (2 ^ 31) with 2147483648 in *. change (2 ^ 32) with 4294967296 in *.
        change (2 ^ 30) with 1073741824 in *.
        rewrite (wrap32_small (n * dwordsPerPrim info i)) by
          (change (2 ^ 32) with 4294967296; nia).
        apply wrap32_small. change (2 ^ 32) with 4294967296. nia. }
      split; [exact Hnew|]. split; [rewrite Hnew; lia|].
      unfold xfbStatInfoLane, readPerThreadDataFromLds.
      change (perThreadLdsOffset 1 (Z.of_nat i) 0) with (wrap32 (Z.of_nat i + 0)).
      rewrite Z.add_0_r.
      rewrite wrap32_small by (specialize (Hidx i Hi); change (2 ^ 32) with 4294967296; lia).
      rewrite I3, writeStats_lookup by apply NoDup_map_filter, xfbBufferIndices_NoDup.
      by rewrite (find_map_filter _ _ _ _ Hi Ha).
    + unfold dwordsWrittenOf at 1. cbn [gdsAdd snd].
      change (GDS_STRMOUT_DWORDS_WRITTEN_0 + Z.of_nat i) with (0 + Z.of_nat i).
      rewrite Z.add_0_l. specialize (Hidx i Hi).
      rewrite !lookup_insert_ne by
        (change GDS_STRMOUT_PRIMS_WRITTEN_0 with 9;
         change GDS_STRMOUT_PRIMS_NEEDED_0 with 8; lia).
      rewrite I1; [reflexivity|].
      intros j Hj Hja E. apply Nat2Z.inj in E. congruence.
  - unfold numPrimsToWriteOf, xfbStatInfoLane, readPerThreadDataFromLds.
    change (perThreadLdsOffset 1 MaxTransformFeedbackBuffers 0) with 4.
    rewrite writeStats_other.
    + unfold readValueFromLds, writeValueToLds.
      change MaxTransformFeedbackBuffers with 4. by rewrite lookup_insert_eq.
    + pose proof (incrementDwordsWritten_indices info n gds) as Hi.
      by rewrite Hinc in Hi.
  - cbn [gdsAdd snd].
    rewrite lookup_insert_ne by done. rewrite lookup_insert_eq. cbn [default].
    rewrite I1; [reflexivity|].
    intros j Hj _. specialize (Hidx j Hj). change GDS_STRMOUT_PRIMS_NEEDED_0 with 8. lia.
  - cbn [gdsAdd snd]. rewrite lookup_insert_eq. cbn [default].
    rewrite lookup_insert_ne by done. rewrite I1; [reflexivity|].
    intros j Hj _. specialize (Hidx j Hj). change GDS_STRMOUT_PRIMS_WRITTEN_0 with 9. lia.
Qed.


Lemma processSwXfb_reserving (passthroughMode : bool) (esGsRingItemSize xfbOutputsOffset : Z)
    (info : StreamOutInfo) (before after : list (NggInputs * list (list Z)))
    (reserving : NggInputs * list (list Z))
    (gds : gmap Z Z) (lds : gmap (PrimShaderLdsRegion * Z) Z) :
  CreateICmpEQ (threadIdInSubgroup (fst reserving)) 0 = true ->
  Forall (fun t => CreateICmpEQ (threadIdInSubgroup (fst t)) 0 = false) (before ++ after) ->
  exists lds1,
    processSwXfb passthroughMode esGsRingItemSize xfbOutputsOffset info
                 (before ++ reserving :: after) (gds, lds)
    = match prepareXfbExport info (fst reserving) (gds, lds1) with
      | Some (gds', lds') =>
          Some (gds', lds',
                map (fun t => exportXfbOutputBlock passthroughMode esGsRingItemSize
                                xfbOutputsOffset info lds' (fst t))
                    (before ++ reserving :: after))
      | None => None
      end.
Proof.
  intros H0 Hothers. apply Forall_app in Hothers as [Hb Ha].
  unfold processSwXfb. set (lds1 := foldl _ lds _). exists lds1.
  rewrite foldl_app. cbn [foldl].
  rewrite (prepare_skips_other_threads info before _ Hb). rewrite H0.
  destruct (prepareXfbExport info (fst reserving) (gds, lds1)) as [[gds' lds']|] eqn:Hp.
  - by rewrite (prepare_skips_other_threads info after _ Ha).
  - by rewrite (prepare_skips_other_threads info after _ Ha).
Qed.

(** The emulator never reserves beyond the end of a buffer.  With [n] the
    clamped number of primitives, a run of [processSwXfb] advances the
    dwords-written counter of every active buffer by [n * dwordsPerPrim]
    exactly (the 32-bit additions do not wrap), the filled part stays
    within the buffer if it was within it before, the counter of an inactive
    buffer is left alone, and the counters of primitives needed and written
    grow by the subgroup's primitive count and by [n]. *)
Theorem xfb_reservation_stays_in_buffer
    (passthroughMode : bool) (esGsRingItemSize xfbOutputsOffset : Z) (info : StreamOutInfo)
    (before after : list (NggInputs * list (list Z))) (reserving : NggInputs * list (list Z))
    (gds : gmap Z Z) (lds : gmap (PrimShaderLdsRegion * Z) Z) :
  let primCount := primCountInSubgroup (fst reserving) in
  let n := numPrimsToWriteSpec info gds primCount in
  xfbInRange info gds primCount = true ->
  CreateICmpEQ (threadIdInSubgroup (fst reserving)) 0 = true ->
  Forall (fun t => CreateICmpEQ (threadIdInSubgroup (fst t)) 0 = false) (before ++ after) ->
  exists gds' lds' stores,
    processSwXfb passthroughMode esGsRingItemSize xfbOutputsOffset info
                 (before ++ reserving :: after) (gds, lds)
    = Some (gds', lds', stores)
    /\ (forall i, In i xfbBufferIndices ->
          if bufferActive info i
          then dwordsWrittenOf gds' i = dwordsWrittenOf gds i + n * dwordsPerPrim info i
               /\ streamOutBufOffset info i + dwordsWrittenOf gds' i
                  <= Z.max (bufferSizeInDwords info i)
                           (streamOutBufOffset info i + dwordsWrittenOf gds i)
          else dwordsWrittenOf gds' i = dwordsWrittenOf gds i)
    /\ default 0 (gds' !! GDS_STRMOUT_PRIMS_NEEDED_0)
       = wrap32 (default 0 (gds !! GDS_STRMOUT_PRIMS_NEEDED_0) + primCount)
    /\ default 0 (gds' !! GDS_STRMOUT_PRIMS_WRITTEN_0)
       = wrap32 (default 0 (gds !! GDS_STRMOUT_PRIMS_WRITTEN_0) + n).
Proof.
  intros primCount n Hr H0 Hothers.
  destruct (processSwXfb_reserving passthroughMode esGsRingItemSize xfbOutputsOffset info
              before after reserving gds lds H0 Hothers) as [lds1 Hrun].
  destruct (prepareXfbExport_effect info (fst reserving) gds lds1 Hr)
    as (gds' & lds' & Hp & Hbuf & _ & Hneeded & Hwritten).
  rewrite Hp in Hrun. eexists gds', lds', _. split; [exact Hrun|].
  split; [|split; [exact Hneeded | exact Hwritten]].
  intros i Hi. specialize (Hbuf i Hi). destruct (bufferActive info i); [|exact Hbuf].
  destruct Hbuf as (H1 & H2 & _). by split.
Qed.

Lemma xfb_reservation_stays_in_buffer_witness :
  exists gds' lds' stores,
    processSwXfb false 5 0 exampleStreamOut (map exampleXfbThread (seq 0 8)) (exampleGds, ∅)
    = Some (gds', lds', stores)
    /\ dwordsWrittenOf gds' 0 = 90
    /\ default 0 (gds' !! GDS_STRMOUT_PRIMS_NEEDED_0) = 8
    /\ default 0 (gds' !! GDS_STRMOUT_PRIMS_WRITTEN_0) = 5.
Proof.
  destruct (xfb_reservation_stays_in_buffer false 5 0 exampleStreamOut []
              (map exampleXfbThread (seq 1 7)) (exampleXfbThread 0) exampleGds ∅)
    as (gds' & lds' & stores & Hrun & Hbuf & Hneeded & Hwritten).
  - vm_compute. reflexivity.
  - vm_compute. reflexivity.
  - repeat (constructor; [vm_compute; reflexivity|]). constructor.
  - exists gds', lds', stores. split; [exact Hrun|].
    split; [|split; [exact Hneeded | exact Hwritten]].
    exact (proj1 (Hbuf 0%nat (or_introl eq_refl))).
Defined.

(** ** The buffer stores of [.exportXfbOutput] *)

(** The bytes one [amdgcn_raw_tbuffer_store] writes. *)
Definition storeBytes (s : XfbStore) : Z :=
  store_elements s * (if store_16bit s then 2 else 4).

(** An output export names an active buffer and lies within one vertex
    stride of it. *)
Definition xfbExportFits (info : StreamOutInfo) (e : XfbOutputExport) : bool :=
  (0 <=? xfbBuffer e) && (xfbBuffer e <? MaxTransformFeedbackBuffers)
  && bufferActive info (Z.to_nat (xfbBuffer e))
  && (1 <=? numElements e) && (numElements e <=? 4)
  && (0 <=? xfbOffset e)
  && (xfbOffset e + numElements e * (if is16bit e then 2 else 4)
      <=? xfbStride info (Z.to_nat (xfbBuffer e))).

(** The strides are multiples of a dword and a primitive's stride fits in 32
    bits. *)
Definition xfbStridesAligned (info : StreamOutInfo) : bool :=
  forallb (fun i => (xfbStride info i mod 4 =? 0)
                    && (vertsPerPrim info * xfbStride info i <? 2 ^ 32))
          xfbBufferIndices.

Lemma in_concat_imap {A B : Type} (f : nat -> A -> list B) (l : list A) (b : B) :
  In b (concat (imap f l)) -> exists i a, l !! i = Some a /\ In b (f i a).
Proof.
  revert f. induction l as [|a l IH]; intros f Hin; [destruct Hin|].
  cbn [imap concat] in Hin. apply in_app_or in Hin as [Hin|Hin].
  - exists 0%nat, a. by split.
  - destruct (IH _ Hin) as (i & x & Hi & Hx). exists (S i), x. by split.
Qed.

Lemma xfbVertexIndices_length (passthroughMode : bool) (info : StreamOutInfo) (ngg : NggInputs) :
  (if passthroughMode then 1 <= vertsPerPrim info <= 3 else vertsPerPrim info = 3) ->
  Z.of_nat (length (xfbVertexIndices passthroughMode info ngg)) = vertsPerPrim info.
Proof.
  unfold xfbVertexIndices. destruct passthroughMode; intros H.
  - rewrite length_firstn. cbn [length]. lia.
  - cbn [length]. lia.
Qed.

(** Every buffer store lands in the space its subgroup reserved: it uses
    the buffer's offset plus the dwords written before the reservation as
    its base, and its bytes lie between that base and the base plus the
    bytes reserved, hence before the end of the buffer. *)
Theorem xfb_stores_within_reservation
    (passthroughMode : bool) (esGsRingItemSize xfbOutputsOffset : Z) (info : StreamOutInfo)
    (before after : list (NggInputs * list (list Z))) (reserving : NggInputs * list (list Z))
    (gds : gmap Z Z) (lds : gmap (PrimShaderLdsRegion * Z) Z) :
  let primCount := primCountInSubgroup (fst reserving) in
  xfbInRange info gds primCount = true ->
  xfbStridesAligned info = true ->
  forallb (xfbExportFits info) (xfbOutputExports info) = true ->
  (if passthroughMode then 1 <= vertsPerPrim info <= 3 else vertsPerPrim info = 3) ->
  CreateICmpEQ (threadIdInSubgroup (fst reserving)) 0 = true ->
  Forall (fun t => CreateICmpEQ (threadIdInSubgroup (fst t)) 0 = false) (before ++ after) ->
  Forall (fun t => 0 <= threadIdInSubgroup (fst t) < 2 ^ 32) (before ++ reserving :: after) ->
  exists gds' lds' stores,
    processSwXfb passthroughMode esGsRingItemSize xfbOutputsOffset info
                 (before ++ reserving :: after) (gds, lds)
    = Some (gds', lds', stores)
    /\ forall k ss s, stores !! k = Some ss -> In s ss ->
         let i := Z.to_nat (store_buffer s) in
         bufferActive info i = true
         /\ store_soffset s = 4 * (streamOutBufOffset info i + dwordsWrittenOf gds i)
         /\ 0 <= store_offset s
         /\ store_offset s + storeBytes s
            <= 4 * (dwordsWrittenOf gds' i - dwordsWrittenOf gds i)
         /\ store_soffset s + store_offset s + storeBytes s <= numRecords info i.
Proof.
  intros primCount Hr Hal Hfits Hvpp H0 Hothers Htid.
  destruct (processSwXfb_reserving passthroughMode esGsRingItemSize xfbOutputsOffset info
              before after reserving gds lds H0 Hothers) as [lds1 Hrun].
  destruct (prepareXfbExport_effect info (fst reserving) gds lds1 Hr)
    as (gds' & lds' & Hp & Hbuf & Hn & _ & _).
  fold primCount in Hbuf, Hn. set (n := numPrimsToWriteSpec info gds primCount) in *.
  rewrite Hp in Hrun. eexists gds', lds', _. split; [exact Hrun|].
  intros k ss s Hss Hs.
  rewrite list_lookup_fmap in Hss.
  destruct ((before ++ reserving :: after) !! k) as [t|] eqn:Ht; [|discriminate Hss].
  cbn in Hss. injection Hss as <-.
  rewrite Forall_forall in Htid.
  assert (Ht' : 0 <= threadIdInSubgroup (fst t) < 2 ^ 32).
  { apply Htid. eapply list_elem_of_lookup_2. exact Ht. }
  unfold exportXfbOutputBlock in Hs. rewrite Hn in Hs. unfold CreateICmpULT in Hs.
  destruct (calcNumPrimsToWrite_spec info gds primCount Hr) as [_ Hnr]. fold n in Hnr.
  rewrite (wrap32_small n), (wrap32_small (threadIdInSubgroup (fst t))) in Hs by done.
  destruct (threadIdInSubgroup (fst t) <? n) eqn:Hlt; [|destruct Hs].
  apply Z.ltb_lt in Hlt.
  apply in_concat_imap in Hs as (vi & vertexIndex & Hvi & Hs).
  apply in_concat_imap in Hs as (j & e & He & Hs).
  assert (Hvi' : Z.of_nat vi < vertsPerPrim info).
  { rewrite <- (xfbVertexIndices_length passthroughMode info (fst t) Hvpp).
    apply lookup_lt_Some in Hvi. lia. }
  rewrite forallb_forall in Hfits.
  assert (Hfit : xfbExportFits info e = true).
  { apply Hfits. eapply list_elem_of_In, list_elem_of_lookup_2. exact He. }
  unfold xfbExportFits in Hfit. rewrite !andb_true_iff, !Z.leb_le, !Z.ltb_lt in Hfit.
  destruct Hfit as ((((((Hb0 & Hb1) & Hact) & He1) & He4) & Ho0) & Hstr).
  set (b := Z.to_nat (xfbBuffer e)) in *.
  assert (Hbi : In b xfbBufferIndices).
  { apply in_seq. change MaxTransformFeedbackBuffers with 4 in *. subst b. lia. }
  specialize (Hbuf b Hbi). rewrite Hact in Hbuf. destruct Hbuf as (Hnew & _ & Hstat).
  destruct (reserved_dwords_fit info gds primCount b Hr Hbi Hact) as (_ & Hdpp & Hres).
  fold n in Hres.
  pose proof (xfbInRange_buffer _ _ _ _ Hr Hbi Hact) as Hrange.
  unfold xfbBufferInRange in Hrange. rewrite !andb_true_iff, !Z.ltb_lt, !Z.leb_le in Hrange.
  destruct Hrange as ((((((((_ & Hn0) & Hn1) & Hof0) & Hof1) & Hw0) & Hw1) & Hd0) & Hd1).
  unfold xfbStridesAligned in Hal. rewrite forallb_forall in Hal.
  specialize (Hal b Hbi). rewrite andb_true_iff, Z.eqb_eq, Z.ltb_lt in Hal.
  destruct Hal as [Hmod Hprim].
  set (stride := xfbStride info b) in *.
  set (vpp := vertsPerPrim info) in *.
  set (dw := dwordsWrittenOf gds b) in *.
  set (off := streamOutBufOffset info b) in *.
  set (tid := threadIdInSubgroup (fst t)) in *.
  assert (Hstride0 : 0 < stride).
  { unfold bufferActive in Hact. fold stride in Hact. by apply Z.ltb_lt in Hact. }
  assert (Hdpp4 : 4 * dwordsPerPrim info b = vpp * stride).
  { unfold dwordsPerPrim, CreateMul. fold vpp stride.
    assert (0 < vpp) by (subst vpp; destruct passthroughMode; lia).
    rewrite wrap32_small by nia.
    apply Z.mod_divide in Hmod; [|lia]. destruct Hmod as [q Hq]. rewrite Hq.
    replace (vpp * (q * 4)) with (vpp * q * 4) by lia.
    rewrite Z.div_mul by lia. lia. }
  assert (Hsz : 4 * bufferSizeInDwords info b <= numRecords info b).
  { unfold bufferSizeInDwords. pose proof (Z.mul_div_le (numRecords info b) 4). lia. }
  set (sz := bufferSizeInDwords info b) in *.
  set (dpp := dwordsPerPrim info b) in *.
  assert (Hvpp1 : 1 <= vpp <= 3) by (subst vpp; destruct passthroughMode; lia).
  set (R := n * dpp) in *.
  assert (HR : dpp <= R).
  { subst R. replace dpp with (1 * dpp) at 1 by lia. apply Z.mul_le_mono_nonneg_r; lia. }
  assert (Hroom : off + dw + R <= sz) by lia.
  set (X := tid * vpp + Z.of_nat vi).
  assert (HX0 : 0 <= tid * vpp <= X).
  { subst X. split; [apply Z.mul_nonneg_nonneg|]; lia. }
  assert (HXn : X + 1 <= n * vpp).
  { subst X. assert ((tid + 1) * vpp <= n * vpp) by (apply Z.mul_le_mono_nonneg_r; lia). lia. }
  set (S := X * stride).
  assert (HS : X <= S /\ S + stride <= 4 * R).
  { subst S R. split.
    - replace X with (X * 1) at 1 by lia. apply Z.mul_le_mono_nonneg_l; lia.
    - replace (4 * (n * dpp)) with (n * vpp * stride) by lia.
      replace (X * stride + stride) with ((X + 1) * stride) by lia.
      apply Z.mul_le_mono_nonneg_r; lia. }
  destruct HS as [HXS Hslot].
  assert (HeqX : tid * vpp + Z.of_nat vi = X) by reflexivity.
  assert (HeqS : X * stride = S) by reflexivity.
  clearbody S R X. clear HXn.
  change (2 ^ 31) with 2147483648 in *. change (2 ^ 32) with 4294967296 in *.
  assert (Hbase : streamOutOffset info lds' b = 4 * (off + dw)).
  { unfold streamOutOffset. rewrite Hstat. fold off dw. unfold CreateShl, CreateAdd.
    rewrite (wrap32_small (off + dw)) by (change (2 ^ 32) with 4294967296; lia).
    rewrite Z.shiftl_mul_pow2 by lia. change (2 ^ 2) with 4.
    rewrite wrap32_small by (change (2 ^ 32) with 4294967296; lia). lia. }
  assert (Hvo : CreateMul (CreateAdd (CreateMul tid vpp) (Z.of_nat vi)) stride = S).
  { unfold CreateMul, CreateAdd.
    rewrite (wrap32_small (tid * vpp)) by (change (2 ^ 32) with 4294967296; lia).
    rewrite (wrap32_small (tid * vpp + Z.of_nat vi)) by
      (change (2 ^ 32) with 4294967296; lia).
    rewrite HeqX, HeqS. apply wrap32_small. change (2 ^ 32) with 4294967296. lia. }
  assert (Hbytes : numElements e * (if is16bit e then 2 else 4) <= 16).
  { destruct (is16bit e); lia. }
  assert (Hxo : CreateAdd S (xfbOffset e) = S + xfbOffset e).
  { unfold CreateAdd. apply wrap32_small. change (2 ^ 32) with 4294967296.
    destruct (is16bit e); lia. }
  unfold exportOneXfbOutput in Hs. cbv zeta in Hs. fold b in Hs.
  fold tid vpp stride in Hs. rewrite Hvo, Hxo, Hbase in Hs.
  cbv zeta. unfold storeBytes.
  destruct (is16bit e) eqn:H16; cbn [andb] in Hs.
  - destruct (numElements e =? 3) eqn:E3.
    + apply Z.eqb_eq in E3.
      destruct Hs as [<-|[<-|[]]]; cbn [store_buffer store_soffset store_offset
                                         store_elements store_16bit]; fold b; rewrite Hnew.
      * repeat split; try done; lia.
      * assert (H4 : CreateAdd (S + xfbOffset e) 4 = S + xfbOffset e + 4).
        { unfold CreateAdd. apply wrap32_small. change (2 ^ 32) with 4294967296. lia. }
        rewrite H4. repeat split; try done; lia.
    + destruct Hs as [<-|[]]; cbn [store_buffer store_soffset store_offset
                                   store_elements store_16bit]; fold b; rewrite Hnew.
      repeat split; try done; lia.
  - destruct Hs as [<-|[]]; cbn [store_buffer store_soffset store_offset
                                 store_elements store_16bit]; fold b; rewrite Hnew.
    repeat split; try done; lia.
Qed.

Lemma xfb_stores_within_reservation_witness :
  exists gds' lds' stores,
    processSwXfb false 5 0 exampleStreamOut (map exampleXfbThread (seq 0 8)) (exampleGds, ∅)
    = Some (gds', lds', stores)
    /\ Forall (Forall (fun s => store_soffset s = 160
                                /\ store_soffset s + store_offset s + storeBytes s <= 400))
              stores.
Proof.
  destruct (xfb_stores_within_reservation false 5 0 exampleStreamOut []
              (map exampleXfbThread (seq 1 7)) (exampleXfbThread 0) exampleGds ∅)
    as (gds' & lds' & stores & Hrun & Hstores).
  - vm_compute. reflexivity.
  - vm_compute. reflexivity.
  - vm_compute. reflexivity.
  - reflexivity.
  - vm_compute. reflexivity.
  - repeat (constructor; [vm_compute; reflexivity|]). constructor.
  - repeat (constructor; [vm_compute; split; [discriminate | reflexivity]|]). constructor.
  - exists gds', lds', stores. split; [exact Hrun|].
    apply Forall_forall. intros ss Hss. apply Forall_forall. intros s Hs.
    apply list_elem_of_lookup_1 in Hss as [k Hk]. apply list_elem_of_In in Hs.
    destruct (Hstores k ss s Hk Hs) as (Ha & Hso & _ & _ & Hend).
    assert (Hb : Z.to_nat (store_buffer s) = 0%nat).
    { destruct (Z.to_nat (store_buffer s)) as [|[|[|[|[|b]]]]]; [done|..];
        vm_compute in Ha; discriminate Ha. }
    rewrite Hb in Hso, Hend. split; [exact Hso | exact Hend].
Defined.

(** ** The distribution of the primitive ID in [.writePrimId] and [.readPrimId] *)

Section PrimitiveId.
Context {SF : ShaderFloats}.
Variable cfg : ShaderConfig.

(** The vertex [.writePrimId] writes the primitive ID of the invocation's
    primitive to. *)
Definition provokingVertexIndex (t : Thread) : Z :=
  if provokingVertexFirst cfg then vertexIndex0 (nggInputs t) else vertexIndex2 (nggInputs t).

(** The invocation [tp] holds a primitive whose provoking vertex is the
    vertex of the invocation [tv]. *)
Definition provokes (tv tp : Thread) : bool :=
  CreateICmpULT (threadIdInWave (nggInputs tp)) (primCountInWave (nggInputs tp))
  && (wrap32 (provokingVertexIndex tp) =? wrap32 (threadIdInSubgroup (nggInputs tv))).

Lemma perThreadLdsOffset_dword (threadId : Z) : perThreadLdsOffset 1 threadId 0 = wrap32 threadId.
Proof. unfold perThreadLdsOffset, CreateAdd. cbn. now rewrite Z.add_0_r. Qed.

Lemma writePrimId_fold (tv : Thread) (x : Z) (ts : list Thread)
    (lds : gmap (PrimShaderLdsRegion * Z) Z) :
  forallb (fun tp => implb (provokes tv tp) (vgprArg (laneInput tp) 2 =? x)) ts = true ->
  readValueFromLds (foldl (fun l t => writePrimId cfg t l) lds ts) DistributedPrimitiveId
    (wrap32 (threadIdInSubgroup (nggInputs tv)))
  = if existsb (provokes tv) ts then x
    else readValueFromLds lds DistributedPrimitiveId (wrap32 (threadIdInSubgroup (nggInputs tv))).
Proof.
  induction ts as [|t ts IH] using rev_ind; intros Hall; [reflexivity|].
  rewrite forallb_app in Hall. apply andb_true_iff in Hall as [Hts Ht].
  cbn [forallb] in Ht. rewrite andb_true_r in Ht.
  rewrite foldl_app, existsb_app. cbn [foldl existsb]. rewrite orb_false_r.
  unfold writePrimId at 1. unfold provokes at 2. unfold provokes in Ht.
  fold (provokingVertexIndex t) in *.
  destruct (CreateICmpULT (threadIdInWave (nggInputs t)) (primCountInWave (nggInputs t)));
    cbn [andb implb] in *.
  - unfold writePrimId, writePerThreadDataToLds. rewrite perThreadLdsOffset_dword.
    destruct (Z.eqb_spec (wrap32 (provokingVertexIndex t))
                         (wrap32 (threadIdInSubgroup (nggInputs tv)))) as [E|E].
    + cbn [implb] in Ht. apply Z.eqb_eq in Ht. rewrite orb_true_r.
      rewrite <- E. rewrite read_write_same. exact Ht.
    + rewrite orb_false_r. rewrite read_write_other by congruence. exact (IH Hts).
  - rewrite orb_false_r. exact (IH Hts).
Qed.

(** A vertex receives the primitive ID of the primitive it provokes.  With
    the primitive ID distributed, the invocation of a valid vertex ends up
    with the ID [x] in [m_distributedPrimitiveId] when at least one
    invocation holds a primitive whose provoking vertex (vertex 0 or vertex
    2, by the provoking vertex mode) is that vertex and every such
    primitive has the ID [x]; when no primitive provokes the vertex it reads
    what the LDS held before. *)
Theorem primitive_id_reaches_provoking_vertex (mergedGroupInfo : Z)
    (waves : list (Z * list LaneInput)) (lds : gmap (PrimShaderLdsRegion * Z) Z)
    (w l : nat) (wave : list Thread) (tv : Thread) (x : Z) :
  let threads := fst (entryThreads cfg mergedGroupInfo waves lds) in
  distributePrimitiveId (pipelineState cfg) = true ->
  threads !! w = Some wave -> wave !! l = Some tv ->
  vertValidInWave tv = true ->
  forallb (fun tp => implb (provokes tv tp) (vgprArg (laneInput tp) 2 =? x)) (concat threads)
  = true ->
  distributedPrimitiveId tv
  = if existsb (provokes tv) (concat threads) then x
    else readValueFromLds lds DistributedPrimitiveId
           (wrap32 (threadIdInSubgroup (nggInputs tv))).
Proof.
  intros threads Hd Hw Hl Hv Hall. subst threads. unfold entryThreads in *.
  set (threads0 := map (entryWave cfg mergedGroupInfo) waves) in *.
  rewrite Hd in *. cbn [fst] in *.
  set (lds1 := foldl _ lds (concat threads0)) in *.
  rewrite list_lookup_fmap in Hw.
  destruct (threads0 !! w) as [wave0|] eqn:Hw0; [|discriminate Hw].
  cbn in Hw. injection Hw as <-.
  rewrite list_lookup_fmap in Hl.
  destruct (wave0 !! l) as [t0|] eqn:Hl0; [|discriminate Hl].
  cbn in Hl. injection Hl as <-.
  unfold vertValidInWave in Hv. cbn [readPrimId nggInputs] in Hv.
  cbn [readPrimId distributedPrimitiveId nggInputs]. rewrite Hv.
  unfold readPerThreadDataFromLds. rewrite perThreadLdsOffset_dword.
  assert (He : forall tp, provokes (readPrimId lds1 t0) (readPrimId lds1 tp) = provokes t0 tp)
    by reflexivity.
  assert (Hex : existsb (provokes (readPrimId lds1 t0))
                  (concat (map (map (readPrimId lds1)) threads0))
                = existsb (provokes t0) (concat threads0)).
  { rewrite <- (concat_map (readPrimId lds1)).
    generalize (concat threads0). intros ts.
    induction ts as [|t ts IH]; [reflexivity|]. cbn [map existsb]. now rewrite He, IH. }
  assert (Hfa : forallb (fun tp => implb (provokes t0 tp) (vgprArg (laneInput tp) 2 =? x))
                  (concat threads0) = true).
  { rewrite <- Hall. rewrite <- (concat_map (readPrimId lds1)).
    generalize (concat threads0). intros ts.
    induction ts as [|t ts IH]; [reflexivity|]. cbn [map forallb]. now rewrite He, IH. }
  rewrite Hex. exact (writePrimId_fold t0 x (concat threads0) lds Hfa).
Qed.

End PrimitiveId.

(** A VS that uses the primitive ID, four vertices and the two triangles
    (0, 1, 2) and (2, 1, 3) with the primitive IDs 7 and 9; the provoking
    vertex is the first one. *)
Definition examplePrimIdConfig : ShaderConfig :=
  let cfg := exampleConfig false false false in
  {| waveSize := waveSize cfg;
     pipelineState :=
       {| hasGs := false; hasTes := false; enableSwXfb := false; passthroughMode := false;
          compactVertex := false; vsPrimitiveId := true;
          calcFactor := calcFactor (pipelineState cfg) |};
     nggControl := nggControl cfg;
     cbLayoutTable := cbLayoutTable cfg;
     builtInUsage := builtInUsage cfg;
     xfbOutputExpCount := xfbOutputExpCount cfg;
     waNggCullingNoEmptySubgroups := waNggCullingNoEmptySubgroups cfg;
     constPositionZ := constPositionZ cfg;
     NggSmallSubgroupThreshold := NggSmallSubgroupThreshold cfg;
     provokingVertexFirst := true;
     streamOut := streamOut cfg |}.

Definition examplePrimIdLane (triangle : Z * Z * Z) (primitiveId : Z)
  : LaneInput (SF := exactFloats) :=
  let '(v0, v1, v2) := triangle in
  Build_LaneInput (SF := exactFloats)
    [Z.lor v0 (Z.shiftl v1 16); v2; primitiveId; 0; 0; 0; 0; 0; 0] exampleInside [] [].

Definition examplePrimIdWaves : list (Z * list (LaneInput (SF := exactFloats))) :=
  [ (Z.lor (Z.shiftl 2 8) 4,
     [ examplePrimIdLane (0, 1, 2) 7; examplePrimIdLane (2, 1, 3) 9;
       examplePrimIdLane (0, 0, 0) 0; examplePrimIdLane (0, 0, 0) 0 ]) ].

Lemma primitive_id_reaches_provoking_vertex_witness :
  exists wave tv,
    fst (entryThreads examplePrimIdConfig (Z.lor (Z.shiftl 2 22) (Z.shiftl 4 12))
           examplePrimIdWaves ∅) !! 0%nat = Some wave
    /\ wave !! 2%nat = Some tv
    /\ distributedPrimitiveId tv = 9.
Proof.
  eexists _, _. split; [reflexivity|]. split; [reflexivity|].
  erewrite (primitive_id_reaches_provoking_vertex (SF := exactFloats) examplePrimIdConfig
              (Z.lor (Z.shiftl 2 22) (Z.shiftl 4 12)) examplePrimIdWaves ∅ 0 2 _ _ 9).
  - vm_compute. reflexivity.
  - reflexivity.
  - reflexivity.
  - reflexivity.
  - vm_compute. reflexivity.
  - vm_compute. reflexivity.
Defined.

Lemma entryThreads_wellFormed_witness :
  wellFormedSubgroup (exampleConfig true true false) 40 3 (exampleSubgroup exampleTriangles) = true.
Proof.
  apply (entryThreads_wellFormed (SF := exactFloats) (exampleConfig true true false)
           (Z.lor (Z.shiftl 3 22) (Z.shiftl 40 12))
           [ (Z.lor (Z.shiftl 3 8) 32, exampleWave exampleTriangles [5; 6; 7]%nat 0);
             (Z.lor (Z.shiftl 1 24) 8, exampleWave [] [] 32) ] ∅).
  - left. reflexivity.
  - cbn. lia.
  - vm_compute. discriminate.
  - intros [|[|w]] wave Hw; try discriminate Hw; injection Hw as <-;
      split; vm_compute; reflexivity.
Defined.

(** ** Which vertices are drawn, and where the compaction puts them *)

(** One cell of the LDS through a sequence of steps: a step either sets the
    cell to [x] or leaves it alone. *)
Lemma foldl_cell_keep {A : Type}
    (step : gmap (PrimShaderLdsRegion * Z) Z -> A -> gmap (PrimShaderLdsRegion * Z) Z)
    (r : PrimShaderLdsRegion) (o : Z) (ps : list A) :
  (forall p, In p ps -> forall l, readValueFromLds (step l p) r o = readValueFromLds l r o) ->
  forall lds, readValueFromLds (foldl step lds ps) r o = readValueFromLds lds r o.
Proof.
  induction ps as [|p ps IH]; intros H lds; cbn [foldl]; [reflexivity|].
  rewrite IH by (intros q Hq; apply H; now right). apply H. now left.
Qed.

Lemma foldl_cell_set {A : Type}
    (step : gmap (PrimShaderLdsRegion * Z) Z -> A -> gmap (PrimShaderLdsRegion * Z) Z)
    (r : PrimShaderLdsRegion) (o x : Z) (ps : list A) :
  (forall p, In p ps ->
     (forall l, readValueFromLds (step l p) r o = x)
     \/ (forall l, readValueFromLds (step l p) r o = readValueFromLds l r o)) ->
  forall lds,
    (readValueFromLds lds r o = x
     \/ exists p, In p ps /\ forall l, readValueFromLds (step l p) r o = x) ->
    readValueFromLds (foldl step lds ps) r o = x.
Proof.
  induction ps as [|p ps IH]; intros H lds Hx; cbn [foldl].
  - destruct Hx as [Hx|(p & [] & _)]. exact Hx.
  - apply IH; [intros q Hq; apply H; now right|].
    destruct Hx as [Hx|(q & [<-|Hq] & Hset)].
    + left. destruct (H p (or_introl eq_refl)) as [Hs|Hk]; [apply Hs|]. now rewrite Hk.
    + left. apply Hset.
    + right. exists q. auto.
Qed.

(** The flagged element of rank [c]. *)
Lemma countTrue_rank_exists (fl : list bool) (c : Z) :
  0 <= c < countTrue fl ->
  exists p, fl !! p = Some true /\ countTrue (firstn p fl) = c.
Proof.
  revert c. induction fl as [|b fl IH]; intros c Hc; cbn [countTrue] in Hc; [lia|].
  destruct b; cbn [Z.b2z] in Hc.
  - destruct (Z.eq_dec c 0) as [->|Hn].
    + exists 0%nat. split; reflexivity.
    + destruct (IH (c - 1)) as (p & Hp & Hr); [lia|].
      exists (S p). split; [exact Hp|]. cbn [firstn countTrue Z.b2z]. lia.
  - destruct (IH c) as (p & Hp & Hr); [lia|].
    exists (S p). split; [exact Hp|]. cbn [firstn countTrue Z.b2z]. lia.
Qed.

Lemma countTrue_rank_lt (fl : list bool) (p q : nat) :
  (p < q)%nat -> fl !! p = Some true ->
  countTrue (firstn p fl) < countTrue (firstn q fl).
Proof.
  revert p q. induction fl as [|b fl IH]; intros p q Hpq Hp; [discriminate|].
  destruct q as [|q]; [lia|]. destruct p as [|p].
  - cbn in Hp. injection Hp as ->. cbn [firstn countTrue Z.b2z].
    pose proof (countTrue_bounds (firstn q fl)). lia.
  - cbn [firstn countTrue]. cbn in Hp. specialize (IH p q ltac:(lia) Hp). lia.
Qed.

Lemma countTrue_rank_inj (fl : list bool) (p q : nat) :
  fl !! p = Some true -> fl !! q = Some true ->
  countTrue (firstn p fl) = countTrue (firstn q fl) -> p = q.
Proof.
  intros Hp Hq He. destruct (Nat.lt_trichotomy p q) as [H|[H|H]]; [|exact H|].
  - pose proof (countTrue_rank_lt fl p q H Hp). lia.
  - pose proof (countTrue_rank_lt fl q p H Hq). lia.
Qed.

Lemma countTrue_rank_bound (fl : list bool) (p : nat) :
  fl !! p = Some true -> countTrue (firstn p fl) < countTrue fl.
Proof.
  intros Hp. pose proof (countTrue_rank_lt fl p (length fl)) as H.
  rewrite firstn_all in H. apply H; [|exact Hp]. now apply lookup_lt_Some in Hp.
Qed.

(** A primitive of a valid invocation names vertices of the subgroup. *)
Definition primitiveInRange {SF : ShaderFloats} (V : Z) (t : Thread) : bool :=
  implb (primValidInSubgroup t)
        (forallb (fun v => (0 <=? v) && (v <? V))
                 [vertexIndex0 (nggInputs t); vertexIndex1 (nggInputs t);
                  vertexIndex2 (nggInputs t)]).

(** The primitive of [tp] names the vertex of [tv]. *)
Definition references {SF : ShaderFloats} (tp tv : Thread) : bool :=
  existsb (fun v => v =? threadIdInSubgroup (nggInputs tv))
          [vertexIndex0 (nggInputs tp); vertexIndex1 (nggInputs tp);
           vertexIndex2 (nggInputs tp)].

Section ItemCells.
Variable cfg : ShaderConfig.
Hypothesis HnoGs : hasGs (pipelineState cfg) = false.
Hypothesis Hculling : passthroughMode (pipelineState cfg) = false.
Hypothesis Hxfb : 0 <= xfbOutputExpCount cfg < 2 ^ 10.

Lemma lor_1_bounds (z : Z) : 0 <= z -> z <= Z.lor z 1 <= z + 1.
Proof.
  intros Hz. destruct (Z.odd z) eqn:E.
  - replace (Z.lor z 1) with z; [lia|].
    apply Z.bits_inj'. intros i Hi. rewrite Z.lor_spec.
    destruct (Z.eq_dec i 0) as [->|Hn].
    + rewrite Z.bit0_odd, E. reflexivity.
    + rewrite (testbit_above 1 1 i) by lia. now rewrite orb_false_r.
  - replace (Z.lor z 1) with (z + 1); [lia|].
    rewrite Z.add_nocarry_lxor, Z.lxor_lor; [reflexivity| |];
      apply Z.bits_inj'; intros i Hi; rewrite Z.land_spec, Z.bits_0;
      (destruct (Z.eq_dec i 0) as [->|Hn];
       [rewrite Z.bit0_odd, E; reflexivity
       |rewrite (testbit_above 1 1 i) by lia; apply andb_false_r]).
Qed.

Lemma cullInfoSize_bounds :
  1 <= fst (calcVertexCullInfoSizeAndOffsets cfg) <= 4 * xfbOutputExpCount cfg + 7.
Proof.
  unfold calcVertexCullInfoSizeAndOffsets. rewrite HnoGs, Hculling. cbn [orb].
  repeat match goal with
         | |- context [if ?c then _ else _] => destruct c
         end; cbn [fst]; lia.
Qed.

Lemma itemSize_bounds :
  fst (calcVertexCullInfoSizeAndOffsets cfg) <= calcEsGsRingItemSize cfg <= 2 ^ 13.
Proof.
  pose proof cullInfoSize_bounds as Hs. unfold calcEsGsRingItemSize.
  pose proof (lor_1_bounds (fst (calcVertexCullInfoSizeAndOffsets cfg)) ltac:(lia)).
  change (2 ^ 10) with 1024 in Hxfb. change (2 ^ 13) with 8192. lia.
Qed.

(** The address of a member of the item of a vertex. *)
Lemma itemCell (v o : Z) :
  0 <= v < 512 -> 0 <= o < calcEsGsRingItemSize cfg ->
  CreateAdd (CreateMul v (calcEsGsRingItemSize cfg)) o = v * calcEsGsRingItemSize cfg + o.
Proof.
  intros Hv Ho. pose proof itemSize_bounds as [_ Hs]. change (2 ^ 13) with 8192 in Hs.
  set (S := calcEsGsRingItemSize cfg) in *.
  assert (0 <= v * S <= 511 * 8192).
  { split; [apply Z.mul_nonneg_nonneg; lia|]. apply Z.mul_le_mono_nonneg; lia. }
  unfold CreateAdd, CreateMul.
  rewrite (wrap32_small (v * S)) by (change (2 ^ 32) with 4294967296; lia).
  apply wrap32_small. change (2 ^ 32) with 4294967296. lia.
Qed.

Lemma itemCell_inj (v v' o o' : Z) :
  0 <= o < calcEsGsRingItemSize cfg -> 0 <= o' < calcEsGsRingItemSize cfg ->
  v * calcEsGsRingItemSize cfg + o = v' * calcEsGsRingItemSize cfg + o' ->
  v = v' /\ o = o'.
Proof.
  set (S := calcEsGsRingItemSize cfg). intros Ho Ho' He.
  assert (Hv : v = v').
  { destruct (Z.lt_trichotomy v v') as [H|[H|H]]; [|exact H|].
    - assert ((v + 1) * S <= v' * S) by (apply Z.mul_le_mono_nonneg_r; lia). lia.
    - assert ((v' + 1) * S <= v * S) by (apply Z.mul_le_mono_nonneg_r; lia). lia. }
  subst v'. split; [reflexivity|lia].
Qed.

End ItemCells.

Lemma foldl_cell_flag {A : Type}
    (step : gmap (PrimShaderLdsRegion * Z) Z -> A -> gmap (PrimShaderLdsRegion * Z) Z)
    (f : A -> bool) (r : PrimShaderLdsRegion) (o x : Z) (ps : list A) :
  (forall p, In p ps -> forall l,
     readValueFromLds (step l p) r o = if f p then x else readValueFromLds l r o) ->
  forall lds,
    readValueFromLds (foldl step lds ps) r o
    = if existsb f ps then x else readValueFromLds lds r o.
Proof.
  induction ps as [|p ps IH]; intros H lds; cbn [foldl existsb]; [reflexivity|].
  rewrite IH by (intros q Hq; apply H; now right).
  rewrite (H p (or_introl eq_refl)).
  destruct (f p), (existsb f ps); reflexivity.
Qed.

Lemma in_concat_lookup {A : Type} (ws : list (list A)) (t : A) :
  In t (concat ws) -> exists w k wave, ws !! w = Some wave /\ wave !! k = Some t.
Proof.
  intros Hin. apply in_concat in Hin as (wave & Hwave & Ht).
  apply list_elem_of_In, list_elem_of_lookup_1 in Hwave as [w Hw].
  apply list_elem_of_In, list_elem_of_lookup_1 in Ht as [k Hk].
  exists w, k, wave. auto.
Qed.

Section DrawnVertices.
Context {SF : ShaderFloats}.
Variable cfg : ShaderConfig.
Variable primShaderTable : Z -> Z.
Variables V P : Z.
Variable waves : list (list Thread).
Hypothesis Hwf : wellFormedSubgroup cfg V P waves = true.
Hypothesis Hrp : subgroupRuntimePassthrough cfg V = false.
Hypothesis HnoGs : hasGs (pipelineState cfg) = false.
Hypothesis Hculling : passthroughMode (pipelineState cfg) = false.
Hypothesis Hxfb : 0 <= xfbOutputExpCount cfg < 2 ^ 10.
Hypothesis Hitem : esGsRingItemSizeOf cfg = calcEsGsRingItemSize cfg.
Hypothesis Hprims : forallb (primitiveInRange V) (concat waves) = true.

Lemma thread_id (w k : nat) (wave : list Thread) (t : Thread) :
  waves !! w = Some wave -> wave !! k = Some t ->
  threadIdInSubgroup (nggInputs t) = Z.of_nat w * waveSize cfg + Z.of_nat k
  /\ 0 <= threadIdInSubgroup (nggInputs t) < 256.
Proof.
  intros Hw Hk.
  destruct (wf_thread cfg V P waves Hwf w k wave t Hw Hk) as (_ & _ & _ & Htid & _).
  destruct (wf_lane_bound cfg V P waves Hwf w k wave t Hw Hk) as [Hwb Hkb].
  split; [exact Htid|]. rewrite Htid.
  destruct (wf_waveCount cfg V P waves Hwf) as [[Hs Hc]|[Hs Hc]]; rewrite Hs in *; lia.
Qed.

Lemma thread_id_inj (w k w' k' : nat) (wave wave' : list Thread) (t t' : Thread) :
  waves !! w = Some wave -> wave !! k = Some t ->
  waves !! w' = Some wave' -> wave' !! k' = Some t' ->
  threadIdInSubgroup (nggInputs t) = threadIdInSubgroup (nggInputs t') ->
  w = w' /\ k = k'.
Proof.
  intros Hw Hk Hw' Hk' He.
  destruct (thread_id w k wave t Hw Hk) as [H1 _].
  destruct (thread_id w' k' wave' t' Hw' Hk') as [H2 _].
  destruct (wf_lane_bound cfg V P waves Hwf w k wave t Hw Hk) as [_ Hkb].
  destruct (wf_lane_bound cfg V P waves Hwf w' k' wave' t' Hw' Hk') as [_ Hkb'].
  rewrite H1, H2 in He.
  assert (Hws : 0 < waveSize cfg) by (destruct (wf_waveSize cfg V P waves Hwf); lia).
  assert (Z.of_nat w = Z.of_nat w').
  { destruct (Z.lt_trichotomy (Z.of_nat w) (Z.of_nat w')) as [H|[H|H]]; [|exact H|].
    - assert ((Z.of_nat w + 1) * waveSize cfg <= Z.of_nat w' * waveSize cfg)
        by (apply Z.mul_le_mono_nonneg_r; lia). lia.
    - assert ((Z.of_nat w' + 1) * waveSize cfg <= Z.of_nat w * waveSize cfg)
        by (apply Z.mul_le_mono_nonneg_r; lia). lia. }
  split; [lia|]. assert (Z.of_nat w * waveSize cfg = Z.of_nat w' * waveSize cfg) by congruence.
  lia.
Qed.

Lemma thread_culling_path (t : Thread) :
  In t (concat waves) -> runtimePassthrough cfg t = false.
Proof.
  intros Hin. destruct (in_concat_lookup waves t Hin) as (w & k & wave & Hw & Hk).
  now rewrite (wf_runtimePassthrough cfg V P waves Hwf w k wave t Hw Hk).
Qed.

Lemma thread_vertValid (w k : nat) (wave : list Thread) (t : Thread) :
  waves !! w = Some wave -> wave !! k = Some t ->
  vertValidInSubgroup t = (threadIdInSubgroup (nggInputs t) <? V).
Proof.
  intros Hw Hk. destruct (thread_id w k wave t Hw Hk) as [_ Hb].
  destruct (wf_thread cfg V P waves Hwf w k wave t Hw Hk) as (_ & _ & _ & _ & HV & _).
  pose proof (wf_counts cfg V P waves Hwf) as [HVr _].
  unfold vertValidInSubgroup, CreateICmpULT. rewrite HV.
  now rewrite !wrap32_small by lia.
Qed.

Lemma primitive_indices (t : Thread) :
  In t (concat waves) -> primValidInSubgroup t = true ->
  0 <= vertexIndex0 (nggInputs t) < V /\ 0 <= vertexIndex1 (nggInputs t) < V
  /\ 0 <= vertexIndex2 (nggInputs t) < V.
Proof.
  intros Hin Hv. rewrite forallb_forall in Hprims. specialize (Hprims t Hin).
  unfold primitiveInRange in Hprims. rewrite Hv in Hprims. cbn [implb forallb] in Hprims.
  rewrite !andb_true_iff, !Z.leb_le, !Z.ltb_lt in Hprims. lia.
Qed.

(** The offsets of the draw flag and of the sign mask of the cull distances. *)
Lemma drawFlag_offset :
  0 <= off_drawFlag (vertCullInfoOffsets cfg) < calcEsGsRingItemSize cfg
  /\ (enableCullDistanceCulling (nggControl cfg) = true ->
      0 <= off_cullDistanceSignMask (vertCullInfoOffsets cfg) < calcEsGsRingItemSize cfg
      /\ off_cullDistanceSignMask (vertCullInfoOffsets cfg)
         <> off_drawFlag (vertCullInfoOffsets cfg)).
Proof.
  pose proof (itemSize_bounds cfg HnoGs Hculling Hxfb) as [Hs _].
  revert Hs. unfold vertCullInfoOffsets, calcVertexCullInfoSizeAndOffsets.
  rewrite HnoGs, Hculling. cbn [orb].
  generalize (calcEsGsRingItemSize cfg). intros S.
  repeat match goal with
         | |- context [if ?c then _ else _] => destruct c
         end; cbn [fst snd off_drawFlag off_cullDistanceSignMask]; intros Hs;
    (split; [lia|]); intros Hc; try discriminate Hc; lia.
Qed.

Lemma vertexItemOffset_eq (t : Thread) :
  vertexItemOffset cfg t = CreateMul (threadIdInSubgroup (nggInputs t)) (calcEsGsRingItemSize cfg).
Proof. unfold vertexItemOffset. now rewrite Hitem. Qed.

(** *** The draw flags at the barrier of [.endWriteVertCullData] *)

Lemma writeVertCullData_drawFlag (w k : nat) (wave : list Thread) (t : Thread) (v : Z)
    (l : gmap (PrimShaderLdsRegion * Z) Z) :
  waves !! w = Some wave -> wave !! k = Some t -> 0 <= v < 512 ->
  let cell := v * calcEsGsRingItemSize cfg + off_drawFlag (vertCullInfoOffsets cfg) in
  readValueFromLds
    (unlessPassthrough cfg
       (fun t l => writeVertCullData cfg t (initVertCount cfg t (initVertDrawFlag cfg t l))) l t)
    VertexCullInfo cell
  = if (threadIdInSubgroup (nggInputs t) =? v) && vertValidInSubgroup t then 0
    else readValueFromLds l VertexCullInfo cell.
Proof.
  intros Hw Hk Hv cell.
  destruct (thread_id w k wave t Hw Hk) as [_ Htid].
  destruct drawFlag_offset as [Hdf Hcd].
  unfold unlessPassthrough.
  rewrite (thread_culling_path t (in_waves waves w k wave t Hw Hk)).
  assert (H1 : readValueFromLds (initVertDrawFlag cfg t l) VertexCullInfo cell
               = if (threadIdInSubgroup (nggInputs t) =? v) && vertValidInSubgroup t then 0
                 else readValueFromLds l VertexCullInfo cell).
  { unfold initVertDrawFlag. destruct (vertValidInSubgroup t); [|now rewrite andb_false_r].
    rewrite andb_true_r. unfold writeVertexCullInfoToLds.
    rewrite vertexItemOffset_eq, (itemCell cfg HnoGs Hculling Hxfb) by lia.
    destruct (Z.eqb_spec (threadIdInSubgroup (nggInputs t)) v) as [->|Hne].
    - apply read_write_same.
    - apply read_write_other. intros [=E]. subst cell.
      apply (itemCell_inj cfg) in E; [|lia|lia]. lia. }
  assert (H2 : readValueFromLds (initVertCount cfg t (initVertDrawFlag cfg t l))
                 VertexCullInfo cell
               = readValueFromLds (initVertDrawFlag cfg t l) VertexCullInfo cell).
  { unfold initVertCount. destruct (waveValid cfg t); [|reflexivity].
    unfold writePerThreadDataToLds. now rewrite read_write_region by discriminate. }
  rewrite <- H1, <- H2.
  unfold writeVertCullData, cullData. destruct (vertValidInWave t); [|reflexivity].
  destruct (enableCullDistanceCulling (nggControl cfg));
    now rewrite read_writePerThreadVec4 by discriminate.
Qed.

Lemma drawFlag_initialised (lds : gmap (PrimShaderLdsRegion * Z) Z) (w k : nat)
    (wave : list Thread) (tv : Thread) :
  waves !! w = Some wave -> wave !! k = Some tv -> vertValidInSubgroup tv = true ->
  readValueFromLds (ldsAtEndWriteVertCullData cfg waves lds) VertexCullInfo
    (threadIdInSubgroup (nggInputs tv) * calcEsGsRingItemSize cfg
     + off_drawFlag (vertCullInfoOffsets cfg))
  = 0.
Proof.
  intros Hw Hk Hv. destruct (thread_id w k wave tv Hw Hk) as [_ Htid].
  unfold ldsAtEndWriteVertCullData.
  rewrite (foldl_cell_flag _
             (fun t => (threadIdInSubgroup (nggInputs t) =? threadIdInSubgroup (nggInputs tv))
                       && vertValidInSubgroup t) _ _ 0).
  - replace (existsb _ (concat waves)) with true; [reflexivity|].
    symmetry. apply existsb_exists. exists tv. split; [exact (in_waves waves w k wave tv Hw Hk)|].
    now rewrite Z.eqb_refl, Hv.
  - intros t Hin l. destruct (in_concat_lookup waves t Hin) as (w' & k' & wave' & Hw' & Hk').
    apply (writeVertCullData_drawFlag w' k' wave' t _ l Hw' Hk'). lia.
Qed.

(** *** The draw flags at the barrier of [.endCulling] *)

(** The primitive of [tp] is valid and not culled. *)
Definition survives (lds : gmap (PrimShaderLdsRegion * Z) Z) (tp : Thread) : bool :=
  primValidInSubgroup tp
  && negb (primitiveCulledBy cfg primShaderTable (ldsAtEndWriteVertCullData cfg waves lds) tp).

Lemma culling_drawFlag (lds l : gmap (PrimShaderLdsRegion * Z) Z) (tp tv : Thread)
    (w k : nat) (wave : list Thread) :
  In tp (concat waves) -> waves !! w = Some wave -> wave !! k = Some tv ->
  let cell := threadIdInSubgroup (nggInputs tv) * calcEsGsRingItemSize cfg
              + off_drawFlag (vertCullInfoOffsets cfg) in
  readValueFromLds
    (unlessPassthrough cfg
       (culling cfg primShaderTable (ldsAtEndWriteVertCullData cfg waves lds)) l tp)
    VertexCullInfo cell
  = if survives lds tp && references tp tv then 1 else readValueFromLds l VertexCullInfo cell.
Proof.
  intros Hin Hw Hk cell. destruct (thread_id w k wave tv Hw Hk) as [_ Htid].
  destruct drawFlag_offset as [Hdf _].
  pose proof (wf_counts cfg V P waves Hwf) as [HV _].
  unfold unlessPassthrough. rewrite (thread_culling_path tp Hin).
  unfold culling, survives.
  destruct (primValidInSubgroup tp) eqn:Hpv; [|reflexivity].
  destruct (primitiveCulledBy cfg primShaderTable _ tp); [reflexivity|].
  cbn [negb andb].
  destruct (primitive_indices tp Hin Hpv) as (H0 & H1 & H2).
  unfold writeVertDrawFlag, writeVertexCullInfoToLds. cbv zeta. rewrite Hitem.
  rewrite !(itemCell cfg HnoGs Hculling Hxfb) by lia.
  unfold references. cbn [existsb]. rewrite orb_false_r.
  assert (Hcell : forall vi x m,
             0 <= vi < V ->
             readValueFromLds
               (writeValueToLds x VertexCullInfo
                  (vi * calcEsGsRingItemSize cfg + off_drawFlag (vertCullInfoOffsets cfg)) m)
               VertexCullInfo cell
             = if vi =? threadIdInSubgroup (nggInputs tv) then x
               else readValueFromLds m VertexCullInfo cell).
  { intros vi x m Hvi. destruct (Z.eqb_spec vi (threadIdInSubgroup (nggInputs tv))) as [->|Hne].
    - apply read_write_same.
    - apply read_write_other. intros [=E]. subst cell.
      apply (itemCell_inj cfg) in E; [|lia|lia]. lia. }
  rewrite !Hcell by assumption.
  destruct (vertexIndex0 (nggInputs tp) =? _), (vertexIndex1 (nggInputs tp) =? _),
    (vertexIndex2 (nggInputs tp) =? _); reflexivity.
Qed.

Lemma vertex_drawn_iff_referenced_aux (lds : gmap (PrimShaderLdsRegion * Z) Z) (w k : nat)
    (wave : list Thread) (tv : Thread) :
  waves !! w = Some wave -> wave !! k = Some tv ->
  drawFlagOf cfg (ldsAtEndCulling cfg primShaderTable waves lds) tv
  = (threadIdInSubgroup (nggInputs tv) <? V)
    && existsb (fun tp => survives lds tp && references tp tv) (concat waves).
Proof.
  intros Hw Hk. destruct (thread_id w k wave tv Hw Hk) as [_ Htid].
  destruct drawFlag_offset as [Hdf _].
  unfold drawFlagOf. rewrite (thread_vertValid w k wave tv Hw Hk).
  destruct (threadIdInSubgroup (nggInputs tv) <? V) eqn:Hv; [|reflexivity].
  cbn [andb]. unfold readVertexCullInfoFromLds.
  rewrite vertexItemOffset_eq, (itemCell cfg HnoGs Hculling Hxfb) by lia.
  unfold ldsAtEndCulling. cbv zeta.
  rewrite (foldl_cell_flag _ (fun tp => survives lds tp && references tp tv) _ _ 1).
  - rewrite (drawFlag_initialised lds w k wave tv Hw Hk)
      by now rewrite (thread_vertValid w k wave tv Hw Hk).
    now destruct (existsb _ (concat waves)).
  - intros tp Hin l. exact (culling_drawFlag lds l tp tv w k wave Hin Hw Hk).
Qed.


(** A vertex is drawn iff a primitive that is valid and not culled names
    it: at the barrier of [.endCulling] the draw flag of a vertex of the
    subgroup is set iff some invocation holds such a primitive with the
    vertex among its three vertex indices. *)
Theorem vertex_drawn_iff_referenced (lds : gmap (PrimShaderLdsRegion * Z) Z) (w k : nat)
    (wave : list Thread) (tv : Thread) :
  waves !! w = Some wave -> wave !! k = Some tv ->
  drawFlagOf cfg (ldsAtEndCulling cfg primShaderTable waves lds) tv = true
  <-> threadIdInSubgroup (nggInputs tv) < V
      /\ exists tp,
           In tp (concat waves)
           /\ primValidInSubgroup tp = true
           /\ primitiveCulledBy cfg primShaderTable (ldsAtEndWriteVertCullData cfg waves lds) tp
              = false
           /\ In (threadIdInSubgroup (nggInputs tv))
                 [vertexIndex0 (nggInputs tp); vertexIndex1 (nggInputs tp);
                  vertexIndex2 (nggInputs tp)].
Proof.
  intros Hw Hk. rewrite (vertex_drawn_iff_referenced_aux lds w k wave tv Hw Hk).
  rewrite andb_true_iff, Z.ltb_lt, existsb_exists.
  split; intros [Hv (tp & Hin & Hs)]; (split; [exact Hv|]); exists tp; (split; [exact Hin|]).
  - apply andb_true_iff in Hs as [Hs Hr]. unfold survives in Hs.
    apply andb_true_iff in Hs as [Hpv Hc]. apply negb_true_iff in Hc.
    split; [exact Hpv|]. split; [exact Hc|].
    unfold references in Hr. apply existsb_exists in Hr as (v & Hv' & He).
    apply Z.eqb_eq in He. now rewrite <- He.
  - destruct Hs as (Hpv & Hc & Hr). unfold survives, references.
    rewrite Hpv, Hc. cbn [negb andb]. apply existsb_exists.
    exists (threadIdInSubgroup (nggInputs tv)). split; [exact Hr | apply Z.eqb_refl].
Qed.

(** *** The memory at the barrier of [.endAllocReq] *)

Lemma foldl2_cell_flag
    (step : list Thread -> gmap (PrimShaderLdsRegion * Z) Z -> Thread
            -> gmap (PrimShaderLdsRegion * Z) Z)
    (f : list Thread -> Thread -> bool) (r : PrimShaderLdsRegion) (o x : Z)
    (ws : list (list Thread)) :
  (forall wave t, In wave ws -> In t wave -> forall l,
     readValueFromLds (step wave l t) r o = if f wave t then x else readValueFromLds l r o) ->
  forall l,
    readValueFromLds (foldl (fun l wave => foldl (step wave) l wave) l ws) r o
    = if existsb (fun wave => existsb (f wave) wave) ws then x else readValueFromLds l r o.
Proof.
  intros H l.
  apply (foldl_cell_flag (fun l wave => foldl (step wave) l wave)
           (fun wave => existsb (f wave) wave)).
  intros wave Hwave l'. apply foldl_cell_flag. intros t Ht l''. now apply H.
Qed.

Lemma accumVertCount_other_region (lds : gmap (PrimShaderLdsRegion * Z) Z)
    (r : PrimShaderLdsRegion) (o : Z) :
  r <> VertexCounts ->
  readValueFromLds (ldsAtEndAccumVertCount cfg primShaderTable waves lds) r o
  = readValueFromLds (ldsAtEndCulling cfg primShaderTable waves lds) r o.
Proof.
  intros Hr. unfold ldsAtEndAccumVertCount. cbv zeta.
  apply (foldl_cell_keep (fun l wave => foldl _ l wave)).
  intros wave _ l. apply foldl_cell_keep. intros t _ l'.
  unfold unlessPassthrough, accumVertCount.
  destruct (runtimePassthrough cfg t); [reflexivity|].
  destruct (accumThreadValid cfg t); [|reflexivity].
  apply read_atomicAdd_other. congruence.
Qed.

Lemma concat_uniform (n : nat) (ws : list (list Thread)) :
  (forall wave, In wave ws -> length wave = n) ->
  forall (w k : nat) (wave : list Thread) (t : Thread),
    ws !! w = Some wave -> wave !! k = Some t ->
    concat ws !! (w * n + k)%nat = Some t
    /\ firstn (w * n + k) (concat ws) = concat (firstn w ws) ++ firstn k wave.
Proof.
  induction ws as [|u ws IH]; intros Hlen w k wave t Hw Hk; [discriminate|].
  destruct w as [|w]; cbn in Hw.
  - injection Hw as ->. cbn [concat firstn Nat.mul Nat.add app].
    pose proof (lookup_lt_Some _ _ _ Hk) as Hlt.
    split.
    + now rewrite lookup_app_l.
    + rewrite firstn_app. replace (k - length wave)%nat with 0%nat by lia.
      now rewrite firstn_O, app_nil_r.
  - destruct (IH (fun x Hx => Hlen x (or_intror Hx)) w k wave t Hw Hk) as [I1 I2].
    pose proof (Hlen u (or_introl eq_refl)) as Hu.
    cbn [concat firstn]. replace (S w * n + k)%nat with (length u + (w * n + k))%nat by lia.
    split.
    + now rewrite lookup_app_r, Nat.add_comm, Nat.add_sub by lia.
    + rewrite firstn_app, firstn_all2 by lia.
      replace (length u + (w * n + k) - length u)%nat with (w * n + k)%nat by lia.
      now rewrite I2, app_assoc.
Qed.

Lemma thread_position (w k : nat) (wave : list Thread) (t : Thread) :
  waves !! w = Some wave -> wave !! k = Some t ->
  concat waves !! Z.to_nat (threadIdInSubgroup (nggInputs t)) = Some t
  /\ firstn (Z.to_nat (threadIdInSubgroup (nggInputs t))) (concat waves)
     = concat (firstn w waves) ++ firstn k wave.
Proof.
  intros Hw Hk. destruct (thread_id w k wave t Hw Hk) as [Htid _].
  assert (Hws : 0 < waveSize cfg) by (destruct (wf_waveSize cfg V P waves Hwf); lia).
  replace (Z.to_nat (threadIdInSubgroup (nggInputs t)))
    with (w * Z.to_nat (waveSize cfg) + k)%nat by (rewrite Htid; nia).
  apply concat_uniform; [|exact Hw|exact Hk].
  intros u Hu. apply list_elem_of_In, list_elem_of_lookup_1 in Hu as [i Hi].
  pose proof (wf_wave_length cfg V P waves Hwf i u Hi). lia.
Qed.

Hypothesis Hcompact : compactVertex (pipelineState cfg) = true.

(** The draw flags of the invocations, in the order of their thread ids. *)
Definition drawFlags (lds : gmap (PrimShaderLdsRegion * Z) Z) : list bool :=
  map (drawFlagOf cfg (ldsAtEndCulling cfg primShaderTable waves lds)) (concat waves).

Lemma drawnInSubgroup_flags (lds : gmap (PrimShaderLdsRegion * Z) Z) :
  drawnInSubgroup cfg primShaderTable waves lds = countTrue (drawFlags lds).
Proof. reflexivity. Qed.

Lemma drawFlags_lookup (lds : gmap (PrimShaderLdsRegion * Z) Z) (w k : nat)
    (wave : list Thread) (t : Thread) :
  waves !! w = Some wave -> wave !! k = Some t ->
  drawFlags lds !! Z.to_nat (threadIdInSubgroup (nggInputs t))
  = Some (drawFlagOf cfg (ldsAtEndCulling cfg primShaderTable waves lds) t).
Proof.
  intros Hw Hk. unfold drawFlags. rewrite list_lookup_fmap.
  destruct (thread_position w k wave t Hw Hk) as [-> _]. reflexivity.
Qed.

(** The compacted index of an invocation is the rank of its vertex among
    the drawn ones. *)
Lemma compactedVertexIndexOf_flags (lds : gmap (PrimShaderLdsRegion * Z) Z) (w k : nat)
    (wave : list Thread) (t : Thread) :
  waves !! w = Some wave -> wave !! k = Some t ->
  compactedVertexIndexOf cfg (ldsAtEndCulling cfg primShaderTable waves lds)
    (ldsAtEndAccumVertCount cfg primShaderTable waves lds) wave t
  = countTrue (firstn (Z.to_nat (threadIdInSubgroup (nggInputs t))) (drawFlags lds)).
Proof.
  intros Hw Hk.
  pose proof (compactedVertexIndexOf_rank cfg primShaderTable V P waves Hwf Hrp lds w k wave t
                Hw Hk) as Hr.
  cbv zeta in Hr. rewrite Hr. unfold drawFlags, drawnBefore.
  rewrite !firstn_map. destruct (thread_position w k wave t Hw Hk) as [_ ->].
  now rewrite map_app, countTrue_app.
Qed.

Lemma compactVertTaken_drawn (lds : gmap (PrimShaderLdsRegion * Z) Z) (w k : nat)
    (wave : list Thread) (t : Thread) :
  drawnInSubgroup cfg primShaderTable waves lds < V ->
  waves !! w = Some wave -> wave !! k = Some t ->
  compactVertTaken cfg (ldsAtEndCulling cfg primShaderTable waves lds)
    (ldsAtEndAccumVertCount cfg primShaderTable waves lds) wave t
  = drawFlagOf cfg (ldsAtEndCulling cfg primShaderTable waves lds) t.
Proof.
  intros HD Hw Hk. unfold compactVertTaken. rewrite Hcompact.
  rewrite (hasCulledVertices_drawn cfg primShaderTable V P waves Hwf Hrp lds w k wave t Hw Hk).
  apply Z.ltb_lt in HD. rewrite HD. cbn [andb]. apply andb_true_r.
Qed.

(** *** What [.compactVert] writes *)

(** The members of the item of its vertex that [.compactVert] writes for
    the invocation [t], with their values, in the order of the writes. *)
Definition compactVertWrites (compactedVertexIndex : Z) (t : Thread) : list (Z * Z) :=
  let off := vertCullInfoOffsets cfg in
  let usage := builtInUsage cfg in
  (off_compactedVertexIndex off, compactedVertexIndex)
  :: (if hasTes (pipelineState cfg)
      then (if tessCoord usage
            then [(off_tessCoordX off, vgprArg (laneInput t) 5);
                  (off_tessCoordY off, vgprArg (laneInput t) 6)]
            else [])
           ++ [(off_relPatchId off, vgprArg (laneInput t) 7)]
           ++ (if tesPrimitiveId usage then [(off_patchId off, vgprArg (laneInput t) 8)]
               else [])
      else (if vertexIndex usage then [(off_vertexId off, vgprArg (laneInput t) 5)] else [])
           ++ (if instanceIndex usage then [(off_instanceId off, vgprArg (laneInput t) 8)]
               else [])
           ++ (if vsPrimitiveId (pipelineState cfg)
               then [(off_primitiveId off, distributedPrimitiveId t)] else [])).

Lemma compactVert_writes (ldsB ldsC l : gmap (PrimShaderLdsRegion * Z) Z)
    (wave : list Thread) (t : Thread) :
  compactVert cfg ldsB ldsC wave t l
  = foldl (fun l e => writeVertexCullInfoToLds (snd e) (vertexItemOffset cfg t) (fst e) l)
      (writePerThreadDataToLds (threadIdInSubgroup (nggInputs t))
         (compactedVertexIndexOf cfg ldsB ldsC wave t) VertexIndexMap 0 l)
      (compactVertWrites (compactedVertexIndexOf cfg ldsB ldsC wave t) t).
Proof.
  unfold compactVert, compactVertWrites. cbv zeta.
  destruct (hasTes (pipelineState cfg)), (tessCoord (builtInUsage cfg)),
    (tesPrimitiveId (builtInUsage cfg)), (vertexIndex (builtInUsage cfg)),
    (instanceIndex (builtInUsage cfg)), (vsPrimitiveId (pipelineState cfg)); reflexivity.
Qed.

Lemma compactVertWrites_offsets (idx : Z) (t : Thread) :
  Forall (fun e : Z * Z => 0 <= fst e < calcEsGsRingItemSize cfg) (compactVertWrites idx t)
  /\ List.NoDup (map fst (compactVertWrites idx t)).
Proof.
  pose proof (itemSize_bounds cfg HnoGs Hculling Hxfb) as [Hs _].
  revert Hs. unfold compactVertWrites, vertCullInfoOffsets, calcVertexCullInfoSizeAndOffsets.
  rewrite HnoGs, Hculling, Hcompact. cbn [orb].
  generalize (calcEsGsRingItemSize cfg). intros S.
  destruct (enableSwXfb (pipelineState cfg)), (enableCullDistanceCulling (nggControl cfg)),
    (hasTes (pipelineState cfg)), (tessCoord (builtInUsage cfg)),
    (tesPrimitiveId (builtInUsage cfg)), (vertexIndex (builtInUsage cfg)),
    (instanceIndex (builtInUsage cfg)), (vsPrimitiveId (pipelineState cfg));
    cbn -[Z.add Z.mul]; intros Hs;
    (split; [repeat (constructor; [cbn [fst]; lia|]); constructor
            |repeat (constructor; [cbn [In]; intuition lia|]); constructor]).
Qed.

Lemma find_NoDup_In (ws : list (Z * Z)) (o x : Z) :
  List.NoDup (map fst ws) -> In (o, x) ws ->
  List.find (fun e : Z * Z => fst e =? o) ws = Some (o, x).
Proof.
  induction ws as [|e ws IH]; intros Hnd Hin; [destruct Hin|].
  cbn [map] in Hnd. inversion Hnd as [|? ? Hne Hnd']; subst.
  cbn [List.find]. destruct Hin as [->|Hin].
  - cbn [fst]. now rewrite Z.eqb_refl.
  - destruct (Z.eqb_spec (fst e) o) as [E|E]; [|now apply IH].
    exfalso. apply Hne. rewrite E. change o with (fst (o, x)). now apply in_map.
Qed.

Lemma item_writes_read (ws : list (Z * Z)) (tid v o : Z) :
  0 <= tid < 512 -> 0 <= v < 512 -> 0 <= o < calcEsGsRingItemSize cfg ->
  Forall (fun e : Z * Z => 0 <= fst e < calcEsGsRingItemSize cfg) ws ->
  List.NoDup (map fst ws) ->
  forall l0,
    readValueFromLds
      (foldl (fun l e =>
                writeVertexCullInfoToLds (snd e) (CreateMul tid (calcEsGsRingItemSize cfg))
                  (fst e) l) l0 ws)
      VertexCullInfo (v * calcEsGsRingItemSize cfg + o)
    = if tid =? v
      then match List.find (fun e : Z * Z => fst e =? o) ws with
           | Some e => snd e
           | None => readValueFromLds l0 VertexCullInfo (v * calcEsGsRingItemSize cfg + o)
           end
      else readValueFromLds l0 VertexCullInfo (v * calcEsGsRingItemSize cfg + o).
Proof.
  intros Htid Hv Ho. induction ws as [|e ws IH]; intros Hall Hnd l0; cbn [foldl List.find].
  - now destruct (tid =? v).
  - inversion Hall as [|? ? He Hall']; subst. cbn [map] in Hnd.
    inversion Hnd as [|? ? Hne Hnd']; subst.
    rewrite (IH Hall' Hnd'). unfold writeVertexCullInfoToLds.
    rewrite (itemCell cfg HnoGs Hculling Hxfb) by lia.
    destruct (Z.eqb_spec tid v) as [->|Hn].
    + destruct (Z.eqb_spec (fst e) o) as [E|E].
      * replace (List.find (fun e0 : Z * Z => fst e0 =? o) ws) with (@None (Z * Z)).
        -- rewrite E. apply read_write_same.
        -- symmetry. apply find_none_iff || idtac.
           destruct (List.find (fun e0 : Z * Z => fst e0 =? o) ws) as [e'|] eqn:Hf;
             [|reflexivity].
           apply find_some in Hf as [Hin He']. apply Z.eqb_eq in He'.
           exfalso. apply Hne. rewrite E, <- He'. now apply in_map.
      * destruct (List.find (fun e0 : Z * Z => fst e0 =? o) ws); [reflexivity|].
        apply read_write_other. intros [=E']. apply (itemCell_inj cfg) in E'; [|lia|lia]. lia.
    + apply read_write_other. intros [=E']. apply (itemCell_inj cfg) in E'; [|lia|lia]. lia.
Qed.

Lemma item_writes_other_region (ws : list (Z * Z)) (off : Z) (r : PrimShaderLdsRegion) (c : Z) :
  r <> VertexCullInfo ->
  forall l0,
    readValueFromLds
      (foldl (fun l e => writeVertexCullInfoToLds (snd e) off (fst e) l) l0 ws) r c
    = readValueFromLds l0 r c.
Proof.
  intros Hr. induction ws as [|e ws IH]; intros l0; cbn [foldl]; [reflexivity|].
  rewrite IH. now apply read_writeVertexCullInfo.
Qed.

(** One invocation's [.compactVert] seen from a member of an item and from
    a cell of the vertex index map. *)
Lemma compactVert_cullInfo (lds l : gmap (PrimShaderLdsRegion * Z) Z) (w k : nat)
    (wave : list Thread) (t : Thread) (v o : Z) :
  drawnInSubgroup cfg primShaderTable waves lds < V ->
  waves !! w = Some wave -> wave !! k = Some t ->
  0 <= v < 512 -> 0 <= o < calcEsGsRingItemSize cfg ->
  let ldsB := ldsAtEndCulling cfg primShaderTable waves lds in
  let ldsC := ldsAtEndAccumVertCount cfg primShaderTable waves lds in
  let cell := v * calcEsGsRingItemSize cfg + o in
  readValueFromLds
    (unlessPassthrough cfg
       (fun t l => if compactVertTaken cfg ldsB ldsC wave t
                   then compactVert cfg ldsB ldsC wave t l else l) l t)
    VertexCullInfo cell
  = if drawFlagOf cfg ldsB t && (threadIdInSubgroup (nggInputs t) =? v)
    then match List.find (fun e : Z * Z => fst e =? o)
                 (compactVertWrites (compactedVertexIndexOf cfg ldsB ldsC wave t) t) with
         | Some e => snd e
         | None => readValueFromLds l VertexCullInfo cell
         end
    else readValueFromLds l VertexCullInfo cell.
Proof.
  intros HD Hw Hk Hv Ho ldsB ldsC cell.
  destruct (thread_id w k wave t Hw Hk) as [_ Htid].
  unfold unlessPassthrough.
  rewrite (thread_culling_path t (in_waves waves w k wave t Hw Hk)).
  unfold ldsB, ldsC. rewrite (compactVertTaken_drawn lds w k wave t HD Hw Hk).
  fold ldsB ldsC. destruct (drawFlagOf cfg ldsB t); [|reflexivity]. cbn [andb].
  rewrite compactVert_writes, vertexItemOffset_eq.
  destruct (compactVertWrites_offsets (compactedVertexIndexOf cfg ldsB ldsC wave t) t)
    as [Hall Hnd].
  rewrite (item_writes_read _ _ v o) by (assumption || lia).
  unfold writePerThreadDataToLds. rewrite read_write_region by discriminate. reflexivity.
Qed.

Lemma compactedVertexIndexOf_bounds (lds : gmap (PrimShaderLdsRegion * Z) Z) (w k : nat)
    (wave : list Thread) (t : Thread) :
  waves !! w = Some wave -> wave !! k = Some t ->
  0 <= compactedVertexIndexOf cfg (ldsAtEndCulling cfg primShaderTable waves lds)
         (ldsAtEndAccumVertCount cfg primShaderTable waves lds) wave t <= 256.
Proof.
  intros Hw Hk. rewrite (compactedVertexIndexOf_flags lds w k wave t Hw Hk).
  pose proof (countTrue_bounds
                (firstn (Z.to_nat (threadIdInSubgroup (nggInputs t))) (drawFlags lds))) as Hb.
  rewrite length_firstn in Hb. destruct (thread_id w k wave t Hw Hk) as [_ Htid]. lia.
Qed.

Lemma compactVert_indexMap (lds l : gmap (PrimShaderLdsRegion * Z) Z) (w k : nat)
    (wave : list Thread) (t : Thread) (c : Z) :
  drawnInSubgroup cfg primShaderTable waves lds < V ->
  waves !! w = Some wave -> wave !! k = Some t ->
  let ldsB := ldsAtEndCulling cfg primShaderTable waves lds in
  let ldsC := ldsAtEndAccumVertCount cfg primShaderTable waves lds in
  readValueFromLds
    (unlessPassthrough cfg
       (fun t l => if compactVertTaken cfg ldsB ldsC wave t
                   then compactVert cfg ldsB ldsC wave t l else l) l t)
    VertexIndexMap c
  = if drawFlagOf cfg ldsB t && (compactedVertexIndexOf cfg ldsB ldsC wave t =? c)
    then threadIdInSubgroup (nggInputs t)
    else readValueFromLds l VertexIndexMap c.
Proof.
  intros HD Hw Hk ldsB ldsC.
  unfold unlessPassthrough.
  rewrite (thread_culling_path t (in_waves waves w k wave t Hw Hk)).
  unfold ldsB, ldsC. rewrite (compactVertTaken_drawn lds w k wave t HD Hw Hk).
  fold ldsB ldsC. destruct (drawFlagOf cfg ldsB t); [|reflexivity]. cbn [andb].
  rewrite compactVert_writes, item_writes_other_region by discriminate.
  unfold writePerThreadDataToLds. rewrite perThreadLdsOffset_dword.
  pose proof (compactedVertexIndexOf_bounds lds w k wave t Hw Hk) as Hb.
  fold ldsB ldsC in Hb. rewrite wrap32_small by lia.
  destruct (Z.eqb_spec (compactedVertexIndexOf cfg ldsB ldsC wave t) c) as [->|Hn].
  - apply read_write_same.
  - apply read_write_other. congruence.
Qed.

Lemma in_waves_lookup (wave : list Thread) (t : Thread) :
  In wave waves -> In t wave ->
  exists w k, waves !! w = Some wave /\ wave !! k = Some t.
Proof.
  intros Hwave Ht.
  apply list_elem_of_In, list_elem_of_lookup_1 in Hwave as [w Hw].
  apply list_elem_of_In, list_elem_of_lookup_1 in Ht as [k Hk]. eauto.
Qed.

Lemma existsb_waves (f : list Thread -> Thread -> bool) (w k : nat) (wave : list Thread)
    (t : Thread) :
  waves !! w = Some wave -> wave !! k = Some t -> f wave t = true ->
  existsb (fun wave => existsb (f wave) wave) waves = true.
Proof.
  intros Hw Hk Hf. apply existsb_exists. exists wave. split.
  - eapply list_elem_of_In, list_elem_of_lookup_2. exact Hw.
  - apply existsb_exists. exists t. split; [|exact Hf].
    eapply list_elem_of_In, list_elem_of_lookup_2. exact Hk.
Qed.

(** Two drawn invocations with the same compacted index are the same. *)
Lemma compactedVertexIndexOf_inj (lds : gmap (PrimShaderLdsRegion * Z) Z) (w k w' k' : nat)
    (wave wave' : list Thread) (t t' : Thread) :
  waves !! w = Some wave -> wave !! k = Some t ->
  waves !! w' = Some wave' -> wave' !! k' = Some t' ->
  let ldsB := ldsAtEndCulling cfg primShaderTable waves lds in
  let ldsC := ldsAtEndAccumVertCount cfg primShaderTable waves lds in
  drawFlagOf cfg ldsB t = true -> drawFlagOf cfg ldsB t' = true ->
  compactedVertexIndexOf cfg ldsB ldsC wave t = compactedVertexIndexOf cfg ldsB ldsC wave' t' ->
  w = w' /\ k = k'.
Proof.
  intros Hw Hk Hw' Hk' ldsB ldsC Hd Hd' He. unfold ldsB, ldsC in He.
  rewrite (compactedVertexIndexOf_flags lds w k wave t Hw Hk) in He.
  rewrite (compactedVertexIndexOf_flags lds w' k' wave' t' Hw' Hk') in He.
  pose proof (drawFlags_lookup lds w k wave t Hw Hk) as Hl. fold ldsB in Hl. rewrite Hd in Hl.
  pose proof (drawFlags_lookup lds w' k' wave' t' Hw' Hk') as Hl'. fold ldsB in Hl'.
  rewrite Hd' in Hl'.
  pose proof (countTrue_rank_inj _ _ _ Hl Hl' He) as Hp.
  destruct (thread_id w k wave t Hw Hk) as [_ Hb].
  destruct (thread_id w' k' wave' t' Hw' Hk') as [_ Hb'].
  apply (thread_id_inj w k w' k' wave wave' t t' Hw Hk Hw' Hk'). lia.
Qed.

(** At the barrier of [.endAllocReq] the vertex index map holds, at the
    compacted index of a drawn vertex, the thread id of that vertex ... *)
Lemma indexMap_at_endAllocReq (lds : gmap (PrimShaderLdsRegion * Z) Z) (w k : nat)
    (wave : list Thread) (tv : Thread) :
  drawnInSubgroup cfg primShaderTable waves lds < V ->
  waves !! w = Some wave -> wave !! k = Some tv ->
  let ldsB := ldsAtEndCulling cfg primShaderTable waves lds in
  let ldsC := ldsAtEndAccumVertCount cfg primShaderTable waves lds in
  drawFlagOf cfg ldsB tv = true ->
  readValueFromLds (ldsAtEndAllocReq cfg primShaderTable waves lds) VertexIndexMap
    (compactedVertexIndexOf cfg ldsB ldsC wave tv)
  = threadIdInSubgroup (nggInputs tv).
Proof.
  intros HD Hw Hk ldsB ldsC Hd. unfold ldsAtEndAllocReq. cbv zeta. fold ldsB ldsC.
  rewrite (foldl2_cell_flag _
             (fun wave' t => drawFlagOf cfg ldsB t
                             && (compactedVertexIndexOf cfg ldsB ldsC wave' t
                                 =? compactedVertexIndexOf cfg ldsB ldsC wave tv))
             _ _ (threadIdInSubgroup (nggInputs tv))).
  - rewrite (existsb_waves _ w k wave tv Hw Hk); [reflexivity|].
    now rewrite Hd, Z.eqb_refl.
  - intros wave' t Hwave' Ht l.
    destruct (in_waves_lookup wave' t Hwave' Ht) as (w' & k' & Hw' & Hk').
    pose proof (compactVert_indexMap lds l w' k' wave' t
                  (compactedVertexIndexOf cfg ldsB ldsC wave tv) HD Hw' Hk') as Hs.
    cbv zeta in Hs. fold ldsB ldsC in Hs. rewrite Hs.
    destruct (drawFlagOf cfg ldsB t) eqn:Hdt; [|reflexivity]. cbn [andb].
    destruct (Z.eqb_spec (compactedVertexIndexOf cfg ldsB ldsC wave' t)
                         (compactedVertexIndexOf cfg ldsB ldsC wave tv)) as [E|E];
      [|reflexivity].
    destruct (compactedVertexIndexOf_inj lds w' k' w k wave' wave t tv Hw' Hk' Hw Hk Hdt Hd E)
      as [-> ->].
    rewrite Hw in Hw'. injection Hw' as <-. rewrite Hk in Hk'. now injection Hk' as <-.
Qed.

(** ... and the item of a drawn vertex holds what [.compactVert] wrote for
    it. *)
Lemma cullInfo_at_endAllocReq (lds : gmap (PrimShaderLdsRegion * Z) Z) (w k : nat)
    (wave : list Thread) (tv : Thread) (o x : Z) :
  drawnInSubgroup cfg primShaderTable waves lds < V ->
  waves !! w = Some wave -> wave !! k = Some tv ->
  let ldsB := ldsAtEndCulling cfg primShaderTable waves lds in
  let ldsC := ldsAtEndAccumVertCount cfg primShaderTable waves lds in
  drawFlagOf cfg ldsB tv = true ->
  In (o, x) (compactVertWrites (compactedVertexIndexOf cfg ldsB ldsC wave tv) tv) ->
  readValueFromLds (ldsAtEndAllocReq cfg primShaderTable waves lds) VertexCullInfo
    (threadIdInSubgroup (nggInputs tv) * calcEsGsRingItemSize cfg + o)
  = x.
Proof.
  intros HD Hw Hk ldsB ldsC Hd Hin. unfold ldsAtEndAllocReq. cbv zeta. fold ldsB ldsC.
  destruct (thread_id w k wave tv Hw Hk) as [_ Htid].
  destruct (compactVertWrites_offsets (compactedVertexIndexOf cfg ldsB ldsC wave tv) tv)
    as [Hall Hnd].
  assert (Ho : 0 <= o < calcEsGsRingItemSize cfg).
  { rewrite Forall_forall in Hall. apply list_elem_of_In in Hin. exact (Hall _ Hin). }
  rewrite (foldl2_cell_flag _
             (fun (wave' : list Thread) t =>
                drawFlagOf cfg ldsB t
                && (threadIdInSubgroup (nggInputs t) =? threadIdInSubgroup (nggInputs tv)))
             _ _ x).
  - rewrite (existsb_waves _ w k wave tv Hw Hk); [reflexivity|].
    now rewrite Hd, Z.eqb_refl.
  - intros wave' t Hwave' Ht l.
    destruct (in_waves_lookup wave' t Hwave' Ht) as (w' & k' & Hw' & Hk').
    pose proof (compactVert_cullInfo lds l w' k' wave' t
                  (threadIdInSubgroup (nggInputs tv)) o HD Hw' Hk') as Hs.
    cbv zeta in Hs. fold ldsB ldsC in Hs. rewrite Hs by lia.
    destruct (drawFlagOf cfg ldsB t) eqn:Hdt; [|reflexivity]. cbn [andb].
    destruct (Z.eqb_spec (threadIdInSubgroup (nggInputs t))
                         (threadIdInSubgroup (nggInputs tv))) as [E|E]; [|reflexivity].
    destruct (thread_id_inj w' k' w k wave' wave t tv Hw' Hk' Hw Hk E) as [-> ->].
    rewrite Hw in Hw'. injection Hw' as <-. rewrite Hk in Hk'. injection Hk' as <-.
    now rewrite (find_NoDup_In _ o x Hnd Hin).
Qed.

Lemma concat_uniform_inv (n : nat) (ws : list (list Thread)) (p : nat) :
  (forall wave, In wave ws -> length wave = n) ->
  (p < length (concat ws))%nat ->
  exists (w k : nat) (wave : list Thread) (t : Thread),
    ws !! w = Some wave /\ wave !! k = Some t /\ p = (w * n + k)%nat.
Proof.
  revert p. induction ws as [|u ws IH]; intros p Hlen Hp; [cbn in Hp; lia|].
  cbn [concat] in Hp. rewrite length_app in Hp.
  pose proof (Hlen u (or_introl eq_refl)) as Hu.
  destruct (Nat.lt_ge_cases p (length u)) as [Hlt|Hge].
  - destruct (lookup_lt_is_Some_2 u p Hlt) as [t Ht].
    exists 0%nat, p, u, t. auto.
  - destruct (IH (p - n)%nat (fun x Hx => Hlen x (or_intror Hx)) ltac:(lia))
      as (w & k & wave & t & Hw & Hk & He).
    exists (S w), k, wave, t. split; [exact Hw|]. split; [exact Hk|]. lia.
Qed.

(** Every vertex of the subgroup has its invocation. *)
Lemma thread_at (v : Z) :
  0 <= v < Z.of_nat (length (concat waves)) ->
  exists (w k : nat) (wave : list Thread) (t : Thread),
    waves !! w = Some wave /\ wave !! k = Some t /\ threadIdInSubgroup (nggInputs t) = v.
Proof.
  intros Hv.
  assert (Hws : 0 < waveSize cfg) by (destruct (wf_waveSize cfg V P waves Hwf); lia).
  destruct (concat_uniform_inv (Z.to_nat (waveSize cfg)) waves (Z.to_nat v))
    as (w & k & wave & t & Hw & Hk & He).
  - intros u Hu. apply list_elem_of_In, list_elem_of_lookup_1 in Hu as [i Hi].
    pose proof (wf_wave_length cfg V P waves Hwf i u Hi). lia.
  - lia.
  - exists w, k, wave, t. split; [exact Hw|]. split; [exact Hk|].
    destruct (thread_id w k wave t Hw Hk) as [-> _]. nia.
Qed.

(** The compacted index of a vertex that a surviving primitive names. *)
Lemma referenced_vertex_compacted (lds : gmap (PrimShaderLdsRegion * Z) Z) (tp : Thread)
    (v : Z) :
  drawnInSubgroup cfg primShaderTable waves lds < V ->
  V <= Z.of_nat (length (concat waves)) ->
  In tp (concat waves) -> survives lds tp = true ->
  In v [vertexIndex0 (nggInputs tp); vertexIndex1 (nggInputs tp); vertexIndex2 (nggInputs tp)] ->
  let ldsD := ldsAtEndAllocReq cfg primShaderTable waves lds in
  let c := readVertexCullInfoFromLds ldsD (CreateMul v (esGsRingItemSizeOf cfg))
             (off_compactedVertexIndex (vertCullInfoOffsets cfg)) in
  0 <= c < drawnInSubgroup cfg primShaderTable waves lds
  /\ readPerThreadDataFromLds ldsD c VertexIndexMap 0 = v.
Proof.
  intros HD Hthreads Hin Hs Hv ldsD c.
  assert (Hpv : primValidInSubgroup tp = true).
  { unfold survives in Hs. now apply andb_true_iff in Hs as [Hs _]. }
  destruct (primitive_indices tp Hin Hpv) as (H0 & H1 & H2).
  assert (Hvr : 0 <= v < V) by (destruct Hv as [<-|[<-|[<-|[]]]]; assumption).
  destruct (thread_at v ltac:(lia)) as (w & k & wave & tv & Hw & Hk & Htid).
  pose proof (wf_counts cfg V P waves Hwf) as [HV _].
  set (ldsB := ldsAtEndCulling cfg primShaderTable waves lds).
  set (ldsC := ldsAtEndAccumVertCount cfg primShaderTable waves lds).
  assert (Hd : drawFlagOf cfg ldsB tv = true).
  { unfold ldsB. rewrite (vertex_drawn_iff_referenced_aux lds w k wave tv Hw Hk).
    apply andb_true_iff. split; [apply Z.ltb_lt; lia|].
    apply existsb_exists. exists tp. split; [exact Hin|]. rewrite Hs. cbn [andb].
    unfold references. rewrite Htid. apply existsb_exists. exists v.
    split; [exact Hv | apply Z.eqb_refl]. }
  assert (Hc : c = compactedVertexIndexOf cfg ldsB ldsC wave tv).
  { subst c. unfold readVertexCullInfoFromLds. rewrite Hitem.
    assert (Hoff : In (off_compactedVertexIndex (vertCullInfoOffsets cfg),
                       compactedVertexIndexOf cfg ldsB ldsC wave tv)
                      (compactVertWrites (compactedVertexIndexOf cfg ldsB ldsC wave tv) tv))
      by now left.
    destruct (compactVertWrites_offsets (compactedVertexIndexOf cfg ldsB ldsC wave tv) tv)
      as [Hall _].
    rewrite Forall_forall in Hall. pose proof (Hall _ (proj2 (list_elem_of_In _ _) Hoff)) as Ho.
    cbn [fst] in Ho.
    rewrite (itemCell cfg HnoGs Hculling Hxfb) by lia. rewrite <- Htid.
    exact (cullInfo_at_endAllocReq lds w k wave tv _ _ HD Hw Hk Hd Hoff). }
  rewrite Hc. split.
  - unfold ldsB, ldsC. rewrite (compactedVertexIndexOf_flags lds w k wave tv Hw Hk).
    rewrite drawnInSubgroup_flags.
    pose proof (drawFlags_lookup lds w k wave tv Hw Hk) as Hl. fold ldsB in Hl.
    rewrite Hd in Hl. split.
    + apply countTrue_bounds.
    + now apply countTrue_rank_bound.
  - unfold readPerThreadDataFromLds. rewrite perThreadLdsOffset_dword.
    pose proof (compactedVertexIndexOf_bounds lds w k wave tv Hw Hk) as Hb.
    fold ldsB ldsC in Hb. rewrite wrap32_small by lia.
    rewrite <- Htid. exact (indexMap_at_endAllocReq lds w k wave tv HD Hw Hk Hd).
Qed.

(** Compaction keeps every primitive on its vertices.  With vertex
    compaction, fewer vertices drawn than the subgroup has and an invocation
    for every vertex, the invocation that holds a valid primitive that is not
    culled exports the connectivity word [(c2 << 20) | (c1 << 10) | c0]
    where each [ci] is a compacted index below the number of drawn vertices
    and the vertex index map, which the deferred vertex export of invocation
    [ci] reads, holds at [ci] the original index of vertex [i] of the
    primitive. *)
Theorem compaction_keeps_primitive_vertices (lds : gmap (PrimShaderLdsRegion * Z) Z)
    (w k : nat) (wave : list Thread) (tp : Thread) :
  drawnInSubgroup cfg primShaderTable waves lds < V ->
  V <= Z.of_nat (length (concat waves)) ->
  waves !! w = Some wave -> wave !! k = Some tp ->
  primValidInSubgroup tp = true ->
  primitiveCulledBy cfg primShaderTable (ldsAtEndWriteVertCullData cfg waves lds) tp = false ->
  let ldsD := ldsAtEndAllocReq cfg primShaderTable waves lds in
  let D := drawnInSubgroup cfg primShaderTable waves lds in
  exists c0 c1 c2,
    In (amdgcn_exp EXP_TARGET_PRIM 1
          (Some (Z.lor (Z.lor (Z.shiftl c2 20) (Z.shiftl c1 10)) c0)) true)
       (exports (threadResult cfg primShaderTable waves lds wave tp))
    /\ (0 <= c0 < D /\ 0 <= c1 < D /\ 0 <= c2 < D)
    /\ readPerThreadDataFromLds ldsD c0 VertexIndexMap 0 = vertexIndex0 (nggInputs tp)
    /\ readPerThreadDataFromLds ldsD c1 VertexIndexMap 0 = vertexIndex1 (nggInputs tp)
    /\ readPerThreadDataFromLds ldsD c2 VertexIndexMap 0 = vertexIndex2 (nggInputs tp).
Proof.
  intros HD Hthreads Hw Hk Hpv Hc ldsD D.
  pose proof (in_waves waves w k wave tp Hw Hk) as Hin.
  assert (Hs : survives lds tp = true) by (unfold survives; now rewrite Hpv, Hc).
  pose proof (referenced_vertex_compacted lds tp (vertexIndex0 (nggInputs tp)) HD Hthreads Hin Hs
                ltac:(now left)) as R0.
  pose proof (referenced_vertex_compacted lds tp (vertexIndex1 (nggInputs tp)) HD Hthreads Hin Hs
                ltac:(right; now left)) as R1.
  pose proof (referenced_vertex_compacted lds tp (vertexIndex2 (nggInputs tp)) HD Hthreads Hin Hs
                ltac:(right; right; now left)) as R2.
  cbv zeta in R0, R1, R2. fold ldsD D in R0, R1, R2.
  set (c0 := readVertexCullInfoFromLds ldsD
               (CreateMul (vertexIndex0 (nggInputs tp)) (esGsRingItemSizeOf cfg))
               (off_compactedVertexIndex (vertCullInfoOffsets cfg))) in *.
  set (c1 := readVertexCullInfoFromLds ldsD
               (CreateMul (vertexIndex1 (nggInputs tp)) (esGsRingItemSizeOf cfg))
               (off_compactedVertexIndex (vertCullInfoOffsets cfg))) in *.
  set (c2 := readVertexCullInfoFromLds ldsD
               (CreateMul (vertexIndex2 (nggInputs tp)) (esGsRingItemSizeOf cfg))
               (off_compactedVertexIndex (vertCullInfoOffsets cfg))) in *.
  destruct R0 as [B0 M0], R1 as [B1 M1], R2 as [B2 M2].
  exists c0, c1, c2. split; [|split; [split; [exact B0|split; [exact B1|exact B2]]|]].
  2:{ split; [exact M0|]. split; [exact M1|exact M2]. }
  destruct (threadResult_fields cfg primShaderTable waves lds wave tp) as (_ & -> & _ & _).
  rewrite (phisOf_culling cfg primShaderTable V P waves Hwf Hrp lds w k wave tp Hw Hk).
  fold D. unfold checkAllocReqToEnd.
  cbn [fullyCulled primCountInSubgroupPhi compactVertexPhi cullFlag].
  assert (HD0 : (D =? 0) = false) by (apply Z.eqb_neq; lia).
  rewrite HD0, andb_false_r.
  destruct (wf_thread cfg V P waves Hwf w k wave tp Hw Hk) as (_ & _ & _ & _ & _ & HP).
  assert (Hvalid : CreateICmpULT (threadIdInSubgroup (nggInputs tp)) P = true).
  { unfold primValidInSubgroup in Hpv. now rewrite HP in Hpv. }
  rewrite Hvalid. unfold exportPrimitive, exportVertexIndices.
  rewrite Hcompact. apply Z.ltb_lt in HD. fold D in HD. rewrite HD. cbn [andb].
  unfold primitiveCulledAtEndCulling. rewrite Hpv, Hc.
  fold ldsD. fold c0 c1 c2.
  match goal with
  | |- context [exportVertex cfg ldsD ?ph tp] => destruct (exportVertex cfg ldsD ph tp) as [bv ev]
  end.
  cbn [snd]. apply in_or_app. left. left.
  pose proof (drawnInSubgroup_bounds cfg primShaderTable V P waves Hwf lds) as HDb.
  fold D in HDb.
  assert (H9 : forall c, 0 <= c < D -> 0 <= c < 2 ^ 9) by (change (2 ^ 9) with 512; lia).
  destruct (primitiveConnectivityData_fields c0 c1 c2 (H9 _ B0) (H9 _ B1) (H9 _ B2))
    as (Hword & _).
  now rewrite Hword.
Qed.


(** *** The cull data the cullers read *)

Lemma writeVertCullData_position (w k : nat) (wave : list Thread) (t : Thread) (v j : Z)
    (l : gmap (PrimShaderLdsRegion * Z) Z) :
  waves !! w = Some wave -> wave !! k = Some t -> 0 <= v < 512 -> 0 <= j < 4 ->
  readValueFromLds
    (unlessPassthrough cfg
       (fun t l => writeVertCullData cfg t (initVertCount cfg t (initVertDrawFlag cfg t l))) l t)
    VertexPosition (4 * v + j)
  = if vertValidInWave t && (threadIdInSubgroup (nggInputs t) =? v)
    then nth (Z.to_nat j)
           (let p := positionBits (cullDataPosition (laneInput t)) in
            [vecX p; vecY p; vecZ p; vecW p]) 0
    else readValueFromLds l VertexPosition (4 * v + j).
Proof.
  intros Hw Hk Hv Hj. destruct (thread_id w k wave t Hw Hk) as [_ Htid].
  unfold unlessPassthrough.
  rewrite (thread_culling_path t (in_waves waves w k wave t Hw Hk)).
  assert (H2 : readValueFromLds (initVertCount cfg t (initVertDrawFlag cfg t l))
                 VertexPosition (4 * v + j)
               = readValueFromLds l VertexPosition (4 * v + j)).
  { unfold initVertCount, initVertDrawFlag, writePerThreadDataToLds.
    destruct (waveValid cfg t), (vertValidInSubgroup t);
      rewrite ?read_write_region, ?read_writeVertexCullInfo by discriminate; reflexivity. }
  rewrite <- H2. unfold writeVertCullData, cullData.
  destruct (vertValidInWave t); [|reflexivity]. cbn [andb].
  set (l1 := initVertCount cfg t (initVertDrawFlag cfg t l)).
  assert (H3 : forall m : gmap (PrimShaderLdsRegion * Z) Z,
             (if enableCullDistanceCulling (nggControl cfg) then m else m) = m).
  { intros m. now destruct (enableCullDistanceCulling (nggControl cfg)). }
  cbv zeta. rewrite H3. unfold writePerThreadVec4ToLds. cbv zeta.
  assert (Ho : perThreadLdsOffset 4 (threadIdInSubgroup (nggInputs t)) 0
               = 4 * threadIdInSubgroup (nggInputs t)).
  { unfold perThreadLdsOffset, CreateAdd, CreateMul. cbn [Z.ltb Z.compare Pos.compare
      Pos.compare_cont]. rewrite Z.add_0_r.
    rewrite (wrap32_small (_ * 4)) by lia. rewrite wrap32_small by lia. lia. }
  rewrite Ho.
  destruct (Z.eqb_spec (threadIdInSubgroup (nggInputs t)) v) as [->|Hne].
  - assert (Hcases : j = 0 \/ j = 1 \/ j = 2 \/ j = 3) by lia.
    destruct Hcases as [-> | [-> | [-> | ->] ] ]; cbn [Z.to_nat Pos.to_nat Pos.iter_op Nat.add nth];
      rewrite ?Z.add_0_r;
      repeat first [ rewrite read_write_same; reflexivity
                   | rewrite read_write_other by (intros [=]; lia) ].
  - rewrite !read_write_other by (intros [=]; lia). reflexivity.
Qed.

(** The cullers get the positions of the vertices.  For an invocation that
    fetched cull data, what [fetchVertexPositionData] reads for its vertex at
    the barrier of [.endWriteVertCullData] is the position its cull-data
    fetcher returned, passed through the bit casts to i32 and back. *)
Theorem cullers_read_vertex_cull_data (lds : gmap (PrimShaderLdsRegion * Z) Z) (w k : nat)
    (wave : list Thread) (tv : Thread) :
  waves !! w = Some wave -> wave !! k = Some tv -> vertValidInWave tv = true ->
  let ldsA := ldsAtEndWriteVertCullData cfg waves lds in
  fetchVertexPositionData ldsA (threadIdInSubgroup (nggInputs tv))
  = bitcastVec4ToFloat (positionBits (cullDataPosition (laneInput tv))).
Proof.
  intros Hw Hk Hv ldsA. destruct (thread_id w k wave tv Hw Hk) as [_ Htid].
  pose proof (in_waves waves w k wave tv Hw Hk) as Hin.
  assert (Hpos : forall j, 0 <= j < 4 ->
             readValueFromLds ldsA VertexPosition (4 * threadIdInSubgroup (nggInputs tv) + j)
             = nth (Z.to_nat j)
                 (let p := positionBits (cullDataPosition (laneInput tv)) in
                  [vecX p; vecY p; vecZ p; vecW p]) 0).
  { intros j Hj. unfold ldsA, ldsAtEndWriteVertCullData.
    rewrite (foldl_cell_flag _
               (fun t => vertValidInWave t
                         && (threadIdInSubgroup (nggInputs t)
                             =? threadIdInSubgroup (nggInputs tv))) _ _
               (nth (Z.to_nat j)
                  (let p := positionBits (cullDataPosition (laneInput tv)) in
                   [vecX p; vecY p; vecZ p; vecW p]) 0)).
    - replace (existsb _ (concat waves)) with true; [reflexivity|].
      symmetry. apply existsb_exists. exists tv. split; [exact Hin|].
      now rewrite Hv, Z.eqb_refl.
    - intros t Ht l. destruct (in_concat_lookup waves t Ht) as (w' & k' & wave' & Hw' & Hk').
      rewrite (writeVertCullData_position w' k' wave' t _ j l Hw' Hk') by lia.
      destruct (vertValidInWave t); [|reflexivity]. cbn [andb].
      destruct (Z.eqb_spec (threadIdInSubgroup (nggInputs t))
                           (threadIdInSubgroup (nggInputs tv))) as [E|E]; [|reflexivity].
      destruct (thread_id_inj w' k' w k wave' wave t tv Hw' Hk' Hw Hk E) as [-> ->].
      rewrite Hw in Hw'. injection Hw' as <-. rewrite Hk in Hk'. now injection Hk' as <-. }
  unfold fetchVertexPositionData, readPerThreadVec4FromLds. cbv zeta.
  assert (Ho : perThreadLdsOffset 4 (threadIdInSubgroup (nggInputs tv)) 0
               = 4 * threadIdInSubgroup (nggInputs tv)).
  { unfold perThreadLdsOffset, CreateAdd, CreateMul. cbn [Z.ltb Z.compare Pos.compare
      Pos.compare_cont]. rewrite Z.add_0_r.
    rewrite (wrap32_small (_ * 4)) by lia. rewrite wrap32_small by lia. lia. }
  rewrite Ho. rewrite <- (Z.add_0_r (4 * threadIdInSubgroup (nggInputs tv))) at 1.
  rewrite !Hpos by lia. cbn [Z.to_nat Pos.to_nat Pos.iter_op Nat.add nth].
  now destruct (cullDataPosition (laneInput tv)).
Qed.

End DrawnVertices.

(** *** The example subgroup *)

Lemma vertex_drawn_iff_referenced_witness :
  drawFlagOf (exampleConfig true true false)
    (ldsAtEndCulling (exampleConfig true true false) examplePrimShaderTable
       (exampleSubgroup exampleTriangles) ∅)
    (exampleFirstThread exampleTriangles)
  = true.
Proof.
  apply (vertex_drawn_iff_referenced (SF := exactFloats) (exampleConfig true true false)
           examplePrimShaderTable 40 3 (exampleSubgroup exampleTriangles))
    with (w := 0%nat) (k := 0%nat) (wave := exampleFirstWave exampleTriangles).
  - vm_compute. reflexivity.
  - vm_compute. reflexivity.
  - reflexivity.
  - reflexivity.
  - cbn. lia.
  - reflexivity.
  - vm_compute. reflexivity.
  - reflexivity.
  - reflexivity.
  - split; [vm_compute; reflexivity|]. exists (exampleFirstThread exampleTriangles).
    split; [apply (in_waves _ 0%nat 0%nat (exampleFirstWave exampleTriangles)); reflexivity|].
    split; [vm_compute; reflexivity|]. split; [vm_compute; reflexivity|].
    left. reflexivity.
Defined.

Lemma compaction_keeps_primitive_vertices_witness :
  let cfg := exampleConfig true true false in
  let waves := exampleSubgroup exampleTriangles in
  let t := exampleFirstThread exampleTriangles in
  exists c0 c1 c2,
    In (amdgcn_exp EXP_TARGET_PRIM 1
          (Some (Z.lor (Z.lor (Z.shiftl c2 20) (Z.shiftl c1 10)) c0)) true)
       (exports (threadResult cfg examplePrimShaderTable waves ∅
                   (exampleFirstWave exampleTriangles) t))
    /\ (0 <= c0 < 4 /\ 0 <= c1 < 4 /\ 0 <= c2 < 4)
    /\ readPerThreadDataFromLds (ldsAtEndAllocReq cfg examplePrimShaderTable waves ∅)
         c0 VertexIndexMap 0 = 0
    /\ readPerThreadDataFromLds (ldsAtEndAllocReq cfg examplePrimShaderTable waves ∅)
         c1 VertexIndexMap 0 = 2
    /\ readPerThreadDataFromLds (ldsAtEndAllocReq cfg examplePrimShaderTable waves ∅)
         c2 VertexIndexMap 0 = 33.
Proof.
  intros cfg waves t.
  assert (HD : drawnInSubgroup cfg examplePrimShaderTable waves ∅ = 4)
    by (vm_compute; reflexivity).
  destruct (compaction_keeps_primitive_vertices (SF := exactFloats) cfg
              examplePrimShaderTable 40 3 waves)
    with (lds := (∅ : gmap (PrimShaderLdsRegion * Z) Z)) (w := 0%nat) (k := 0%nat)
         (wave := exampleFirstWave exampleTriangles) (tp := t)
    as (c0 & c1 & c2 & Hexp & Hb & H0 & H1 & H2).
  - vm_compute. reflexivity.
  - vm_compute. reflexivity.
  - reflexivity.
  - reflexivity.
  - cbn. lia.
  - reflexivity.
  - vm_compute. reflexivity.
  - reflexivity.
  - rewrite HD. lia.
  - vm_compute. discriminate.
  - reflexivity.
  - reflexivity.
  - vm_compute. reflexivity.
  - vm_compute. reflexivity.
  - exists c0, c1, c2. rewrite HD in Hb.
    split; [exact Hexp|]. split; [exact Hb|].
    split; [etransitivity; [exact H0 | reflexivity]|].
    split; [etransitivity; [exact H1 | reflexivity]|].
    etransitivity; [exact H2 | reflexivity].
Defined.


Lemma cullers_read_vertex_cull_data_witness :
  fetchVertexPositionData (SF := exactFloats)
    (ldsAtEndWriteVertCullData (exampleConfig true true false)
       (exampleSubgroup exampleTriangles) ∅) 0
  = bitcastVec4ToFloat (SF := exactFloats) (positionBits (SF := exactFloats) exampleInside).
Proof.
  apply (cullers_read_vertex_cull_data (SF := exactFloats) (exampleConfig true true false)
           40 3 (exampleSubgroup exampleTriangles))
    with (lds := (∅ : gmap (PrimShaderLdsRegion * Z) Z)) (w := 0%nat) (k := 0%nat)
         (wave := exampleFirstWave exampleTriangles) (tv := exampleFirstThread exampleTriangles).
  - vm_compute. reflexivity.
  - vm_compute. reflexivity.
  - reflexivity.
  - reflexivity.
  - vm_compute. reflexivity.
Defined.

(** ** The geometry shader: GS messages, the GS-VS ring and the primitive export *)

Definition CreateICmpUGE (a b : Z) : bool := wrap32 b <=? wrap32 a.

Inductive OutputPrimitives : Set := Points | LineStrip | TriangleStrip.

(** What the generator reads about the API GS from the pipeline state. *)
Record GeometryInfo : Set := {
  rasterStream : Z;                    (* inOutUsage.gs.rasterStream *)
  outputVertices : Z;                  (* geometryMode.outputVertices *)
  outputPrimitive : OutputPrimitives;  (* geometryMode.outputPrimitive *)
  verticesPerPrimitive : Z;            (* m_pipelineState->getVerticesPerPrimitive() *)
  outLocCount : list Z;                (* inOutUsage.gs.outLocCount *)
  gsPrimsPerSubgroup : Z;              (* inOutUsage.gs.calcFactor.gsPrimsPerSubgroup *)
  invocations : Z                      (* geometryMode.invocations *)
}.

(** A GS output value: the width of its elements and their bit patterns. *)
Record GsOutput : Set := {
  scalarSizeInBits : Z;
  outputElems : list Z
}.

(** What the GS main function executes that [mutateGs] rewrites: the
    [amdgcn_s_sendmsg] calls (GS_EMIT and GS_CUT carry the stream ID in
    MSG[9:8]) and the calls that export an output. *)
Inductive GsMessage : Set :=
  | GsEmitStream (streamId : Z)
  | GsCutStream (streamId : Z)
  | GsDone
  | GsOutputExport (location compIdx streamId : Z) (output : GsOutput).

(** The counters [mutateGs] allocates, one pair for each stream. *)
Record GsCounters : Type := {
  emitVertsPtrs : Z -> Z;
  outVertsPtrs : Z -> Z
}.

Definition storeCounter (ptrs : Z -> Z) (streamId value : Z) : Z -> Z :=
  fun i => if i =? streamId then value else ptrs i.

Section GeometryShader.
Variable ps : PipelineState.
Variable gs : GeometryInfo.

(** The constructor of [NggPrimShader]: the base of every stream in the
    GS-VS ring. *)
Definition vertexItemSize (streamId : Z) : Z :=
  wrap32 (4 * nth (Z.to_nat streamId) (outLocCount gs) 0).

Fixpoint gsStreamBasesFrom (gsStreamBase gsPrims : Z) (gsVsRingItemSizes : list Z) : list Z :=
  match gsVsRingItemSizes with
  | [] => []
  | size :: rest =>
      gsStreamBase :: gsStreamBasesFrom (wrap32 (gsStreamBase + wrap32 (size * gsPrims))) gsPrims rest
  end.

Definition gsStreamBases : list Z :=
  gsStreamBasesFrom 0 (wrap32 (gsPrimsPerSubgroup gs * invocations gs))
    (map (fun i => wrap32 (vertexItemSize i * outputVertices gs)) (seqZ 0 MaxGsStreams)).

(** [calcVertexItemOffset], relative to the start of the GS-VS ring. *)
Definition calcVertexItemOffset (streamId vertexIndex : Z) : Z :=
  let vertexOffset := CreateMul vertexIndex (vertexItemSize streamId) in
  CreateAdd vertexOffset (nth (Z.to_nat streamId) gsStreamBases 0).

(** The dwords [exportGsOutput] stores: bytes and words are zero-extended
    to dwords, a 64-bit element takes two dwords. *)
Definition extendGsOutput (output : GsOutput) : list Z :=
  let bitWidth := scalarSizeInBits output in
  if (bitWidth =? 8) || (bitWidth =? 16)
  then map (fun e => e mod 2 ^ bitWidth) (outputElems output)
  else if bitWidth =? 64
       then concat (map (fun e => [wrap32 e; wrap32 (Z.shiftr e 32)]) (outputElems output))
       else map wrap32 (outputElems output).

(** [exportGsOutput]. *)
Definition exportGsOutput (output : GsOutput) (location compIdx streamId : Z)
    (threadIdInSubgroup emitVerts : Z) (lds : gmap (PrimShaderLdsRegion * Z) Z)
  : gmap (PrimShaderLdsRegion * Z) Z :=
  if negb (enableSwXfb ps) && negb (rasterStream gs =? streamId) then lds
  else
    let vertexIndex := CreateMul threadIdInSubgroup (outputVertices gs) in
    let vertexIndex := CreateAdd vertexIndex emitVerts in
    let vertexOffset := calcVertexItemOffset streamId vertexIndex in
    let attribOffset := wrap32 (location * 4 + compIdx) in
    let ldsOffset := CreateAdd vertexOffset attribOffset in
    writeDwordsToLds (extendGsOutput output) (GsVsRing, ldsOffset) lds.

(** [importGsOutput] of a value of [dwords] dwords; [None] is the undefined
    value it returns for a stream that is not handled. *)
Definition importGsOutput (dwords : Z) (location streamId vertexOffset : Z)
    (lds : gmap (PrimShaderLdsRegion * Z) Z) : option (list Z) :=
  if negb (enableSwXfb ps) && negb (rasterStream gs =? streamId) then None
  else
    let attribOffset := wrap32 (location * 4) in
    let ldsOffset := CreateAdd vertexOffset attribOffset in
    Some (readDwordsFromLds lds dwords (GsVsRing, ldsOffset)).

(** The function built by [createGsEmitHandler]: the new counters and the
    LDS. *)
Definition gsEmitHandler (threadIdInSubgroup streamId emitVerts outVerts : Z)
    (lds : gmap (PrimShaderLdsRegion * Z) Z) : Z * Z * gmap (PrimShaderLdsRegion * Z) Z :=
  let emitVerts := CreateAdd emitVerts 1 in
  let outVerts := CreateAdd outVerts 1 in
  let primEmit := CreateICmpUGE outVerts (verticesPerPrimitive gs) in
  let lds :=
    if primEmit
    then
      let vertexIndex := CreateMul threadIdInSubgroup (outputVertices gs) in
      let vertexIndex := CreateAdd vertexIndex emitVerts in
      let vertexIndex := CreateSub vertexIndex (verticesPerPrimitive gs) in
      let winding :=
        match outputPrimitive gs with
        | TriangleStrip => CreateAnd (CreateSub outVerts (verticesPerPrimitive gs)) 1
        | _ => 0
        end in
      let ldsOffset := CreateAdd vertexIndex (CreateMul NggMaxThreadsPerSubgroup streamId) in
      writeValueToLds winding PrimitiveData ldsOffset lds
    else lds in
  (emitVerts, outVerts, lds).

(** The function built by [createGsCutHandler]: the new [outVerts]. *)
Definition gsCutHandler : Z := 0.

Definition processGsEmit (streamId threadIdInSubgroup : Z)
    (st : GsCounters * gmap (PrimShaderLdsRegion * Z) Z)
  : GsCounters * gmap (PrimShaderLdsRegion * Z) Z :=
  if negb (enableSwXfb ps) && negb (rasterStream gs =? streamId) then st
  else
    let '(emitVerts, outVerts, lds) :=
      gsEmitHandler threadIdInSubgroup streamId (emitVertsPtrs (fst st) streamId)
        (outVertsPtrs (fst st) streamId) (snd st) in
    ({| emitVertsPtrs := storeCounter (emitVertsPtrs (fst st)) streamId emitVerts;
        outVertsPtrs := storeCounter (outVertsPtrs (fst st)) streamId outVerts |}, lds).

Definition processGsCut (streamId : Z) (st : GsCounters * gmap (PrimShaderLdsRegion * Z) Z)
  : GsCounters * gmap (PrimShaderLdsRegion * Z) Z :=
  if negb (enableSwXfb ps) && negb (rasterStream gs =? streamId) then st
  else
    ({| emitVertsPtrs := emitVertsPtrs (fst st);
        outVertsPtrs := storeCounter (outVertsPtrs (fst st)) streamId gsCutHandler |}, snd st).

(** One call of the GS main function after [mutateGs]. *)
Definition gsMessage (threadIdInSubgroup : Z)
    (st : GsCounters * gmap (PrimShaderLdsRegion * Z) Z) (m : GsMessage)
  : GsCounters * gmap (PrimShaderLdsRegion * Z) Z :=
  match m with
  | GsOutputExport location compIdx streamId output =>
      (fst st, exportGsOutput output location compIdx streamId threadIdInSubgroup
                 (emitVertsPtrs (fst st) streamId) (snd st))
  | GsEmitStream streamId => processGsEmit streamId threadIdInSubgroup st
  | GsCutStream streamId => processGsCut streamId st
  | GsDone => st
  end.

(** The GS main function of one invocation after [mutateGs]: the counters
    start at 0 and the calls run in program order. *)
Definition mutatedGs (threadIdInSubgroup : Z) (calls : list GsMessage)
    (lds : gmap (PrimShaderLdsRegion * Z) Z)
  : GsCounters * gmap (PrimShaderLdsRegion * Z) Z :=
  foldl (gsMessage threadIdInSubgroup)
        ({| emitVertsPtrs := fun _ => 0; outVertsPtrs := fun _ => 0 |}, lds) calls.

(** *** [exportPrimitiveWithGs] *)

(** The word [exportPrimitiveWithGs] exports. *)
Definition exportPrimitiveWithGs (lds : gmap (PrimShaderLdsRegion * Z) Z)
    (threadIdInSubgroup startingVertexIndex : Z) : Z :=
  let primData :=
    readPerThreadDataFromLds lds threadIdInSubgroup PrimitiveData
      (wrap32 (NggMaxThreadsPerSubgroup * rasterStream gs)) in
  let primValid := CreateICmpNE primData NullPrim in
  let newPrimData :=
    match outputPrimitive gs with
    | Points => startingVertexIndex
    | LineStrip =>
        let vertexIndex0 := startingVertexIndex in
        let vertexIndex1 := CreateAdd startingVertexIndex 1 in
        CreateOr (CreateShl vertexIndex1 10) vertexIndex0
    | TriangleStrip =>
        let winding := CreateICmpNE primData 0 in
        let vertexIndex0 := startingVertexIndex in
        let vertexIndex1 := CreateAdd startingVertexIndex 1 in
        let vertexIndex2 := CreateAdd startingVertexIndex 2 in
        let newPrimDataNoWinding :=
          CreateOr (CreateShl (CreateOr (CreateShl vertexIndex2 10) vertexIndex1) 10)
                   vertexIndex0 in
        let newPrimDataWinding :=
          CreateOr (CreateShl (CreateOr (CreateShl vertexIndex1 10) vertexIndex2) 10)
                   vertexIndex0 in
        CreateSelect winding newPrimDataWinding newPrimDataNoWinding
    end in
  CreateSelect primValid newPrimData primData.

End GeometryShader.

(** *** What the handlers leave in the primitive data *)

(** The number of GS_EMIT messages of a stream. *)
Fixpoint emitCount (streamId : Z) (calls : list GsMessage) : Z :=
  match calls with
  | [] => 0
  | GsEmitStream s :: rest => (if s =? streamId then 1 else 0) + emitCount streamId rest
  | _ :: rest => emitCount streamId rest
  end.

(** For every vertex a stream emits, in order, the index of the first vertex
    of its strip: a GS_CUT starts a new strip at the next vertex. *)
Fixpoint stripStarts (streamId : Z) (calls : list GsMessage) (emitted start : Z) : list Z :=
  match calls with
  | [] => []
  | GsEmitStream s :: rest =>
      if s =? streamId then start :: stripStarts streamId rest (emitted + 1) start
      else stripStarts streamId rest emitted start
  | GsCutStream s :: rest =>
      if s =? streamId then stripStarts streamId rest emitted emitted
      else stripStarts streamId rest emitted start
  | _ :: rest => stripStarts streamId rest emitted start
  end.

(** Every message names one of the [MaxGsStreams] streams. *)
Definition messageStreamValid (m : GsMessage) : bool :=
  match m with
  | GsEmitStream s | GsCutStream s | GsOutputExport _ _ s _ => (0 <=? s) && (s <? MaxGsStreams)
  | GsDone => true
  end.

Lemma emitCount_nonneg (s : Z) (calls : list GsMessage) : 0 <= emitCount s calls.
Proof.
  induction calls as [|m calls IH]; cbn [emitCount]; [lia|].
  destruct m; try exact IH. destruct (streamId =? s); lia.
Qed.

Lemma read_writeDwords_region (ws : list Z) (cell : PrimShaderLdsRegion * Z)
    (r : PrimShaderLdsRegion) (o : Z) (lds : gmap (PrimShaderLdsRegion * Z) Z) :
  fst cell <> r ->
  readValueFromLds (writeDwordsToLds ws cell lds) r o = readValueFromLds lds r o.
Proof.
  intros Hne. unfold writeDwordsToLds.
  generalize (imap (fun k v => (k, v)) ws). intros es. revert lds.
  induction es as [|e es IH]; intros lds; [reflexivity|].
  cbn [foldl]. rewrite IH. apply read_write_other. intros [=]. congruence.
Qed.

Section HandlerFacts.
Variable ps : PipelineState.
Variable gs : GeometryInfo.
Variable threadIdInSubgroup : Z.
Hypothesis Hverts : 1 <= verticesPerPrimitive gs <= outputVertices gs.
Hypothesis Htid : 0 <= threadIdInSubgroup.
Hypothesis Hrange : (threadIdInSubgroup + 1) * outputVertices gs <= NggMaxThreadsPerSubgroup.

(** The winding [.emitPrim] records for a primitive whose first vertex is
    vertex [d] of its strip. *)
Definition windingAt (d : Z) : Z :=
  match outputPrimitive gs with
  | TriangleStrip => Z.land d 1
  | _ => 0
  end.

Definition primitiveDataCell (streamId j : Z) : Z :=
  threadIdInSubgroup * outputVertices gs + j + NggMaxThreadsPerSubgroup * streamId.

Lemma gsEmitHandler_spec (s e o : Z) (lds : gmap (PrimShaderLdsRegion * Z) Z) :
  0 <= s < MaxGsStreams -> 0 <= o <= e -> e + 1 <= outputVertices gs ->
  gsEmitHandler gs threadIdInSubgroup s e o lds
  = (e + 1, o + 1,
     if verticesPerPrimitive gs <=? o + 1
     then writeValueToLds (windingAt (o + 1 - verticesPerPrimitive gs)) PrimitiveData
            (primitiveDataCell s (e + 1 - verticesPerPrimitive gs)) lds
     else lds).
Proof.
  intros Hs Ho He. unfold gsEmitHandler, NggMaxThreadsPerSubgroup, MaxGsStreams in *.
  assert (Hov : 0 <= threadIdInSubgroup * outputVertices gs <= 256 - outputVertices gs) by nia.
  unfold CreateICmpUGE, CreateAdd, CreateSub, CreateMul, CreateAnd.
  assert (W : forall z, 0 <= z < 4294967296 -> wrap32 z = z)
    by (intros z Hz; apply wrap32_small; change (2 ^ 32) with 4294967296; lia).
  rewrite !(W (e + 1)), !(W (o + 1)), !(W (verticesPerPrimitive gs)) by lia.
  f_equal. destruct (Z.leb_spec (verticesPerPrimitive gs) (o + 1)) as [Hk|Hk]; [|reflexivity].
  rewrite !(W (threadIdInSubgroup * outputVertices gs)) by lia.
  rewrite !(W (threadIdInSubgroup * outputVertices gs + (e + 1))) by lia.
  rewrite !(W (threadIdInSubgroup * outputVertices gs + (e + 1) - verticesPerPrimitive gs))
    by lia.
  rewrite !(W (256 * s)), !(W (o + 1 - verticesPerPrimitive gs)) by lia.
  rewrite W by lia.
  unfold windingAt, primitiveDataCell, NggMaxThreadsPerSubgroup.
  replace (threadIdInSubgroup * outputVertices gs + (e + 1) - verticesPerPrimitive gs + 256 * s)
    with (threadIdInSubgroup * outputVertices gs + (e + 1 - verticesPerPrimitive gs) + 256 * s)
    by lia.
  reflexivity.
Qed.

(** The counters of every stream stay within the vertices the GS declares. *)
Definition countersInRange (c : GsCounters) (calls : list GsMessage) : Prop :=
  forall s, 0 <= s < MaxGsStreams ->
    0 <= outVertsPtrs c s <= emitVertsPtrs c s
    /\ emitVertsPtrs c s + emitCount s calls <= outputVertices gs.

Lemma primitive_data_run (s j : Z) (calls : list GsMessage) :
  enableSwXfb ps || (rasterStream gs =? s) = true ->
  0 <= s < MaxGsStreams -> 0 <= j < outputVertices gs ->
  forallb messageStreamValid calls = true ->
  forall (c : GsCounters) (lds : gmap (PrimShaderLdsRegion * Z) Z),
    countersInRange c calls ->
    let e := emitVertsPtrs c s in
    let o := outVertsPtrs c s in
    let k := j + verticesPerPrimitive gs - 1 in
    readValueFromLds (snd (foldl (gsMessage ps gs threadIdInSubgroup) (c, lds) calls))
      PrimitiveData (primitiveDataCell s j)
    = if k <? e then readValueFromLds lds PrimitiveData (primitiveDataCell s j)
      else match stripStarts s calls e (e - o) !! Z.to_nat (k - e) with
           | Some start =>
               if start <=? j then windingAt (j - start)
               else readValueFromLds lds PrimitiveData (primitiveDataCell s j)
           | None => readValueFromLds lds PrimitiveData (primitiveDataCell s j)
           end.
Proof.
  intros Hh Hs Hj.
  assert (Hov : outputVertices gs <= 256)
    by (unfold NggMaxThreadsPerSubgroup in Hrange; nia).
  induction calls as [|m calls IH]; intros Hvalid c lds Hc e o k.
  - cbn [foldl snd stripStarts]. rewrite lookup_nil. now destruct (k <? e).
  - cbn [forallb] in Hvalid. apply andb_true_iff in Hvalid as [Hm Hvalid].
    cbn [foldl]. destruct m as [s'|s'|  |location compIdx s' output].
    + (* GS_EMIT *)
      cbn [messageStreamValid] in Hm. apply andb_true_iff in Hm as [Hs1 Hs2].
      apply Z.leb_le in Hs1. apply Z.ltb_lt in Hs2.
      cbn [gsMessage]. unfold processGsEmit. cbn [fst snd].
      destruct (negb (enableSwXfb ps) && negb (rasterStream gs =? s')) eqn:Hskip.
      * (* not handled: the stream is not [s] *)
        assert (Hne : s' <> s).
        { intros ->. apply andb_true_iff in Hskip as [H1 H2].
          apply negb_true_iff in H1, H2. rewrite H1, H2 in Hh. discriminate. }
        rewrite (IH Hvalid c lds).
        -- cbn [stripStarts]. destruct (Z.eqb_spec s' s); [contradiction|]. reflexivity.
        -- intros s0 Hs0. destruct (Hc s0 Hs0) as [H1 H2]. split; [exact H1|].
           cbn [emitCount] in H2. destruct (s' =? s0); lia.
      * destruct (Hc s' ltac:(lia)) as [Ho He]. cbn [emitCount] in He.
        rewrite Z.eqb_refl in He. pose proof (emitCount_nonneg s' calls) as Hnn.
        rewrite gsEmitHandler_spec by lia.
        set (lds' := if verticesPerPrimitive gs <=? outVertsPtrs c s' + 1 then _ else lds).
        set (c' := {| emitVertsPtrs := _; outVertsPtrs := _ |}).
        assert (Hc' : countersInRange c' calls).
        { intros s0 Hs0. destruct (Hc s0 Hs0) as [H1 H2]. cbn [emitCount] in H2.
          unfold c', storeCounter. cbn [emitVertsPtrs outVertsPtrs].
          rewrite (Z.eqb_sym s0 s'). destruct (Z.eqb_spec s' s0) as [->|]; lia. }
        rewrite (IH Hvalid c' lds' Hc').
        unfold c', storeCounter. cbn [emitVertsPtrs outVertsPtrs stripStarts].
        rewrite (Z.eqb_sym s s'). destruct (Z.eqb_spec s' s) as [->|Hne].
        -- fold e o. fold e o in Ho, He. fold k.
           replace (e + 1 - (o + 1)) with (e - o) by lia.
           assert (Hold : k <> e ->
                     readValueFromLds lds' PrimitiveData (primitiveDataCell s j)
                     = readValueFromLds lds PrimitiveData (primitiveDataCell s j)).
           { intros Hk. unfold lds'. fold o.
             destruct (verticesPerPrimitive gs <=? o + 1); [|reflexivity].
             apply read_write_other. unfold primitiveDataCell. intros [=]. lia. }
           destruct (Z.ltb_spec k e) as [Hlt|Hge].
           ++ destruct (Z.ltb_spec k (e + 1)); [|lia]. apply Hold. lia.
           ++ destruct (Z.eq_dec k e) as [Hk|Hk].
              ** destruct (Z.ltb_spec k (e + 1)); [|lia].
                 rewrite Hk, Z.sub_diag. change (Z.to_nat 0) with 0%nat.
                 cbn [lookup list_lookup]. unfold lds'. fold e o.
                 replace (e + 1 - verticesPerPrimitive gs) with j by lia.
                 destruct (Z.leb_spec (verticesPerPrimitive gs) (o + 1)) as [Hv|Hv];
                   destruct (Z.leb_spec (e - o) j) as [Hv'|Hv']; try lia.
                 rewrite read_write_same. f_equal. lia.
              ** destruct (Z.ltb_spec k (e + 1)); [lia|].
                 replace (Z.to_nat (k - e)) with (S (Z.to_nat (k - (e + 1)))) by lia.
                 cbn [lookup list_lookup]. rewrite (Hold Hk). reflexivity.
        -- fold e o k.
           assert (Hold : readValueFromLds lds' PrimitiveData (primitiveDataCell s j)
                          = readValueFromLds lds PrimitiveData (primitiveDataCell s j)).
           { unfold lds'. destruct (verticesPerPrimitive gs <=? outVertsPtrs c s' + 1) eqn:Hw;
               [|reflexivity].
             apply Z.leb_le in Hw.
             apply read_write_other. unfold primitiveDataCell, NggMaxThreadsPerSubgroup.
             intros [=]. lia. }
           now rewrite Hold.
    + (* GS_CUT *)
      cbn [gsMessage]. unfold processGsCut. cbn [fst snd].
      destruct (negb (enableSwXfb ps) && negb (rasterStream gs =? s')) eqn:Hskip.
      * assert (Hne : s' <> s).
        { intros ->. apply andb_true_iff in Hskip as [H1 H2].
          apply negb_true_iff in H1, H2. rewrite H1, H2 in Hh. discriminate. }
        rewrite (IH Hvalid c lds Hc). cbn [stripStarts].
        destruct (Z.eqb_spec s' s); [contradiction|]. reflexivity.
      * set (c' := {| emitVertsPtrs := _; outVertsPtrs := _ |}).
        assert (Hc' : countersInRange c' calls).
        { intros s0 Hs0. destruct (Hc s0 Hs0) as [H1 H2]. cbn [emitCount] in H2.
          unfold c', storeCounter, gsCutHandler. cbn [emitVertsPtrs outVertsPtrs].
          destruct (Z.eqb_spec s0 s'); lia. }
        rewrite (IH Hvalid c' lds Hc').
        unfold c', storeCounter, gsCutHandler. cbn [emitVertsPtrs outVertsPtrs stripStarts].
        rewrite (Z.eqb_sym s s'). destruct (Z.eqb_spec s' s) as [->|Hne].
        -- fold e k. now rewrite Z.sub_0_r.
        -- reflexivity.
    + (* GS_DONE *)
      cbn [gsMessage stripStarts]. exact (IH Hvalid c lds Hc).
    + (* an output export *)
      cbn [gsMessage fst snd stripStarts].
      rewrite (IH Hvalid c _ Hc). fold e o k.
      assert (Hold : readValueFromLds
                       (exportGsOutput ps gs output location compIdx s' threadIdInSubgroup
                          (emitVertsPtrs c s') lds) PrimitiveData (primitiveDataCell s j)
                     = readValueFromLds lds PrimitiveData (primitiveDataCell s j)).
      { unfold exportGsOutput.
        destruct (negb (enableSwXfb ps) && negb (rasterStream gs =? s')); [reflexivity|].
        now apply read_writeDwords_region. }
      now rewrite Hold.
Qed.

(** The primitive data after the GS of one invocation.  When the GS emits
    no more vertices to a stream than it declares, the primitive data of
    vertex [j] of the invocation in a stream that is handled holds the
    winding of a primitive iff the vertices [j .. j + verticesPerPrimitive
    - 1] were emitted to one strip, with no GS_CUT between them; the
    winding is the parity of the place of vertex [j] in its strip for
    triangle strips and 0 otherwise.  Every other entry of the invocation
    is left as [.initOutPrimData] wrote it. *)
Theorem gs_primitive_data_follows_strips (s j : Z) (calls : list GsMessage)
    (lds : gmap (PrimShaderLdsRegion * Z) Z) :
  enableSwXfb ps || (rasterStream gs =? s) = true ->
  0 <= s < MaxGsStreams -> 0 <= j < outputVertices gs ->
  forallb messageStreamValid calls = true ->
  (forall s', 0 <= s' < MaxGsStreams -> emitCount s' calls <= outputVertices gs) ->
  readValueFromLds (snd (mutatedGs ps gs threadIdInSubgroup calls lds))
    PrimitiveData (primitiveDataCell s j)
  = match stripStarts s calls 0 0 !! Z.to_nat (j + verticesPerPrimitive gs - 1) with
    | Some start =>
        if start <=? j then windingAt (j - start)
        else readValueFromLds lds PrimitiveData (primitiveDataCell s j)
    | None => readValueFromLds lds PrimitiveData (primitiveDataCell s j)
    end.
Proof.
  intros Hh Hs Hj Hvalid Hcount. unfold mutatedGs.
  rewrite (primitive_data_run s j calls Hh Hs Hj Hvalid).
  - cbn [emitVertsPtrs outVertsPtrs]. rewrite Z.sub_0_r.
    destruct (Z.ltb_spec (j + verticesPerPrimitive gs - 1) 0); [lia|]. reflexivity.
  - intros s' Hs'. cbn [emitVertsPtrs outVertsPtrs]. specialize (Hcount s' Hs'). lia.
Qed.

End HandlerFacts.

(** *** The GS-VS ring *)

Lemma read_writeDwords (ws : list Z) (r : PrimShaderLdsRegion) (o o' : Z)
    (lds : gmap (PrimShaderLdsRegion * Z) Z) :
  readValueFromLds (writeDwordsToLds ws (r, o) lds) r o'
  = if (o <=? o') && (o' <? o + Z.of_nat (length ws))
    then nth (Z.to_nat (o' - o)) ws 0
    else readValueFromLds lds r o'.
Proof.
  unfold writeDwordsToLds. cbn [fst snd].
  induction ws as [|w ws IH] using rev_ind.
  - cbn [imap foldl length]. destruct (Z.leb_spec o o'), (Z.ltb_spec o' (o + Z.of_nat 0));
      cbn [andb]; try reflexivity; lia.
  - rewrite imap_app, foldl_app. cbn [imap foldl fst snd]. rewrite Nat.add_0_r.
    rewrite length_app. cbn [length].
    destruct (Z.eq_dec o' (o + Z.of_nat (length ws))) as [->|Hne].
    + rewrite read_write_same.
      destruct (Z.leb_spec o (o + Z.of_nat (length ws))); [|lia].
      destruct (Z.ltb_spec (o + Z.of_nat (length ws)) (o + Z.of_nat (length ws + 1))); [|lia].
      cbn [andb]. replace (Z.to_nat (o + Z.of_nat (length ws) - o)) with (length ws) by lia.
      now rewrite app_nth2, Nat.sub_diag by lia.
    + rewrite read_write_other by (intros [=]; lia). rewrite IH.
      destruct (Z.leb_spec o o'); cbn [andb]; [|reflexivity].
      destruct (Z.ltb_spec o' (o + Z.of_nat (length ws))),
               (Z.ltb_spec o' (o + Z.of_nat (length ws + 1))); try lia; try reflexivity.
      now rewrite app_nth1 by lia.
Qed.

Lemma readDwords_writeDwords (ws : list Z) (r : PrimShaderLdsRegion) (o : Z)
    (lds : gmap (PrimShaderLdsRegion * Z) Z) :
  readDwordsFromLds (writeDwordsToLds ws (r, o) lds) (Z.of_nat (length ws)) (r, o) = ws.
Proof.
  unfold readDwordsFromLds. cbn [fst snd]. rewrite Nat2Z.id.
  apply nth_ext with (d := 0) (d' := 0); [now rewrite length_map, length_seq|].
  intros k Hk. rewrite length_map, length_seq in Hk.
  rewrite (nth_indep _ 0 (readValueFromLds (writeDwordsToLds ws (r, o) lds) r (o + Z.of_nat 0%nat)))
    by now rewrite length_map, length_seq.
  rewrite (map_nth (fun k => readValueFromLds _ r (o + Z.of_nat k))), seq_nth by lia.
  cbn [Nat.add]. rewrite read_writeDwords.
  destruct (Z.leb_spec o (o + Z.of_nat k)); [|lia].
  destruct (Z.ltb_spec (o + Z.of_nat k) (o + Z.of_nat (length ws))); [|lia].
  cbn [andb]. f_equal. lia.
Qed.

Lemma readDwords_writeDwords_disjoint (ws : list Z) (r : PrimShaderLdsRegion) (o o' n : Z)
    (lds : gmap (PrimShaderLdsRegion * Z) Z) :
  o' + n <= o \/ o + Z.of_nat (length ws) <= o' ->
  readDwordsFromLds (writeDwordsToLds ws (r, o) lds) n (r, o')
  = readDwordsFromLds lds n (r, o').
Proof.
  intros Hd. unfold readDwordsFromLds. cbn [fst snd].
  apply map_ext_in. intros k Hk. apply in_seq in Hk.
  rewrite read_writeDwords.
  destruct (Z.leb_spec o (o' + Z.of_nat k)); cbn [andb]; [|reflexivity].
  destruct (Z.ltb_spec (o' + Z.of_nat k) (o + Z.of_nat (length ws))); [lia|reflexivity].
Qed.

(** The GS-VS ring holds the vertices of every stream without wrap-around:
    the counts are not negative, [outLocCount] has an entry for every
    stream and the ring takes fewer than 2^32 dwords. *)
Definition gsVsRingFits (gs : GeometryInfo) : bool :=
  (length (outLocCount gs) =? Z.to_nat MaxGsStreams)%nat
  && forallb (Z.leb 0) (outLocCount gs)
  && (0 <=? outputVertices gs)
  && (0 <=? gsPrimsPerSubgroup gs) && (0 <=? invocations gs)
  && (outputVertices gs * (gsPrimsPerSubgroup gs * invocations gs) <? 2 ^ 32)
  && (4 * fold_right Z.add 0 (outLocCount gs) * outputVertices gs
        * (gsPrimsPerSubgroup gs * invocations gs) <? 2 ^ 32).

Lemma mul_le_self (a b : Z) : 0 <= a -> 1 <= b -> a <= a * b.
Proof. intros. nia. Qed.

Lemma item_in_ring (v m i : Z) : 0 <= v < m -> 0 <= i -> 0 <= v * i /\ v * i + i <= i * m.
Proof. intros. nia. Qed.

Lemma thread_vertex_in_range (tid j ov g : Z) :
  0 <= tid < g -> 0 <= j < ov -> 0 <= tid * ov /\ tid * ov + j < ov * g.
Proof. intros. nia. Qed.

Lemma sum_firstn_succ (locs : list Z) (s : nat) :
  (s < length locs)%nat ->
  fold_right Z.add 0 (firstn (S s) locs)
  = fold_right Z.add 0 (firstn s locs) + nth s locs 0.
Proof.
  revert s. induction locs as [|l locs IH]; intros s Hs; cbn [length] in Hs; [lia|].
  destruct s as [|s]; [cbn; rewrite firstn_O; cbn [fold_right]; lia|].
  change (firstn (S (S s)) (l :: locs)) with (l :: firstn (S s) locs).
  change (firstn (S s) (l :: locs)) with (l :: firstn s locs).
  cbn [fold_right nth]. rewrite (IH s) by lia. lia.
Qed.

Lemma sum_firstn_le (locs : list Z) (s : nat) :
  forallb (Z.leb 0) locs = true ->
  0 <= fold_right Z.add 0 (firstn s locs) <= fold_right Z.add 0 locs.
Proof.
  revert s. induction locs as [|l locs IH]; intros s Hl.
  - rewrite firstn_nil. cbn [fold_right]. lia.
  - cbn [forallb] in Hl. apply andb_true_iff in Hl as [Hl0 Hl]. apply Z.leb_le in Hl0.
    destruct s as [|s].
    + specialize (IH 0%nat Hl). rewrite firstn_O in *. cbn [fold_right] in *. lia.
    + change (firstn (S s) (l :: locs)) with (l :: firstn s locs).
      cbn [fold_right]. specialize (IH s Hl). lia.
Qed.

Lemma nth_nonneg (locs : list Z) (s : nat) :
  forallb (Z.leb 0) locs = true -> 0 <= nth s locs 0.
Proof.
  revert s. induction locs as [|l locs IH]; intros s Hl; [destruct s; cbn; lia|].
  cbn [forallb] in Hl. apply andb_true_iff in Hl as [Hl0 Hl]. apply Z.leb_le in Hl0.
  destruct s; cbn [nth]; [lia | now apply IH].
Qed.

Lemma gsStreamBasesFrom_nth (ov g : Z) (locs : list Z) :
  1 <= ov -> 1 <= g -> g < 2 ^ 32 ->
  forallb (Z.leb 0) locs = true ->
  forall (b : Z) (s : nat),
    0 <= b -> b + 4 * fold_right Z.add 0 locs * ov * g < 2 ^ 32 ->
    (s < length locs)%nat ->
    nth s (gsStreamBasesFrom b g (map (fun l => wrap32 (wrap32 (4 * l) * ov)) locs)) 0
    = b + 4 * fold_right Z.add 0 (firstn s locs) * ov * g.
Proof.
  intros Hov Hg Hg32. induction locs as [|l locs IH]; intros Hl b s Hb Hsum Hs;
    cbn [length] in Hs; [lia|].
  cbn [forallb] in Hl. apply andb_true_iff in Hl as [Hl0 Hl]. apply Z.leb_le in Hl0.
  cbn [map gsStreamBasesFrom fold_right] in *.
  pose proof (sum_firstn_le locs (length locs) Hl) as [Hs0 _].
  rewrite firstn_all in Hs0.
  set (S0 := fold_right Z.add 0 locs) in *.
  assert (H1 : 4 * l <= 4 * l * ov) by (apply mul_le_self; lia).
  assert (H2 : 4 * l * ov <= 4 * l * ov * g) by (apply mul_le_self; lia).
  assert (H3 : 0 <= 4 * S0 * ov * g).
  { apply Z.mul_nonneg_nonneg; [|lia]. apply Z.mul_nonneg_nonneg; lia. }
  assert (H4 : 4 * (l + S0) * ov * g = 4 * l * ov * g + 4 * S0 * ov * g) by ring.
  destruct s as [|s]; [rewrite firstn_O; cbn [nth fold_right]; lia|].
  change (firstn (S s) (l :: locs)) with (l :: firstn s locs). cbn [nth fold_right].
  rewrite (wrap32_small (4 * l)), (wrap32_small (4 * l * ov)) by lia.
  rewrite (wrap32_small (4 * l * ov * g)) by lia.
  rewrite (wrap32_small (b + 4 * l * ov * g)) by lia.
  rewrite (IH Hl (b + 4 * l * ov * g) s) by lia.
  set (S1 := fold_right Z.add 0 (firstn s locs)). ring.
Qed.

Section RingFacts.
Variable ps : PipelineState.
Variable gs : GeometryInfo.
Hypothesis Hfits : gsVsRingFits gs = true.

(** The dword of the ring where dword [d] of vertex [v] of stream [s]
    lives: the streams follow each other, each with room for
    [outputVertices] vertices of every GS invocation of the subgroup. *)
Definition gsVsRingCell (s v d : Z) : Z :=
  4 * fold_right Z.add 0 (firstn (Z.to_nat s) (outLocCount gs)) * outputVertices gs
    * (gsPrimsPerSubgroup gs * invocations gs)
  + v * (4 * nth (Z.to_nat s) (outLocCount gs) 0) + d.

Lemma calcVertexItemOffset_cell (s v : Z) :
  0 <= s < MaxGsStreams ->
  0 <= v < outputVertices gs * (gsPrimsPerSubgroup gs * invocations gs) ->
  calcVertexItemOffset gs s v = gsVsRingCell s v 0
  /\ 0 <= gsVsRingCell s v 0
  /\ gsVsRingCell s v 0 + 4 * nth (Z.to_nat s) (outLocCount gs) 0 <= gsVsRingCell (s + 1) 0 0
  /\ gsVsRingCell (s + 1) 0 0 < 2 ^ 32
  /\ 0 <= nth (Z.to_nat s) (outLocCount gs) 0.
Proof.
  intros Hs Hv. unfold gsVsRingFits, MaxGsStreams in *.
  repeat (apply andb_true_iff in Hfits as [Hfits ?]).
  apply Nat.eqb_eq in Hfits.
  repeat match goal with H : (_ <=? _) = true |- _ => apply Z.leb_le in H
                    | H : (_ <? _) = true |- _ => apply Z.ltb_lt in H end.
  set (OV := outputVertices gs) in *. set (G := gsPrimsPerSubgroup gs * invocations gs) in *.
  assert (HGOV : 1 <= G /\ 1 <= OV).
  { assert (Hp : 0 <= G) by (apply Z.mul_nonneg_nonneg; lia).
    destruct (Z.eq_dec G 0) as [E|E]; [rewrite E, Z.mul_0_r in Hv; lia|].
    destruct (Z.eq_dec OV 0) as [E'|E']; [rewrite E', Z.mul_0_l in Hv; lia|]. lia. }
  destruct HGOV as [HG HOV].
  assert (HG32 : G < 2 ^ 32) by (pose proof (mul_le_self G OV ltac:(lia) HOV); lia).
  assert (Hbases : gsStreamBases gs
                   = gsStreamBasesFrom 0 G
                       (map (fun l => wrap32 (wrap32 (4 * l) * OV)) (outLocCount gs))).
  { unfold gsStreamBases, vertexItemSize, MaxGsStreams. fold OV. fold G.
    rewrite (wrap32_small G) by lia.
    destruct (outLocCount gs) as [|l0 [|l1 [|l2 [|l3 [|]]]]]; cbn in Hfits; try lia.
    reflexivity. }
  set (locs := outLocCount gs) in *.
  assert (Hsn : (Z.to_nat s < length locs)%nat) by lia.
  pose proof (gsStreamBasesFrom_nth OV G locs HOV HG HG32 H4 0 (Z.to_nat s) ltac:(lia) ltac:(lia)
                Hsn) as Hbase.
  rewrite Z.add_0_l in Hbase.
  pose proof (sum_firstn_succ locs (Z.to_nat s) Hsn) as Hsucc.
  pose proof (sum_firstn_le locs (Z.to_nat s) H4) as [Hp0 _].
  pose proof (sum_firstn_le locs (S (Z.to_nat s)) H4) as [_ Hp1].
  pose proof (nth_nonneg locs (Z.to_nat s) H4) as Hn0.
  unfold calcVertexItemOffset, gsVsRingCell, vertexItemSize, CreateAdd, CreateMul.
  fold OV. fold G. fold locs. rewrite Hbases, Hbase.
  replace (Z.to_nat (s + 1)) with (S (Z.to_nat s)) by lia. rewrite Hsucc.
  set (S0 := fold_right Z.add 0 (firstn (Z.to_nat s) locs)) in *.
  set (L := nth (Z.to_nat s) locs 0) in *.
  set (T := fold_right Z.add 0 locs) in *.
  assert (HB0 : 0 <= 4 * S0 * OV * G).
  { apply Z.mul_nonneg_nonneg; [|lia]. apply Z.mul_nonneg_nonneg; lia. }
  assert (HB1 : 4 * (S0 + L) * OV * G <= 4 * T * OV * G).
  { apply Z.mul_le_mono_nonneg_r; [lia|]. apply Z.mul_le_mono_nonneg_r; lia. }
  assert (HB2 : 4 * (S0 + L) * OV * G = 4 * S0 * OV * G + 4 * L * (OV * G)) by ring.
  destruct (item_in_ring v (OV * G) (4 * L) ltac:(lia) ltac:(lia)) as [I1 I2].
  assert (HL : 4 * L <= 4 * L * (OV * G)).
  { apply mul_le_self; [lia|]. pose proof (mul_le_self OV G ltac:(lia) HG). lia. }
  set (B := 4 * S0 * OV * G) in *. set (B' := 4 * (S0 + L) * OV * G) in *.
  set (M := 4 * L * (OV * G)) in *. set (E := 4 * T * OV * G) in *.
  clearbody B B' M E.
  set (X := v * (4 * L)) in *.
  rewrite (wrap32_small (4 * L)) by lia. fold X.
  rewrite (wrap32_small X) by lia.
  rewrite (wrap32_small (X + B)) by lia.
  rewrite !Z.mul_0_l, !Z.add_0_r. repeat split; lia.
Qed.

Lemma gs_vertex_index (tid j : Z) :
  0 <= tid < gsPrimsPerSubgroup gs * invocations gs -> 0 <= j < outputVertices gs ->
  CreateAdd (CreateMul tid (outputVertices gs)) j = tid * outputVertices gs + j
  /\ 0 <= tid * outputVertices gs + j
       < outputVertices gs * (gsPrimsPerSubgroup gs * invocations gs).
Proof.
  intros Htid Hj. unfold gsVsRingFits in Hfits.
  repeat (apply andb_true_iff in Hfits as [Hfits ?]).
  repeat match goal with H : (_ <? _) = true |- _ => apply Z.ltb_lt in H end.
  destruct (thread_vertex_in_range tid j _ _ Htid Hj) as [H5 H6].
  unfold CreateAdd, CreateMul. rewrite (wrap32_small (tid * _)) by lia.
  rewrite wrap32_small by lia. lia.
Qed.

Lemma gsVsRingCell_stream_mono (s s' : Z) :
  0 <= s -> s <= s' -> gsVsRingCell s 0 0 <= gsVsRingCell s' 0 0.
Proof.
  intros Hs Hss. unfold gsVsRingFits in Hfits.
  repeat (apply andb_true_iff in Hfits as [Hfits ?]).
  repeat match goal with H : (_ <=? _) = true |- _ => apply Z.leb_le in H end.
  unfold gsVsRingCell. rewrite !Z.mul_0_l, !Z.add_0_r.
  apply Z.mul_le_mono_nonneg_r; [apply Z.mul_nonneg_nonneg; lia|].
  apply Z.mul_le_mono_nonneg_r; [lia|]. apply Z.mul_le_mono_nonneg_l; [lia|].
  replace (Z.to_nat s') with (Z.to_nat s + (Z.to_nat s' - Z.to_nat s))%nat by lia.
  generalize (Z.to_nat s' - Z.to_nat s)%nat as k. generalize (Z.to_nat s) as a.
  generalize dependent (outLocCount gs). intros locs _ Hl _.
  induction locs as [|l locs IH]; intros a k; [now rewrite !firstn_nil|].
  cbn [forallb] in Hl. apply andb_true_iff in Hl as [Hl0 Hl]. apply Z.leb_le in Hl0.
  destruct a as [|a].
  - rewrite firstn_O. cbn [fold_right Nat.add].
    pose proof (sum_firstn_le (l :: locs) k) as Hk. cbn [forallb] in Hk.
    rewrite Hl in Hk. destruct (0 <=? l) eqn:E; [|lia]. cbn [andb] in Hk. now apply Hk.
  - change (firstn (S a + k) (l :: locs)) with (l :: firstn (a + k) locs).
    change (firstn (S a) (l :: locs)) with (l :: firstn a locs).
    cbn [fold_right]. specialize (IH Hl a k). lia.
Qed.

(** The items of different vertices, or of vertices of different streams,
    do not overlap. *)
Lemma gsVsRing_items_disjoint (s v s' v' : Z) :
  0 <= s < MaxGsStreams -> 0 <= s' < MaxGsStreams ->
  0 <= v < outputVertices gs * (gsPrimsPerSubgroup gs * invocations gs) ->
  0 <= v' < outputVertices gs * (gsPrimsPerSubgroup gs * invocations gs) ->
  (s, v) <> (s', v') ->
  gsVsRingCell s v 0 + 4 * nth (Z.to_nat s) (outLocCount gs) 0 <= gsVsRingCell s' v' 0
  \/ gsVsRingCell s' v' 0 + 4 * nth (Z.to_nat s') (outLocCount gs) 0 <= gsVsRingCell s v 0.
Proof.
  intros Hs Hs' Hv Hv' Hne.
  destruct (calcVertexItemOffset_cell s v Hs Hv) as (_ & A0 & A1 & _ & A2).
  destruct (calcVertexItemOffset_cell s' v' Hs' Hv') as (_ & B0 & B1 & _ & B2).
  assert (Hlow : forall a w, 0 <= a -> 0 <= w -> 0 <= nth (Z.to_nat a) (outLocCount gs) 0 ->
                   gsVsRingCell a 0 0 <= gsVsRingCell a w 0).
  { intros a w Ha Hw Hn. unfold gsVsRingCell.
    assert (0 <= w * (4 * nth (Z.to_nat a) (outLocCount gs) 0))
      by (apply Z.mul_nonneg_nonneg; lia). lia. }
  destruct (Z.lt_trichotomy s s') as [Hlt|[Heq|Hgt]].
  - left. pose proof (gsVsRingCell_stream_mono (s + 1) s' ltac:(lia) ltac:(lia)).
    pose proof (Hlow s' v' ltac:(lia) ltac:(lia) B2). lia.
  - subst s'. assert (Hvv : v <> v') by congruence.
    set (I := 4 * nth (Z.to_nat s) (outLocCount gs) 0) in *.
    unfold gsVsRingCell. fold I. rewrite !Z.add_0_r.
    destruct (Z.lt_trichotomy v v') as [Hl|[He|Hg]]; [left|contradiction|right].
    + assert ((v + 1) * I <= v' * I) by (apply Z.mul_le_mono_nonneg_r; lia). lia.
    + assert ((v' + 1) * I <= v * I) by (apply Z.mul_le_mono_nonneg_r; lia). lia.
  - right. pose proof (gsVsRingCell_stream_mono (s' + 1) s ltac:(lia) ltac:(lia)).
    pose proof (Hlow s v ltac:(lia) ltac:(lia) A2). lia.
Qed.

Lemma map_seq_from {A : Type} (f : nat -> A) (len a : nat) :
  map f (seq a len) = map (fun k => f (a + k)%nat) (seq 0 len).
Proof.
  revert a. induction len as [|len IH]; intros a; [reflexivity|].
  cbn [seq map]. rewrite Nat.add_0_r. f_equal.
  rewrite (IH (S a)), <- (seq_shift len 0), map_map.
  apply map_ext. intros k. f_equal. lia.
Qed.

Lemma readDwords_app (lds : gmap (PrimShaderLdsRegion * Z) Z) (a b : Z)
    (r : PrimShaderLdsRegion) (o : Z) :
  0 <= a -> 0 <= b ->
  readDwordsFromLds lds (a + b) (r, o)
  = readDwordsFromLds lds a (r, o) ++ readDwordsFromLds lds b (r, o + a).
Proof.
  intros Ha Hb. unfold readDwordsFromLds. cbn [fst snd].
  rewrite Z2Nat.inj_add, seq_app, map_app by lia. f_equal.
  cbn [Nat.add]. rewrite map_seq_from. apply map_ext. intros k. f_equal. lia.
Qed.

(** The GS-VS ring gives back what was exported.  When the ring fits, an
    output that the GS of invocation [tid] exports for its vertex [j] in a
    stream that is handled, at a place inside the vertex item of the
    stream, is what [importGsOutput] returns for that location of vertex
    [tid * outputVertices + j] (after the dwords below [compIdx], which the
    export leaves alone), and the export changes nothing that
    [importGsOutput] returns for another vertex or another stream. *)
Theorem gs_ring_export_then_import (output : GsOutput) (location compIdx s tid j : Z)
    (lds : gmap (PrimShaderLdsRegion * Z) Z) :
  enableSwXfb ps || (rasterStream gs =? s) = true ->
  0 <= s < MaxGsStreams ->
  0 <= tid < gsPrimsPerSubgroup gs * invocations gs -> 0 <= j < outputVertices gs ->
  0 <= location -> 0 <= compIdx ->
  4 * location + compIdx + Z.of_nat (length (extendGsOutput output))
    <= 4 * nth (Z.to_nat s) (outLocCount gs) 0 ->
  let v := tid * outputVertices gs + j in
  let lds' := exportGsOutput ps gs output location compIdx s tid j lds in
  importGsOutput ps gs (compIdx + Z.of_nat (length (extendGsOutput output))) location s
    (calcVertexItemOffset gs s v) lds'
  = Some (readDwordsFromLds lds compIdx (GsVsRing, gsVsRingCell s v (4 * location))
          ++ extendGsOutput output)
  /\ forall s' v' location' n,
       0 <= s' < MaxGsStreams ->
       0 <= v' < outputVertices gs * (gsPrimsPerSubgroup gs * invocations gs) ->
       0 <= location' -> 0 <= n ->
       4 * location' + n <= 4 * nth (Z.to_nat s') (outLocCount gs) 0 ->
       (s, v) <> (s', v') ->
       importGsOutput ps gs n location' s' (calcVertexItemOffset gs s' v') lds'
       = importGsOutput ps gs n location' s' (calcVertexItemOffset gs s' v') lds.
Proof.
  intros Hh Hs Htid Hj Hloc Hcomp Hfit v lds'.
  destruct (gs_vertex_index tid j Htid Hj) as [Hidx Hv]. fold v in Hidx, Hv.
  destruct (calcVertexItemOffset_cell s v Hs Hv) as (Hcell & C0 & C1 & C2 & C3).
  assert (Hhandled : negb (enableSwXfb ps) && negb (rasterStream gs =? s) = false).
  { destruct (enableSwXfb ps), (rasterStream gs =? s); try reflexivity. discriminate. }
  assert (Hexp : lds' = writeDwordsToLds (extendGsOutput output)
                          (GsVsRing, gsVsRingCell s v (4 * location) + compIdx) lds).
  { unfold lds', exportGsOutput. rewrite Hhandled, Hidx, Hcell. unfold CreateAdd.
    rewrite (wrap32_small (location * 4 + compIdx)) by lia.
    rewrite wrap32_small by lia. f_equal. f_equal. unfold gsVsRingCell. lia. }
  split.
  - unfold importGsOutput. rewrite Hhandled, Hcell. unfold CreateAdd.
    rewrite (wrap32_small (location * 4)) by lia. rewrite wrap32_small by lia.
    replace (gsVsRingCell s v 0 + location * 4) with (gsVsRingCell s v (4 * location))
      by (unfold gsVsRingCell; lia).
    rewrite readDwords_app by lia. rewrite Hexp. f_equal. f_equal.
    + apply readDwords_writeDwords_disjoint. lia.
    + apply readDwords_writeDwords.
  - intros s' v' location' n Hs' Hv' Hloc' Hn Hfit' Hne.
    destruct (calcVertexItemOffset_cell s' v' Hs' Hv') as (Hcell' & D0 & D1 & D2 & D3).
    unfold importGsOutput.
    destruct (negb (enableSwXfb ps) && negb (rasterStream gs =? s')); [reflexivity|].
    rewrite Hcell'. unfold CreateAdd.
    rewrite (wrap32_small (location' * 4)) by lia. rewrite wrap32_small by lia.
    rewrite Hexp. f_equal. apply readDwords_writeDwords_disjoint.
    destruct (gsVsRing_items_disjoint s v s' v' Hs Hs' Hv Hv' Hne) as [Hd|Hd];
      unfold gsVsRingCell in *; lia.
Qed.

End RingFacts.

(** *** A geometry shader that emits two strips *)

(** A GS without transform feedback that emits triangle strips of at most 6
    vertices with two output locations to stream 0. *)
Definition exampleGsState : PipelineState :=
  {| hasGs := true; hasTes := false; enableSwXfb := false; passthroughMode := false;
     compactVertex := true; vsPrimitiveId := false;
     calcFactor := {| esGsLdsSize := 0; gsOnChipLdsSize := 0; esVertsPerSubgroup := 256;
                      esGsRingItemSize := 4 |} |}.

Definition exampleGeometry : GeometryInfo :=
  {| rasterStream := 0; outputVertices := 6; outputPrimitive := TriangleStrip;
     verticesPerPrimitive := 3; outLocCount := [2; 0; 0; 0];
     gsPrimsPerSubgroup := 8; invocations := 1 |}.

(** Four vertices, a cut and two more vertices. *)
Definition exampleGsCalls : list GsMessage :=
  [GsEmitStream 0; GsEmitStream 0; GsEmitStream 0; GsEmitStream 0; GsCutStream 0;
   GsEmitStream 0; GsEmitStream 0; GsDone].

Lemma gs_primitive_data_follows_strips_witness :
  map (fun j => readValueFromLds
                  (snd (mutatedGs exampleGsState exampleGeometry 1 exampleGsCalls
                          (writeValueToLds NullPrim PrimitiveData 8 ∅)))
                  PrimitiveData (primitiveDataCell exampleGeometry 1 0 j))
      [1; 2]
  = [1; NullPrim].
Proof.
  cbn [map].
  rewrite !(gs_primitive_data_follows_strips exampleGsState exampleGeometry 1);
    try reflexivity;
    try (unfold exampleGeometry, NggMaxThreadsPerSubgroup, MaxGsStreams; cbn; lia).
  all: intros s' _; assert (Hc : emitCount s' exampleGsCalls <= 6);
    [unfold exampleGsCalls; cbn [emitCount]; destruct (0 =? s'); lia | exact Hc].
Defined.

Lemma gs_ring_export_then_import_witness :
  importGsOutput exampleGsState exampleGeometry 4 1 0
    (calcVertexItemOffset exampleGeometry 0 (1 * 6 + 2))
    (exportGsOutput exampleGsState exampleGeometry
       {| scalarSizeInBits := 32; outputElems := [11; 12; 13; 14] |} 1 0 0 1 2 ∅)
  = Some [11; 12; 13; 14].
Proof.
  apply (gs_ring_export_then_import exampleGsState exampleGeometry eq_refl
           {| scalarSizeInBits := 32; outputElems := [11; 12; 13; 14] |} 1 0 0 1 2 ∅);
    try reflexivity;
    unfold exampleGeometry, NggMaxThreadsPerSubgroup, MaxGsStreams; cbn; lia.
Defined.

(** ** The primitive shader with API GS: [buildPrimShaderWithGs] from [.endGs] on *)

(** The locations of the built-in outputs that the cullers import from the
    GS-VS ring. *)
Record GsBuiltInLocations : Set := {
  positionLoc : Z;        (* builtInOutputLocMap[BuiltInPosition] *)
  cullDistanceLoc : Z;    (* builtInOutputLocMap[BuiltInCullDistance] *)
  gsCullDistance : Z      (* builtInUsage.gs.cullDistance *)
}.

(** What an invocation does from [.endAllocReq] on: the word it exports to
    the primitive target, the relative vertex index its copy shader runs
    with, and whether it does the dummy export of [.emptyWaveExp]. *)
Record GsThreadResult : Set := {
  gsPrimitiveExport : option Z;
  gsCopyShaderVertex : option Z;
  gsEmptyWaveExport : bool
}.

Section PrimShaderWithGs.
Context {SF : ShaderFloats}.
Variable cfg : ShaderConfig.
Variable gs : GeometryInfo.
Variable locs : GsBuiltInLocations.
Variable primShaderTable : Z -> Z.

Definition cullingMode : bool := negb (passthroughMode (pipelineState cfg)).

(** [NggMaxThreadsPerSubgroup * rasterStream] and
    [(NggMaxWavesPerSubgroup + 1) * rasterStream], the offsets of the
    rasterization stream in the primitive data and in the vertex counts. *)
Definition primDataOffset : Z := wrap32 (NggMaxThreadsPerSubgroup * rasterStream gs).
Definition vertCountsOffset : Z := wrap32 ((NggMaxWavesPerSubgroup + 1) * rasterStream gs).

(** [fetchVertexPositionData] and [fetchCullDistanceSignMask], the branch
    with API GS.  The rasterization stream is always handled, so that
    [importGsOutput] returns the dwords of the ring. *)
Definition fetchVertexPositionDataWithGs (lds : gmap (PrimShaderLdsRegion * Z) Z)
    (vertexIndex : Z) : Vec4 float :=
  let vertexOffset := calcVertexItemOffset gs (rasterStream gs) vertexIndex in
  match importGsOutput (pipelineState cfg) gs 4 (positionLoc locs) (rasterStream gs)
          vertexOffset lds with
  | Some [x; y; z; w] => bitcastVec4ToFloat (mkVec4 x y z w)
  | _ => bitcastVec4ToFloat (mkVec4 0 0 0 0)
  end.

Definition fetchCullDistanceSignMaskWithGs (lds : gmap (PrimShaderLdsRegion * Z) Z)
    (vertexIndex : Z) : Z :=
  let vertexOffset := calcVertexItemOffset gs (rasterStream gs) vertexIndex in
  let cullDistances :=
    default [] (importGsOutput (pipelineState cfg) gs (gsCullDistance locs)
                  (cullDistanceLoc locs) (rasterStream gs) vertexOffset lds) in
  calcCullDistanceSignMask (map bitcastToFloat cullDistances).

(** [NggPrimShader::doCulling] with these fetchers. *)
Definition doCullingWithGs (lds : gmap (PrimShaderLdsRegion * Z) Z)
    (vertexIndex0 vertexIndex1 vertexIndex2 : Z) : bool :=
  let ctl := nggControl cfg in
  let cb := cbLayoutTable cfg in
  if negb (enableCulling ctl) then false
  else
    let cullFlag := false in
    let vertex0 := fetchVertexPositionDataWithGs lds vertexIndex0 in
    let vertex1 := fetchVertexPositionDataWithGs lds vertexIndex1 in
    let vertex2 := fetchVertexPositionDataWithGs lds vertexIndex2 in
    let cullFlag := if enableBackfaceCulling ctl
                    then doBackfaceCulling ctl cb primShaderTable cullFlag vertex0 vertex1 vertex2
                    else cullFlag in
    let cullFlag := if enableFrustumCulling ctl
                    then doFrustumCulling cb primShaderTable cullFlag vertex0 vertex1 vertex2
                    else cullFlag in
    let cullFlag := if enableBoxFilterCulling ctl
                    then doBoxFilterCulling ctl cb primShaderTable cullFlag vertex0 vertex1 vertex2
                    else cullFlag in
    let cullFlag := if enableSphereCulling ctl
                    then doSphereCulling ctl cb primShaderTable cullFlag vertex0 vertex1 vertex2
                    else cullFlag in
    let cullFlag := if enableSmallPrimFilter ctl
                    then doSmallPrimFilterCulling ctl cb primShaderTable cullFlag
                           vertex0 vertex1 vertex2
                    else cullFlag in
    if enableCullDistanceCulling ctl
    then
      let signMask0 := fetchCullDistanceSignMaskWithGs lds vertexIndex0 in
      let signMask1 := fetchCullDistanceSignMaskWithGs lds vertexIndex1 in
      let signMask2 := fetchCullDistanceSignMaskWithGs lds vertexIndex2 in
      doCullDistanceCulling cullFlag signMask0 signMask1 signMask2
    else cullFlag.

(** [.initOutVertCount]. *)
Definition initOutVertCount (t : Thread) (lds : gmap (PrimShaderLdsRegion * Z) Z)
  : gmap (PrimShaderLdsRegion * Z) Z :=
  if waveValid cfg t
  then writePerThreadDataToLds 0 (threadIdInSubgroup (nggInputs t)) VertexCounts
         vertCountsOffset lds
  else lds.

(** The primitive data of the rasterization stream that belongs to a
    thread ID. *)
Definition outPrimData (lds : gmap (PrimShaderLdsRegion * Z) Z) (threadId : Z) : Z :=
  readPerThreadDataFromLds lds threadId PrimitiveData primDataOffset.

(** [.endInitOutVertCount] and [.culling] in culling mode; [lds] is the
    memory at the barrier of [.endInitOutVertCount]. *)
Definition doCull (lds : gmap (PrimShaderLdsRegion * Z) Z) (t : Thread) : bool :=
  CreateICmpNE (outPrimData lds (threadIdInSubgroup (nggInputs t))) NullPrim
  && primValidInSubgroup t.

Definition outPrimitiveCulledBy (lds : gmap (PrimShaderLdsRegion * Z) Z) (t : Thread) : bool :=
  if doCull lds t
  then
    let primData := outPrimData lds (threadIdInSubgroup (nggInputs t)) in
    let winding := CreateICmpNE primData 0 in
    let vertexIndex0 := threadIdInSubgroup (nggInputs t) in
    let vertexIndex1 := CreateAdd (threadIdInSubgroup (nggInputs t)) (CreateSelect winding 2 1) in
    let vertexIndex2 := CreateAdd (threadIdInSubgroup (nggInputs t)) (CreateSelect winding 1 2) in
    doCullingWithGs lds vertexIndex0 vertexIndex1 vertexIndex2
  else false.

(** [.nullifyOutPrimData]. *)
Definition nullifyOutPrimData (lds0 : gmap (PrimShaderLdsRegion * Z) Z) (t : Thread)
    (lds : gmap (PrimShaderLdsRegion * Z) Z) : gmap (PrimShaderLdsRegion * Z) Z :=
  if cullingMode && outPrimitiveCulledBy lds0 t
  then writePerThreadDataToLds NullPrim (threadIdInSubgroup (nggInputs t)) PrimitiveData
         primDataOffset lds
  else lds.

(** [.checkOutVertDrawFlag] and the phi of [.endCheckOutVertDrawFlag];
    [lds] is the memory at the barrier before it. *)
Definition outVertDrawFlag (lds : gmap (PrimShaderLdsRegion * Z) Z) (t : Thread) : bool :=
  if vertValidInSubgroup t
  then
    let threadId := threadIdInSubgroup (nggInputs t) in
    let outVertsPerPrim := verticesPerPrimitive gs in
    let drawFlag0 := CreateICmpNE (outPrimData lds threadId) NullPrim in
    let drawFlag := drawFlag0 in
    let drawFlag :=
      if 1 <? outVertsPerPrim
      then
        let primData1 := outPrimData lds (CreateSub threadId 1) in
        let drawFlag1 :=
          CreateSelect (CreateICmpUGE threadId 1) (CreateICmpNE primData1 NullPrim) false in
        drawFlag || drawFlag1
      else drawFlag in
    if 2 <? outVertsPerPrim
    then
      let primData2 := outPrimData lds (CreateSub threadId 2) in
      let drawFlag2 :=
        CreateSelect (CreateICmpUGE threadId 2) (CreateICmpNE primData2 NullPrim) false in
      drawFlag || drawFlag2
    else drawFlag
  else false.

Definition outDrawMask (lds : gmap (PrimShaderLdsRegion * Z) Z) (wave : list Thread) : Z :=
  ballot (map (outVertDrawFlag lds) wave).

Definition outVertCountInWave (lds : gmap (PrimShaderLdsRegion * Z) Z) (wave : list Thread)
  : Z :=
  wrap32 (ctpop (outDrawMask lds wave)).

(** [.accumOutVertCount]. *)
Definition accumOutVertCount (outVertCountInWave : Z) (t : Thread)
    (lds : gmap (PrimShaderLdsRegion * Z) Z) : gmap (PrimShaderLdsRegion * Z) Z :=
  if accumThreadValid cfg t
  then
    let ldsOffset := CreateAdd (waveIdInSubgroup (nggInputs t)) (threadIdInWave (nggInputs t)) in
    let ldsOffset := CreateAdd ldsOffset 1 in
    let ldsOffset := CreateAdd ldsOffset vertCountsOffset in
    atomicAdd outVertCountInWave VertexCounts ldsOffset lds
  else lds.

(** [.endAccumOutVertCount] with vertex compaction; [lds] is the memory at
    its barrier. *)
Definition outVertCountInWaves (lds : gmap (PrimShaderLdsRegion * Z) Z) (t : Thread) : Z :=
  readPerThreadDataFromLds lds (threadIdInWave (nggInputs t)) VertexCounts vertCountsOffset.

Definition outVertCountInSubgroup (lds : gmap (PrimShaderLdsRegion * Z) Z)
    (wave : list Thread) : Z :=
  readlane wave (outVertCountInWaves lds) (waveCountInSubgroup cfg).

Definition outVertCountInPrevWaves (lds : gmap (PrimShaderLdsRegion * Z) Z)
    (wave : list Thread) (t : Thread) : Z :=
  readlane wave (outVertCountInWaves lds) (waveIdInSubgroup (nggInputs t)).

Definition hasCulledOutVertices (lds : gmap (PrimShaderLdsRegion * Z) Z) (wave : list Thread)
    (t : Thread) : bool :=
  CreateICmpULT (outVertCountInSubgroup lds wave) (vertCountInSubgroup (nggInputs t)).

(** [.compactOutVertId]; [ldsB] is the memory at the barrier before
    [.checkOutVertDrawFlag], [ldsC] the one at the barrier of
    [.endAccumOutVertCount]. *)
Definition compactOutVertIdTaken (ldsB ldsC : gmap (PrimShaderLdsRegion * Z) Z)
    (wave : list Thread) (t : Thread) : bool :=
  compactVertex (pipelineState cfg)
  && (outVertDrawFlag ldsB t && hasCulledOutVertices ldsC wave t).

Definition compactedOutVertexIndex (ldsB ldsC : gmap (PrimShaderLdsRegion * Z) Z)
    (wave : list Thread) (t : Thread) : Z :=
  let drawMask := outDrawMask ldsB wave in
  let drawMaskLow := wrap32 drawMask in
  let compactedVertexIndex := amdgcn_mbcnt_lo (hwLane t) drawMaskLow 0 in
  let compactedVertexIndex :=
    if waveSize cfg =? 64
    then
      let drawMaskHigh := Z.shiftr drawMask 32 in
      amdgcn_mbcnt_hi (hwLane t) drawMaskHigh compactedVertexIndex
    else compactedVertexIndex in
  CreateAdd (outVertCountInPrevWaves ldsC wave t) compactedVertexIndex.

Definition compactOutVertId (ldsB ldsC : gmap (PrimShaderLdsRegion * Z) Z)
    (wave : list Thread) (t : Thread) (lds : gmap (PrimShaderLdsRegion * Z) Z)
  : gmap (PrimShaderLdsRegion * Z) Z :=
  if compactOutVertIdTaken ldsB ldsC wave t
  then writePerThreadDataToLds (threadIdInSubgroup (nggInputs t))
         (compactedOutVertexIndex ldsB ldsC wave t) VertexIndexMap 0 lds
  else lds.

(** The phi of [.endCompactOutVertId]. *)
Definition compactedVertexIndexPhi (ldsB ldsC : gmap (PrimShaderLdsRegion * Z) Z)
    (wave : list Thread) (t : Thread) : Z :=
  if compactOutVertIdTaken ldsB ldsC wave t
  then compactedOutVertexIndex ldsB ldsC wave t
  else threadIdInSubgroup (nggInputs t).

(** *** The memory at the barriers *)

(** [lds] is the memory when the invocations reach the branch of [.endGs],
    after the GS and the transform feedback. *)
Definition ldsAtEndInitOutVertCount (waves : list (list Thread))
    (lds : gmap (PrimShaderLdsRegion * Z) Z) : gmap (PrimShaderLdsRegion * Z) Z :=
  foldl (fun l t => initOutVertCount t l) lds (concat waves).

Definition ldsAtEndOutCulling (waves : list (list Thread))
    (lds : gmap (PrimShaderLdsRegion * Z) Z) : gmap (PrimShaderLdsRegion * Z) Z :=
  let ldsA := ldsAtEndInitOutVertCount waves lds in
  foldl (fun l t => nullifyOutPrimData ldsA t l) ldsA (concat waves).

Definition ldsAtEndAccumOutVertCount (waves : list (list Thread))
    (lds : gmap (PrimShaderLdsRegion * Z) Z) : gmap (PrimShaderLdsRegion * Z) Z :=
  let ldsB := ldsAtEndOutCulling waves lds in
  foldl (fun l wave => foldl (fun l t => accumOutVertCount (outVertCountInWave ldsB wave) t l)
                             l wave)
        ldsB waves.

Definition ldsAtEndAllocReqWithGs (waves : list (list Thread))
    (lds : gmap (PrimShaderLdsRegion * Z) Z) : gmap (PrimShaderLdsRegion * Z) Z :=
  let ldsB := ldsAtEndOutCulling waves lds in
  let ldsC := ldsAtEndAccumOutVertCount waves lds in
  foldl (fun l wave => foldl (fun l t => compactOutVertId ldsB ldsC wave t l) l wave)
        ldsC waves.

(** *** From [.endCompactOutVertId] to the end *)

(** [m_nggInputs.vertCountInSubgroup] after [.endAccumOutVertCount]. *)
Definition updatedVertCountInSubgroup (ldsC : gmap (PrimShaderLdsRegion * Z) Z)
    (wave : list Thread) (t : Thread) : Z :=
  if compactVertex (pipelineState cfg)
  then outVertCountInSubgroup ldsC wave
  else vertCountInSubgroup (nggInputs t).

(** [.allocReq]: the messages of a wave. *)
Definition allocReqWithGs (ldsC : gmap (PrimShaderLdsRegion * Z) Z) (wave : list Thread)
  : list Z :=
  match wave with
  | t :: _ =>
      if CreateICmpEQ (waveIdInSubgroup (nggInputs t)) 0
      then [sendGsAllocReqMessage (primCountInSubgroup (nggInputs t))
              (updatedVertCountInSubgroup ldsC wave t)]
      else []
  | [] => []
  end.

(** [runCopyShader]: the relative vertex index the copy shader is called
    with; [lds] is the memory at the barrier of [.endAllocReq]. *)
Definition runCopyShader (ldsC lds : gmap (PrimShaderLdsRegion * Z) Z) (wave : list Thread)
    (t : Thread) : Z :=
  if compactVertex (pipelineState cfg) && hasCulledOutVertices ldsC wave t
  then readPerThreadDataFromLds lds (threadIdInSubgroup (nggInputs t)) VertexIndexMap 0
  else threadIdInSubgroup (nggInputs t).

(** [.endAllocReq] to [.endExpVert]. *)
Definition expPrimAndVert (ldsB ldsC lds : gmap (PrimShaderLdsRegion * Z) Z)
    (wave : list Thread) (t : Thread) : GsThreadResult :=
  let primExport :=
    if primValidInSubgroup t
    then
      let startingVertexIndex :=
        if compactVertex (pipelineState cfg) then compactedVertexIndexPhi ldsB ldsC wave t
        else threadIdInSubgroup (nggInputs t) in
      Some (exportPrimitiveWithGs gs lds (threadIdInSubgroup (nggInputs t)) startingVertexIndex)
    else None in
  let vertValid :=
    CreateICmpULT (threadIdInSubgroup (nggInputs t)) (updatedVertCountInSubgroup ldsC wave t) in
  if compactVertex (pipelineState cfg)
  then
    {| gsPrimitiveExport := primExport;
       gsCopyShaderVertex := if vertValid then Some (runCopyShader ldsC lds wave t) else None;
       gsEmptyWaveExport := false |}
  else if vertValid
       then
         let emptyWave := CreateICmpEQ (outVertCountInWave ldsB wave) 0 in
         if emptyWave
         then {| gsPrimitiveExport := primExport; gsCopyShaderVertex := None;
                 gsEmptyWaveExport := true |}
         else {| gsPrimitiveExport := primExport;
                 gsCopyShaderVertex :=
                   if outVertDrawFlag ldsB t then Some (runCopyShader ldsC lds wave t) else None;
                 gsEmptyWaveExport := false |}
       else {| gsPrimitiveExport := primExport; gsCopyShaderVertex := None;
               gsEmptyWaveExport := false |}.

Definition threadResultWithGs (waves : list (list Thread))
    (lds : gmap (PrimShaderLdsRegion * Z) Z) (wave : list Thread) (t : Thread)
  : GsThreadResult :=
  expPrimAndVert (ldsAtEndOutCulling waves lds) (ldsAtEndAccumOutVertCount waves lds)
    (ldsAtEndAllocReqWithGs waves lds) wave t.

End PrimShaderWithGs.

(** *** The primitive data and the draw flags of a well-formed subgroup *)

Section GsPath.
Context {SF : ShaderFloats}.
Variable cfg : ShaderConfig.
Variable gs : GeometryInfo.
Variable locs : GsBuiltInLocations.
Variable primShaderTable : Z -> Z.
Variables V P : Z.
Variable waves : list (list Thread).
Hypothesis Hwf : wellFormedSubgroup cfg V P waves = true.
Hypothesis Hrs : 0 <= rasterStream gs < MaxGsStreams.

Lemma primDataOffset_eq : primDataOffset gs = 256 * rasterStream gs.
Proof.
  unfold primDataOffset, NggMaxThreadsPerSubgroup, MaxGsStreams in *.
  apply wrap32_small. change (2 ^ 32) with 4294967296. lia.
Qed.

Lemma vertCountsOffset_eq : vertCountsOffset gs = 9 * rasterStream gs.
Proof.
  unfold vertCountsOffset, NggMaxWavesPerSubgroup, MaxGsStreams in *.
  apply wrap32_small. change (2 ^ 32) with 4294967296. lia.
Qed.

Lemma outPrimData_cell (lds : gmap (PrimShaderLdsRegion * Z) Z) (n : Z) :
  0 <= n < 256 ->
  outPrimData gs lds n = readValueFromLds lds PrimitiveData (n + 256 * rasterStream gs).
Proof.
  intros Hn. unfold outPrimData, readPerThreadDataFromLds, perThreadLdsOffset, CreateAdd.
  cbn [Z.ltb Z.compare Pos.compare Pos.compare_cont]. rewrite primDataOffset_eq.
  unfold MaxGsStreams in Hrs. rewrite wrap32_small by (change (2 ^ 32) with 4294967296; lia).
  reflexivity.
Qed.

Lemma initOutVertCount_other_region (t : Thread) (lds : gmap (PrimShaderLdsRegion * Z) Z)
    (r : PrimShaderLdsRegion) (o : Z) :
  r <> VertexCounts ->
  readValueFromLds (initOutVertCount cfg gs t lds) r o = readValueFromLds lds r o.
Proof.
  intros Hr. unfold initOutVertCount, writePerThreadDataToLds.
  destruct (waveValid cfg t); [|reflexivity]. apply read_write_other. congruence.
Qed.

Lemma ldsAtEndInitOutVertCount_other_region (lds : gmap (PrimShaderLdsRegion * Z) Z)
    (r : PrimShaderLdsRegion) (o : Z) :
  r <> VertexCounts ->
  readValueFromLds (ldsAtEndInitOutVertCount cfg gs waves lds) r o = readValueFromLds lds r o.
Proof.
  intros Hr. unfold ldsAtEndInitOutVertCount. apply foldl_cell_keep.
  intros t _ l. now apply initOutVertCount_other_region.
Qed.

(** The cullers nullify the primitive of the invocation. *)
Definition outPrimitiveNullified (lds : gmap (PrimShaderLdsRegion * Z) Z) (t : Thread) : bool :=
  cullingMode cfg
  && outPrimitiveCulledBy cfg gs locs primShaderTable (ldsAtEndInitOutVertCount cfg gs waves lds) t.

(** The invocation holds a primitive that the cullers keep. *)
Definition outPrimitiveLive (lds : gmap (PrimShaderLdsRegion * Z) Z) (t : Thread) : bool :=
  CreateICmpNE (outPrimData gs lds (threadIdInSubgroup (nggInputs t))) NullPrim
  && negb (outPrimitiveNullified lds t).

Lemma nullifyOutPrimData_cell (lds l : gmap (PrimShaderLdsRegion * Z) Z) (w k : nat)
    (wave : list Thread) (t : Thread) (n : Z) :
  waves !! w = Some wave -> wave !! k = Some t -> 0 <= n < 256 ->
  readValueFromLds
    (nullifyOutPrimData cfg gs locs primShaderTable (ldsAtEndInitOutVertCount cfg gs waves lds) t l)
    PrimitiveData (n + 256 * rasterStream gs)
  = if outPrimitiveNullified lds t && (threadIdInSubgroup (nggInputs t) =? n)
    then NullPrim
    else readValueFromLds l PrimitiveData (n + 256 * rasterStream gs).
Proof.
  intros Hw Hk Hn. destruct (thread_id cfg V P waves Hwf w k wave t Hw Hk) as [_ Htid].
  unfold nullifyOutPrimData. fold (outPrimitiveNullified lds t).
  destruct (outPrimitiveNullified lds t); [|reflexivity]. cbn [andb].
  unfold writePerThreadDataToLds, perThreadLdsOffset, CreateAdd.
  cbn [Z.ltb Z.compare Pos.compare Pos.compare_cont]. rewrite primDataOffset_eq.
  unfold MaxGsStreams in Hrs. rewrite wrap32_small by (change (2 ^ 32) with 4294967296; lia).
  destruct (Z.eqb_spec (threadIdInSubgroup (nggInputs t)) n) as [->|Hne].
  - apply read_write_same.
  - apply read_write_other. intros [=]. lia.
Qed.

Lemma nullifyOutPrimData_other_region (lds0 l : gmap (PrimShaderLdsRegion * Z) Z) (t : Thread)
    (r : PrimShaderLdsRegion) (o : Z) :
  r <> PrimitiveData ->
  readValueFromLds (nullifyOutPrimData cfg gs locs primShaderTable lds0 t l) r o
  = readValueFromLds l r o.
Proof.
  intros Hr. unfold nullifyOutPrimData, writePerThreadDataToLds.
  destruct (cullingMode cfg && outPrimitiveCulledBy cfg gs locs primShaderTable lds0 t);
    [|reflexivity].
  apply read_write_other. congruence.
Qed.

(** The primitive data at the barrier before [.checkOutVertDrawFlag]: the
    entry of a culled primitive is the null primitive, every other entry is
    as the GS left it. *)
Lemma outPrimData_at_endOutCulling (lds : gmap (PrimShaderLdsRegion * Z) Z) (w k : nat)
    (wave : list Thread) (t : Thread) :
  waves !! w = Some wave -> wave !! k = Some t ->
  outPrimData gs (ldsAtEndOutCulling cfg gs locs primShaderTable waves lds)
    (threadIdInSubgroup (nggInputs t))
  = if outPrimitiveNullified lds t then NullPrim
    else outPrimData gs lds (threadIdInSubgroup (nggInputs t)).
Proof.
  intros Hw Hk. destruct (thread_id cfg V P waves Hwf w k wave t Hw Hk) as [_ Htid].
  rewrite !outPrimData_cell by lia. unfold ldsAtEndOutCulling. cbv zeta.
  rewrite (foldl_cell_flag _
             (fun t' => outPrimitiveNullified lds t'
                        && (threadIdInSubgroup (nggInputs t')
                            =? threadIdInSubgroup (nggInputs t))) _ _ NullPrim).
  - rewrite ldsAtEndInitOutVertCount_other_region by discriminate.
    destruct (outPrimitiveNullified lds t) eqn:Hn.
    + replace (existsb _ (concat waves)) with true; [reflexivity|].
      symmetry. apply existsb_exists. exists t. split; [exact (in_waves waves w k wave t Hw Hk)|].
      now rewrite Hn, Z.eqb_refl.
    + replace (existsb _ (concat waves)) with false; [reflexivity|].
      symmetry. apply not_true_is_false. intros He.
      apply existsb_exists in He as (t' & Hin & Ht').
      apply andb_true_iff in Ht' as [Hn' E]. apply Z.eqb_eq in E.
      destruct (in_concat_lookup waves t' Hin) as (w' & k' & wave' & Hw' & Hk').
      destruct (thread_id_inj cfg V P waves Hwf w' k' w k wave' wave t' t Hw' Hk' Hw Hk E)
        as [-> ->].
    rewrite Hw in Hw'. injection Hw' as <-. rewrite Hk in Hk'. injection Hk' as <-.
      congruence.
  - intros t' Hin l. destruct (in_concat_lookup waves t' Hin) as (w' & k' & wave' & Hw' & Hk').
    exact (nullifyOutPrimData_cell lds l w' k' wave' t' _ Hw' Hk' Htid).
Qed.

Lemma outPrimitiveLive_at_endOutCulling (lds : gmap (PrimShaderLdsRegion * Z) Z) (w k : nat)
    (wave : list Thread) (t : Thread) :
  waves !! w = Some wave -> wave !! k = Some t ->
  CreateICmpNE (outPrimData gs (ldsAtEndOutCulling cfg gs locs primShaderTable waves lds)
                  (threadIdInSubgroup (nggInputs t))) NullPrim
  = outPrimitiveLive lds t.
Proof.
  intros Hw Hk. rewrite (outPrimData_at_endOutCulling lds w k wave t Hw Hk).
  unfold outPrimitiveLive. destruct (outPrimitiveNullified lds t).
  - cbn [negb]. rewrite andb_false_r. unfold CreateICmpNE. now rewrite Z.eqb_refl.
  - cbn [negb]. now rewrite andb_true_r.
Qed.

Hypothesis Hverts : 1 <= verticesPerPrimitive gs <= 3.

(** The thread whose ID is [n] below the ID of an invocation. *)
Lemma thread_below (w k : nat) (wave : list Thread) (t : Thread) (i : Z) :
  waves !! w = Some wave -> wave !! k = Some t ->
  0 <= i <= threadIdInSubgroup (nggInputs t) ->
  exists (w' k' : nat) (wave' : list Thread) (t' : Thread),
    waves !! w' = Some wave' /\ wave' !! k' = Some t'
    /\ threadIdInSubgroup (nggInputs t') = threadIdInSubgroup (nggInputs t) - i.
Proof.
  intros Hw Hk Hi.
  destruct (thread_position cfg V P waves Hwf w k wave t Hw Hk) as [Hp _].
  apply lookup_lt_Some in Hp.
  destruct (thread_id cfg V P waves Hwf w k wave t Hw Hk) as [_ Htid].
  apply (thread_at cfg V P waves Hwf). lia.
Qed.

Lemma outVertDrawFlag_spec (lds : gmap (PrimShaderLdsRegion * Z) Z) (w k : nat)
    (wave : list Thread) (tv : Thread) :
  waves !! w = Some wave -> wave !! k = Some tv ->
  outVertDrawFlag gs (ldsAtEndOutCulling cfg gs locs primShaderTable waves lds) tv
  = (threadIdInSubgroup (nggInputs tv) <? V)
    && existsb (fun tp => outPrimitiveLive lds tp
                          && (threadIdInSubgroup (nggInputs tp)
                              <=? threadIdInSubgroup (nggInputs tv))
                          && (threadIdInSubgroup (nggInputs tv)
                              <? threadIdInSubgroup (nggInputs tp) + verticesPerPrimitive gs))
               (concat waves).
Proof.
  intros Hw Hk. destruct (thread_id cfg V P waves Hwf w k wave tv Hw Hk) as [_ Htid].
  destruct (wf_thread cfg V P waves Hwf w k wave tv Hw Hk) as (_ & _ & _ & _ & HV & _).
  pose proof (wf_counts cfg V P waves Hwf) as [HVb _].
  set (ldsB := ldsAtEndOutCulling cfg gs locs primShaderTable waves lds).
  set (N := threadIdInSubgroup (nggInputs tv)) in *.
  set (K := verticesPerPrimitive gs) in *.
  set (f := fun tp => outPrimitiveLive lds tp && (threadIdInSubgroup (nggInputs tp) <=? N)
                      && (N <? threadIdInSubgroup (nggInputs tp) + K)).
  assert (Hvalid : vertValidInSubgroup tv = (N <? V)).
  { unfold vertValidInSubgroup, CreateICmpULT. fold N. rewrite HV.
    now rewrite !wrap32_small by (change (2 ^ 32) with 4294967296; lia). }
  (* the draw flag contributed by the primitive that starts [i] below *)
  assert (Hback : forall i, 0 <= i <= N ->
            exists tp, In tp (concat waves) /\ threadIdInSubgroup (nggInputs tp) = N - i
                       /\ CreateICmpNE (outPrimData gs ldsB (N - i)) NullPrim
                          = outPrimitiveLive lds tp).
  { intros i Hi. destruct (thread_below w k wave tv i Hw Hk Hi) as (w' & k' & wave' & tp & Hw' & Hk' & E).
    exists tp. split; [exact (in_waves waves w' k' wave' tp Hw' Hk')|]. split; [exact E|].
    fold N in E. rewrite <- E. exact (outPrimitiveLive_at_endOutCulling lds w' k' wave' tp Hw' Hk'). }
  assert (Hflag : forall i, 0 <= i < 3 ->
            (if i <? K then (i <=? N) && CreateICmpNE (outPrimData gs ldsB (N - i)) NullPrim
             else false) = true -> existsb f (concat waves) = true).
  { intros i Hi Hc. destruct (Z.ltb_spec i K) as [HiK|]; [|discriminate].
    apply andb_true_iff in Hc as [HiN Hl]. apply Z.leb_le in HiN.
    destruct (Hback i ltac:(lia)) as (tp & Hin & E & Hlive).
    apply existsb_exists. exists tp. split; [exact Hin|]. unfold f. rewrite <- Hlive, Hl, E.
    cbn [andb]. apply andb_true_iff. split; [apply Z.leb_le|apply Z.ltb_lt]; lia. }
  assert (Hconv : forall tp, In tp (concat waves) -> f tp = true ->
            exists i, 0 <= i < 3
              /\ (if i <? K then (i <=? N) && CreateICmpNE (outPrimData gs ldsB (N - i)) NullPrim
                  else false) = true).
  { intros tp Hin Hf. unfold f in Hf. rewrite !andb_true_iff in Hf.
    destruct Hf as [[Hlive H1] H2]. apply Z.leb_le in H1. apply Z.ltb_lt in H2.
    destruct (in_concat_lookup waves tp Hin) as (w' & k' & wave' & Hw' & Hk').
    destruct (thread_id cfg V P waves Hwf w' k' wave' tp Hw' Hk') as [_ Htp].
    exists (N - threadIdInSubgroup (nggInputs tp)). split; [lia|].
    destruct (Z.ltb_spec (N - threadIdInSubgroup (nggInputs tp)) K); [|lia].
    replace (N - (N - threadIdInSubgroup (nggInputs tp)))
      with (threadIdInSubgroup (nggInputs tp)) by lia.
    unfold ldsB. rewrite (outPrimitiveLive_at_endOutCulling lds w' k' wave' tp Hw' Hk'), Hlive.
    rewrite andb_true_r. apply Z.leb_le. lia. }
  unfold outVertDrawFlag. rewrite Hvalid. fold N K ldsB.
  destruct (N <? V); [|reflexivity]. cbn [andb]. cbv zeta.
  assert (Hsub : forall i, 0 <= i < 3 ->
            CreateSelect (CreateICmpUGE N i)
              (CreateICmpNE (outPrimData gs ldsB (CreateSub N i)) NullPrim) false
            = (i <=? N) && CreateICmpNE (outPrimData gs ldsB (N - i)) NullPrim).
  { intros i Hi. unfold CreateSelect, CreateICmpUGE, CreateSub.
    rewrite (wrap32_small N), (wrap32_small i) by (change (2 ^ 32) with 4294967296; lia).
    destruct (Z.leb_spec i N); [|reflexivity]. cbn [andb].
    now rewrite (wrap32_small (N - i)) by (change (2 ^ 32) with 4294967296; lia). }
  rewrite (Hsub 1), (Hsub 2) by lia.
  set (d0 := CreateICmpNE (outPrimData gs ldsB N) NullPrim) in *.
  set (d1 := (1 <=? N) && CreateICmpNE (outPrimData gs ldsB (N - 1)) NullPrim) in *.
  set (d2 := (2 <=? N) && CreateICmpNE (outPrimData gs ldsB (N - 2)) NullPrim) in *.
  pose proof (Hflag 0 ltac:(lia)) as F0. pose proof (Hflag 1 ltac:(lia)) as F1.
  pose proof (Hflag 2 ltac:(lia)) as F2.
  replace (N - 0) with N in F0 by lia. fold d0 d1 d2 in F0, F1, F2.
  destruct (Z.ltb_spec 0 K) as [_|]; [|lia].
  assert (H0N : (0 <=? N) = true) by (apply Z.leb_le; lia). rewrite H0N in F0. cbn [andb] in F0.
  destruct (existsb f (concat waves)) eqn:He.
  - apply existsb_exists in He as (tp & Hin & Hf).
    destruct (Hconv tp Hin Hf) as (i & Hi & Hc).
    assert (Hcases : i = 0 \/ i = 1 \/ i = 2) by lia.
    destruct Hcases as [-> | [-> | ->] ].
    + replace (N - 0) with N in Hc by lia. fold d0 in Hc.
      destruct (0 <? K); [|discriminate]. rewrite H0N in Hc. cbn [andb] in Hc. rewrite Hc.
      destruct (1 <? K), (2 <? K); cbn [orb]; reflexivity.
    + fold d1 in Hc. destruct (1 <? K); [|discriminate]. rewrite Hc.
      destruct (2 <? K), d0; cbn [orb]; rewrite ?orb_true_r; reflexivity.
    + fold d2 in Hc. destruct (2 <? K); [|discriminate]. rewrite Hc.
      destruct (1 <? K); now rewrite orb_true_r.
  - destruct d0; [now specialize (F0 eq_refl)|].
    destruct (1 <? K).
    + destruct d1; [now specialize (F1 eq_refl)|]. cbn [orb].
      destruct (2 <? K); [|reflexivity].
      destruct d2; [now specialize (F2 eq_refl)|]. reflexivity.
    + destruct (2 <? K); [|reflexivity].
      destruct d2; [now specialize (F2 eq_refl)|]. reflexivity.
Qed.

(** A vertex of a GS is drawn iff a primitive that the cullers keep uses
    it.  At [.endCheckOutVertDrawFlag] the draw flag of the vertex of an
    invocation is set iff the vertex is one of the subgroup's vertices and
    one of the [verticesPerPrimitive] invocations up to it holds a
    primitive: its primitive data is not the null primitive after the GS
    and, in culling mode, the cullers did not cull it. *)
Theorem gs_vertex_drawn_iff_in_kept_primitive (lds : gmap (PrimShaderLdsRegion * Z) Z)
    (w k : nat) (wave : list Thread) (tv : Thread) :
  waves !! w = Some wave -> wave !! k = Some tv ->
  outVertDrawFlag gs (ldsAtEndOutCulling cfg gs locs primShaderTable waves lds) tv = true
  <-> threadIdInSubgroup (nggInputs tv) < V
      /\ exists tp,
           In tp (concat waves)
           /\ CreateICmpNE (outPrimData gs lds (threadIdInSubgroup (nggInputs tp))) NullPrim = true
           /\ (cullingMode cfg = true ->
               outPrimitiveCulledBy cfg gs locs primShaderTable
                 (ldsAtEndInitOutVertCount cfg gs waves lds) tp = false)
           /\ threadIdInSubgroup (nggInputs tp) <= threadIdInSubgroup (nggInputs tv)
              < threadIdInSubgroup (nggInputs tp) + verticesPerPrimitive gs.
Proof.
  intros Hw Hk. rewrite (outVertDrawFlag_spec lds w k wave tv Hw Hk).
  rewrite andb_true_iff, Z.ltb_lt, existsb_exists.
  split; intros [Hv (tp & Hin & Hs)]; (split; [exact Hv|]); exists tp; (split; [exact Hin|]).
  - rewrite !andb_true_iff in Hs. destruct Hs as [[Hlive H1] H2].
    apply Z.leb_le in H1. apply Z.ltb_lt in H2. unfold outPrimitiveLive in Hlive.
    apply andb_true_iff in Hlive as [Hl Hn]. apply negb_true_iff in Hn.
    split; [exact Hl|]. split; [|lia]. intros Hc. unfold outPrimitiveNullified in Hn.
    now rewrite Hc in Hn.
  - destruct Hs as (Hl & Hc & H1 & H2). unfold outPrimitiveLive, outPrimitiveNullified.
    rewrite Hl. cbn [andb].
    assert (Hn : cullingMode cfg
                 && outPrimitiveCulledBy cfg gs locs primShaderTable
                      (ldsAtEndInitOutVertCount cfg gs waves lds) tp = false).
    { destruct (cullingMode cfg); [|reflexivity]. cbn [andb]. now apply Hc. }
    rewrite Hn. cbn [negb andb]. apply andb_true_iff.
    split; [apply Z.leb_le|apply Z.ltb_lt]; lia.
Qed.

(** *** The vertex counts and the compacted indices *)

(** The draw flags of the invocations, in the order of their thread IDs,
    and the number of vertices drawn: in the subgroup, and in the waves
    before wave [n]. *)
Definition outDrawFlags (lds : gmap (PrimShaderLdsRegion * Z) Z) : list bool :=
  map (outVertDrawFlag gs (ldsAtEndOutCulling cfg gs locs primShaderTable waves lds))
      (concat waves).

Definition outVertsDrawn (lds : gmap (PrimShaderLdsRegion * Z) Z) : Z :=
  countTrue (outDrawFlags lds).

Definition outVertsDrawnBefore (lds : gmap (PrimShaderLdsRegion * Z) Z) (n : nat) : Z :=
  countTrue (map (outVertDrawFlag gs (ldsAtEndOutCulling cfg gs locs primShaderTable waves lds))
                 (concat (firstn n waves))).

Lemma outVertsDrawnBefore_bounds (lds : gmap (PrimShaderLdsRegion * Z) Z) (n : nat) :
  0 <= outVertsDrawnBefore lds n <= 256.
Proof.
  unfold outVertsDrawnBefore.
  match goal with |- 0 <= countTrue ?l <= _ => pose proof (countTrue_bounds l) as Hb end.
  rewrite length_map in Hb. pose proof (length_concat_waves cfg V P waves Hwf n). lia.
Qed.

Lemma outVertsDrawn_bounds (lds : gmap (PrimShaderLdsRegion * Z) Z) :
  0 <= outVertsDrawn lds <= 256.
Proof.
  pose proof (outVertsDrawnBefore_bounds lds (length waves)) as H.
  unfold outVertsDrawnBefore in H. now rewrite firstn_all in H.
Qed.

Lemma vertCounts_cell (n : Z) :
  0 <= n < 256 -> perThreadLdsOffset 1 n (vertCountsOffset gs) = n + 9 * rasterStream gs.
Proof.
  intros Hn. unfold perThreadLdsOffset, CreateAdd.
  cbn [Z.ltb Z.compare Pos.compare Pos.compare_cont]. rewrite vertCountsOffset_eq.
  unfold MaxGsStreams in Hrs. apply wrap32_small. change (2 ^ 32) with 4294967296. lia.
Qed.

Lemma small_counts : 0 <= waveCountInSubgroup cfg <= 8 /\ waveCountInSubgroup cfg < waveSize cfg
                     /\ 0 < waveSize cfg <= 64.
Proof. destruct (wf_waveCount cfg V P waves Hwf) as [[-> ->]|[-> ->]]; lia. Qed.

(** The counters [0 .. waveCountInSubgroup] of the rasterization stream
    are zero at the barrier of [.endInitOutVertCount] ... *)
Lemma vertCounts_at_endInitOutVertCount (lds : gmap (PrimShaderLdsRegion * Z) Z) (j : Z) :
  0 <= j <= waveCountInSubgroup cfg ->
  readValueFromLds (ldsAtEndInitOutVertCount cfg gs waves lds) VertexCounts
    (j + 9 * rasterStream gs) = 0.
Proof.
  intros Hj. pose proof small_counts as (Hc1 & Hc2 & Hc3).
  unfold ldsAtEndInitOutVertCount.
  rewrite (foldl_cell_flag _
             (fun t => waveValid cfg t && (threadIdInSubgroup (nggInputs t) =? j)) _ _ 0).
  - replace (existsb _ (concat waves)) with true; [reflexivity|].
    symmetry. apply existsb_exists.
    pose proof (wf_waves cfg V P waves Hwf) as [Hn _].
    destruct (lookup_lt_is_Some_2 waves 0 Hn) as [wave Hw].
    pose proof (wf_wave_length cfg V P waves Hwf _ _ Hw) as Hlen.
    assert (Hl : (Z.to_nat j < length wave)%nat) by lia.
    destruct (lookup_lt_is_Some_2 wave _ Hl) as [t Ht].
    destruct (thread_id cfg V P waves Hwf _ _ _ _ Hw Ht) as [Htid _].
    exists t. split; [exact (in_waves waves _ _ _ _ Hw Ht)|].
    assert (E : threadIdInSubgroup (nggInputs t) = j) by (rewrite Htid; lia).
    rewrite E, Z.eqb_refl, andb_true_r. unfold waveValid, CreateICmpULT. rewrite E.
    rewrite !wrap32_small by (change (2 ^ 32) with 4294967296; lia). apply Z.ltb_lt. lia.
  - intros t Hin l. destruct (in_concat_lookup waves t Hin) as (w & k & wave & Hw & Hk).
    destruct (thread_id cfg V P waves Hwf w k wave t Hw Hk) as [_ Htid].
    unfold initOutVertCount. destruct (waveValid cfg t); [|reflexivity]. cbn [andb].
    unfold writePerThreadDataToLds. rewrite vertCounts_cell by lia.
    destruct (Z.eqb_spec (threadIdInSubgroup (nggInputs t)) j) as [->|Hne].
    + apply read_write_same.
    + apply read_write_other. intros [=]. lia.
Qed.

(** ... and at the barrier before [.checkOutVertDrawFlag]. *)
Lemma vertCounts_at_endOutCulling (lds : gmap (PrimShaderLdsRegion * Z) Z) (j : Z) :
  0 <= j <= waveCountInSubgroup cfg ->
  readValueFromLds (ldsAtEndOutCulling cfg gs locs primShaderTable waves lds) VertexCounts
    (j + 9 * rasterStream gs) = 0.
Proof.
  intros Hj. unfold ldsAtEndOutCulling. cbv zeta.
  rewrite foldl_cell_keep; [now apply vertCounts_at_endInitOutVertCount|].
  intros t _ l. now apply nullifyOutPrimData_other_region.
Qed.

(** [.accumOutVertCount]: lane [k] of wave [w] adds the wave's count to the
    counter [w + k + 1]. *)
Lemma accumOutVertCount_step (c : Z) (w k : nat) (wave : list Thread) (t : Thread)
    (lds : gmap (PrimShaderLdsRegion * Z) Z) (j : Z) :
  waves !! w = Some wave -> wave !! k = Some t ->
  0 <= j <= waveCountInSubgroup cfg ->
  readValueFromLds (accumOutVertCount cfg gs c t lds) VertexCounts (j + 9 * rasterStream gs)
  = if j =? Z.of_nat w + Z.of_nat k + 1
    then CreateAdd (readValueFromLds lds VertexCounts (j + 9 * rasterStream gs)) c
    else readValueFromLds lds VertexCounts (j + 9 * rasterStream gs).
Proof.
  intros Hw Hk Hj.
  destruct (wf_thread cfg V P waves Hwf _ _ _ _ Hw Hk) as (_ & Htiw & Hwid & _).
  destruct (wf_lane_bound cfg V P waves Hwf _ _ _ _ Hw Hk) as [Hwb Hkb].
  pose proof small_counts as (Hc1 & Hc2 & Hc3). unfold MaxGsStreams in Hrs.
  unfold accumOutVertCount, accumThreadValid, CreateICmpULT, CreateSub, CreateAdd.
  rewrite Htiw, Hwid, vertCountsOffset_eq.
  assert (W : forall z, 0 <= z < 4294967296 -> wrap32 z = z)
    by (intros z Hz; apply wrap32_small; change (2 ^ 32) with 4294967296; lia).
  rewrite !(W (Z.of_nat k)), !(W (waveCountInSubgroup cfg - Z.of_nat w)) by lia.
  rewrite !(W (Z.of_nat w + Z.of_nat k)), !(W (Z.of_nat w + Z.of_nat k + 1)) by lia.
  rewrite !(W (Z.of_nat w + Z.of_nat k + 1 + 9 * rasterStream gs)) by lia.
  destruct (Z.ltb_spec (Z.of_nat k) (waveCountInSubgroup cfg - Z.of_nat w)) as [Hv|Hv].
  - destruct (Z.eqb_spec j (Z.of_nat w + Z.of_nat k + 1)) as [->|Hne].
    + fold (CreateAdd (readValueFromLds lds VertexCounts
                         (Z.of_nat w + Z.of_nat k + 1 + 9 * rasterStream gs)) c).
      apply read_atomicAdd_same.
    + apply read_atomicAdd_other. intros [=]. lia.
  - destruct (Z.eqb_spec j (Z.of_nat w + Z.of_nat k + 1)) as [->|Hne]; [lia|reflexivity].
Qed.

Lemma accumOutVertCount_lanes (c : Z) (w : nat) (wave : list Thread) (j : Z) :
  waves !! w = Some wave ->
  0 <= j <= waveCountInSubgroup cfg ->
  forall (ts : list Thread) (k : nat) (lds : gmap (PrimShaderLdsRegion * Z) Z),
    (forall i t, ts !! i = Some t -> wave !! (k + i)%nat = Some t) ->
    (k + length ts = length wave)%nat ->
    readValueFromLds (foldl (fun l t => accumOutVertCount cfg gs c t l) lds ts) VertexCounts
      (j + 9 * rasterStream gs)
    = if (Z.of_nat w <? j) && (Z.of_nat k <=? j - Z.of_nat w - 1)
      then CreateAdd (readValueFromLds lds VertexCounts (j + 9 * rasterStream gs)) c
      else readValueFromLds lds VertexCounts (j + 9 * rasterStream gs).
Proof.
  intros Hw Hj. pose proof (wf_wave_length cfg V P waves Hwf _ _ Hw) as Hlen.
  pose proof small_counts as (Hc1 & Hc2 & Hc3).
  induction ts as [|t ts IH]; intros k lds Hts Hk; cbn [foldl].
  - cbn [length] in Hk.
    destruct (Z.ltb_spec (Z.of_nat w) j); cbn [andb]; [|reflexivity].
    destruct (Z.leb_spec (Z.of_nat k) (j - Z.of_nat w - 1)); [lia|reflexivity].
  - cbn [length] in Hk.
    rewrite (IH (S k)).
    2:{ intros i u Hi. replace (S k + i)%nat with (k + S i)%nat by lia.
        apply Hts. exact Hi. }
    2:{ lia. }
    assert (Ht : wave !! k = Some t).
    { specialize (Hts 0%nat t eq_refl). now rewrite Nat.add_0_r in Hts. }
    rewrite (accumOutVertCount_step c w k wave t lds j Hw Ht Hj).
    destruct (Z.ltb_spec (Z.of_nat w) j); cbn [andb].
    + destruct (Z.eqb_spec j (Z.of_nat w + Z.of_nat k + 1)).
      * destruct (Z.leb_spec (Z.of_nat (S k)) (j - Z.of_nat w - 1)); [lia|].
        destruct (Z.leb_spec (Z.of_nat k) (j - Z.of_nat w - 1)); [reflexivity|lia].
      * destruct (Z.leb_spec (Z.of_nat (S k)) (j - Z.of_nat w - 1));
          destruct (Z.leb_spec (Z.of_nat k) (j - Z.of_nat w - 1)); try reflexivity; lia.
    + destruct (Z.eqb_spec j (Z.of_nat w + Z.of_nat k + 1)); [lia|reflexivity].
Qed.

Lemma accumOutVertCount_wave (c : Z) (w : nat) (wave : list Thread) (j : Z)
    (lds : gmap (PrimShaderLdsRegion * Z) Z) :
  waves !! w = Some wave ->
  0 <= j <= waveCountInSubgroup cfg ->
  readValueFromLds (foldl (fun l t => accumOutVertCount cfg gs c t l) lds wave) VertexCounts
    (j + 9 * rasterStream gs)
  = if Z.of_nat w <? j
    then CreateAdd (readValueFromLds lds VertexCounts (j + 9 * rasterStream gs)) c
    else readValueFromLds lds VertexCounts (j + 9 * rasterStream gs).
Proof.
  intros Hw Hj.
  rewrite (accumOutVertCount_lanes c w wave j Hw Hj wave 0%nat lds) by (auto; lia).
  destruct (Z.ltb_spec (Z.of_nat w) j); cbn [andb]; [|reflexivity].
  destruct (Z.leb_spec (Z.of_nat 0) (j - Z.of_nat w - 1)); [reflexivity|lia].
Qed.

Lemma outVertCountInWave_drawn (lds : gmap (PrimShaderLdsRegion * Z) Z) (w : nat)
    (wave : list Thread) :
  waves !! w = Some wave ->
  outVertCountInWave gs lds wave = countTrue (map (outVertDrawFlag gs lds) wave).
Proof.
  intros Hw. pose proof (wf_wave_length cfg V P waves Hwf _ _ Hw) as Hlen.
  pose proof small_counts as (Hc1 & Hc2 & Hc3).
  unfold outVertCountInWave, outDrawMask.
  rewrite ctpop_ballot_short by (rewrite length_map; lia).
  apply wrap32_small.
  pose proof (countTrue_bounds (map (outVertDrawFlag gs lds) wave)) as Hb.
  rewrite length_map in Hb. change (2 ^ 32) with 4294967296. lia.
Qed.

Lemma accumOutVertCount_waves (ldsB : gmap (PrimShaderLdsRegion * Z) Z) (j : Z) :
  0 <= j <= waveCountInSubgroup cfg ->
  forall (ws : list (list Thread)) (w0 : nat) (lds : gmap (PrimShaderLdsRegion * Z) Z),
    (forall i wave, ws !! i = Some wave -> waves !! (w0 + i)%nat = Some wave) ->
    0 <= readValueFromLds lds VertexCounts (j + 9 * rasterStream gs) < 2 ^ 32 ->
    readValueFromLds
      (foldl (fun l wave =>
                foldl (fun l t => accumOutVertCount cfg gs (outVertCountInWave gs ldsB wave) t l)
                      l wave)
             lds ws) VertexCounts (j + 9 * rasterStream gs)
    = wrap32 (readValueFromLds lds VertexCounts (j + 9 * rasterStream gs)
              + countTrue (map (outVertDrawFlag gs ldsB)
                             (concat (firstn (Z.to_nat j - w0) ws)))).
Proof.
  intros Hj. induction ws as [|wave ws IH]; intros w0 lds Hws Hr; cbn [foldl].
  - rewrite firstn_nil. cbn [concat map countTrue]. rewrite Z.add_0_r.
    symmetry. now apply wrap32_small.
  - assert (Hw : waves !! w0 = Some wave).
    { specialize (Hws 0%nat wave eq_refl). now rewrite Nat.add_0_r in Hws. }
    rewrite (IH (S w0)).
    2:{ intros i u Hi. replace (S w0 + i)%nat with (w0 + S i)%nat by lia.
        apply Hws. exact Hi. }
    2:{ rewrite (accumOutVertCount_wave _ w0 wave j lds Hw Hj).
        destruct (Z.of_nat w0 <? j); [apply wrap32_range|exact Hr]. }
    rewrite (accumOutVertCount_wave _ w0 wave j lds Hw Hj).
    rewrite (outVertCountInWave_drawn ldsB w0 wave Hw).
    destruct (Z.ltb_spec (Z.of_nat w0) j) as [Hlt|Hge].
    + replace (Z.to_nat j - w0)%nat with (S (Z.to_nat j - S w0)) by lia.
      change (firstn (S (Z.to_nat j - S w0)) (wave :: ws))
        with (wave :: firstn (Z.to_nat j - S w0) ws).
      cbn [concat]. rewrite map_app, countTrue_app.
      unfold CreateAdd, wrap32. rewrite Zplus_mod_idemp_l. f_equal. lia.
    + replace (Z.to_nat j - w0)%nat with 0%nat by lia.
      replace (Z.to_nat j - S w0)%nat with 0%nat by lia.
      now rewrite !firstn_O.
Qed.

(** At the barrier of [.endAccumOutVertCount] the counter [j] holds the
    number of vertices drawn in the waves before wave [j]. *)
Lemma vertCounts_at_endAccumOutVertCount (lds : gmap (PrimShaderLdsRegion * Z) Z) (j : Z) :
  0 <= j <= waveCountInSubgroup cfg ->
  readValueFromLds (ldsAtEndAccumOutVertCount cfg gs locs primShaderTable waves lds)
    VertexCounts (j + 9 * rasterStream gs)
  = outVertsDrawnBefore lds (Z.to_nat j).
Proof.
  intros Hj. unfold ldsAtEndAccumOutVertCount. cbv zeta.
  rewrite (accumOutVertCount_waves _ j Hj waves 0%nat) by
    (auto; rewrite vertCounts_at_endOutCulling by exact Hj; lia).
  rewrite vertCounts_at_endOutCulling by exact Hj.
  rewrite Z.add_0_l, Nat.sub_0_r. apply wrap32_small.
  destruct (outVertsDrawnBefore_bounds lds (Z.to_nat j)) as [Hb1 Hb2].
  split; [exact Hb1|]. eapply Z.le_lt_trans; [exact Hb2|reflexivity].
Qed.

Lemma outVertCountInWaves_lane (lds : gmap (PrimShaderLdsRegion * Z) Z) (w k : nat)
    (wave : list Thread) (t : Thread) :
  waves !! w = Some wave -> wave !! k = Some t ->
  outVertCountInWaves gs lds t
  = readValueFromLds lds VertexCounts (Z.of_nat k + 9 * rasterStream gs).
Proof.
  intros Hw Hk. destruct (wf_thread cfg V P waves Hwf _ _ _ _ Hw Hk) as (_ & Htiw & _).
  destruct (wf_lane_bound cfg V P waves Hwf _ _ _ _ Hw Hk) as [_ Hkb].
  pose proof small_counts as (Hc1 & Hc2 & Hc3).
  unfold outVertCountInWaves, readPerThreadDataFromLds. rewrite Htiw.
  now rewrite vertCounts_cell by lia.
Qed.

Lemma outVertCountInSubgroup_drawn (lds : gmap (PrimShaderLdsRegion * Z) Z) (w : nat)
    (wave : list Thread) :
  waves !! w = Some wave ->
  outVertCountInSubgroup cfg gs (ldsAtEndAccumOutVertCount cfg gs locs primShaderTable waves lds)
    wave
  = outVertsDrawn lds.
Proof.
  intros Hw. pose proof (wf_wave_length cfg V P waves Hwf _ _ Hw) as Hlen.
  pose proof small_counts as (Hc1 & Hc2 & Hc3).
  assert (Hl : (Z.to_nat (waveCountInSubgroup cfg) < length wave)%nat) by lia.
  destruct (lookup_lt_is_Some_2 wave _ Hl) as [t Ht].
  unfold outVertCountInSubgroup.
  rewrite <- (Z2Nat.id (waveCountInSubgroup cfg)) at 1 by lia.
  rewrite (readlane_lookup _ _ _ _ Ht), (outVertCountInWaves_lane _ _ _ _ _ Hw Ht).
  rewrite vertCounts_at_endAccumOutVertCount by lia.
  unfold outVertsDrawnBefore, outVertsDrawn, outDrawFlags.
  rewrite Nat2Z.id, firstn_all2; [reflexivity|].
  pose proof (wf_waves cfg V P waves Hwf). lia.
Qed.

Lemma outVertCountInPrevWaves_drawn (lds : gmap (PrimShaderLdsRegion * Z) Z) (w k : nat)
    (wave : list Thread) (t : Thread) :
  waves !! w = Some wave -> wave !! k = Some t ->
  outVertCountInPrevWaves gs
    (ldsAtEndAccumOutVertCount cfg gs locs primShaderTable waves lds) wave t
  = outVertsDrawnBefore lds w.
Proof.
  intros Hw Hk. pose proof (wf_wave_length cfg V P waves Hwf _ _ Hw) as Hlen.
  destruct (wf_thread cfg V P waves Hwf _ _ _ _ Hw Hk) as (_ & _ & Hwid & _).
  destruct (wf_lane_bound cfg V P waves Hwf _ _ _ _ Hw Hk) as [Hwb _].
  pose proof small_counts as (Hc1 & Hc2 & Hc3).
  assert (Hl : (w < length wave)%nat) by lia.
  destruct (lookup_lt_is_Some_2 wave _ Hl) as [u Hu].
  unfold outVertCountInPrevWaves. rewrite Hwid.
  rewrite (readlane_lookup _ _ _ _ Hu), (outVertCountInWaves_lane _ _ _ _ _ Hw Hu).
  rewrite vertCounts_at_endAccumOutVertCount by lia.
  now rewrite Nat2Z.id.
Qed.

Lemma hasCulledOutVertices_drawn (lds : gmap (PrimShaderLdsRegion * Z) Z) (w k : nat)
    (wave : list Thread) (t : Thread) :
  waves !! w = Some wave -> wave !! k = Some t ->
  hasCulledOutVertices cfg gs
    (ldsAtEndAccumOutVertCount cfg gs locs primShaderTable waves lds) wave t
  = (outVertsDrawn lds <? V).
Proof.
  intros Hw Hk. destruct (wf_thread cfg V P waves Hwf _ _ _ _ Hw Hk) as (_ & _ & _ & _ & HV & _).
  unfold hasCulledOutVertices, CreateICmpULT.
  rewrite (outVertCountInSubgroup_drawn lds w wave Hw), HV.
  pose proof (outVertsDrawn_bounds lds). pose proof (wf_counts cfg V P waves Hwf).
  now rewrite !wrap32_small by (change (2 ^ 32) with 4294967296; lia).
Qed.

Lemma outDrawFlags_lookup (lds : gmap (PrimShaderLdsRegion * Z) Z) (w k : nat)
    (wave : list Thread) (t : Thread) :
  waves !! w = Some wave -> wave !! k = Some t ->
  outDrawFlags lds !! Z.to_nat (threadIdInSubgroup (nggInputs t))
  = Some (outVertDrawFlag gs (ldsAtEndOutCulling cfg gs locs primShaderTable waves lds) t).
Proof.
  intros Hw Hk. unfold outDrawFlags. rewrite list_lookup_fmap.
  destruct (thread_position cfg V P waves Hwf w k wave t Hw Hk) as [-> _]. reflexivity.
Qed.

(** The compacted index of an invocation is the rank of its vertex among
    the drawn ones. *)
Lemma compactedOutVertexIndex_rank (lds : gmap (PrimShaderLdsRegion * Z) Z) (w k : nat)
    (wave : list Thread) (t : Thread) :
  waves !! w = Some wave -> wave !! k = Some t ->
  compactedOutVertexIndex cfg gs (ldsAtEndOutCulling cfg gs locs primShaderTable waves lds)
    (ldsAtEndAccumOutVertCount cfg gs locs primShaderTable waves lds) wave t
  = countTrue (firstn (Z.to_nat (threadIdInSubgroup (nggInputs t))) (outDrawFlags lds)).
Proof.
  intros Hw Hk.
  set (ldsB := ldsAtEndOutCulling cfg gs locs primShaderTable waves lds).
  destruct (wf_thread cfg V P waves Hwf _ _ _ _ Hw Hk) as (Hlane & _).
  destruct (wf_lane_bound cfg V P waves Hwf _ _ _ _ Hw Hk) as [_ Hkb].
  pose proof (wf_wave_length cfg V P waves Hwf _ _ Hw) as Hlen.
  pose proof small_counts as (Hc1 & Hc2 & Hc3).
  unfold compactedOutVertexIndex. cbv zeta. rewrite Hlane. unfold outDrawMask.
  pose proof (mbcnt_rank (waveSize cfg) (map (outVertDrawFlag gs ldsB) wave) k
                (wf_waveSize cfg V P waves Hwf)) as Hr.
  cbv zeta in Hr. rewrite Hr by (rewrite ?length_map; lia).
  rewrite (outVertCountInPrevWaves_drawn lds w k wave t Hw Hk).
  unfold outDrawFlags. fold ldsB. rewrite !firstn_map.
  destruct (thread_position cfg V P waves Hwf w k wave t Hw Hk) as [_ ->].
  rewrite map_app, countTrue_app.
  destruct (outVertsDrawnBefore_bounds lds w) as [Hb1 Hb2].
  unfold outVertsDrawnBefore in *. fold ldsB in Hb1, Hb2.
  pose proof (countTrue_bounds (map (outVertDrawFlag gs ldsB) (firstn k wave))) as Hb.
  rewrite length_map, length_firstn in Hb.
  set (A := countTrue (map (outVertDrawFlag gs ldsB) (concat (firstn w waves)))) in *.
  set (B := countTrue (map (outVertDrawFlag gs ldsB) (firstn k wave))) in *.
  unfold CreateAdd. apply wrap32_small. change (2 ^ 32) with 4294967296. lia.
Qed.

(** *** Vertex compaction *)

Lemma countTrue_firstn_succ (fl : list bool) (n : nat) (b : bool) :
  fl !! n = Some b -> countTrue (firstn (S n) fl) = countTrue (firstn n fl) + Z.b2z b.
Proof.
  revert n. induction fl as [|x fl IH]; intros n Hn; [discriminate|].
  destruct n as [|n].
  - cbn in Hn. injection Hn as ->. rewrite firstn_O.
    change (firstn 1 (b :: fl)) with (b :: firstn 0 fl). rewrite firstn_O.
    cbn [countTrue]. lia.
  - change (firstn (S (S n)) (x :: fl)) with (x :: firstn (S n) fl).
    change (firstn (S n) (x :: fl)) with (x :: firstn n fl).
    cbn [countTrue]. rewrite (IH n) by exact Hn. lia.
Qed.

(** The allocation request counts the drawn vertices.  The subgroup sends
    one GS_ALLOC_REQ message, from its first wave.  Its primitive count is
    the primitive count of the subgroup; its vertex count is, with vertex
    compaction, the number of vertices whose draw flag is set, and the
    vertex count of the subgroup without it. *)
Theorem gs_alloc_req_counts_drawn_vertices (lds : gmap (PrimShaderLdsRegion * Z) Z) :
  let ldsC := ldsAtEndAccumOutVertCount cfg gs locs primShaderTable waves lds in
  let vertCount := if compactVertex (pipelineState cfg) then outVertsDrawn lds else V in
  exists m0,
    concat (map (allocReqWithGs cfg gs ldsC) waves) = [m0]
    /\ m0 = Z.lor vertCount (Z.shiftl P 12)
    /\ createUBfe m0 0 11 = vertCount
    /\ createUBfe m0 12 11 = P.
Proof.
  intros ldsC vertCount.
  pose proof (wf_counts cfg V P waves Hwf) as [HV HP].
  pose proof (outVertsDrawn_bounds lds) as HD.
  assert (Hvc : 0 <= vertCount < 2 ^ 11).
  { change (2 ^ 11) with 2048. unfold vertCount.
    destruct (compactVertex (pipelineState cfg)); lia. }
  assert (Hpc : 0 <= P < 2 ^ 11) by (change (2 ^ 11) with 2048; lia).
  exists (sendGsAllocReqMessage P vertCount).
  split; [|exact (sendGsAllocReqMessage_fields P vertCount Hpc Hvc)].
  assert (Hone : forall w wave, waves !! w = Some wave ->
            allocReqWithGs cfg gs ldsC wave
            = if (w =? 0)%nat then [sendGsAllocReqMessage P vertCount] else []).
  { intros w wave Hw. pose proof (wf_wave_length cfg V P waves Hwf w wave Hw) as Hlen.
    pose proof (outVertCountInSubgroup_drawn lds w wave Hw) as Hcnt. fold ldsC in Hcnt.
    destruct wave as [|t0 rest].
    { cbn [length] in Hlen. destruct (wf_waveSize cfg V P waves Hwf); lia. }
    destruct (wf_thread cfg V P waves Hwf w 0 (t0 :: rest) t0 Hw eq_refl)
      as (_ & _ & Hwid & _ & Hvs & Hps).
    destruct (wf_lane_bound cfg V P waves Hwf w 0 (t0 :: rest) t0 Hw eq_refl) as [Hwb _].
    unfold allocReqWithGs, updatedVertCountInSubgroup, CreateICmpEQ.
    rewrite Hwid, Hps, Hvs, Hcnt. fold vertCount.
    rewrite !wrap32_small by (destruct (wf_waveCount cfg V P waves Hwf) as [[_ Hc]|[_ Hc]]; lia).
    destruct w; reflexivity. }
  assert (Hrest : forall (ws : list (list Thread)) (w0 : nat),
            (forall i wave, ws !! i = Some wave -> waves !! (S w0 + i)%nat = Some wave) ->
            concat (map (allocReqWithGs cfg gs ldsC) ws) = []).
  { induction ws as [|wave ws IH]; intros w0 Hws; [reflexivity|].
    cbn [map concat]. rewrite (Hone (S w0) wave).
    2:{ specialize (Hws 0%nat wave eq_refl). now rewrite Nat.add_0_r in Hws. }
    cbn [Nat.eqb app]. apply (IH (S w0)). intros i u Hi.
    replace (S (S w0) + i)%nat with (S w0 + S i)%nat by lia. apply Hws. exact Hi. }
  assert (Hall : forall ws : list (list Thread),
            (forall i wave, ws !! i = Some wave -> waves !! i = Some wave) ->
            (0 < length ws)%nat ->
            concat (map (allocReqWithGs cfg gs ldsC) ws) = [sendGsAllocReqMessage P vertCount]).
  { intros [|wave0 rest] Hws Hlen; [cbn [length] in Hlen; lia|].
    cbn [map concat]. rewrite (Hone 0%nat wave0 (Hws 0%nat wave0 eq_refl)). cbn [Nat.eqb].
    rewrite (Hrest rest 0%nat); [reflexivity|]. intros i u Hi. exact (Hws (S i) u Hi). }
  apply Hall; [auto|]. exact (proj1 (wf_waves cfg V P waves Hwf)).
Qed.

Lemma countTrue_zero (fl : list bool) (p : nat) (b : bool) :
  countTrue fl = 0 -> fl !! p = Some b -> b = false.
Proof.
  revert p. induction fl as [|x fl IH]; intros p H0 Hp; [discriminate|].
  cbn [countTrue] in H0. pose proof (countTrue_bounds fl) as Hb.
  destruct p as [|p]; cbn in Hp.
  - injection Hp as ->. destruct b; [cbn [Z.b2z] in H0; lia|reflexivity].
  - apply (IH p); [destruct x; cbn [Z.b2z] in H0; lia|exact Hp].
Qed.

(** Without vertex compaction a wave with vertices always exports.  Take
    an invocation whose thread ID is below the vertex count of the
    subgroup.  If no vertex of its wave is drawn, it does the dummy
    position export of [.emptyWaveExp] and runs no copy shader.  Otherwise
    it does no dummy export and runs the copy shader, on its own thread ID,
    iff its draw flag is set; and some invocation of the wave does so. *)
Theorem gs_wave_with_vertices_exports (lds : gmap (PrimShaderLdsRegion * Z) Z)
    (w k : nat) (wave : list Thread) (t : Thread) :
  compactVertex (pipelineState cfg) = false ->
  waves !! w = Some wave -> wave !! k = Some t ->
  threadIdInSubgroup (nggInputs t) < V ->
  let ldsB := ldsAtEndOutCulling cfg gs locs primShaderTable waves lds in
  let result := threadResultWithGs cfg gs locs primShaderTable waves lds wave in
  ((forall k' t', wave !! k' = Some t' -> outVertDrawFlag gs ldsB t' = false)
   /\ gsEmptyWaveExport (result t) = true
   /\ gsCopyShaderVertex (result t) = None)
  \/ ((exists k' t', wave !! k' = Some t'
         /\ gsCopyShaderVertex (result t') = Some (threadIdInSubgroup (nggInputs t')))
      /\ gsEmptyWaveExport (result t) = false
      /\ gsCopyShaderVertex (result t)
         = if outVertDrawFlag gs ldsB t then Some (threadIdInSubgroup (nggInputs t)) else None).
Proof.
  intros Hnc Hw Hk Hv ldsB result.
  pose proof (wf_counts cfg V P waves Hwf) as [HVb _].
  assert (Hres : forall k' t', wave !! k' = Some t' ->
            threadIdInSubgroup (nggInputs t') < V ->
            result t'
            = if countTrue (map (outVertDrawFlag gs ldsB) wave) =? 0
              then {| gsPrimitiveExport := gsPrimitiveExport (result t');
                      gsCopyShaderVertex := None; gsEmptyWaveExport := true |}
              else {| gsPrimitiveExport := gsPrimitiveExport (result t');
                      gsCopyShaderVertex :=
                        if outVertDrawFlag gs ldsB t'
                        then Some (threadIdInSubgroup (nggInputs t')) else None;
                      gsEmptyWaveExport := false |}).
  { intros k' t' Hk' Hv'.
    destruct (thread_id cfg V P waves Hwf w k' wave t' Hw Hk') as [_ Htid].
    destruct (wf_thread cfg V P waves Hwf w k' wave t' Hw Hk') as (_ & _ & _ & _ & HV & _).
    pose proof (countTrue_bounds (map (outVertDrawFlag gs ldsB) wave)) as Hb.
    pose proof (wf_wave_length cfg V P waves Hwf _ _ Hw) as Hlen.
    pose proof small_counts as (_ & _ & Hws).
    rewrite length_map in Hb.
    unfold result, threadResultWithGs, expPrimAndVert. fold ldsB.
    unfold updatedVertCountInSubgroup, runCopyShader. rewrite Hnc, HV. cbn [andb].
    unfold CreateICmpULT, CreateICmpEQ.
    rewrite (outVertCountInWave_drawn ldsB w wave Hw).
    rewrite !wrap32_small by (change (2 ^ 32) with 4294967296; lia).
    apply Z.ltb_lt in Hv'. rewrite Hv'.
    destruct (countTrue (map (outVertDrawFlag gs ldsB) wave) =? 0); reflexivity. }
  rewrite (Hres k t Hk Hv).
  destruct (Z.eqb_spec (countTrue (map (outVertDrawFlag gs ldsB) wave)) 0) as [H0|Hn].
  - left. split; [|split; reflexivity]. intros k' t' Hk'.
    apply (countTrue_zero _ k' _ H0). rewrite list_lookup_fmap, Hk'. reflexivity.
  - right. split; [|split; reflexivity].
    pose proof (countTrue_bounds (map (outVertDrawFlag gs ldsB) wave)) as Hb.
    destruct (countTrue_rank_exists (map (outVertDrawFlag gs ldsB) wave) 0 ltac:(lia))
      as (p & Hp & _).
    rewrite list_lookup_fmap in Hp.
    destruct (wave !! p) as [t'|] eqn:Hk'; [|discriminate]. cbn in Hp. injection Hp as Hd.
    exists p, t'. split; [exact Hk'|].
    assert (Hv' : threadIdInSubgroup (nggInputs t') < V).
    { destruct (thread_id cfg V P waves Hwf w p wave t' Hw Hk') as [_ Htid].
      destruct (wf_thread cfg V P waves Hwf w p wave t' Hw Hk') as (_ & _ & _ & _ & HV & _).
      unfold outVertDrawFlag in Hd.
      destruct (vertValidInSubgroup t') eqn:Hvv; [|discriminate].
      unfold vertValidInSubgroup, CreateICmpULT in Hvv. rewrite HV in Hvv.
      rewrite !wrap32_small in Hvv by (change (2 ^ 32) with 4294967296; lia).
      now apply Z.ltb_lt in Hvv. }
    rewrite (Hres p t' Hk' Hv'). cbn [gsCopyShaderVertex]. now rewrite Hd.
Qed.

Hypothesis Hcompact : compactVertex (pipelineState cfg) = true.

Lemma compactOutVertIdTaken_drawn (lds : gmap (PrimShaderLdsRegion * Z) Z) (w k : nat)
    (wave : list Thread) (t : Thread) :
  outVertsDrawn lds < V ->
  waves !! w = Some wave -> wave !! k = Some t ->
  compactOutVertIdTaken cfg gs (ldsAtEndOutCulling cfg gs locs primShaderTable waves lds)
    (ldsAtEndAccumOutVertCount cfg gs locs primShaderTable waves lds) wave t
  = outVertDrawFlag gs (ldsAtEndOutCulling cfg gs locs primShaderTable waves lds) t.
Proof.
  intros HD Hw Hk. unfold compactOutVertIdTaken. rewrite Hcompact.
  rewrite (hasCulledOutVertices_drawn lds w k wave t Hw Hk).
  apply Z.ltb_lt in HD. rewrite HD. cbn [andb]. apply andb_true_r.
Qed.

Lemma compactedOutVertexIndex_bounds (lds : gmap (PrimShaderLdsRegion * Z) Z) (w k : nat)
    (wave : list Thread) (t : Thread) :
  waves !! w = Some wave -> wave !! k = Some t ->
  0 <= compactedOutVertexIndex cfg gs (ldsAtEndOutCulling cfg gs locs primShaderTable waves lds)
         (ldsAtEndAccumOutVertCount cfg gs locs primShaderTable waves lds) wave t <= 256.
Proof.
  intros Hw Hk. rewrite (compactedOutVertexIndex_rank lds w k wave t Hw Hk).
  pose proof (countTrue_bounds
                (firstn (Z.to_nat (threadIdInSubgroup (nggInputs t))) (outDrawFlags lds))) as Hb.
  rewrite length_firstn in Hb.
  destruct (thread_id cfg V P waves Hwf w k wave t Hw Hk) as [_ Htid]. lia.
Qed.

Lemma compactOutVertId_indexMap (lds l : gmap (PrimShaderLdsRegion * Z) Z) (w k : nat)
    (wave : list Thread) (t : Thread) (c : Z) :
  outVertsDrawn lds < V ->
  waves !! w = Some wave -> wave !! k = Some t ->
  let ldsB := ldsAtEndOutCulling cfg gs locs primShaderTable waves lds in
  let ldsC := ldsAtEndAccumOutVertCount cfg gs locs primShaderTable waves lds in
  readValueFromLds (compactOutVertId cfg gs ldsB ldsC wave t l) VertexIndexMap c
  = if outVertDrawFlag gs ldsB t && (compactedOutVertexIndex cfg gs ldsB ldsC wave t =? c)
    then threadIdInSubgroup (nggInputs t)
    else readValueFromLds l VertexIndexMap c.
Proof.
  intros HD Hw Hk ldsB ldsC. unfold compactOutVertId, ldsB, ldsC.
  rewrite (compactOutVertIdTaken_drawn lds w k wave t HD Hw Hk). fold ldsB ldsC.
  destruct (outVertDrawFlag gs ldsB t); [|reflexivity]. cbn [andb].
  unfold writePerThreadDataToLds. rewrite perThreadLdsOffset_dword.
  pose proof (compactedOutVertexIndex_bounds lds w k wave t Hw Hk) as Hb.
  fold ldsB ldsC in Hb. rewrite wrap32_small by (change (2 ^ 32) with 4294967296; lia).
  destruct (Z.eqb_spec (compactedOutVertexIndex cfg gs ldsB ldsC wave t) c) as [->|Hn].
  - apply read_write_same.
  - apply read_write_other. congruence.
Qed.

(** Two drawn invocations with the same compacted index are the same. *)
Lemma compactedOutVertexIndex_inj (lds : gmap (PrimShaderLdsRegion * Z) Z) (w k w' k' : nat)
    (wave wave' : list Thread) (t t' : Thread) :
  waves !! w = Some wave -> wave !! k = Some t ->
  waves !! w' = Some wave' -> wave' !! k' = Some t' ->
  let ldsB := ldsAtEndOutCulling cfg gs locs primShaderTable waves lds in
  let ldsC := ldsAtEndAccumOutVertCount cfg gs locs primShaderTable waves lds in
  outVertDrawFlag gs ldsB t = true -> outVertDrawFlag gs ldsB t' = true ->
  compactedOutVertexIndex cfg gs ldsB ldsC wave t
  = compactedOutVertexIndex cfg gs ldsB ldsC wave' t' ->
  w = w' /\ k = k'.
Proof.
  intros Hw Hk Hw' Hk' ldsB ldsC Hd Hd' He. unfold ldsB, ldsC in He.
  rewrite (compactedOutVertexIndex_rank lds w k wave t Hw Hk) in He.
  rewrite (compactedOutVertexIndex_rank lds w' k' wave' t' Hw' Hk') in He.
  pose proof (outDrawFlags_lookup lds w k wave t Hw Hk) as Hl. fold ldsB in Hl.
  rewrite Hd in Hl.
  pose proof (outDrawFlags_lookup lds w' k' wave' t' Hw' Hk') as Hl'. fold ldsB in Hl'.
  rewrite Hd' in Hl'.
  pose proof (countTrue_rank_inj _ _ _ Hl Hl' He) as Hp.
  destruct (thread_id cfg V P waves Hwf w k wave t Hw Hk) as [_ Hb].
  destruct (thread_id cfg V P waves Hwf w' k' wave' t' Hw' Hk') as [_ Hb'].
  apply (thread_id_inj cfg V P waves Hwf w k w' k' wave wave' t t' Hw Hk Hw' Hk'). lia.
Qed.

(** At the barrier of [.endAllocReq] the vertex index map holds, at the
    compacted index of a drawn vertex, the thread ID of that vertex. *)
Lemma indexMap_at_endAllocReqWithGs (lds : gmap (PrimShaderLdsRegion * Z) Z) (w k : nat)
    (wave : list Thread) (tv : Thread) :
  outVertsDrawn lds < V ->
  waves !! w = Some wave -> wave !! k = Some tv ->
  let ldsB := ldsAtEndOutCulling cfg gs locs primShaderTable waves lds in
  let ldsC := ldsAtEndAccumOutVertCount cfg gs locs primShaderTable waves lds in
  outVertDrawFlag gs ldsB tv = true ->
  readValueFromLds (ldsAtEndAllocReqWithGs cfg gs locs primShaderTable waves lds) VertexIndexMap
    (compactedOutVertexIndex cfg gs ldsB ldsC wave tv)
  = threadIdInSubgroup (nggInputs tv).
Proof.
  intros HD Hw Hk ldsB ldsC Hd. unfold ldsAtEndAllocReqWithGs. cbv zeta. fold ldsB ldsC.
  rewrite (foldl2_cell_flag (fun wave' l t => compactOutVertId cfg gs ldsB ldsC wave' t l)
             (fun wave' t => outVertDrawFlag gs ldsB t
                             && (compactedOutVertexIndex cfg gs ldsB ldsC wave' t
                                 =? compactedOutVertexIndex cfg gs ldsB ldsC wave tv))
             _ _ (threadIdInSubgroup (nggInputs tv))).
  - rewrite (existsb_waves waves _ w k wave tv Hw Hk); [reflexivity|].
    now rewrite Hd, Z.eqb_refl.
  - intros wave' t Hwave' Ht l.
    destruct (in_waves_lookup waves wave' t Hwave' Ht) as (w' & k' & Hw' & Hk').
    pose proof (compactOutVertId_indexMap lds l w' k' wave' t
                  (compactedOutVertexIndex cfg gs ldsB ldsC wave tv) HD Hw' Hk') as Hs.
    cbv zeta in Hs. fold ldsB ldsC in Hs. rewrite Hs.
    destruct (outVertDrawFlag gs ldsB t) eqn:Hdt; [|reflexivity]. cbn [andb].
    destruct (Z.eqb_spec (compactedOutVertexIndex cfg gs ldsB ldsC wave' t)
                         (compactedOutVertexIndex cfg gs ldsB ldsC wave tv)) as [E|E];
      [|reflexivity].
    destruct (compactedOutVertexIndex_inj lds w' k' w k wave' wave t tv Hw' Hk' Hw Hk Hdt Hd E)
      as [-> ->].
    rewrite Hw in Hw'. injection Hw' as <-. rewrite Hk in Hk'. now injection Hk' as <-.
Qed.

(** The primitive data is not written after the culling. *)
Lemma outPrimData_at_endAllocReqWithGs (lds : gmap (PrimShaderLdsRegion * Z) Z) (n : Z) :
  outPrimData gs (ldsAtEndAllocReqWithGs cfg gs locs primShaderTable waves lds) n
  = outPrimData gs (ldsAtEndOutCulling cfg gs locs primShaderTable waves lds) n.
Proof.
  unfold outPrimData, readPerThreadDataFromLds, ldsAtEndAllocReqWithGs. cbv zeta.
  rewrite foldl_cell_keep.
  - unfold ldsAtEndAccumOutVertCount. cbv zeta. apply foldl_cell_keep.
    intros wave _ l. apply foldl_cell_keep. intros t _ l'.
    unfold accumOutVertCount. destruct (accumThreadValid cfg t); [|reflexivity].
    apply read_atomicAdd_other. congruence.
  - intros wave _ l. apply foldl_cell_keep. intros t _ l'.
    unfold compactOutVertId, writePerThreadDataToLds.
    destruct (compactOutVertIdTaken cfg gs _ _ wave t); [|reflexivity].
    apply read_write_other. congruence.
Qed.

Hypothesis Hthreads : V <= Z.of_nat (length (concat waves)).

(** The vertices of a kept primitive are drawn ... *)
Lemma kept_primitive_vertex_drawn (lds : gmap (PrimShaderLdsRegion * Z) Z) (w k : nat)
    (wave : list Thread) (tp : Thread) (i : Z) :
  waves !! w = Some wave -> wave !! k = Some tp ->
  outPrimitiveLive lds tp = true ->
  0 <= i < verticesPerPrimitive gs ->
  threadIdInSubgroup (nggInputs tp) + i < V ->
  exists (w' k' : nat) (wave' : list Thread) (tv : Thread),
    waves !! w' = Some wave' /\ wave' !! k' = Some tv
    /\ threadIdInSubgroup (nggInputs tv) = threadIdInSubgroup (nggInputs tp) + i
    /\ outVertDrawFlag gs (ldsAtEndOutCulling cfg gs locs primShaderTable waves lds) tv = true.
Proof.
  intros Hw Hk Hlive Hi HV.
  destruct (thread_id cfg V P waves Hwf w k wave tp Hw Hk) as [_ Htid].
  destruct (thread_at cfg V P waves Hwf (threadIdInSubgroup (nggInputs tp) + i))
    as (w' & k' & wave' & tv & Hw' & Hk' & E); [lia|].
  exists w', k', wave', tv. split; [exact Hw'|]. split; [exact Hk'|]. split; [exact E|].
  rewrite (outVertDrawFlag_spec lds w' k' wave' tv Hw' Hk'), E.
  apply andb_true_iff. split; [apply Z.ltb_lt; lia|].
  apply existsb_exists. exists tp. split; [exact (in_waves waves w k wave tp Hw Hk)|].
  rewrite Hlive. cbn [andb]. apply andb_true_iff.
  split; [apply Z.leb_le|apply Z.ltb_lt]; lia.
Qed.

(** ... and get consecutive compacted indices. *)
Lemma kept_primitive_vertex_rank (lds : gmap (PrimShaderLdsRegion * Z) Z) (w k : nat)
    (wave : list Thread) (tp : Thread) (i : nat) :
  waves !! w = Some wave -> wave !! k = Some tp ->
  outPrimitiveLive lds tp = true ->
  Z.of_nat i < verticesPerPrimitive gs ->
  threadIdInSubgroup (nggInputs tp) + Z.of_nat i < V ->
  countTrue (firstn (Z.to_nat (threadIdInSubgroup (nggInputs tp)) + i) (outDrawFlags lds))
  = countTrue (firstn (Z.to_nat (threadIdInSubgroup (nggInputs tp))) (outDrawFlags lds))
    + Z.of_nat i.
Proof.
  intros Hw Hk Hlive. destruct (thread_id cfg V P waves Hwf w k wave tp Hw Hk) as [_ Htid].
  induction i as [|i IH]; intros Hi HV.
  - rewrite Nat.add_0_r. cbn. lia.
  - destruct (kept_primitive_vertex_drawn lds w k wave tp (Z.of_nat i) Hw Hk Hlive
                ltac:(lia) ltac:(lia)) as (w' & k' & wave' & tv & Hw' & Hk' & E & Hd).
    pose proof (outDrawFlags_lookup lds w' k' wave' tv Hw' Hk') as Hl.
    rewrite Hd, E in Hl.
    replace (Z.to_nat (threadIdInSubgroup (nggInputs tp) + Z.of_nat i))
      with (Z.to_nat (threadIdInSubgroup (nggInputs tp)) + i)%nat in Hl by lia.
    replace (Z.to_nat (threadIdInSubgroup (nggInputs tp)) + S i)%nat
      with (S (Z.to_nat (threadIdInSubgroup (nggInputs tp)) + i)) by lia.
    rewrite (countTrue_firstn_succ _ _ true Hl), IH by lia. cbn [Z.b2z]. lia.
Qed.

Lemma kept_primitive_vertices (lds : gmap (PrimShaderLdsRegion * Z) Z) (w k : nat)
    (wave : list Thread) (tp : Thread) (i : Z) :
  outVertsDrawn lds < V ->
  waves !! w = Some wave -> wave !! k = Some tp ->
  outPrimitiveLive lds tp = true ->
  0 <= i < verticesPerPrimitive gs ->
  threadIdInSubgroup (nggInputs tp) + i < V ->
  let ldsB := ldsAtEndOutCulling cfg gs locs primShaderTable waves lds in
  let ldsC := ldsAtEndAccumOutVertCount cfg gs locs primShaderTable waves lds in
  let c := compactedOutVertexIndex cfg gs ldsB ldsC wave tp in
  0 <= c /\ c + i < outVertsDrawn lds
  /\ readPerThreadDataFromLds (ldsAtEndAllocReqWithGs cfg gs locs primShaderTable waves lds)
       (c + i) VertexIndexMap 0
     = threadIdInSubgroup (nggInputs tp) + i.
Proof.
  intros HD Hw Hk Hlive Hi HV ldsB ldsC c.
  destruct (thread_id cfg V P waves Hwf w k wave tp Hw Hk) as [_ Htid].
  destruct (kept_primitive_vertex_drawn lds w k wave tp i Hw Hk Hlive Hi HV)
    as (w' & k' & wave' & tv & Hw' & Hk' & E & Hd).
  assert (Hc : compactedOutVertexIndex cfg gs ldsB ldsC wave' tv = c + i).
  { unfold c, ldsB, ldsC.
    rewrite (compactedOutVertexIndex_rank lds w' k' wave' tv Hw' Hk').
    rewrite (compactedOutVertexIndex_rank lds w k wave tp Hw Hk).
    rewrite E. pose proof (kept_primitive_vertex_rank lds w k wave tp (Z.to_nat i) Hw Hk Hlive
                             ltac:(lia) ltac:(lia)) as Hr.
    rewrite Z2Nat.id in Hr by lia. rewrite <- Hr. f_equal. f_equal. lia. }
  pose proof (compactedOutVertexIndex_bounds lds w k wave tp Hw Hk) as [Hc0 _]. fold ldsB ldsC c in Hc0.
  split; [exact Hc0|]. split.
  - rewrite <- Hc. unfold ldsB, ldsC.
    rewrite (compactedOutVertexIndex_rank lds w' k' wave' tv Hw' Hk').
    apply countTrue_rank_bound.
    rewrite (outDrawFlags_lookup lds w' k' wave' tv Hw' Hk'). now rewrite Hd.
  - unfold readPerThreadDataFromLds. rewrite perThreadLdsOffset_dword.
    pose proof (compactedOutVertexIndex_bounds lds w' k' wave' tv Hw' Hk') as Hb.
    fold ldsB ldsC in Hb. rewrite Hc in Hb.
    rewrite wrap32_small by (change (2 ^ 32) with 4294967296; lia).
    rewrite <- Hc, <- E. exact (indexMap_at_endAllocReqWithGs lds w' k' wave' tv HD Hw' Hk' Hd).
Qed.

(** The connectivity word of a triangle as [exportPrimitiveWithGs] builds
    it is the word with the three 9-bit fields. *)
Lemma strip_connectivity_word (v0 v1 v2 : Z) :
  0 <= v0 < 512 -> 0 <= v1 < 512 -> 0 <= v2 < 512 ->
  CreateOr (CreateShl (CreateOr (CreateShl v2 10) v1) 10) v0
  = Z.lor (Z.lor (Z.shiftl v2 20) (Z.shiftl v1 10)) v0.
Proof.
  intros H0 H1 H2. unfold CreateOr, CreateShl.
  assert (W : forall z, 0 <= z < 4294967296 -> wrap32 z = z)
    by (intros z Hz; apply wrap32_small; change (2 ^ 32) with 4294967296; lia).
  assert (S10 : forall z, Z.shiftl z 10 = z * 1024)
    by (intros z; now rewrite Z.shiftl_mul_pow2 by lia).
  assert (E1 : Z.lor (Z.shiftl v2 10) v1 = v2 * 1024 + v1)
    by (rewrite lor_shiftl_add by (change (2 ^ 10) with 1024; lia); reflexivity).
  assert (E2 : Z.lor (Z.shiftl v2 20) (Z.shiftl v1 10) = (v2 * 1024 + v1) * 1024).
  { rewrite lor_shiftl_add by (rewrite ?S10; change (2 ^ 20) with 1048576; lia).
    rewrite S10. change (2 ^ 20) with 1048576. lia. }
  rewrite E2. rewrite (W (Z.shiftl v2 10)) by (rewrite S10; lia).
  rewrite E1. rewrite (W (Z.shiftl (v2 * 1024 + v1) 10)) by (rewrite S10; lia).
  now rewrite S10.
Qed.

(** Compaction keeps a GS triangle on its vertices.  With vertex
    compaction, fewer vertices drawn than the subgroup has and an
    invocation for every vertex, the invocation [N] that holds a triangle
    the cullers keep exports the connectivity word of the vertices
    [c], [c + 1] and [c + 2], the last two swapped when the winding of the
    primitive data is set, where [c] is the compacted index of its own
    vertex; these three are compacted indices of drawn vertices, and the
    vertex index map, which the copy shader of the invocations [c],
    [c + 1], [c + 2] reads, holds there [N], [N + 1] and [N + 2]. *)
Theorem gs_compaction_keeps_strip_vertices (lds : gmap (PrimShaderLdsRegion * Z) Z)
    (w k : nat) (wave : list Thread) (tp : Thread) :
  outputPrimitive gs = TriangleStrip -> verticesPerPrimitive gs = 3 ->
  outVertsDrawn lds < V ->
  waves !! w = Some wave -> wave !! k = Some tp ->
  primValidInSubgroup tp = true ->
  CreateICmpNE (outPrimData gs lds (threadIdInSubgroup (nggInputs tp))) NullPrim = true ->
  (cullingMode cfg = true ->
   outPrimitiveCulledBy cfg gs locs primShaderTable (ldsAtEndInitOutVertCount cfg gs waves lds) tp
   = false) ->
  threadIdInSubgroup (nggInputs tp) + 2 < V ->
  let ldsD := ldsAtEndAllocReqWithGs cfg gs locs primShaderTable waves lds in
  let winding := CreateICmpNE (outPrimData gs lds (threadIdInSubgroup (nggInputs tp))) 0 in
  exists c,
    gsPrimitiveExport (threadResultWithGs cfg gs locs primShaderTable waves lds wave tp)
    = Some (Z.lor (Z.lor (Z.shiftl (c + if winding then 1 else 2) 20)
                         (Z.shiftl (c + if winding then 2 else 1) 10)) c)
    /\ 0 <= c /\ c + 2 < outVertsDrawn lds
    /\ forall i, 0 <= i < 3 ->
         readPerThreadDataFromLds ldsD (c + i) VertexIndexMap 0
         = threadIdInSubgroup (nggInputs tp) + i.
Proof.
  intros Hstrip HK HD Hw Hk Hpv Hprim Hkept HV ldsD winding.
  set (ldsB := ldsAtEndOutCulling cfg gs locs primShaderTable waves lds).
  set (ldsC := ldsAtEndAccumOutVertCount cfg gs locs primShaderTable waves lds).
  set (N := threadIdInSubgroup (nggInputs tp)) in *.
  assert (Hnull : outPrimitiveNullified lds tp = false).
  { unfold outPrimitiveNullified. destruct (cullingMode cfg); [|reflexivity].
    cbn [andb]. now apply Hkept. }
  assert (Hlive : outPrimitiveLive lds tp = true).
  { unfold outPrimitiveLive. fold N. now rewrite Hprim, Hnull. }
  pose proof (fun i Hi Hv => kept_primitive_vertices lds w k wave tp i HD Hw Hk Hlive Hi Hv)
    as Hvert.
  cbv zeta in Hvert. fold ldsB ldsC ldsD N in Hvert. rewrite HK in Hvert.
  set (c := compactedOutVertexIndex cfg gs ldsB ldsC wave tp) in *.
  destruct (Hvert 0 ltac:(lia) ltac:(lia)) as (Hc0 & _ & _).
  destruct (Hvert 2 ltac:(lia) ltac:(lia)) as (_ & Hc2 & _).
  pose proof (outVertsDrawn_bounds lds) as HDb.
  exists c. split; [|split; [exact Hc0|split; [exact Hc2|]]].
  - (* the exported word *)
    destruct (kept_primitive_vertex_drawn lds w k wave tp 0 Hw Hk Hlive ltac:(lia) ltac:(lia))
      as (w' & k' & wave' & tv & Hw' & Hk' & E & Hd).
    rewrite Z.add_0_r in E.
    destruct (thread_id_inj cfg V P waves Hwf w' k' w k wave' wave tv tp Hw' Hk' Hw Hk E)
      as [-> ->].
    rewrite Hw in Hw'. injection Hw' as Ew. subst wave'.
    rewrite Hk in Hk'. injection Hk' as Et. subst tv. fold ldsB in Hd.
    unfold threadResultWithGs, expPrimAndVert. fold ldsB ldsC ldsD N.
    rewrite Hpv, Hcompact. cbn [gsPrimitiveExport]. f_equal.
    unfold compactedVertexIndexPhi. unfold ldsB, ldsC.
    rewrite (compactOutVertIdTaken_drawn lds w k wave tp HD Hw Hk). fold ldsB ldsC.
    rewrite Hd. fold c.
    unfold exportPrimitiveWithGs. rewrite Hstrip.
    change (readPerThreadDataFromLds ldsD N PrimitiveData
              (wrap32 (NggMaxThreadsPerSubgroup * rasterStream gs)))
      with (outPrimData gs ldsD N).
    unfold ldsD. rewrite outPrimData_at_endAllocReqWithGs.
    unfold N. rewrite (outPrimData_at_endOutCulling lds w k wave tp Hw Hk), Hnull. fold N.
    rewrite Hprim. fold winding. unfold CreateSelect, CreateAdd.
    rewrite !wrap32_small by (change (2 ^ 32) with 4294967296; lia).
    destruct winding; apply strip_connectivity_word; lia.
  - intros i Hi. now destruct (Hvert i Hi ltac:(lia)) as (_ & _ & Hm).
Qed.

(** The copy shader runs on the drawn vertices.  With vertex compaction
    and fewer vertices drawn than the subgroup has, the invocation whose
    thread ID [c] is below the number of drawn vertices calls the copy
    shader with the thread ID of the drawn vertex whose compacted index is
    [c], which it reads from the vertex index map; the other invocations
    export no vertex. *)
Theorem gs_copy_shader_runs_on_drawn_vertices (lds : gmap (PrimShaderLdsRegion * Z) Z)
    (w k : nat) (wave : list Thread) (tc : Thread) :
  outVertsDrawn lds < V ->
  waves !! w = Some wave -> wave !! k = Some tc ->
  let ldsB := ldsAtEndOutCulling cfg gs locs primShaderTable waves lds in
  let ldsC := ldsAtEndAccumOutVertCount cfg gs locs primShaderTable waves lds in
  let r := threadResultWithGs cfg gs locs primShaderTable waves lds wave tc in
  gsEmptyWaveExport r = false
  /\ (outVertsDrawn lds <= threadIdInSubgroup (nggInputs tc) -> gsCopyShaderVertex r = None)
  /\ (threadIdInSubgroup (nggInputs tc) < outVertsDrawn lds ->
      exists (wu ku : nat) (waveu : list Thread) (tu : Thread),
        waves !! wu = Some waveu /\ waveu !! ku = Some tu
        /\ outVertDrawFlag gs ldsB tu = true
        /\ compactedOutVertexIndex cfg gs ldsB ldsC waveu tu = threadIdInSubgroup (nggInputs tc)
        /\ gsCopyShaderVertex r = Some (threadIdInSubgroup (nggInputs tu))).
Proof.
  intros HD Hw Hk ldsB ldsC r.
  destruct (thread_id cfg V P waves Hwf w k wave tc Hw Hk) as [_ Htid].
  pose proof (outVertsDrawn_bounds lds) as HDb.
  set (c := threadIdInSubgroup (nggInputs tc)) in *.
  assert (Hr : r = {| gsPrimitiveExport := gsPrimitiveExport r;
                      gsCopyShaderVertex :=
                        if c <? outVertsDrawn lds
                        then Some (readPerThreadDataFromLds
                                     (ldsAtEndAllocReqWithGs cfg gs locs primShaderTable waves lds)
                                     c VertexIndexMap 0)
                        else None;
                      gsEmptyWaveExport := false |}).
  { unfold r, threadResultWithGs, expPrimAndVert. fold ldsB ldsC c. rewrite Hcompact.
    cbn [gsPrimitiveExport]. f_equal.
    unfold updatedVertCountInSubgroup. rewrite Hcompact. unfold ldsC.
    rewrite (outVertCountInSubgroup_drawn lds w wave Hw). unfold CreateICmpULT.
    rewrite !wrap32_small by (change (2 ^ 32) with 4294967296; lia).
    destruct (c <? outVertsDrawn lds); [|reflexivity]. f_equal.
    unfold runCopyShader. rewrite Hcompact.
    rewrite (hasCulledOutVertices_drawn lds w k wave tc Hw Hk).
    apply Z.ltb_lt in HD. now rewrite HD. }
  rewrite Hr. cbn [gsEmptyWaveExport gsCopyShaderVertex]. split; [reflexivity|]. split.
  - intros Hc. destruct (Z.ltb_spec c (outVertsDrawn lds)); [lia|reflexivity].
  - intros Hc. destruct (Z.ltb_spec c (outVertsDrawn lds)); [|lia].
    destruct (countTrue_rank_exists (outDrawFlags lds) c ltac:(unfold outVertsDrawn in *; lia))
      as (p & Hp & Hrank).
    pose proof (lookup_lt_Some _ _ _ Hp) as Hplen. unfold outDrawFlags in Hplen.
    rewrite length_map in Hplen.
    destruct (thread_at cfg V P waves Hwf (Z.of_nat p) ltac:(lia))
      as (wu & ku & waveu & tu & Hwu & Hku & E).
    pose proof (outDrawFlags_lookup lds wu ku waveu tu Hwu Hku) as Hl.
    rewrite E, Nat2Z.id, Hp in Hl. injection Hl as Hd. symmetry in Hd. fold ldsB in Hd.
    assert (Hidx : compactedOutVertexIndex cfg gs ldsB ldsC waveu tu = c).
    { unfold ldsB, ldsC. rewrite (compactedOutVertexIndex_rank lds wu ku waveu tu Hwu Hku).
      now rewrite E, Nat2Z.id. }
    exists wu, ku, waveu, tu. split; [exact Hwu|]. split; [exact Hku|].
    split; [exact Hd|]. split; [exact Hidx|]. f_equal.
    unfold readPerThreadDataFromLds. rewrite perThreadLdsOffset_dword.
    rewrite wrap32_small by (change (2 ^ 32) with 4294967296; lia).
    rewrite <- Hidx. exact (indexMap_at_endAllocReqWithGs lds wu ku waveu tu HD Hwu Hku Hd).
Qed.

End GsPath.

(** *** A subgroup of a geometry shader (exact arithmetic) *)

(** The pipeline of [exampleGsState] in wave32 with the frustum culler. *)
Definition exampleGsConfig : ShaderConfig :=
  let c := exampleConfig true true false in
  {| waveSize := waveSize c;
     pipelineState := exampleGsState;
     nggControl := nggControl c;
     cbLayoutTable := cbLayoutTable c;
     builtInUsage := builtInUsage c;
     xfbOutputExpCount := xfbOutputExpCount c;
     waNggCullingNoEmptySubgroups := waNggCullingNoEmptySubgroups c;
     constPositionZ := constPositionZ c;
     NggSmallSubgroupThreshold := NggSmallSubgroupThreshold c;
     provokingVertexFirst := provokingVertexFirst c;
     streamOut := streamOut c |}.

(** The position is the output at location 0; there is no cull distance. *)
Definition exampleGsLocations : GsBuiltInLocations :=
  {| positionLoc := 0; cullDistanceLoc := 1; gsCullDistance := 0 |}.

(** 40 output vertices and as many primitive slots in two waves. *)
Definition exampleGsGroupInfo : Z := Z.lor (Z.shiftl 40 22) (Z.shiftl 40 12).

Definition exampleGsWaveInfos : list Z :=
  [Z.lor (Z.shiftl 32 8) 32; Z.lor (Z.shiftl 1 24) (Z.lor (Z.shiftl 8 8) 8)].

Definition exampleGsThread (w l : nat) : Thread (SF := exactFloats) :=
  entryThread exampleGsConfig exampleGsGroupInfo (nth w exampleGsWaveInfos 0) l
    (exampleLane (0, 0, 0) exampleInside).

Definition exampleGsWave (w : nat) : list (Thread (SF := exactFloats)) :=
  entryWave exampleGsConfig exampleGsGroupInfo
    (nth w exampleGsWaveInfos 0, exampleWave [] [] 0).

Definition exampleGsSubgroup : list (list (Thread (SF := exactFloats))) :=
  [exampleGsWave 0; exampleGsWave 1].

(** The memory after the GS: triangles on the vertices 2, 3, 4 and, with
    the other winding, 3, 5, 4, a triangle on the vertices 10, 11, 12, which
    lie outside the right clip plane, and a triangle on the vertices 33, 34,
    35. *)
Definition exampleGsPrimData (threadId : Z) : Z :=
  if (threadId =? 2) || (threadId =? 10) || (threadId =? 33) then 0
  else if threadId =? 3 then 1
  else NullPrim.

Definition exampleGsPosition (vertexIndex : Z) : Vec4 Q :=
  if (10 <=? vertexIndex) && (vertexIndex <=? 12) then exampleOutside0 else exampleInside.

Definition exampleGsLds : gmap (PrimShaderLdsRegion * Z) Z :=
  foldr (fun v lds =>
           let p := positionBits (SF := exactFloats) (exampleGsPosition v) in
           writeDwordsToLds [vecX p; vecY p; vecZ p; vecW p]
             (GsVsRing, calcVertexItemOffset exampleGeometry 0 v)
             (writePerThreadDataToLds (exampleGsPrimData v) v PrimitiveData 0 lds))
        ∅ (seqZ 0 64).

Lemma gs_vertex_drawn_iff_in_kept_primitive_witness :
  let cfg := exampleGsConfig in
  let waves := exampleGsSubgroup in
  let tv := exampleGsThread 0 5 in
  outVertDrawFlag exampleGeometry
    (ldsAtEndOutCulling (SF := exactFloats) cfg exampleGeometry exampleGsLocations
       examplePrimShaderTable waves exampleGsLds) tv = true
  /\ exists tp,
       In tp (concat waves)
       /\ CreateICmpNE (outPrimData exampleGeometry exampleGsLds
                          (threadIdInSubgroup (nggInputs tp))) NullPrim = true
       /\ outPrimitiveCulledBy (SF := exactFloats) cfg exampleGeometry exampleGsLocations
            examplePrimShaderTable
            (ldsAtEndInitOutVertCount cfg exampleGeometry waves exampleGsLds) tp = false
       /\ threadIdInSubgroup (nggInputs tp) <= 5 < threadIdInSubgroup (nggInputs tp) + 3.
Proof.
  intros cfg waves tv.
  assert (Hflag : outVertDrawFlag exampleGeometry
                    (ldsAtEndOutCulling (SF := exactFloats) cfg exampleGeometry
                       exampleGsLocations examplePrimShaderTable waves exampleGsLds) tv = true)
    by (vm_compute; reflexivity).
  split; [exact Hflag|].
  destruct (proj1 (gs_vertex_drawn_iff_in_kept_primitive (SF := exactFloats) cfg
                     exampleGeometry exampleGsLocations examplePrimShaderTable 40 40 waves
                     ltac:(vm_compute; reflexivity)
                     ltac:(unfold exampleGeometry, MaxGsStreams; cbn; lia)
                     ltac:(unfold exampleGeometry; cbn; lia)
                     exampleGsLds 0%nat 5%nat (exampleGsWave 0) tv eq_refl eq_refl) Hflag)
    as (_ & tp & Hin & Hprim & Hkept & Hrange).
  exists tp. split; [exact Hin|]. split; [exact Hprim|]. split; [exact (Hkept eq_refl)|].
  exact Hrange.
Defined.

Lemma gs_alloc_req_counts_drawn_vertices_witness :
  concat (map (allocReqWithGs exampleGsConfig exampleGeometry
                 (ldsAtEndAccumOutVertCount (SF := exactFloats) exampleGsConfig exampleGeometry
                    exampleGsLocations examplePrimShaderTable exampleGsSubgroup exampleGsLds))
              exampleGsSubgroup)
  = [Z.lor 7 (Z.shiftl 40 12)].
Proof.
  destruct (gs_alloc_req_counts_drawn_vertices (SF := exactFloats) exampleGsConfig
              exampleGeometry exampleGsLocations examplePrimShaderTable 40 40 exampleGsSubgroup
              ltac:(vm_compute; reflexivity)
              ltac:(unfold exampleGeometry, MaxGsStreams; cbn; lia)
              ltac:(unfold exampleGeometry; cbn; lia)
              exampleGsLds)
    as (m0 & Hmsgs & Hm0 & _).
  assert (HD : outVertsDrawn (SF := exactFloats) exampleGsConfig exampleGeometry
                 exampleGsLocations examplePrimShaderTable exampleGsSubgroup exampleGsLds = 7)
    by (vm_compute; reflexivity).
  etransitivity; [exact Hmsgs|]. rewrite Hm0.
  change (compactVertex (pipelineState exampleGsConfig)) with true. cbv iota.
  now rewrite HD.
Defined.

Lemma gs_compaction_keeps_strip_vertices_witness :
  let cfg := exampleGsConfig in
  let waves := exampleGsSubgroup in
  let ldsD := ldsAtEndAllocReqWithGs (SF := exactFloats) cfg exampleGeometry exampleGsLocations
                examplePrimShaderTable waves exampleGsLds in
  exists c,
    gsPrimitiveExport (threadResultWithGs (SF := exactFloats) cfg exampleGeometry
                         exampleGsLocations examplePrimShaderTable waves exampleGsLds
                         (exampleGsWave 0) (exampleGsThread 0 3))
    = Some (Z.lor (Z.lor (Z.shiftl (c + 1) 20) (Z.shiftl (c + 2) 10)) c)
    /\ 0 <= c /\ c + 2 < 7
    /\ forall i, 0 <= i < 3 -> readPerThreadDataFromLds ldsD (c + i) VertexIndexMap 0 = 3 + i.
Proof.
  intros cfg waves ldsD.
  assert (HD : outVertsDrawn (SF := exactFloats) cfg exampleGeometry exampleGsLocations
                 examplePrimShaderTable waves exampleGsLds = 7)
    by (vm_compute; reflexivity).
  destruct (gs_compaction_keeps_strip_vertices (SF := exactFloats) cfg exampleGeometry
              exampleGsLocations examplePrimShaderTable 40 40 waves
              ltac:(vm_compute; reflexivity)
              ltac:(unfold exampleGeometry, MaxGsStreams; cbn; lia)
              ltac:(unfold exampleGeometry; cbn; lia)
              eq_refl
              ltac:(vm_compute; discriminate)
              exampleGsLds 0%nat 3%nat (exampleGsWave 0) (exampleGsThread 0 3)
              eq_refl eq_refl
              ltac:(rewrite HD; lia)
              eq_refl eq_refl
              ltac:(vm_compute; reflexivity)
              ltac:(vm_compute; reflexivity)
              ltac:(intros _; vm_compute; reflexivity)
              ltac:(vm_compute; reflexivity))
    as (c & Hexp & Hc0 & Hc2 & Hmap).
  exists c. rewrite HD in Hc2. split; [exact Hexp|]. split; [exact Hc0|].
  split; [exact Hc2|]. exact Hmap.
Defined.

Lemma gs_copy_shader_runs_on_drawn_vertices_witness :
  gsCopyShaderVertex
    (threadResultWithGs (SF := exactFloats) exampleGsConfig exampleGeometry exampleGsLocations
       examplePrimShaderTable exampleGsSubgroup exampleGsLds (exampleGsWave 0)
       (exampleGsThread 0 7)) = None
  /\ exists (wu ku : nat) (waveu : list (Thread (SF := exactFloats)))
       (tu : Thread (SF := exactFloats)),
       exampleGsSubgroup !! wu = Some waveu /\ waveu !! ku = Some tu
       /\ gsCopyShaderVertex
            (threadResultWithGs (SF := exactFloats) exampleGsConfig exampleGeometry
               exampleGsLocations examplePrimShaderTable exampleGsSubgroup exampleGsLds
               (exampleGsWave 0) (exampleGsThread 0 4))
          = Some (threadIdInSubgroup (nggInputs tu)).
Proof.
  assert (HD : outVertsDrawn (SF := exactFloats) exampleGsConfig exampleGeometry
                 exampleGsLocations examplePrimShaderTable exampleGsSubgroup exampleGsLds = 7)
    by (vm_compute; reflexivity).
  pose proof (fun k t Hk =>
                gs_copy_shader_runs_on_drawn_vertices (SF := exactFloats) exampleGsConfig
                  exampleGeometry exampleGsLocations examplePrimShaderTable 40 40
                  exampleGsSubgroup
                  ltac:(vm_compute; reflexivity)
                  ltac:(unfold exampleGeometry, MaxGsStreams; cbn; lia)
                  ltac:(unfold exampleGeometry; cbn; lia)
                  eq_refl
                  exampleGsLds 0%nat k (exampleGsWave 0) t
                  ltac:(rewrite HD; lia) eq_refl Hk) as H.
  cbv zeta in H. split.
  - destruct (H 7%nat (exampleGsThread 0 7) eq_refl) as (_ & Hnone & _).
    apply Hnone. rewrite HD. vm_compute. discriminate.
  - destruct (H 4%nat (exampleGsThread 0 4) eq_refl) as (_ & _ & Hsome).
    destruct Hsome as (wu & ku & waveu & tu & Hwu & Hku & _ & _ & Hcopy).
    + rewrite HD. vm_compute. reflexivity.
    + exists wu, ku, waveu, tu. split; [exact Hwu|]. split; [exact Hku|]. exact Hcopy.
Defined.

(** The same pipeline without vertex compaction. *)
Definition exampleGsConfigNoCompaction : ShaderConfig :=
  let c := exampleGsConfig in
  {| waveSize := waveSize c;
     pipelineState :=
       {| hasGs := true; hasTes := false; enableSwXfb := false; passthroughMode := false;
          compactVertex := false; vsPrimitiveId := false;
          calcFactor := calcFactor exampleGsState |};
     nggControl := nggControl c;
     cbLayoutTable := cbLayoutTable c;
     builtInUsage := builtInUsage c;
     xfbOutputExpCount := xfbOutputExpCount c;
     waNggCullingNoEmptySubgroups := waNggCullingNoEmptySubgroups c;
     constPositionZ := constPositionZ c;
     NggSmallSubgroupThreshold := NggSmallSubgroupThreshold c;
     provokingVertexFirst := provokingVertexFirst c;
     streamOut := streamOut c |}.

Lemma gs_wave_with_vertices_exports_witness :
  let result := threadResultWithGs (SF := exactFloats) exampleGsConfigNoCompaction
                  exampleGeometry exampleGsLocations examplePrimShaderTable exampleGsSubgroup
                  exampleGsLds (exampleGsWave 1) (exampleGsThread 1 2) in
  gsEmptyWaveExport result = false /\ gsCopyShaderVertex result = Some 34.
Proof.
  intros result.
  assert (Hflag : outVertDrawFlag exampleGeometry
                    (ldsAtEndOutCulling (SF := exactFloats) exampleGsConfigNoCompaction
                       exampleGeometry exampleGsLocations examplePrimShaderTable
                       exampleGsSubgroup exampleGsLds) (exampleGsThread 1 2) = true)
    by (vm_compute; reflexivity).
  destruct (gs_wave_with_vertices_exports (SF := exactFloats) exampleGsConfigNoCompaction
              exampleGeometry exampleGsLocations examplePrimShaderTable 40 40
              exampleGsSubgroup
              ltac:(vm_compute; reflexivity)
              exampleGsLds 1%nat 2%nat (exampleGsWave 1) (exampleGsThread 1 2)
              eq_refl eq_refl eq_refl ltac:(vm_compute; reflexivity))
    as [(Hnone & _ & _)|(_ & Hempty & Hcopy)].
  - specialize (Hnone 2%nat (exampleGsThread 1 2) eq_refl).
    rewrite Hflag in Hnone. discriminate.
  - rewrite Hflag in Hcopy. split; [exact Hempty|exact Hcopy].
Defined.

(** ** The primitive shader with API GS: from [.endEs] to [.endGs] *)

Section GsPhase.
Context {SF : ShaderFloats}.
Variable cfg : ShaderConfig.
Variable gs : GeometryInfo.
Variable streamXfbBuffers : list Z.            (* getStreamXfbBuffers() *)

(** The calls that the GS main function of an invocation makes, in program
    order. *)
Variable gsMain : Thread -> list GsMessage.

Definition primValidInWave (t : Thread) : bool :=
  CreateICmpULT (threadIdInWave (nggInputs t)) (primCountInWave (nggInputs t)).

(** [.initOutPrimData]. *)
Definition initOutPrimData (t : Thread) (lds : gmap (PrimShaderLdsRegion * Z) Z)
  : gmap (PrimShaderLdsRegion * Z) Z :=
  if primValidInSubgroup t
  then
    if enableSwXfb (pipelineState cfg)
    then
      foldl (fun l i =>
               let streamActive :=
                 negb (nth (Z.to_nat i) streamXfbBuffers 0 =? 0) || (i =? rasterStream gs) in
               if streamActive
               then writePerThreadDataToLds NullPrim (threadIdInSubgroup (nggInputs t))
                      PrimitiveData (wrap32 (NggMaxThreadsPerSubgroup * i)) l
               else l)
            lds (seqZ 0 MaxGsStreams)
    else writePerThreadDataToLds NullPrim (threadIdInSubgroup (nggInputs t)) PrimitiveData
           (wrap32 (NggMaxThreadsPerSubgroup * rasterStream gs)) lds
  else lds.

(** The thread ID in subgroup that [mutateGs] computes in the GS main
    function; [runGs] passes the wave ID in subgroup as the GS wave ID. *)
Definition gsThreadIdInSubgroup (t : Thread) : Z :=
  let waveId := waveIdInSubgroup (nggInputs t) in
  let threadIdInWave := amdgcn_mbcnt_lo (hwLane t) (-1) 0 in
  let threadIdInWave :=
    if waveSize cfg =? 64 then amdgcn_mbcnt_hi (hwLane t) (-1) threadIdInWave
    else threadIdInWave in
  let threadIdInSubgroup := CreateMul waveId (waveSize cfg) in
  CreateAdd threadIdInSubgroup threadIdInWave.

(** [.endInitOutPrimData] and [.beginGs]: [runGs] calls the GS main function
    that [mutateGs] has rewritten. *)
Definition beginGs (t : Thread) (lds : gmap (PrimShaderLdsRegion * Z) Z)
  : gmap (PrimShaderLdsRegion * Z) Z :=
  if primValidInWave t
  then snd (mutatedGs (pipelineState cfg) gs (gsThreadIdInSubgroup t) (gsMain t) lds)
  else lds.

(** The memory at the barrier of [.endInitOutPrimData] and at [.endGs];
    [lds] is the memory that the ES left. *)
Definition ldsAtEndInitOutPrimData (waves : list (list Thread))
    (lds : gmap (PrimShaderLdsRegion * Z) Z) : gmap (PrimShaderLdsRegion * Z) Z :=
  foldl (fun l t => initOutPrimData t l) lds (concat waves).

Definition ldsAtEndGs (waves : list (list Thread))
    (lds : gmap (PrimShaderLdsRegion * Z) Z) : gmap (PrimShaderLdsRegion * Z) Z :=
  foldl (fun l t => beginGs t l) (ldsAtEndInitOutPrimData waves lds) (concat waves).

End GsPhase.

(** *** The strips of a stream *)

Lemma stripStarts_length (s : Z) (calls : list GsMessage) (e b : Z) :
  Z.of_nat (length (stripStarts s calls e b)) = emitCount s calls.
Proof.
  revert e b. induction calls as [|m calls IH]; intros e b; [reflexivity|].
  destruct m as [s'|s'| |location compIdx s' output]; cbn [stripStarts emitCount].
  - destruct (s' =? s); [cbn [length]; rewrite Nat2Z.inj_succ, IH; lia|rewrite IH; lia].
  - destruct (s' =? s); apply IH.
  - apply IH.
  - apply IH.
Qed.

(** The start of the strip of a vertex is not after the vertex, and it is
    the start of the running strip or a later vertex. *)
Lemma stripStarts_bounds (s : Z) (calls : list GsMessage) (e b : Z) (i : nat) (st : Z) :
  b <= e -> stripStarts s calls e b !! i = Some st ->
  st <= e + Z.of_nat i /\ (st = b \/ e <= st).
Proof.
  revert e b i. induction calls as [|m calls IH]; intros e b i Hbe Hi; [discriminate|].
  destruct m as [s'|s'| |location compIdx s' output]; cbn [stripStarts] in Hi.
  - destruct (s' =? s); [|exact (IH e b i Hbe Hi)].
    destruct i as [|i]; cbn in Hi.
    + injection Hi as <-. split; [lia|now left].
    + destruct (IH (e + 1) b i ltac:(lia) Hi) as [H1 H2]. split; [lia|].
      destruct H2; [now left|right; lia].
  - destruct (s' =? s); [|exact (IH e b i Hbe Hi)].
    destruct (IH e e i ltac:(lia) Hi) as [H1 H2]. split; [exact H1|]. right.
    destruct H2; lia.
  - exact (IH e b i Hbe Hi).
  - exact (IH e b i Hbe Hi).
Qed.

(** The starts do not decrease, and a vertex whose strip starts at or
    before an earlier vertex is in the strip of that vertex. *)
Lemma stripStarts_strips (s : Z) (calls : list GsMessage) (e b : Z) (i i' : nat) (st st' : Z) :
  b <= e -> (i <= i')%nat ->
  stripStarts s calls e b !! i = Some st -> stripStarts s calls e b !! i' = Some st' ->
  st <= st' /\ (st' <= e + Z.of_nat i -> st = st').
Proof.
  revert e b i i'. induction calls as [|m calls IH]; intros e b i i' Hbe Hii Hi Hi';
    [discriminate|].
  destruct m as [s'|s'| |location compIdx s' output]; cbn [stripStarts] in Hi, Hi'.
  - destruct (s' =? s); [|exact (IH e b i i' Hbe Hii Hi Hi')].
    destruct i as [|i]; cbn in Hi.
    + injection Hi as <-. destruct i' as [|i']; cbn in Hi'.
      * injection Hi' as <-. split; [lia|reflexivity].
      * destruct (stripStarts_bounds s calls (e + 1) b i' st' ltac:(lia) Hi') as [H1 H2].
        split; [lia|]. intros Hle. destruct H2; lia.
    + destruct i' as [|i']; [lia|]. cbn in Hi'.
      destruct (IH (e + 1) b i i' ltac:(lia) ltac:(lia) Hi Hi') as [H1 H2].
      split; [exact H1|]. intros Hle. apply H2. lia.
  - destruct (s' =? s); [|exact (IH e b i i' Hbe Hii Hi Hi')].
    exact (IH e e i i' ltac:(lia) Hii Hi Hi').
  - exact (IH e b i i' Hbe Hii Hi Hi').
  - exact (IH e b i i' Hbe Hii Hi Hi').
Qed.

(** *** What the GS of an invocation leaves alone *)

Lemma primitive_data_frame (ps : PipelineState) (gs : GeometryInfo) (threadIdInSubgroup : Z)
    (cell : Z) (calls : list GsMessage) :
  1 <= verticesPerPrimitive gs <= outputVertices gs ->
  0 <= threadIdInSubgroup ->
  (threadIdInSubgroup + 1) * outputVertices gs <= NggMaxThreadsPerSubgroup ->
  (forall s j, 0 <= s < MaxGsStreams -> 0 <= j < outputVertices gs ->
     cell <> primitiveDataCell gs threadIdInSubgroup s j) ->
  forallb messageStreamValid calls = true ->
  forall (c : GsCounters) (lds : gmap (PrimShaderLdsRegion * Z) Z),
    countersInRange gs c calls ->
    readValueFromLds (snd (foldl (gsMessage ps gs threadIdInSubgroup) (c, lds) calls))
      PrimitiveData cell
    = readValueFromLds lds PrimitiveData cell.
Proof.
  intros Hverts Htid Hrange Hcell.
  induction calls as [|m calls IH]; intros Hvalid c lds Hc; [reflexivity|].
  cbn [forallb] in Hvalid. apply andb_true_iff in Hvalid as [Hm Hvalid].
  cbn [foldl]. destruct m as [s'|s'| |location compIdx s' output].
  - (* GS_EMIT *)
    cbn [messageStreamValid] in Hm. apply andb_true_iff in Hm as [Hs1 Hs2].
    apply Z.leb_le in Hs1. apply Z.ltb_lt in Hs2.
    cbn [gsMessage]. unfold processGsEmit. cbn [fst snd].
    destruct (negb (enableSwXfb ps) && negb (rasterStream gs =? s')).
    + apply (IH Hvalid c lds). intros s0 Hs0. destruct (Hc s0 Hs0) as [H1 H2].
      split; [exact H1|]. cbn [emitCount] in H2. destruct (s' =? s0); lia.
    + destruct (Hc s' ltac:(lia)) as [Ho He]. cbn [emitCount] in He.
      rewrite Z.eqb_refl in He. pose proof (emitCount_nonneg s' calls) as Hnn.
      rewrite (gsEmitHandler_spec gs threadIdInSubgroup Hverts Htid Hrange) by lia.
      set (lds' := if verticesPerPrimitive gs <=? outVertsPtrs c s' + 1 then _ else lds).
      set (c' := {| emitVertsPtrs := _; outVertsPtrs := _ |}).
      assert (Hc' : countersInRange gs c' calls).
      { intros s0 Hs0. destruct (Hc s0 Hs0) as [H1 H2]. cbn [emitCount] in H2.
        unfold c', storeCounter. cbn [emitVertsPtrs outVertsPtrs].
        rewrite (Z.eqb_sym s0 s'). destruct (Z.eqb_spec s' s0) as [->|]; lia. }
      rewrite (IH Hvalid c' lds' Hc'). unfold lds'.
      destruct (Z.leb_spec (verticesPerPrimitive gs) (outVertsPtrs c s' + 1)); [|reflexivity].
      apply read_write_other. intros [=Heq].
      apply (Hcell s' (emitVertsPtrs c s' + 1 - verticesPerPrimitive gs)); [lia|lia|].
      symmetry. exact Heq.
  - (* GS_CUT *)
    cbn [gsMessage]. unfold processGsCut. cbn [fst snd].
    destruct (negb (enableSwXfb ps) && negb (rasterStream gs =? s')).
    + exact (IH Hvalid c lds Hc).
    + apply (IH Hvalid). intros s0 Hs0. destruct (Hc s0 Hs0) as [H1 H2].
      cbn [emitCount] in H2. unfold storeCounter, gsCutHandler.
      cbn [emitVertsPtrs outVertsPtrs]. destruct (Z.eqb_spec s0 s'); lia.
  - (* GS_DONE *)
    cbn [gsMessage]. exact (IH Hvalid c lds Hc).
  - (* an output export *)
    cbn [gsMessage fst snd]. rewrite (IH Hvalid c _ Hc).
    unfold exportGsOutput.
    destruct (negb (enableSwXfb ps) && negb (rasterStream gs =? s')); [reflexivity|].
    now apply read_writeDwords_region.
Qed.

(** *** The primitive data of a well-formed subgroup at [.endGs] *)

Section GsPhaseFacts.
Context {SF : ShaderFloats}.
Variable cfg : ShaderConfig.
Variable gs : GeometryInfo.
Variable streamXfbBuffers : list Z.
Variable gsMain : Thread -> list GsMessage.
Variables V P : Z.
Variable waves : list (list Thread).
Hypothesis Hwf : wellFormedSubgroup cfg V P waves = true.
Hypothesis Hrs : 0 <= rasterStream gs < MaxGsStreams.
Hypothesis Hxfb : enableSwXfb (pipelineState cfg) = false.
Hypothesis Hverts : 1 <= verticesPerPrimitive gs <= outputVertices gs.

(** What the primitive shader relies on for the GS of an invocation: the
    output vertices of the invocation have thread IDs of the subgroup, the
    messages name a stream, and no stream gets more vertices than the GS
    declares. *)
Definition gsWithinLimits (t : Thread) : Prop :=
  (threadIdInSubgroup (nggInputs t) + 1) * outputVertices gs <= NggMaxThreadsPerSubgroup
  /\ forallb messageStreamValid (gsMain t) = true
  /\ forall s, 0 <= s < MaxGsStreams -> emitCount s (gsMain t) <= outputVertices gs.

Hypothesis Hgs : forall (w k : nat) (wave : list Thread) (t : Thread),
  waves !! w = Some wave -> wave !! k = Some t -> primValidInWave t = true ->
  gsWithinLimits t.

(** For every vertex that an invocation emits to the rasterization stream,
    the vertex its strip starts at. *)
Definition gsStrips (t : Thread) : list Z := stripStarts (rasterStream gs) (gsMain t) 0 0.

(** The primitive data that the GS of an invocation leaves for its output
    vertex [j]. *)
Definition gsPrimitiveAt (t : Thread) (j : Z) : Z :=
  match gsStrips t !! Z.to_nat (j + verticesPerPrimitive gs - 1) with
  | Some start => if start <=? j then windingAt gs (j - start) else NullPrim
  | None => NullPrim
  end.

Lemma thread_index (i : nat) (t : Thread) :
  concat waves !! i = Some t -> threadIdInSubgroup (nggInputs t) = Z.of_nat i.
Proof.
  intros Hi. pose proof (lookup_lt_Some _ _ _ Hi) as Hlen.
  destruct (thread_at cfg V P waves Hwf (Z.of_nat i) ltac:(lia))
    as (w & k & wave & t0 & Hw & Hk & E).
  destruct (thread_position cfg V P waves Hwf w k wave t0 Hw Hk) as [Hp _].
  rewrite E, Nat2Z.id, Hi in Hp. injection Hp as ->. exact E.
Qed.

Lemma concat_lookup_thread (i : nat) (t : Thread) :
  concat waves !! i = Some t ->
  exists (w k : nat) (wave : list Thread), waves !! w = Some wave /\ wave !! k = Some t.
Proof.
  intros Hi. apply in_concat_lookup. apply list_elem_of_In.
  eapply list_elem_of_lookup_2. exact Hi.
Qed.

Lemma primData_cell (n : Z) (lds : gmap (PrimShaderLdsRegion * Z) Z) :
  0 <= n < 256 ->
  readValueFromLds
    (writePerThreadDataToLds NullPrim n PrimitiveData
       (wrap32 (NggMaxThreadsPerSubgroup * rasterStream gs)) lds)
  = readValueFromLds (writeValueToLds NullPrim PrimitiveData (n + 256 * rasterStream gs) lds).
Proof.
  intros Hn. unfold writePerThreadDataToLds, perThreadLdsOffset, CreateAdd,
    NggMaxThreadsPerSubgroup, MaxGsStreams in *.
  assert (W : forall z, 0 <= z < 4294967296 -> wrap32 z = z)
    by (intros z Hz; apply wrap32_small; change (2 ^ 32) with 4294967296; lia).
  change (1 <? 1) with false. cbv iota.
  rewrite (W (256 * rasterStream gs)) by lia.
  rewrite (W (n + 256 * rasterStream gs)) by lia.
  reflexivity.
Qed.

(** [.initOutPrimData] of an invocation writes its own entry. *)
Lemma initOutPrimData_cell (w k : nat) (wave : list Thread) (t : Thread) (n : Z)
    (lds : gmap (PrimShaderLdsRegion * Z) Z) :
  waves !! w = Some wave -> wave !! k = Some t -> 0 <= n < 256 ->
  readValueFromLds (initOutPrimData cfg gs streamXfbBuffers t lds) PrimitiveData
    (n + 256 * rasterStream gs)
  = if primValidInSubgroup t && (threadIdInSubgroup (nggInputs t) =? n) then NullPrim
    else readValueFromLds lds PrimitiveData (n + 256 * rasterStream gs).
Proof.
  intros Hw Hk Hn. destruct (thread_id cfg V P waves Hwf w k wave t Hw Hk) as [_ Htid].
  unfold initOutPrimData. rewrite Hxfb.
  destruct (primValidInSubgroup t); [|reflexivity]. cbn [andb].
  rewrite primData_cell by exact Htid.
  destruct (Z.eqb_spec (threadIdInSubgroup (nggInputs t)) n) as [->|Hne].
  - apply read_write_same.
  - apply read_write_other. intros [=]. lia.
Qed.

(** Every entry below the primitive count is the null primitive at the
    barrier of [.endInitOutPrimData]. *)
Lemma primData_at_endInitOutPrimData (w k : nat) (wave : list Thread) (t : Thread)
    (lds : gmap (PrimShaderLdsRegion * Z) Z) :
  waves !! w = Some wave -> wave !! k = Some t ->
  threadIdInSubgroup (nggInputs t) < P ->
  readValueFromLds (ldsAtEndInitOutPrimData cfg gs streamXfbBuffers waves lds) PrimitiveData
    (threadIdInSubgroup (nggInputs t) + 256 * rasterStream gs)
  = NullPrim.
Proof.
  intros Hw Hk HP. destruct (thread_id cfg V P waves Hwf w k wave t Hw Hk) as [_ Htid].
  destruct (wf_thread cfg V P waves Hwf w k wave t Hw Hk) as (_ & _ & _ & _ & _ & HPt).
  pose proof (wf_counts cfg V P waves Hwf) as [_ HPb].
  unfold ldsAtEndInitOutPrimData.
  rewrite (foldl_cell_flag (fun l t' => initOutPrimData cfg gs streamXfbBuffers t' l)
             (fun t' => primValidInSubgroup t'
                        && (threadIdInSubgroup (nggInputs t')
                            =? threadIdInSubgroup (nggInputs t)))
             PrimitiveData (threadIdInSubgroup (nggInputs t) + 256 * rasterStream gs) NullPrim).
  - assert (He : existsb (fun t' => primValidInSubgroup t'
                                    && (threadIdInSubgroup (nggInputs t')
                                        =? threadIdInSubgroup (nggInputs t)))
                         (concat waves) = true).
    { apply existsb_exists. exists t. split; [exact (in_waves waves w k wave t Hw Hk)|].
      rewrite Z.eqb_refl, andb_true_r. unfold primValidInSubgroup, CreateICmpULT.
      rewrite HPt, !wrap32_small by (change (2 ^ 32) with 4294967296; lia).
      now apply Z.ltb_lt. }
    now rewrite He.
  - intros t' Hin l. destruct (in_concat_lookup waves t' Hin) as (w' & k' & wave' & Hw' & Hk').
    exact (initOutPrimData_cell w' k' wave' t' _ l Hw' Hk' Htid).
Qed.

(** The GS computes the thread ID in subgroup of the primitive shader. *)
Lemma gsThreadIdInSubgroup_eq (w k : nat) (wave : list Thread) (t : Thread) :
  waves !! w = Some wave -> wave !! k = Some t ->
  gsThreadIdInSubgroup cfg t = threadIdInSubgroup (nggInputs t).
Proof.
  intros Hw Hk.
  destruct (wf_thread cfg V P waves Hwf w k wave t Hw Hk) as (Hl & _ & Hwid & Htid & _).
  destruct (thread_id cfg V P waves Hwf w k wave t Hw Hk) as [_ Hb].
  destruct (wf_lane_bound cfg V P waves Hwf w k wave t Hw Hk) as [Hwb Hkb].
  pose proof (wf_waveSize cfg V P waves Hwf) as Hws.
  unfold gsThreadIdInSubgroup. cbv zeta. rewrite Hl, Hwid.
  pose proof (threadIdInWave_lane (waveSize cfg) k Hws ltac:(lia)) as Hlane.
  cbv zeta in Hlane. rewrite Hlane. unfold CreateAdd, CreateMul.
  assert (W : forall z, 0 <= z < 4294967296 -> wrap32 z = z)
    by (intros z Hz; apply wrap32_small; change (2 ^ 32) with 4294967296; lia).
  rewrite Htid in Hb.
  rewrite (W (Z.of_nat w * waveSize cfg)) by nia.
  rewrite (W (Z.of_nat w * waveSize cfg + Z.of_nat k)) by lia.
  symmetry. exact Htid.
Qed.

(** The GS of an invocation writes the entries of its own output vertices. *)
Lemma beginGs_own_entry (w k : nat) (wave : list Thread) (t : Thread) (j : Z)
    (lds : gmap (PrimShaderLdsRegion * Z) Z) :
  waves !! w = Some wave -> wave !! k = Some t -> primValidInWave t = true ->
  0 <= j < outputVertices gs ->
  let cell := threadIdInSubgroup (nggInputs t) * outputVertices gs + j
              + 256 * rasterStream gs in
  readValueFromLds (beginGs cfg gs gsMain t lds) PrimitiveData cell
  = match gsStrips t !! Z.to_nat (j + verticesPerPrimitive gs - 1) with
    | Some start =>
        if start <=? j then windingAt gs (j - start)
        else readValueFromLds lds PrimitiveData cell
    | None => readValueFromLds lds PrimitiveData cell
    end.
Proof.
  intros Hw Hk Hv Hj cell.
  destruct (thread_id cfg V P waves Hwf w k wave t Hw Hk) as [_ Htid].
  destruct (Hgs w k wave t Hw Hk Hv) as (Hrange & Hvalid & Hemit).
  unfold beginGs. rewrite (gsThreadIdInSubgroup_eq w k wave t Hw Hk), Hv. unfold mutatedGs.
  pose proof (primitive_data_run (pipelineState cfg) gs (threadIdInSubgroup (nggInputs t))
                Hverts ltac:(lia) Hrange (rasterStream gs) j (gsMain t)) as H.
  specialize (H ltac:(rewrite Z.eqb_refl; apply orb_true_r) Hrs Hj Hvalid
                {| emitVertsPtrs := fun _ => 0; outVertsPtrs := fun _ => 0 |} lds).
  cbv zeta in H. cbn [emitVertsPtrs outVertsPtrs] in H.
  unfold primitiveDataCell, NggMaxThreadsPerSubgroup in H. fold cell in H.
  rewrite H.
  - destruct (Z.ltb_spec (j + verticesPerPrimitive gs - 1) 0); [lia|].
    change (0 - 0) with 0. rewrite Z.sub_0_r. reflexivity.
  - intros s Hs. cbn [emitVertsPtrs outVertsPtrs]. specialize (Hemit s Hs). lia.
Qed.

(** ... and no other entry. *)
Lemma beginGs_other_entry (w k : nat) (wave : list Thread) (t : Thread) (n : Z)
    (lds : gmap (PrimShaderLdsRegion * Z) Z) :
  waves !! w = Some wave -> wave !! k = Some t ->
  0 <= n < 256 ->
  ~ (threadIdInSubgroup (nggInputs t) * outputVertices gs <= n
     < threadIdInSubgroup (nggInputs t) * outputVertices gs + outputVertices gs) ->
  readValueFromLds (beginGs cfg gs gsMain t lds) PrimitiveData (n + 256 * rasterStream gs)
  = readValueFromLds lds PrimitiveData (n + 256 * rasterStream gs).
Proof.
  intros Hw Hk Hn Hout.
  destruct (thread_id cfg V P waves Hwf w k wave t Hw Hk) as [_ Htid].
  unfold beginGs. rewrite (gsThreadIdInSubgroup_eq w k wave t Hw Hk).
  destruct (primValidInWave t) eqn:Hv; [|reflexivity].
  destruct (Hgs w k wave t Hw Hk Hv) as (Hrange & Hvalid & Hemit).
  unfold mutatedGs.
  apply (primitive_data_frame (pipelineState cfg) gs (threadIdInSubgroup (nggInputs t)));
    [exact Hverts|lia|exact Hrange| |exact Hvalid|].
  - intros s j Hs Hj. unfold primitiveDataCell, NggMaxThreadsPerSubgroup, MaxGsStreams in *.
    assert (Hb : 0 <= threadIdInSubgroup (nggInputs t) * outputVertices gs
                 /\ threadIdInSubgroup (nggInputs t) * outputVertices gs + outputVertices gs
                    <= 256) by nia.
    set (b := threadIdInSubgroup (nggInputs t) * outputVertices gs) in *.
    clearbody b. lia.
  - intros s Hs. cbn [emitVertsPtrs outVertsPtrs]. specialize (Hemit s Hs). lia.
Qed.

Lemma gs_output_range (w k : nat) (wave : list Thread) (t : Thread) (j : Z) :
  waves !! w = Some wave -> wave !! k = Some t -> primValidInWave t = true ->
  0 <= j < outputVertices gs ->
  0 <= threadIdInSubgroup (nggInputs t) * outputVertices gs + j < 256.
Proof.
  intros Hw Hk Hv Hj. destruct (thread_id cfg V P waves Hwf w k wave t Hw Hk) as [_ Htid].
  destruct (Hgs w k wave t Hw Hk Hv) as (Hrange & _ & _).
  unfold NggMaxThreadsPerSubgroup in Hrange. nia.
Qed.

(** Two invocations have no output vertex in common. *)
Lemma gs_output_ranges_disjoint (t t' : Thread) (n : Z) :
  threadIdInSubgroup (nggInputs t) <> threadIdInSubgroup (nggInputs t') ->
  threadIdInSubgroup (nggInputs t) * outputVertices gs <= n
  < threadIdInSubgroup (nggInputs t) * outputVertices gs + outputVertices gs ->
  ~ (threadIdInSubgroup (nggInputs t') * outputVertices gs <= n
     < threadIdInSubgroup (nggInputs t') * outputVertices gs + outputVertices gs).
Proof.
  set (a := threadIdInSubgroup (nggInputs t)). set (b := threadIdInSubgroup (nggInputs t')).
  clearbody a b. intros Hne H1 H2. nia.
Qed.

(** The entry of output vertex [j] of an invocation at [.endGs]. *)
Lemma primData_at_endGs_own (w k : nat) (wave : list Thread) (t : Thread) (j : Z)
    (lds : gmap (PrimShaderLdsRegion * Z) Z) :
  waves !! w = Some wave -> wave !! k = Some t -> primValidInWave t = true ->
  0 <= j < outputVertices gs ->
  let cell := threadIdInSubgroup (nggInputs t) * outputVertices gs + j
              + 256 * rasterStream gs in
  let initial := readValueFromLds (ldsAtEndInitOutPrimData cfg gs streamXfbBuffers waves lds)
                   PrimitiveData cell in
  readValueFromLds (ldsAtEndGs cfg gs streamXfbBuffers gsMain waves lds) PrimitiveData cell
  = match gsStrips t !! Z.to_nat (j + verticesPerPrimitive gs - 1) with
    | Some start => if start <=? j then windingAt gs (j - start) else initial
    | None => initial
    end.
Proof.
  intros Hw Hk Hv Hj cell initial.
  destruct (thread_id cfg V P waves Hwf w k wave t Hw Hk) as [_ Htid].
  destruct (thread_position cfg V P waves Hwf w k wave t Hw Hk) as [Hp _].
  pose proof (gs_output_range w k wave t j Hw Hk Hv Hj) as Hn.
  assert (Hothers : forall i t', concat waves !! i = Some t' ->
            i <> Z.to_nat (threadIdInSubgroup (nggInputs t)) ->
            forall l, readValueFromLds (beginGs cfg gs gsMain t' l) PrimitiveData cell
                      = readValueFromLds l PrimitiveData cell).
  { intros i t' Hi Hne l. destruct (concat_lookup_thread i t' Hi) as (w' & k' & wave' & Hw' & Hk').
    apply (beginGs_other_entry w' k' wave' t' _ l Hw' Hk' Hn).
    apply (gs_output_ranges_disjoint t t'); [|lia].
    rewrite (thread_index i t' Hi). lia. }
  unfold initial, ldsAtEndGs.
  generalize (ldsAtEndInitOutPrimData cfg gs streamXfbBuffers waves lds). intros l0.
  rewrite <- (take_drop_middle _ _ _ Hp) at 1. rewrite foldl_app. cbn [foldl].
  rewrite (foldl_cell_keep (fun l t' => beginGs cfg gs gsMain t' l)).
  2:{ intros t' Hin l. apply list_elem_of_In, list_elem_of_lookup_1 in Hin as [i Hi].
      rewrite lookup_drop in Hi. apply (Hothers _ t' Hi). lia. }
  rewrite (beginGs_own_entry w k wave t j _ Hw Hk Hv Hj). cbv zeta. fold cell.
  rewrite (foldl_cell_keep (fun l t' => beginGs cfg gs gsMain t' l)).
  2:{ intros t' Hin l. apply list_elem_of_In, list_elem_of_lookup_1 in Hin as [i Hi].
      apply lookup_take_Some in Hi as [Hi Hlt]. apply (Hothers _ t' Hi). lia. }
  reflexivity.
Qed.

(** An entry that is no output vertex of an invocation that runs the GS is
    left as it is. *)
Lemma primData_at_endGs_other (n : Z) (lds : gmap (PrimShaderLdsRegion * Z) Z) :
  0 <= n < 256 ->
  (forall (w k : nat) (wave : list Thread) (t : Thread),
     waves !! w = Some wave -> wave !! k = Some t -> primValidInWave t = true ->
     ~ (threadIdInSubgroup (nggInputs t) * outputVertices gs <= n
        < threadIdInSubgroup (nggInputs t) * outputVertices gs + outputVertices gs)) ->
  readValueFromLds (ldsAtEndGs cfg gs streamXfbBuffers gsMain waves lds) PrimitiveData
    (n + 256 * rasterStream gs)
  = readValueFromLds (ldsAtEndInitOutPrimData cfg gs streamXfbBuffers waves lds) PrimitiveData
      (n + 256 * rasterStream gs).
Proof.
  intros Hn Hout. unfold ldsAtEndGs.
  apply (foldl_cell_keep (fun l t' => beginGs cfg gs gsMain t' l)).
  intros t Hin l. destruct (in_concat_lookup waves t Hin) as (w & k & wave & Hw & Hk).
  destruct (primValidInWave t) eqn:Hv.
  - exact (beginGs_other_entry w k wave t n l Hw Hk Hn (Hout w k wave t Hw Hk Hv)).
  - unfold beginGs. now rewrite Hv.
Qed.

(** The primitive data when the GS has run.  Take a thread ID [n] below
    the primitive count of the subgroup.  If [n] is output vertex [j] of an
    invocation that runs the GS, the primitive data of [n] at [.endGs] is
    the winding of the primitive that starts at vertex [j] when the
    invocation emitted the vertices [j .. j + verticesPerPrimitive - 1] to
    one strip of the rasterization stream, and the null primitive
    otherwise.  If [n] is no output vertex of such an invocation, it is the
    null primitive. *)
Theorem gs_primitive_data_at_end_of_gs (lds : gmap (PrimShaderLdsRegion * Z) Z)
    (w k : nat) (wave : list Thread) (tn : Thread) :
  waves !! w = Some wave -> wave !! k = Some tn ->
  threadIdInSubgroup (nggInputs tn) < P ->
  let n := threadIdInSubgroup (nggInputs tn) in
  let primData := outPrimData gs (ldsAtEndGs cfg gs streamXfbBuffers gsMain waves lds) n in
  (forall (wg kg : nat) (waveg : list Thread) (tg : Thread) (j : Z),
     waves !! wg = Some waveg -> waveg !! kg = Some tg -> primValidInWave tg = true ->
     0 <= j < outputVertices gs ->
     n = threadIdInSubgroup (nggInputs tg) * outputVertices gs + j ->
     primData = gsPrimitiveAt tg j)
  /\ ((forall (wg kg : nat) (waveg : list Thread) (tg : Thread),
         waves !! wg = Some waveg -> waveg !! kg = Some tg -> primValidInWave tg = true ->
         ~ (threadIdInSubgroup (nggInputs tg) * outputVertices gs <= n
            < threadIdInSubgroup (nggInputs tg) * outputVertices gs + outputVertices gs)) ->
      primData = NullPrim).
Proof.
  intros Hw Hk HP n primData.
  destruct (thread_id cfg V P waves Hwf w k wave tn Hw Hk) as [_ Htid]. fold n in Htid.
  pose proof (primData_at_endInitOutPrimData w k wave tn lds Hw Hk HP) as Hinit.
  fold n in Hinit. unfold primData. rewrite (outPrimData_cell gs Hrs) by exact Htid.
  split.
  - intros wg kg waveg tg j Hwg Hkg Hv Hj Hn.
    pose proof (primData_at_endGs_own wg kg waveg tg j lds Hwg Hkg Hv Hj) as H.
    cbv zeta in H. rewrite <- Hn, Hinit in H. exact H.
  - intros Hout. now rewrite (primData_at_endGs_other n lds Htid Hout).
Qed.

Lemma windingAt_values (d : Z) : 0 <= d -> windingAt gs d = 0 \/ windingAt gs d = 1.
Proof.
  intros Hd. unfold windingAt. destruct (outputPrimitive gs); try (now left).
  assert (E : Z.land d 1 = d mod 2) by (apply (Z.land_ones d 1); lia).
  rewrite E. pose proof (Z.mod_pos_bound d 2 ltac:(lia)). lia.
Qed.

Lemma gs_emitted_in_range (w k : nat) (wave : list Thread) (t : Thread) (i : nat) (st : Z) :
  waves !! w = Some wave -> wave !! k = Some t -> primValidInWave t = true ->
  gsStrips t !! i = Some st ->
  0 <= st <= Z.of_nat i /\ Z.of_nat i < outputVertices gs.
Proof.
  intros Hw Hk Hv Hi. destruct (Hgs w k wave t Hw Hk Hv) as (_ & _ & Hemit).
  specialize (Hemit (rasterStream gs) Hrs).
  pose proof (lookup_lt_Some _ _ _ Hi) as Hlen.
  pose proof (stripStarts_length (rasterStream gs) (gsMain t) 0 0) as Hl.
  fold (gsStrips t) in Hl.
  destruct (stripStarts_bounds (rasterStream gs) (gsMain t) 0 0 i st ltac:(lia) Hi) as [H1 H2].
  lia.
Qed.

Variable locs : GsBuiltInLocations.
Variable primShaderTable : Z -> Z.
Hypothesis Hk3 : verticesPerPrimitive gs <= 3.
Hypothesis Hnocull : passthroughMode (pipelineState cfg) = true.
Hypothesis HVP : V <= P.

(** A vertex of a GS is drawn iff its strip is long enough.  Without
    culling and transform feedback, the draw flag of a thread ID of the
    subgroup is set at [.endCheckOutVertDrawFlag] iff the thread ID is below
    the vertex count and is an output vertex [j] of an invocation that ran
    the GS, the invocation emitted vertex [j] to the rasterization stream,
    and it emitted vertex [start + verticesPerPrimitive - 1] to the same
    strip, where [start] is the first vertex of the strip of [j]. *)
Theorem gs_vertex_drawn_iff_strip_complete (lds : gmap (PrimShaderLdsRegion * Z) Z)
    (w k : nat) (wave : list Thread) (tv : Thread) :
  waves !! w = Some wave -> wave !! k = Some tv ->
  let ldsGs := ldsAtEndGs cfg gs streamXfbBuffers gsMain waves lds in
  outVertDrawFlag gs (ldsAtEndOutCulling cfg gs locs primShaderTable waves ldsGs) tv = true
  <-> threadIdInSubgroup (nggInputs tv) < V
      /\ exists (wg kg : nat) (waveg : list Thread) (tg : Thread) (j start : Z),
           waves !! wg = Some waveg /\ waveg !! kg = Some tg
           /\ primValidInWave tg = true
           /\ 0 <= j < outputVertices gs
           /\ threadIdInSubgroup (nggInputs tv)
              = threadIdInSubgroup (nggInputs tg) * outputVertices gs + j
           /\ gsStrips tg !! Z.to_nat j = Some start
           /\ gsStrips tg !! Z.to_nat (start + verticesPerPrimitive gs - 1) = Some start.
Proof.
  intros Hw Hk ldsGs.
  destruct (thread_id cfg V P waves Hwf w k wave tv Hw Hk) as [_ Htv].
  set (n := threadIdInSubgroup (nggInputs tv)) in *.
  rewrite (outVertDrawFlag_spec cfg gs locs primShaderTable V P waves Hwf Hrs
             ltac:(lia) ldsGs w k wave tv Hw Hk).
  fold n. rewrite andb_true_iff, Z.ltb_lt, existsb_exists.
  assert (Hlive : forall tp,
            outPrimitiveLive cfg gs locs primShaderTable waves ldsGs tp
            = CreateICmpNE (outPrimData gs ldsGs (threadIdInSubgroup (nggInputs tp))) NullPrim).
  { intros tp. unfold outPrimitiveLive, outPrimitiveNullified, cullingMode.
    rewrite Hnocull. cbn [negb andb]. apply andb_true_r. }
  set (K := verticesPerPrimitive gs) in *. set (ov := outputVertices gs) in *.
  split.
  - intros [Hv (tp & Hin & Hs)]. split; [exact Hv|].
    rewrite !andb_true_iff, Hlive, Z.leb_le, Z.ltb_lt in Hs. destruct Hs as [[Hl H1] H2].
    destruct (in_concat_lookup waves tp Hin) as (wp & kp & wavep & Hwp & Hkp).
    destruct (thread_id cfg V P waves Hwf wp kp wavep tp Hwp Hkp) as [_ Htp].
    set (m := threadIdInSubgroup (nggInputs tp)) in *.
    rewrite (outPrimData_cell gs Hrs) in Hl by exact Htp.
    pose proof (primData_at_endInitOutPrimData wp kp wavep tp lds Hwp Hkp ltac:(fold m; lia))
      as Hinit. fold m in Hinit.
    pose proof (Z.div_mod m ov ltac:(lia)) as Hdm.
    pose proof (Z.mod_pos_bound m ov ltac:(lia)) as Hmod.
    pose proof (Z.div_pos m ov ltac:(lia) ltac:(lia)) as Hdiv.
    assert (Hgm : m / ov <= m) by (apply Z.div_le_upper_bound; nia).
    destruct (thread_below cfg V P waves Hwf wp kp wavep tp (m - m / ov) Hwp Hkp
                ltac:(fold m; lia)) as (wg & kg & waveg & tg & Hwg & Hkg & Eg).
    fold m in Eg. replace (m - (m - m / ov)) with (m / ov) in Eg by lia.
    destruct (primValidInWave tg) eqn:Hvg.
    + pose proof (primData_at_endGs_own wg kg waveg tg (m mod ov) lds Hwg Hkg Hvg Hmod)
        as Hown.
      cbv zeta in Hown. fold ov K in Hown. rewrite Eg in Hown.
      replace (m / ov * ov + m mod ov) with m in Hown by lia.
      fold ldsGs in Hown. rewrite Hinit in Hown. rewrite Hown in Hl.
      destruct (gsStrips tg !! Z.to_nat (m mod ov + K - 1)) as [st0|] eqn:E0;
        [|discriminate].
      destruct (Z.leb_spec st0 (m mod ov)) as [Hst0|]; [|discriminate].
      destruct (gs_emitted_in_range wg kg waveg tg _ st0 Hwg Hkg Hvg E0) as [Hs0 Hr0].
      fold ov in Hr0.
      pose proof (lookup_lt_Some _ _ _ E0) as Hlen0.
      set (j := n - m / ov * ov).
      assert (Hj : m mod ov <= j <= m mod ov + K - 1) by (unfold j; lia).
      destruct (lookup_lt_is_Some_2 (gsStrips tg) (Z.to_nat j) ltac:(lia)) as [st E1].
      destruct (stripStarts_strips (rasterStream gs) (gsMain tg) 0 0 (Z.to_nat j)
                  (Z.to_nat (m mod ov + K - 1)) st st0 ltac:(lia) ltac:(lia) E1 E0)
        as [_ Hsame].
      specialize (Hsame ltac:(lia)). subst st0.
      destruct (lookup_lt_is_Some_2 (gsStrips tg) (Z.to_nat (st + K - 1)) ltac:(lia))
        as [st2 E2].
      destruct (stripStarts_strips (rasterStream gs) (gsMain tg) 0 0 (Z.to_nat (st + K - 1))
                  (Z.to_nat (m mod ov + K - 1)) st2 st ltac:(lia) ltac:(lia) E2 E0)
        as [_ Hsame2].
      specialize (Hsame2 ltac:(lia)). subst st2.
      exists wg, kg, waveg, tg, j, st. rewrite Eg.
      split; [exact Hwg|]. split; [exact Hkg|]. split; [exact Hvg|].
      split; [lia|]. split; [unfold j; lia|]. split; [exact E1|exact E2].
    + rewrite (primData_at_endGs_other m lds Htp : _ -> readValueFromLds ldsGs _ _ = _),
        Hinit in Hl; [discriminate|].
      intros w' k' wave' t' Hw' Hk' Hv' Hrange. fold ov in Hrange.
      destruct (thread_id cfg V P waves Hwf w' k' wave' t' Hw' Hk') as [_ Ht'].
      assert (E : threadIdInSubgroup (nggInputs t') = threadIdInSubgroup (nggInputs tg)).
      { rewrite Eg. set (a := threadIdInSubgroup (nggInputs t')) in *.
        set (q := m / ov) in *. clearbody a q. nia. }
      destruct (thread_id_inj cfg V P waves Hwf w' k' wg kg wave' waveg t' tg Hw' Hk' Hwg Hkg E)
        as [-> ->].
      rewrite Hwg in Hw'. injection Hw' as <-. rewrite Hkg in Hk'. injection Hk' as <-.
      rewrite Hvg in Hv'. discriminate.
  - intros [Hv (wg & kg & waveg & tg & j & st & Hwg & Hkg & Hvg & Hj & Hn & E1 & E2)].
    split; [exact Hv|].
    destruct (thread_id cfg V P waves Hwf wg kg waveg tg Hwg Hkg) as [_ Htg].
    destruct (gs_emitted_in_range wg kg waveg tg _ st Hwg Hkg Hvg E1) as [Hs1 _].
    destruct (gs_emitted_in_range wg kg waveg tg _ st Hwg Hkg Hvg E2) as [_ Hr2].
    fold ov K in Hr2.
    set (j0 := if j <=? st + K - 1 then st else j - K + 1).
    assert (Hj0 : st <= j0 <= j /\ j < j0 + K /\ 0 <= j0 < ov
                  /\ gsStrips tg !! Z.to_nat (j0 + K - 1) = Some st).
    { unfold j0. destruct (Z.leb_spec j (st + K - 1)).
      - split; [lia|]. split; [lia|]. split; [lia|]. exact E2.
      - split; [lia|]. split; [lia|]. split; [lia|].
        replace (j - K + 1 + K - 1) with j by lia. exact E1. }
    clearbody j0. destruct Hj0 as (Hj01 & Hj02 & Hj03 & E0).
    destruct (thread_below cfg V P waves Hwf w k wave tv (j - j0) Hw Hk
                ltac:(fold n; rewrite Hn; fold ov;
                      set (b := threadIdInSubgroup (nggInputs tg) * ov);
                      assert (0 <= b) by (unfold b; nia); lia))
      as (wp & kp & wavep & tp & Hwp & Hkp & Ep).
    fold n in Ep. exists tp. split; [exact (in_waves waves wp kp wavep tp Hwp Hkp)|].
    destruct (thread_id cfg V P waves Hwf wp kp wavep tp Hwp Hkp) as [_ Htp].
    rewrite !andb_true_iff, Hlive, Z.leb_le, Z.ltb_lt.
    split; [split|]; [|lia|lia].
    rewrite (outPrimData_cell gs Hrs) by exact Htp.
    pose proof (primData_at_endGs_own wg kg waveg tg j0 lds Hwg Hkg Hvg Hj03) as Hown.
    cbv zeta in Hown. fold ov K ldsGs in Hown. rewrite E0 in Hown.
    destruct (Z.leb_spec st j0); [|lia].
    replace (threadIdInSubgroup (nggInputs tp))
      with (threadIdInSubgroup (nggInputs tg) * ov + j0) by (rewrite Ep, Hn; fold ov; lia).
    rewrite Hown.
    destruct (windingAt_values (j0 - st) ltac:(lia)) as [-> | ->]; reflexivity.
Qed.

End GsPhaseFacts.

(** A check of [gsWithinLimits] that can be run. *)
Definition gsWithinLimitsb {SF : ShaderFloats} (gs : GeometryInfo)
    (gsMain : Thread -> list GsMessage) (t : Thread) : bool :=
  ((threadIdInSubgroup (nggInputs t) + 1) * outputVertices gs <=? NggMaxThreadsPerSubgroup)
  && forallb messageStreamValid (gsMain t)
  && forallb (fun s => emitCount s (gsMain t) <=? outputVertices gs) (seqZ 0 MaxGsStreams).

Lemma gsWithinLimitsb_spec {SF : ShaderFloats} (gs : GeometryInfo)
    (gsMain : Thread -> list GsMessage) (waves : list (list Thread)) :
  forallb (fun t => implb (primValidInWave t) (gsWithinLimitsb gs gsMain t)) (concat waves)
  = true ->
  forall (w k : nat) (wave : list Thread) (t : Thread),
    waves !! w = Some wave -> wave !! k = Some t -> primValidInWave t = true ->
    gsWithinLimits gs gsMain t.
Proof.
  intros Hall w k wave t Hw Hk Hv.
  rewrite forallb_forall in Hall. specialize (Hall t (in_waves waves w k wave t Hw Hk)).
  rewrite Hv in Hall. cbn [implb] in Hall. unfold gsWithinLimitsb in Hall.
  rewrite !andb_true_iff in Hall. destruct Hall as [[H1 H2] H3].
  split; [now apply Z.leb_le|]. split; [exact H2|].
  intros s Hs. rewrite forallb_forall in H3. apply Z.leb_le, H3.
  apply list_elem_of_In, elem_of_seqZ. lia.
Qed.

(** *** A subgroup that runs a geometry shader (exact arithmetic) *)

(** Six GS invocations in the first wave; each has 6 output vertices, so
    that the subgroup has 36 output vertices and as many primitive slots. *)
Definition exampleGsRunGroupInfo : Z := Z.lor (Z.shiftl 36 22) (Z.shiftl 36 12).

Definition exampleGsRunWaveInfos : list Z := [Z.lor (Z.shiftl 6 8) 18; Z.shiftl 1 24].

Definition exampleGsRunThread (w l : nat) : Thread (SF := exactFloats) :=
  entryThread exampleGsConfig exampleGsRunGroupInfo (nth w exampleGsRunWaveInfos 0) l
    (exampleLane (0, 0, 0) exampleInside).

Definition exampleGsRunWave (w : nat) : list (Thread (SF := exactFloats)) :=
  entryWave exampleGsConfig exampleGsRunGroupInfo
    (nth w exampleGsRunWaveInfos 0, exampleWave [] [] 0).

Definition exampleGsRunSubgroup : list (list (Thread (SF := exactFloats))) :=
  [exampleGsRunWave 0; exampleGsRunWave 1].

(** Invocation 0 emits a strip of four vertices and one of two, invocation
    1 a strip of three vertices, invocation 2 a strip of two, the others
    nothing. *)
Definition exampleGsMain (t : Thread (SF := exactFloats)) : list GsMessage :=
  let threadId := threadIdInSubgroup (nggInputs t) in
  if threadId =? 0 then exampleGsCalls
  else if threadId =? 1 then [GsEmitStream 0; GsEmitStream 0; GsEmitStream 0; GsDone]
  else if threadId =? 2 then [GsEmitStream 0; GsEmitStream 0; GsDone]
  else [GsDone].

(** The pipeline of [exampleGsConfig] without culling. *)
Definition exampleGsConfigNoCulling : ShaderConfig :=
  let c := exampleGsConfig in
  {| waveSize := waveSize c;
     pipelineState :=
       {| hasGs := true; hasTes := false; enableSwXfb := false; passthroughMode := true;
          compactVertex := true; vsPrimitiveId := false;
          calcFactor := calcFactor exampleGsState |};
     nggControl := nggControl c;
     cbLayoutTable := cbLayoutTable c;
     builtInUsage := builtInUsage c;
     xfbOutputExpCount := xfbOutputExpCount c;
     waNggCullingNoEmptySubgroups := waNggCullingNoEmptySubgroups c;
     constPositionZ := constPositionZ c;
     NggSmallSubgroupThreshold := NggSmallSubgroupThreshold c;
     provokingVertexFirst := provokingVertexFirst c;
     streamOut := streamOut c |}.

Lemma gs_primitive_data_at_end_of_gs_witness :
  let ldsGs := ldsAtEndGs (SF := exactFloats) exampleGsConfig exampleGeometry [0; 0; 0; 0]
                 exampleGsMain exampleGsRunSubgroup ∅ in
  map (outPrimData exampleGeometry ldsGs) [1; 2; 20] = [1; NullPrim; NullPrim].
Proof.
  intros ldsGs.
  pose proof (fun k t Hk HP =>
                gs_primitive_data_at_end_of_gs (SF := exactFloats) exampleGsConfig
                  exampleGeometry [0; 0; 0; 0] exampleGsMain 36 36 exampleGsRunSubgroup
                  ltac:(vm_compute; reflexivity)
                  ltac:(unfold exampleGeometry, MaxGsStreams; cbn; lia)
                  eq_refl
                  ltac:(unfold exampleGeometry; cbn; lia)
                  (gsWithinLimitsb_spec exampleGeometry exampleGsMain exampleGsRunSubgroup
                     ltac:(vm_compute; reflexivity))
                  ∅ 0%nat k (exampleGsRunWave 0) t eq_refl Hk HP) as H.
  cbv zeta in H. fold ldsGs in H. cbn [map].
  apply (f_equal2 cons); [|apply (f_equal2 cons); [|apply (f_equal2 cons); [|reflexivity]]].
  - destruct (H 1%nat (exampleGsRunThread 0 1) eq_refl ltac:(vm_compute; reflexivity))
      as [Hown _].
    exact (Hown 0%nat 0%nat (exampleGsRunWave 0) (exampleGsRunThread 0 0) 1 eq_refl eq_refl
             ltac:(vm_compute; reflexivity) ltac:(unfold exampleGeometry; cbn; lia)
             ltac:(vm_compute; reflexivity)).
  - destruct (H 2%nat (exampleGsRunThread 0 2) eq_refl ltac:(vm_compute; reflexivity))
      as [Hown _].
    exact (Hown 0%nat 0%nat (exampleGsRunWave 0) (exampleGsRunThread 0 0) 2 eq_refl eq_refl
             ltac:(vm_compute; reflexivity) ltac:(unfold exampleGeometry; cbn; lia)
             ltac:(vm_compute; reflexivity)).
  - destruct (H 20%nat (exampleGsRunThread 0 20) eq_refl ltac:(vm_compute; reflexivity))
      as [Hown _].
    exact (Hown 0%nat 3%nat (exampleGsRunWave 0) (exampleGsRunThread 0 3) 2 eq_refl eq_refl
             ltac:(vm_compute; reflexivity) ltac:(unfold exampleGeometry; cbn; lia)
             ltac:(vm_compute; reflexivity)).
Defined.

Lemma gs_vertex_drawn_iff_strip_complete_witness :
  let ldsGs := ldsAtEndGs (SF := exactFloats) exampleGsConfigNoCulling exampleGeometry
                 [0; 0; 0; 0] exampleGsMain exampleGsRunSubgroup ∅ in
  outVertDrawFlag exampleGeometry
    (ldsAtEndOutCulling (SF := exactFloats) exampleGsConfigNoCulling exampleGeometry
       exampleGsLocations examplePrimShaderTable exampleGsRunSubgroup ldsGs)
    (exampleGsRunThread 0 8) = true.
Proof.
  intros ldsGs.
  apply (proj2 (gs_vertex_drawn_iff_strip_complete (SF := exactFloats)
                  exampleGsConfigNoCulling exampleGeometry [0; 0; 0; 0] exampleGsMain 36 36
                  exampleGsRunSubgroup
                  ltac:(vm_compute; reflexivity)
                  ltac:(unfold exampleGeometry, MaxGsStreams; cbn; lia)
                  eq_refl
                  ltac:(unfold exampleGeometry; cbn; lia)
                  (gsWithinLimitsb_spec exampleGeometry exampleGsMain exampleGsRunSubgroup
                     ltac:(vm_compute; reflexivity))
                  exampleGsLocations examplePrimShaderTable
                  ltac:(unfold exampleGeometry; cbn; lia)
                  eq_refl
                  ltac:(lia)
                  ∅ 0%nat 8%nat (exampleGsRunWave 0) (exampleGsRunThread 0 8)
                  eq_refl eq_refl)).
  split; [vm_compute; reflexivity|].
  exists 0%nat, 1%nat, (exampleGsRunWave 0), (exampleGsRunThread 0 1), 2, 0.
  split; [reflexivity|]. split; [reflexivity|]. split; [vm_compute; reflexivity|].
  split; [unfold exampleGeometry; cbn; lia|]. split; [vm_compute; reflexivity|].
  split; vm_compute; reflexivity.
Defined.

(** ** The data of the transform feedback stores *)

Lemma map_nth_seq (l : list Z) : map (fun k => nth k l 0) (seq 0 (length l)) = l.
Proof.
  apply (nth_ext _ _ 0 0).
  - now rewrite length_map, length_seq.
  - intros n Hn. rewrite length_map, length_seq in Hn.
    rewrite (nth_indep _ 0 (nth 0 l 0)) by now rewrite length_map, length_seq.
    rewrite (map_nth (fun k => nth k l 0)), seq_nth by exact Hn. reflexivity.
Qed.

(** [.prepareXfbExport] writes the statistics only. *)
Lemma prepareXfbExport_other_region (info : StreamOutInfo) (ngg : NggInputs)
    (gds gds' : gmap Z Z) (lds lds' : gmap (PrimShaderLdsRegion * Z) Z)
    (r : PrimShaderLdsRegion) (o : Z) :
  prepareXfbExport info ngg (gds, lds) = Some (gds', lds') -> r <> XfbStats ->
  readValueFromLds lds' r o = readValueFromLds lds r o.
Proof.
  unfold prepareXfbExport. intros H Hr.
  destruct (calcNumPrimsToWrite info gds (primCountInSubgroup ngg)) as [n|]; [|discriminate].
  destruct (incrementDwordsWritten info n gds) as [ws gds1]. injection H as _ <-.
  rewrite (foldl_cell_keep (fun l (e : nat * Z) =>
                              writeValueToLds (snd e) XfbStats (Z.of_nat (fst e)) l)).
  - apply read_write_other. intros [=]. congruence.
  - intros e _ l. apply read_write_other. intros [=]. congruence.
Qed.

Lemma prepare_fold_other_region (info : StreamOutInfo)
    (threads : list (NggInputs * list (list Z))) (r : PrimShaderLdsRegion) (o : Z) :
  r <> XfbStats ->
  forall (gds gds' : gmap Z Z) (lds lds' : gmap (PrimShaderLdsRegion * Z) Z),
    foldl (fun acc t =>
             match acc with
             | None => None
             | Some s =>
                 if CreateICmpEQ (threadIdInSubgroup (fst t)) 0
                 then prepareXfbExport info (fst t) s else Some s
             end) (Some (gds, lds)) threads = Some (gds', lds') ->
    readValueFromLds lds' r o = readValueFromLds lds r o.
Proof.
  intros Hr. induction threads as [|t threads IH]; intros gds gds' lds lds' H; cbn [foldl] in H.
  - now injection H as _ <-.
  - destruct (CreateICmpEQ (threadIdInSubgroup (fst t)) 0); [|exact (IH _ _ _ _ H)].
    destruct (prepareXfbExport info (fst t) (gds, lds)) as [[gds1 lds1]|] eqn:Hp.
    + rewrite (IH _ _ _ _ H). exact (prepareXfbExport_other_region _ _ _ _ _ _ r o Hp Hr).
    + exfalso. clear -H. induction threads as [|t' threads IH']; [discriminate|].
      cbn [foldl] in H. exact (IH' H).
Qed.

Section XfbData.
Variable passthroughMode : bool.
Variable esGsRingItemSize : Z.
Variable xfbOutputsOffset : Z.
Variable info : StreamOutInfo.
Variable V : Z.

(** The region and the offset in a vertex item where the outputs start. *)
Definition xfbOutputRegion : PrimShaderLdsRegion :=
  if passthroughMode then XfbOutput else VertexCullInfo.

Definition xfbOutputStart : Z := if passthroughMode then 0 else xfbOutputsOffset.

(** Every output has its four dwords inside the item of its vertex, and the
    items of the subgroup's vertices are addressed without wrap-around. *)
Definition xfbOutputsFit : Prop :=
  0 <= V < 2 ^ 32
  /\ 0 <= xfbOutputStart
  /\ xfbOutputStart + 4 * Z.of_nat (length (xfbOutputExports info)) <= esGsRingItemSize
  /\ V * esGsRingItemSize <= 2 ^ 32.

Hypothesis Hfit : xfbOutputsFit.

Definition xfbOutputOffset (v : Z) (j : nat) : Z :=
  v * esGsRingItemSize + xfbOutputStart + 4 * Z.of_nat j.

Lemma xfbOutputLdsCell_eq (v : Z) (j : nat) :
  0 <= v < V -> (j < length (xfbOutputExports info))%nat ->
  xfbOutputLdsCell passthroughMode esGsRingItemSize xfbOutputsOffset v j
  = (xfbOutputRegion, xfbOutputOffset v j).
Proof.
  intros Hv Hj. destruct Hfit as (HV & H0 & H1 & H2).
  assert (Hsz : 0 <= esGsRingItemSize) by lia.
  assert (Hb : 0 <= v * esGsRingItemSize /\ v * esGsRingItemSize + esGsRingItemSize <= 2 ^ 32)
    by nia.
  change (2 ^ 32) with 4294967296 in *.
  assert (W : forall z, 0 <= z < 4294967296 -> wrap32 z = z)
    by (intros z Hz; apply wrap32_small; change (2 ^ 32) with 4294967296; lia).
  unfold xfbOutputLdsCell, xfbOutputOffset, xfbOutputRegion, xfbOutputStart,
    CreateMul, CreateAdd in *.
  set (b := v * esGsRingItemSize) in *. clearbody b.
  destruct passthroughMode.
  - rewrite (W b), (W (4 * Z.of_nat j)), (W (b + 4 * Z.of_nat j)) by lia. f_equal. lia.
  - rewrite (W b), (W (xfbOutputsOffset + 4 * Z.of_nat j)),
      (W (b + (xfbOutputsOffset + 4 * Z.of_nat j))) by lia.
    f_equal. lia.
Qed.

(** The outputs of two vertices do not overlap. *)
Lemma xfbOutputOffset_disjoint (v v' : Z) (j j' : nat) (k k' : Z) :
  0 <= v -> 0 <= v' -> v <> v' ->
  (j < length (xfbOutputExports info))%nat -> (j' < length (xfbOutputExports info))%nat ->
  0 <= k < 4 -> 0 <= k' < 4 ->
  xfbOutputOffset v j + k <> xfbOutputOffset v' j' + k'.
Proof.
  intros Hv Hv' Hne Hj Hj' Hk Hk'. destruct Hfit as (_ & H0 & H1 & _).
  unfold xfbOutputOffset.
  set (n := Z.of_nat (length (xfbOutputExports info))) in *.
  assert (Hjn : Z.of_nat j < n /\ Z.of_nat j' < n) by (unfold n; lia).
  clearbody n. nia.
Qed.

Variable threads : list (NggInputs * list (list Z)).

Hypothesis Hthreads : forall (i : nat) (t : NggInputs * list (list Z)),
  threads !! i = Some t ->
  threadIdInSubgroup (fst t) = Z.of_nat i /\ vertCountInSubgroup (fst t) = V
  /\ (length (snd t) <= length (xfbOutputExports info))%nat.

Hypothesis Hcount : Z.of_nat (length threads) <= 2 ^ 32.

Hypothesis Hdwords : forall (i j : nat) (t : NggInputs * list (list Z)) (val : list Z),
  threads !! i = Some t -> snd t !! j = Some val -> (length val <= 4)%nat.

(** [.fetchXfbOutput] of an invocation as writes to cells. *)
Lemma fetchXfbOutputBlock_writes (i : nat) (t : NggInputs * list (list Z))
    (lds : gmap (PrimShaderLdsRegion * Z) Z) :
  threads !! i = Some t ->
  fetchXfbOutputBlock passthroughMode esGsRingItemSize xfbOutputsOffset (fst t) (snd t) lds
  = if Z.of_nat i <? V
    then foldl (fun l (e : nat * list Z) =>
                  writeDwordsToLds (snd e) (xfbOutputRegion, xfbOutputOffset (Z.of_nat i) (fst e))
                    l)
               lds (imap (fun j v => (j, v)) (snd t))
    else lds.
Proof.
  intros Hi. destruct (Hthreads i t Hi) as (Htid & HV & Hlen).
  destruct Hfit as (HVb & _).
  unfold fetchXfbOutputBlock. rewrite Htid, HV. unfold CreateICmpULT.
  destruct (Z.ltb_spec (Z.of_nat i) V) as [Hlt|Hge].
  - rewrite !wrap32_small by lia. destruct (Z.ltb_spec (Z.of_nat i) V); [|lia].
    generalize lds. clear lds.
    assert (Hall : forall e, In e (imap (fun j v => (j, v)) (snd t)) ->
              (fst e < length (xfbOutputExports info))%nat).
    { intros e He. apply list_elem_of_In, elem_of_lookup_imap in He as (j & v & -> & Hj).
      apply lookup_lt_Some in Hj. cbn [fst]. lia. }
    induction (imap (fun j v => (j, v)) (snd t)) as [|e es IH]; intros lds; [reflexivity|].
    cbn [foldl]. rewrite (xfbOutputLdsCell_eq (Z.of_nat i) (fst e)) by
      (try lia; apply Hall; now left).
    apply IH. intros e' He'. apply Hall. now right.
  - destruct (Z.ltb_spec (wrap32 (Z.of_nat i)) (wrap32 V)) as [Hw|]; [|reflexivity].
    exfalso. apply lookup_lt_Some in Hi.
    rewrite (wrap32_small V), (wrap32_small (Z.of_nat i)) in Hw by lia. lia.
Qed.

(** The fetch of another vertex leaves the outputs of vertex [v] alone. *)
Lemma fetchXfbOutputBlock_other (i : nat) (t : NggInputs * list (list Z)) (v : Z) (j : nat)
    (k : Z) (lds : gmap (PrimShaderLdsRegion * Z) Z) :
  threads !! i = Some t -> Z.of_nat i <> v -> 0 <= v ->
  (j < length (xfbOutputExports info))%nat -> 0 <= k < 4 ->
  readValueFromLds
    (fetchXfbOutputBlock passthroughMode esGsRingItemSize xfbOutputsOffset (fst t) (snd t) lds)
    xfbOutputRegion (xfbOutputOffset v j + k)
  = readValueFromLds lds xfbOutputRegion (xfbOutputOffset v j + k).
Proof.
  intros Hi Hne Hv Hj Hk. destruct (Hthreads i t Hi) as (_ & _ & Hlen).
  rewrite (fetchXfbOutputBlock_writes i t lds Hi).
  destruct (Z.of_nat i <? V); [|reflexivity].
  apply (foldl_cell_keep (fun l (e : nat * list Z) =>
                            writeDwordsToLds (snd e)
                              (xfbOutputRegion, xfbOutputOffset (Z.of_nat i) (fst e)) l)).
  intros e He l. apply list_elem_of_In, elem_of_lookup_imap in He as (j' & val' & -> & Hj').
  cbn [fst snd]. rewrite read_writeDwords.
  pose proof (Hdwords i j' t val' Hi Hj') as Hl. apply lookup_lt_Some in Hj'.
  destruct (Z.leb_spec (xfbOutputOffset (Z.of_nat i) j') (xfbOutputOffset v j + k));
    [|reflexivity].
  destruct (Z.ltb_spec (xfbOutputOffset v j + k)
                       (xfbOutputOffset (Z.of_nat i) j' + Z.of_nat (length val')));
    [|reflexivity].
  exfalso.
  apply (xfbOutputOffset_disjoint v (Z.of_nat i) j j' k
           (xfbOutputOffset v j + k - xfbOutputOffset (Z.of_nat i) j')); lia.
Qed.

(** The fetch of vertex [v] writes its outputs. *)
Lemma fetchXfbOutputBlock_own (v : nat) (t : NggInputs * list (list Z)) (j : nat)
    (val : list Z) (k : nat) (lds : gmap (PrimShaderLdsRegion * Z) Z) :
  threads !! v = Some t -> Z.of_nat v < V -> snd t !! j = Some val -> (k < length val)%nat ->
  readValueFromLds
    (fetchXfbOutputBlock passthroughMode esGsRingItemSize xfbOutputsOffset (fst t) (snd t) lds)
    xfbOutputRegion (xfbOutputOffset (Z.of_nat v) j + Z.of_nat k)
  = nth k val 0.
Proof.
  intros Hv HV Hj Hk. rewrite (fetchXfbOutputBlock_writes v t lds Hv).
  destruct (Z.ltb_spec (Z.of_nat v) V); [|lia].
  pose proof (Hdwords v j t val Hv Hj) as Hl.
  apply (foldl_cell_set (fun l (e : nat * list Z) =>
                           writeDwordsToLds (snd e)
                             (xfbOutputRegion, xfbOutputOffset (Z.of_nat v) (fst e)) l)).
  - intros e He. apply list_elem_of_In, elem_of_lookup_imap in He as (j' & val' & -> & Hj').
    cbn [fst snd]. destruct (Nat.eq_dec j' j) as [->|Hne].
    + left. intros l. rewrite Hj in Hj'. injection Hj' as <-. rewrite read_writeDwords.
      destruct (Z.leb_spec (xfbOutputOffset (Z.of_nat v) j)
                           (xfbOutputOffset (Z.of_nat v) j + Z.of_nat k)); [|lia].
      destruct (Z.ltb_spec (xfbOutputOffset (Z.of_nat v) j + Z.of_nat k)
                           (xfbOutputOffset (Z.of_nat v) j + Z.of_nat (length val))); [|lia].
      cbn [andb]. f_equal. lia.
    + right. intros l. rewrite read_writeDwords.
      pose proof (Hdwords v j' t val' Hv Hj') as Hl'.
      unfold xfbOutputOffset.
      destruct (Z.leb_spec (Z.of_nat v * esGsRingItemSize + xfbOutputStart + 4 * Z.of_nat j')
                  (Z.of_nat v * esGsRingItemSize + xfbOutputStart + 4 * Z.of_nat j
                   + Z.of_nat k)); [|reflexivity].
      destruct (Z.ltb_spec (Z.of_nat v * esGsRingItemSize + xfbOutputStart + 4 * Z.of_nat j
                            + Z.of_nat k)
                  (Z.of_nat v * esGsRingItemSize + xfbOutputStart + 4 * Z.of_nat j'
                   + Z.of_nat (length val'))); [|reflexivity].
      lia.
  - right. exists (j, val). split.
    + apply list_elem_of_In, elem_of_lookup_imap. exists j, val. split; [reflexivity|exact Hj].
    + intros l. cbn [fst snd]. rewrite read_writeDwords.
      destruct (Z.leb_spec (xfbOutputOffset (Z.of_nat v) j)
                           (xfbOutputOffset (Z.of_nat v) j + Z.of_nat k)); [|lia].
      destruct (Z.ltb_spec (xfbOutputOffset (Z.of_nat v) j + Z.of_nat k)
                           (xfbOutputOffset (Z.of_nat v) j + Z.of_nat (length val))); [|lia].
      cbn [andb]. f_equal. lia.
Qed.

(** The outputs of a vertex in the memory when every invocation has done
    [.fetchXfbOutput]. *)
Lemma xfbOutput_after_fetch (v : nat) (tv : NggInputs * list (list Z)) (j : nat)
    (val : list Z) (lds : gmap (PrimShaderLdsRegion * Z) Z) :
  threads !! v = Some tv -> Z.of_nat v < V -> snd tv !! j = Some val ->
  readDwordsFromLds
    (foldl (fun l t => fetchXfbOutputBlock passthroughMode esGsRingItemSize xfbOutputsOffset
                         (fst t) (snd t) l) lds threads)
    (Z.of_nat (length val)) (xfbOutputRegion, xfbOutputOffset (Z.of_nat v) j)
  = val.
Proof.
  intros Hv HV Hj. destruct (Hthreads v tv Hv) as (_ & _ & Hlen).
  pose proof (Hdwords v j tv val Hv Hj) as Hl.
  pose proof (lookup_lt_Some _ _ _ Hj) as Hjn.
  unfold readDwordsFromLds. cbn [fst snd]. rewrite Nat2Z.id.
  rewrite <- (map_nth_seq val) at 2. apply map_ext_in. intros k Hk. apply in_seq in Hk.
  apply (foldl_cell_set (fun l t => fetchXfbOutputBlock passthroughMode esGsRingItemSize
                                      xfbOutputsOffset (fst t) (snd t) l)).
  - intros t Ht. apply list_elem_of_In, list_elem_of_lookup_1 in Ht as [i Hi].
    destruct (Nat.eq_dec i v) as [->|Hne].
    + left. intros l. rewrite Hv in Hi. injection Hi as <-.
      apply (fetchXfbOutputBlock_own v tv j val k l Hv HV Hj). lia.
    + right. intros l.
      apply (fetchXfbOutputBlock_other i t (Z.of_nat v) j (Z.of_nat k) l Hi); lia.
  - right. exists tv. split.
    + apply list_elem_of_In. eapply list_elem_of_lookup_2. exact Hv.
    + intros l. apply (fetchXfbOutputBlock_own v tv j val k l Hv HV Hj). lia.
Qed.

(** The transform feedback stores carry the outputs of the vertices.  When
    the emulator returns, an invocation's stores are those of
    [.exportXfbOutput] on the memory it returns, and the data that these
    store for output [j] of the vertex with relative index [v] are the
    dwords that the invocation with thread ID [v] fetched for its output
    [j], each cut to 16 bits for a 16-bit output. *)
Theorem xfb_stores_carry_vertex_outputs (gds gds' : gmap Z Z)
    (lds lds' : gmap (PrimShaderLdsRegion * Z) Z) (stores : list (list XfbStore)) :
  processSwXfb passthroughMode esGsRingItemSize xfbOutputsOffset info threads (gds, lds)
  = Some (gds', lds', stores) ->
  (forall (p : nat) (tp : NggInputs * list (list Z)),
     threads !! p = Some tp ->
     stores !! p
     = Some (exportXfbOutputBlock passthroughMode esGsRingItemSize xfbOutputsOffset info lds'
               (fst tp)))
  /\ forall (v : nat) (tv : NggInputs * list (list Z)) (j : nat) (e : XfbOutputExport)
       (val : list Z) (ngg : NggInputs) (i : nat),
       threads !! v = Some tv -> Z.of_nat v < V ->
       xfbOutputExports info !! j = Some e -> snd tv !! j = Some val ->
       Z.of_nat (length val) = numElements e ->
       concat (map store_vdata
                 (exportOneXfbOutput passthroughMode esGsRingItemSize xfbOutputsOffset info lds'
                    ngg i (Z.of_nat v) j e))
       = if is16bit e then map (fun d => Z.land d (Z.ones 16)) val else val.
Proof.
  unfold processSwXfb. intros H.
  set (ldsF := foldl (fun l t => fetchXfbOutputBlock passthroughMode esGsRingItemSize
                                   xfbOutputsOffset (fst t) (snd t) l) lds threads) in H.
  destruct (foldl _ (Some (gds, ldsF)) threads) as [[gds1 lds1]|] eqn:Hprep; [|discriminate].
  injection H as <- <- <-. split.
  - intros p tp Hp. rewrite list_lookup_fmap, Hp. reflexivity.
  - intros v tv j e val ngg i Hv HV He Hj Hlen.
    destruct Hfit as (HVb & _).
    pose proof (lookup_lt_Some _ _ _ He) as Hjn.
    assert (Hread : readDwordsFromLds lds1 (numElements e)
                      (xfbOutputLdsCell passthroughMode esGsRingItemSize xfbOutputsOffset
                         (Z.of_nat v) j) = val).
    { rewrite (xfbOutputLdsCell_eq (Z.of_nat v) j) by lia.
      rewrite <- Hlen.
      etransitivity; [|exact (xfbOutput_after_fetch v tv j val lds Hv HV Hj)]. fold ldsF.
      unfold readDwordsFromLds. apply map_ext. intros k. cbn [fst snd].
      apply (prepare_fold_other_region info threads xfbOutputRegion _
               ltac:(unfold xfbOutputRegion; destruct passthroughMode; discriminate)
               gds gds1 ldsF lds1 Hprep). }
    unfold exportOneXfbOutput. rewrite Hread.
    set (m := if is16bit e then map (fun d => Z.land d (Z.ones 16)) val else val).
    assert (Hm : length m = length val) by (unfold m; destruct (is16bit e);
                                            [apply length_map|reflexivity]).
    destruct (is16bit e && (numElements e =? 3)) eqn:Hsplit.
    + apply andb_true_iff in Hsplit as [_ H3]. apply Z.eqb_eq in H3.
      cbn [map concat store_vdata]. rewrite app_nil_r.
      assert (H3' : length m = 3%nat) by lia.
      destruct m as [|a [|b [|c [|d m]]]]; try discriminate. reflexivity.
    + cbn [map concat store_vdata]. apply app_nil_r.
Qed.

End XfbData.

(** *** Vertices with different outputs *)

Definition exampleXfbDataThread (lane : nat) : NggInputs * list (list Z) :=
  (initWaveThreadInfo 32 (Z.lor (Z.shiftl 8 22) (Z.shiftl 10 12)) (Z.lor (Z.shiftl 8 8) 10)
                      (Z.of_nat lane) (Z.of_nat lane) (Z.of_nat lane + 1) (Z.of_nat lane + 2) 0,
   [map (fun c => 10 * Z.of_nat lane + c) [1; 2; 3; 4]]).

Lemma xfb_stores_carry_vertex_outputs_witness :
  exists gds' lds' stores,
    processSwXfb false 5 0 exampleStreamOut (map exampleXfbDataThread (seq 0 10)) (exampleGds, ∅)
    = Some (gds', lds', stores)
    /\ forall e, xfbOutputExports exampleStreamOut !! 0%nat = Some e ->
         concat (map store_vdata
                   (exportOneXfbOutput false 5 0 exampleStreamOut lds'
                      (fst (exampleXfbDataThread 0)) 2 2 0 e))
         = [21; 22; 23; 24].
Proof.
  assert (Hsome : match processSwXfb false 5 0 exampleStreamOut
                          (map exampleXfbDataThread (seq 0 10)) (exampleGds, ∅) with
                  | Some _ => true
                  | None => false
                  end = true) by (vm_compute; reflexivity).
  destruct (processSwXfb false 5 0 exampleStreamOut (map exampleXfbDataThread (seq 0 10))
              (exampleGds, ∅)) as [[[gds' lds'] stores]|] eqn:Hrun; [|discriminate Hsome].
  exists gds', lds', stores. split; [reflexivity|]. intros e He.
  assert (Hthreads : forall (i : nat) (t : NggInputs * list (list Z)),
            map exampleXfbDataThread (seq 0 10) !! i = Some t ->
            threadIdInSubgroup (fst t) = Z.of_nat i /\ vertCountInSubgroup (fst t) = 10
            /\ (length (snd t) <= length (xfbOutputExports exampleStreamOut))%nat).
  { intros i t Hi. rewrite list_lookup_fmap in Hi.
    destruct (seq 0 10 !! i) as [l|] eqn:Hl; [|discriminate]. cbn in Hi. injection Hi as <-.
    apply lookup_seq in Hl as [-> Hlt]. cbn [plus].
    do 10 (destruct i as [|i]; [vm_compute; repeat split; lia|]). lia. }
  assert (Hdwords : forall (i j : nat) (t : NggInputs * list (list Z)) (val : list Z),
            map exampleXfbDataThread (seq 0 10) !! i = Some t -> snd t !! j = Some val ->
            (length val <= 4)%nat).
  { intros i j t val Hi Hj. rewrite list_lookup_fmap in Hi.
    destruct (seq 0 10 !! i) as [l|]; [|discriminate]. cbn in Hi. injection Hi as <-.
    destruct j as [|j]; [|discriminate]. cbn in Hj. injection Hj as <-. cbn. lia. }
  destruct (xfb_stores_carry_vertex_outputs false 5 0 exampleStreamOut 10
              ltac:(vm_compute; repeat split; discriminate)
              (map exampleXfbDataThread (seq 0 10)) Hthreads
              ltac:(vm_compute; discriminate) Hdwords
              exampleGds gds' ∅ lds' stores Hrun) as [_ Hdata].
  pose proof (Hdata 2%nat (exampleXfbDataThread 2) 0%nat e [21; 22; 23; 24]
                (fst (exampleXfbDataThread 0)) 2%nat eq_refl ltac:(lia) He eq_refl) as H.
  cbn in He. injection He as <-. exact (H eq_refl).
Defined.

(** ** The bit fields of [createUBfe] *)

(** [createUBfe] extracts the bit field.  For a 32-bit value and a field
    that the assertion of the function admits, the result is the field
    [offset .. offset + count - 1] of the value, moved to bit 0: bit [i] of
    the result is bit [offset + i] of the value for [i < count], and no
    higher bit is set. *)
Theorem createUBfe_extracts_bit_field (value offset count : Z) :
  0 <= value < 2 ^ 32 ->
  0 <= offset <= 31 -> 1 <= count -> offset + count - 1 <= 31 ->
  createUBfe value offset count = (value / 2 ^ offset) mod 2 ^ count
  /\ forall i, 0 <= i ->
       Z.testbit (createUBfe value offset count) i
       = (i <? count) && Z.testbit value (offset + i).
Proof.
  intros Hv Ho Hc Hoc.
  assert (E : createUBfe value offset count = (value / 2 ^ offset) mod 2 ^ count).
  { destruct (Z.eq_dec count 32) as [->|Hn].
    - assert (offset = 0) as -> by lia. unfold createUBfe. cbn [Z.eqb Pos.eqb].
      change (2 ^ 0) with 1. rewrite Z.div_1_r. symmetry. apply Z.mod_small. exact Hv.
    - destruct (Z.eq_dec offset 0) as [->|Hno].
      + rewrite createUBfe_low by lia. change (2 ^ 0) with 1. now rewrite Z.div_1_r.
      + apply createUBfe_field; lia. }
  split; [exact E|]. intros i Hi. rewrite E.
  destruct (Z.ltb_spec i count) as [Hlt|Hge]; cbn [andb].
  - rewrite Z.mod_pow2_bits_low by lia. rewrite Z.div_pow2_bits by lia.
    f_equal. lia.
  - apply Z.mod_pow2_bits_high. lia.
Qed.

Lemma createUBfe_extracts_bit_field_witness :
  let mergedGroupInfo := Z.lor (Z.shiftl 36 22) (Z.lor (Z.shiftl 40 12) 7) in
  createUBfe mergedGroupInfo 22 9 = 36 /\ createUBfe mergedGroupInfo 12 9 = 40
  /\ createUBfe mergedGroupInfo 0 12 = 7.
Proof.
  intros mergedGroupInfo.
  assert (Hv : 0 <= mergedGroupInfo < 2 ^ 32) by (vm_compute; split; [discriminate|reflexivity]).
  split; [|split].
  - rewrite (proj1 (createUBfe_extracts_bit_field mergedGroupInfo 22 9 Hv
                      ltac:(lia) ltac:(lia) ltac:(lia))). reflexivity.
  - rewrite (proj1 (createUBfe_extracts_bit_field mergedGroupInfo 12 9 Hv
                      ltac:(lia) ltac:(lia) ltac:(lia))). reflexivity.
  - rewrite (proj1 (createUBfe_extracts_bit_field mergedGroupInfo 0 12 Hv
                      ltac:(lia) ltac:(lia) ltac:(lia))). reflexivity.
Defined.
